(** * mini_sqlite_python: a shallow embedding of the storage core.

    The development follows the layering of the Python package:

    - [Pager]        core/storage/pager.py     (fixed-size pages in one file)
    - [BTreeStorage] core/storage/btree.py     (tables, rows, hash indexes, joins)
    - [LSMTreeStorage] core/storage/lsm_tree.py (commit log)
    - [SQLParser]    core/parser.py
    - [SQLExecutor]  core/executor.py
    - [DatabaseEngine] core/engine.py

    Python objects that are mutated in place and shared (the row dictionaries
    held both by a table's row list and by its hash indexes) live in an explicit
    store and are referred to by address.  Python exceptions are results of an
    explicit state-and-exception monad: a computation that raises still hands
    back the state it had reached, as the interpreter does. *)

From Stdlib Require Import String Ascii ZArith Lia Bool Arith List.
From Stdlib Require Import Init.Byte.
From Stdlib Require Import DecimalString.
From Stdlib Require DecimalPos DecimalZ DecimalFacts DecimalN.
Import ListNotations.

Set Implicit Arguments.
Unset Strict Implicit.

(** ** Exceptions and the state-and-exception monad *)

Inductive exn : Type :=
| IndexError
| KeyError (key : string)
| ValueError
| TypeError
| SyntaxError
| ZeroDivisionError
| OverflowError
| UnicodeDecodeError
| JSONDecodeError
| Unsupported.   (* input outside the modelled fragment of a Python library *)

Inductive Res (S A : Type) : Type :=
| Ok (a : A) (s : S)
| Raise (e : exn) (s : S).
Arguments Ok {S A} a s.
Arguments Raise {S A} e s.

Definition M (S A : Type) : Type := S -> Res S A.

Definition ret {S A} (a : A) : M S A := fun s => Ok a s.
Definition raise {S A} (e : exn) : M S A := fun s => Raise e s.
Definition bind {S A B} (m : M S A) (k : A -> M S B) : M S B :=
  fun s => match m s with
           | Ok a s' => k a s'
           | Raise e s' => Raise e s'
           end.
Definition get {S} : M S S := fun s => Ok s s.
Definition put {S} (s : S) : M S unit := fun _ => Ok tt s.
Definition modify {S} (f : S -> S) : M S unit := fun s => Ok tt (f s).

Declare Scope monad_scope.
Delimit Scope monad_scope with monad.
Notation "x <- m ;; k" := (bind m (fun x => k))
  (at level 61, m at next level, right associativity) : monad_scope.
Notation "m ;;; k" := (bind m (fun _ => k))
  (at level 61, right associativity) : monad_scope.

(** The state a computation leaves behind, whether it returned or raised. *)
Definition state_of {S A} (r : Res S A) : S :=
  match r with Ok _ s => s | Raise _ s => s end.

Definition returns {S A} (r : Res S A) : bool :=
  match r with Ok _ _ => true | Raise _ _ => false end.

(** Exceptions without state: pure helpers of the parser. *)
Inductive result (A : Type) : Type :=
| Val (a : A)
| Exn (e : exn).
Arguments Val {A} a.
Arguments Exn {A} e.

Definition rbind {A B} (r : result A) (k : A -> result B) : result B :=
  match r with Val a => k a | Exn e => Exn e end.

Definition lift_result {S A} (r : result A) : M S A :=
  fun s => match r with Val a => Ok a s | Exn e => Raise e s end.

(** ** Byte strings *)

Definition bytes := list byte.

Definition byte_of_Z (z : Z) : byte :=
  match Byte.of_N (Z.to_N z) with Some b => b | None => x00 end.

Definition Z_of_byte (b : byte) : Z := Z.of_N (Byte.to_N b).

(** [int.to_bytes(n, "little")]: raises OverflowError when the integer is
    negative or does not fit. *)
Fixpoint le_digits (n : nat) (z : Z) : bytes :=
  match n with
  | O => []
  | S k => byte_of_Z (z mod 256) :: le_digits k (z / 256)
  end.

Definition to_bytes_little (n : nat) (z : Z) : result bytes :=
  if ((0 <=? z) && (z <? 256 ^ Z.of_nat n))%Z then Val (le_digits n z)
  else Exn OverflowError.

(** [int.from_bytes(b, "little")] *)
Fixpoint from_bytes_little (b : bytes) : Z :=
  match b with
  | [] => 0
  | x :: r => Z_of_byte x + 256 * from_bytes_little r
  end.

(** [data.ljust(width, b"\x00")] *)
Definition ljust (data : bytes) (width : Z) : bytes :=
  data ++ repeat x00 (Z.to_nat (width - Z.of_nat (length data))).

(** [data[lo:hi]] for non-negative bounds *)
Definition slice {A} (l : list A) (lo hi : nat) : list A :=
  firstn (hi - lo) (skipn lo l).

(** [[buffer[i : i + step] for i in range(0, len(buffer), step)]] for a
    positive step: the offsets 0, step, 2*step, ... below the length. *)
Fixpoint slices_from {A} (fuel step : nat) (l : list A) : list (list A) :=
  match fuel with
  | O => []
  | S f =>
      match l with
      | [] => []
      | _ => firstn step l :: slices_from f step (skipn step l)
      end
  end.

Definition slices {A} (step : nat) (l : list A) : list (list A) :=
  slices_from (length l) step l.

Fixpoint starts_with (prefix l : bytes) : bool :=
  match prefix, l with
  | [], _ => true
  | p :: ps, x :: xs => Byte.eqb p x && starts_with ps xs
  | _ :: _, [] => false
  end.

(** [l[i]] for a Python index: a negative index counts from the end; [None]
    when the index is out of range (IndexError). *)
Definition py_index {A} (l : list A) (i : Z) : option nat :=
  let n := Z.of_nat (length l) in
  if (0 <=? i)%Z then
    if (i <? n)%Z then Some (Z.to_nat i) else None
  else
    if (- n <=? i)%Z then Some (Z.to_nat (n + i)) else None.

(** [l[i] = x] for a position inside the list *)
Fixpoint list_set {A} (l : list A) (i : nat) (x : A) : list A :=
  match l, i with
  | [], _ => []
  | _ :: r, O => x :: r
  | y :: r, S k => y :: list_set r k x
  end.

(** ** core/storage/pager.py *)

Module Pager.

Definition MAGIC : bytes := [x4d; x44; x42; x31].   (* b"MDB1" *)
Definition HEADER_SIZE : nat := 16.

(** The Pager object together with the file at [self._path]
    ([None]: the file does not exist). *)
Record t : Type := mk {
  page_size : Z;
  _pages : list bytes;
  _length : Z;
  _file : option bytes
}.

Definition set_pages (ps : list bytes) (p : t) : t :=
  mk (page_size p) ps (_length p) (_file p).
Definition set_length (n : Z) (p : t) : t :=
  mk (page_size p) (_pages p) n (_file p).
Definition set_file (f : option bytes) (p : t) : t :=
  mk (page_size p) (_pages p) (_length p) f.

(** [Pager._flush] *)
Definition _flush : M t unit := fun p =>
  match _pages p with
  | [] =>
      match _file p with
      | Some _ => Ok tt (set_file (Some []) p)
      | None => Ok tt p
      end
  | _ :: _ =>
      match to_bytes_little 4 (page_size p) with
      | Exn e => Raise e p
      | Val ps_bytes =>
          match to_bytes_little 8 (_length p) with
          | Exn e => Raise e p
          | Val len_bytes =>
              let header := MAGIC ++ ps_bytes ++ len_bytes in
              let body := concat (_pages p) in
              Ok tt (set_file (Some (header ++ body)) p)
          end
      end
  end.

(** [Pager.write_blob] *)
Definition write_blob (data : bytes) : M t unit := fun p =>
  let p := set_length (Z.of_nat (length data)) p in
  match data with
  | [] => _flush (set_pages [] p)
  | _ :: _ =>
      if (page_size p =? 0)%Z then Raise ZeroDivisionError p
      else
        let needed :=
          ((Z.of_nat (length data) + page_size p - 1) / page_size p)%Z in
        let buffer := ljust data (needed * page_size p) in
        let pages :=
          if (0 <? page_size p)%Z
          then slices (Z.to_nat (page_size p)) buffer
          else [] in
        _flush (set_pages pages p)
  end.

(** [Pager.read_blob] *)
Definition read_blob (p : t) : bytes :=
  match _pages p with
  | [] => []
  | _ :: _ =>
      if (_length p =? 0)%Z then []
      else firstn (Z.to_nat (_length p)) (concat (_pages p))
  end.

(** [Pager.stats] *)
Definition stats (p : t) : Z * Z :=
  (Z.of_nat (length (_pages p)), page_size p).

(** [bytearray(self.page_size)]: a page of zero bytes. *)
Definition zero_page (p : t) : bytes := repeat x00 (Z.to_nat (page_size p)).

(** [Pager.allocate_page]; [bytearray] raises ValueError on a negative
    size. *)
Definition allocate_page : M t Z := fun p =>
  if (page_size p <? 0)%Z then Raise ValueError p
  else
    let p' := set_pages (_pages p ++ [zero_page p]) p in
    Ok (Z.of_nat (length (_pages p')) - 1)%Z p'.

(** [Pager.write_page]: pages are appended until the index exists, the page
    is replaced by [data] cut or zero-filled to the page size, and the file
    is written. *)
Definition write_page (index : Z) (data : bytes) : M t unit := fun p =>
  if (page_size p <? 0)%Z then Raise ValueError p
  else
    let missing := Z.to_nat (index + 1 - Z.of_nat (length (_pages p))) in
    let pages := _pages p ++ repeat (zero_page p) missing in
    (* buffer[: len(data)] = data[: self.page_size] *)
    let buffer :=
      firstn (Z.to_nat (page_size p)) data ++ skipn (length data) (zero_page p) in
    match py_index pages index with
    | None => Raise IndexError (set_pages pages p)
    | Some i => _flush (set_pages (list_set pages i buffer) p)
    end.

(** [Pager.read_page] *)
Definition read_page (index : Z) (p : t) : result bytes :=
  match py_index (_pages p) index with
  | Some i => Val (nth i (_pages p) [])
  | None => Exn IndexError
  end.

Definition pad_page (size : nat) (chunk : bytes) : bytes :=
  if length chunk <? size
  then chunk ++ repeat x00 (size - length chunk)
  else chunk.

(** [Pager._load], run by the constructor on the file found at the path. *)
Definition _load : M t unit := fun p =>
  match _file p with
  | None => Ok tt p
  | Some raw =>
      if (length raw <? HEADER_SIZE) || negb (starts_with MAGIC raw)
      then Ok tt p
      else
        let stored := from_bytes_little (slice raw 4 8) in
        let stored_size := if (stored =? 0)%Z then page_size p else stored in
        let p := mk stored_size (_pages p)
                    (from_bytes_little (slice raw 8 16)) (_file p) in
        let payload := skipn HEADER_SIZE raw in
        let p := set_pages [] p in
        (* range(0, len(payload), self.page_size) *)
        if (stored_size =? 0)%Z then Raise ValueError p
        else if (stored_size <? 0)%Z then Ok tt p
        else
          let size := Z.to_nat stored_size in
          Ok tt (set_pages (map (pad_page size) (slices size payload)) p)
  end.

(** [Pager.__init__]: a pager of the requested page size over the file. *)
Definition init (file : option bytes) (requested : Z) : Res t unit :=
  _load (mk requested [] 0 file).

End Pager.

(** ** Python values

    The literals the parser can hand to the storage layer: [None], booleans,
    integers, text, tuples and lists.  Floating-point literals are outside the
    embedding. *)

Unset Elimination Schemes.
Inductive value : Type :=
| VNone
| VBool (b : bool)
| VInt (z : Z)
| VStr (s : string)
| VTuple (items : list value)
| VList (items : list value).
Set Elimination Schemes.

(** Python compares [True] and [1] (and [False] and [0]) equal and hashes them
    alike; [py_key] maps a value to the representative under which [==] is
    plain equality. *)
Fixpoint py_key (v : value) : value :=
  match v with
  | VBool b => VInt (if b then 1 else 0)
  | VTuple l => VTuple (map py_key l)
  | VList l => VList (map py_key l)
  | _ => v
  end.

Fixpoint value_eqb (a b : value) {struct a} : bool :=
  let fix items_eqb (l m : list value) {struct l} : bool :=
    match l, m with
    | [], [] => true
    | x :: l', y :: m' => value_eqb x y && items_eqb l' m'
    | _, _ => false
    end in
  match a, b with
  | VNone, VNone => true
  | VBool x, VBool y => Bool.eqb x y
  | VInt x, VInt y => (x =? y)%Z
  | VStr s, VStr t => String.eqb s t
  | VTuple l, VTuple m => items_eqb l m
  | VList l, VList m => items_eqb l m
  | _, _ => false
  end.

(** [a == b] *)
Definition py_eqb (a b : value) : bool := value_eqb (py_key a) (py_key b).

(** Whether [hash(v)] succeeds: lists are unhashable, a tuple is hashable when
    its items are. *)
Fixpoint hashable (v : value) : bool :=
  match v with
  | VList _ => false
  | VTuple l => forallb hashable l
  | _ => true
  end.

(** ** Python dictionaries

    A [dict] keeps its keys in insertion order, and that order is observable
    (headers of a wildcard SELECT, the serialized snapshot), so it is an
    association list in which each key occurs once. *)

Section Dict.
Variables (K V : Type) (keq : K -> K -> bool).

Definition dict := list (K * V).

(** [d.get(k)] *)
Fixpoint dict_get (d : dict) (k : K) : option V :=
  match d with
  | [] => None
  | (k', v) :: r => if keq k' k then Some v else dict_get r k
  end.

(** [k in d] *)
Definition dict_mem (d : dict) (k : K) : bool :=
  match dict_get d k with Some _ => true | None => false end.

(** [d[k] = v]: an existing key keeps its place (and its key object), a new
    key goes last. *)
Fixpoint dict_set (d : dict) (k : K) (v : V) : dict :=
  match d with
  | [] => [(k, v)]
  | (k', v') :: r =>
      if keq k' k then (k', v) :: r else (k', v') :: dict_set r k v
  end.

(** [d.pop(k, None)] *)
Fixpoint dict_pop (d : dict) (k : K) : dict :=
  match d with
  | [] => []
  | (k', v') :: r => if keq k' k then r else (k', v') :: dict_pop r k
  end.

(** [d.keys()] *)
Definition dict_keys (d : dict) : list K := map fst d.

(** [d.update(items)] and [dict(items)] *)
Definition dict_update (d : dict) (items : list (K * V)) : dict :=
  fold_left (fun acc kv => dict_set acc (fst kv) (snd kv)) items d.

Definition dict_of_items (items : list (K * V)) : dict :=
  dict_update [] items.
End Dict.

Arguments dict_get {K V} keq d k.
Arguments dict_mem {K V} keq d k.
Arguments dict_set {K V} keq d k v.
Arguments dict_pop {K V} keq d k.
Arguments dict_keys {K V} d.
Arguments dict_update {K V} keq d items.
Arguments dict_of_items {K V} keq items.

(** A row: [Dict[str, Any]]. *)
Definition row := dict string value.

(** [row.get(col)] and [row.get(col, default)] *)
Definition row_get (r : row) (col : string) : value :=
  match dict_get String.eqb r col with Some v => v | None => VNone end.

Definition row_get_default (r : row) (col : string) (dflt : value) : value :=
  match dict_get String.eqb r col with Some v => v | None => dflt end.

(** [zip(columns, values)] *)
Fixpoint zip {A B} (l : list A) (m : list B) : list (A * B) :=
  match l, m with
  | a :: l', b :: m' => (a, b) :: zip l' m'
  | _, _ => []
  end.

(** [x in l] for a list of strings *)
Definition str_in (x : string) (l : list string) : bool :=
  existsb (String.eqb x) l.

(** ** Text

    Text is a sequence of characters with code points below 256; the parser and
    the JSON codec work on [list ascii], records carry [string]. *)

Definition text := list ascii.

Definition txt (s : string) : text := list_ascii_of_string s.
Definition str (t : text) : string := string_of_list_ascii t.

Definition code (c : ascii) : nat := nat_of_ascii c.

Definition dquote : ascii := ascii_of_nat 34.

Definition is_digit (c : ascii) : bool := (48 <=? code c) && (code c <=? 57).

Fixpoint span {A} (p : A -> bool) (l : list A) : list A * list A :=
  match l with
  | [] => ([], [])
  | x :: r => if p x then let (a, b) := span p r in (x :: a, b) else ([], l)
  end.

(** [str(n)] for an integer *)
Definition str_of_int (z : Z) : string := NilZero.string_of_int (Z.to_int z).

(** ** The JSON codec of Python's [json] module

    [dumps] with [separators=(",", ":")] and the default [ensure_ascii];
    [loads] with the default strict decoder.  Floating-point numbers and
    characters above code point 255 are outside the embedding: [loads] answers
    [Unsupported] on them. *)

Unset Elimination Schemes.
Inductive json : Type :=
| JNull
| JBool (b : bool)
| JInt (z : Z)
| JStr (s : string)
| JArr (items : list json)
| JObj (members : list (string * json)).
Set Elimination Schemes.

Module JSON.

Definition hex_digit (n : nat) : ascii :=
  if n <? 10 then ascii_of_nat (48 + n) else ascii_of_nat (87 + n).

(** One character of a string, as [encode_basestring_ascii] writes it. *)
Definition escape_char (c : ascii) : text :=
  if (c =? dquote)%char then ["\"%char; dquote]
  else if (c =? "\")%char then txt "\\"
  else if code c =? 8 then txt "\b"
  else if code c =? 12 then txt "\f"
  else if code c =? 10 then txt "\n"
  else if code c =? 13 then txt "\r"
  else if code c =? 9 then txt "\t"
  else if (32 <=? code c) && (code c <=? 126) then [c]
  else txt "\u00" ++ [hex_digit (code c / 16); hex_digit (code c mod 16)].

Definition dump_string (s : string) : text :=
  dquote :: flat_map escape_char (txt s) ++ [dquote].

Fixpoint join {A} (sep : list A) (parts : list (list A)) : list A :=
  match parts with
  | [] => []
  | [x] => x
  | x :: r => x ++ sep ++ join sep r
  end.

Fixpoint dump (j : json) : text :=
  match j with
  | JNull => txt "null"
  | JBool true => txt "true"
  | JBool false => txt "false"
  | JInt z => txt (str_of_int z)
  | JStr s => dump_string s
  | JArr items => "["%char :: join [","%char] (map dump items) ++ ["]"%char]
  | JObj members =>
      "{"%char ::
        join [","%char]
          (map (fun kv => dump_string (fst kv) ++ ":"%char :: dump (snd kv))
               members)
        ++ ["}"%char]
  end.

(** [json.dumps(obj, separators=(",", ":")).encode("utf-8")]: the text is
    ASCII, one byte per character. *)
Definition dumps (j : json) : bytes := map byte_of_ascii (dump j).

(** *** Decoder *)

Definition is_ws (c : ascii) : bool :=
  (code c =? 32) || (code c =? 9) || (code c =? 10) || (code c =? 13).

Fixpoint skip_ws (s : text) : text :=
  match s with
  | c :: r => if is_ws c then skip_ws r else s
  | [] => []
  end.

Definition hex_value (c : ascii) : option nat :=
  let n := code c in
  if (48 <=? n) && (n <=? 57) then Some (n - 48)
  else if (97 <=? n) && (n <=? 102) then Some (n - 87)
  else if (65 <=? n) && (n <=? 70) then Some (n - 55)
  else None.

Definition hex4 (a b c d : ascii) : option nat :=
  match hex_value a, hex_value b, hex_value c, hex_value d with
  | Some x, Some y, Some z, Some w => Some (((x * 16 + y) * 16 + z) * 16 + w)
  | _, _, _, _ => None
  end.

(** [scanstring]: the text after the opening quote, up to the closing one. *)
Fixpoint scanstring (s : text) : result (text * text) :=
  match s with
  | [] => Exn JSONDecodeError
  | c :: r =>
      if (c =? dquote)%char then Val ([], r)
      else if (c =? "\")%char then
        match r with
        | [] => Exn JSONDecodeError
        | e :: r' =>
            let simple (x : ascii) :=
              rbind (scanstring r') (fun p => Val (x :: fst p, snd p)) in
            if (e =? dquote)%char then simple dquote
            else if (e =? "\")%char then simple "\"%char
            else if (e =? "/")%char then simple "/"%char
            else if (e =? "b")%char then simple (ascii_of_nat 8)
            else if (e =? "f")%char then simple (ascii_of_nat 12)
            else if (e =? "n")%char then simple (ascii_of_nat 10)
            else if (e =? "r")%char then simple (ascii_of_nat 13)
            else if (e =? "t")%char then simple (ascii_of_nat 9)
            else if (e =? "u")%char then
              match r' with
              | a :: b :: c' :: d :: r'' =>
                  match hex4 a b c' d with
                  | None => Exn JSONDecodeError
                  | Some n =>
                      if n <? 256 then
                        rbind (scanstring r'')
                              (fun p => Val (ascii_of_nat n :: fst p, snd p))
                      else Exn Unsupported
                  end
              | _ => Exn JSONDecodeError
              end
            else Exn JSONDecodeError
        end
      else if code c <? 32 then Exn JSONDecodeError
      else rbind (scanstring r) (fun p => Val (c :: fst p, snd p))
  end.

(** The integer part of [NUMBER_RE]: an optional minus sign, then a single
    zero or a digit run that starts with a non-zero digit; a fraction or an
    exponent after it makes a float. *)
Definition scan_digits (s : text) : option (Decimal.uint * text) :=
  match s with
  | [] => None
  | c :: r =>
      if (c =? "0")%char then Some (Decimal.D0 Decimal.Nil, r)
      else if is_digit c then
        let (ds, rest) := span is_digit s in
        match NilEmpty.uint_of_string (str ds) with
        | Some d => Some (d, rest)
        | None => None
        end
      else None
  end.

Definition starts_float (s : text) : bool :=
  match s with
  | c :: _ => (c =? ".")%char || (c =? "e")%char || (c =? "E")%char
  | [] => false
  end.

Definition scan_number (s : text) : result (json * text) :=
  let (neg, s') :=
    match s with
    | c :: r => if (c =? "-")%char then (true, r) else (false, s)
    | [] => (false, s)
    end in
  match scan_digits s' with
  | None => Exn JSONDecodeError
  | Some (d, rest) =>
      if starts_float rest then Exn Unsupported
      else Val (JInt (if neg then - Z.of_uint d else Z.of_uint d), rest)
  end.

Fixpoint strip_prefix (p s : text) : option text :=
  match p, s with
  | [], _ => Some s
  | a :: p', b :: s' => if (a =? b)%char then strip_prefix p' s' else None
  | _ :: _, [] => None
  end.

(** [scan_once], [JSONObject] and [JSONArray].  A value starts at least one
    character after the bracket that encloses it and the loops step once
    per value, so fuel of twice the length of the text (plus two) is never
    exhausted. *)
Fixpoint scan_once (fuel : nat) (s : text) : result (json * text) :=
  match fuel with
  | O => Exn Unsupported
  | S f =>
      match s with
      | [] => Exn JSONDecodeError
      | c :: r =>
          if (c =? dquote)%char then
            rbind (scanstring r) (fun p => Val (JStr (str (fst p)), snd p))
          else if (c =? "{")%char then
            match skip_ws r with
            | c' :: r' =>
                if (c' =? "}")%char then Val (JObj [], r')
                else
                  rbind (scan_members f (c' :: r') [])
                        (fun p => Val (JObj (dict_of_items String.eqb (fst p)),
                                       snd p))
            | [] => Exn JSONDecodeError
            end
          else if (c =? "[")%char then
            match skip_ws r with
            | c' :: r' =>
                if (c' =? "]")%char then Val (JArr [], r')
                else
                  rbind (scan_items f (c' :: r') [])
                        (fun p => Val (JArr (fst p), snd p))
            | [] => Exn JSONDecodeError
            end
          else
            match strip_prefix (txt "null") s with
            | Some r' => Val (JNull, r')
            | None =>
            match strip_prefix (txt "true") s with
            | Some r' => Val (JBool true, r')
            | None =>
            match strip_prefix (txt "false") s with
            | Some r' => Val (JBool false, r')
            | None =>
                if (c =? "N")%char || (c =? "I")%char then
                  match strip_prefix (txt "NaN") s,
                        strip_prefix (txt "Infinity") s with
                  | None, None => Exn JSONDecodeError
                  | _, _ => Exn Unsupported
                  end
                else if (c =? "-")%char then
                  match strip_prefix (txt "-Infinity") s with
                  | Some _ => Exn Unsupported
                  | None => scan_number s
                  end
                else scan_number s
            end end end
      end
  end
(** after [{] or [,]: ["key" : value] then [,] or [}] *)
with scan_members (fuel : nat) (s : text) (acc : list (string * json))
  : result (list (string * json) * text) :=
  match fuel with
  | O => Exn Unsupported
  | S f =>
      match s with
      | c :: r =>
          if (c =? dquote)%char then
            rbind (scanstring r) (fun kp =>
              match skip_ws (snd kp) with
              | c1 :: r1 =>
                  if (c1 =? ":")%char then
                    rbind (scan_once f (skip_ws r1)) (fun vp =>
                      let acc' := acc ++ [(str (fst kp), fst vp)] in
                      match skip_ws (snd vp) with
                      | c2 :: r2 =>
                          if (c2 =? "}")%char then Val (acc', r2)
                          else if (c2 =? ",")%char then
                            scan_members f (skip_ws r2) acc'
                          else Exn JSONDecodeError
                      | [] => Exn JSONDecodeError
                      end)
                  else Exn JSONDecodeError
              | [] => Exn JSONDecodeError
              end)
          else Exn JSONDecodeError
      | [] => Exn JSONDecodeError
      end
  end
(** after [[] or [,]: [value] then [,] or []] *)
with scan_items (fuel : nat) (s : text) (acc : list json)
  : result (list json * text) :=
  match fuel with
  | O => Exn Unsupported
  | S f =>
      rbind (scan_once f s) (fun vp =>
        let acc' := acc ++ [fst vp] in
        match skip_ws (snd vp) with
        | c2 :: r2 =>
            if (c2 =? "]")%char then Val (acc', r2)
            else if (c2 =? ",")%char then scan_items f (skip_ws r2) acc'
            else Exn JSONDecodeError
        | [] => Exn JSONDecodeError
        end)
  end.

(** [blob.decode("utf-8")] on ASCII bytes; multi-byte sequences are outside
    the embedding. *)
Definition decode_utf8 (b : bytes) : result text :=
  if forallb (fun x => (Byte.to_N x <? 128)%N) b
  then Val (map ascii_of_byte b)
  else Exn Unsupported.

(** [json.loads(text)] *)
Definition load (s : text) : result json :=
  let s := skip_ws s in
  rbind (scan_once (2 * length s + 2) s) (fun p =>
    match skip_ws (snd p) with
    | [] => Val (fst p)
    | _ :: _ => Exn JSONDecodeError
    end).

(** [json.loads(blob.decode("utf-8"))] *)
Definition loads (b : bytes) : result json :=
  rbind (decode_utf8 b) load.

End JSON.

(** ** core/storage/btree.py *)

(** [sorted(names)]: strings compare by code point. *)
Fixpoint insert_sorted (x : string) (l : list string) : list string :=
  match l with
  | [] => [x]
  | y :: r => if String.leb x y then x :: l else y :: insert_sorted x r
  end.

Definition sorted (l : list string) : list string :=
  fold_right insert_sorted [] l.

(** [col.split(".", 1)[-1]]: what follows the first dot, or all of [col]. *)
Fixpoint after_first_dot (t : text) : option text :=
  match t with
  | [] => None
  | c :: r => if (c =? ".")%char then Some r else after_first_dot r
  end.

Definition unqualified (col : string) : string :=
  match after_first_dot (txt col) with
  | Some r => str r
  | None => col
  end.

(** ["." in col] *)
Definition has_dot (col : string) : bool :=
  existsb (fun c => (c =? ".")%char) (txt col).

(** [columns == ["*"]] *)
Definition is_wildcard (columns : list string) : bool :=
  match columns with
  | [c] => String.eqb c "*"
  | _ => false
  end.

(** [f"{prefix}.{col}"] *)
Definition qualified (prefix col : string) : string :=
  (prefix ++ "." ++ col)%string.

Fixpoint for_each {S A} (l : list A) (body : A -> M S unit) : M S unit :=
  match l with
  | [] => ret tt
  | x :: r => bind (body x) (fun _ => for_each r body)
  end.

(** A WHERE condition [{"column": c, "value": v}] and a JOIN descriptor. *)
Record condition : Type := mk_condition {
  cond_column : string;
  cond_value : value
}.

Record join_spec : Type := mk_join {
  join_table : string;
  left_table : string;
  left_column : string;
  right_table : string;
  right_column : string
}.

Module BTreeStorage.

(** Row dictionaries are shared between a table's row list and its indexes
    and are updated in place; [address] names one in the store. *)
Definition address := nat.
Definition index := dict value (list address).

Record table : Type := mk_table {
  columns : list string;
  rows : list address;
  indexes : dict string index
}.

Record t : Type := mk {
  _pager : option Pager.t;
  _tables : dict string table;
  store : list row
}.

Definition deref (st : list row) (a : address) : row := nth a st [].

Definition set_tables (tb : dict string table) (s : t) : t :=
  mk (_pager s) tb (store s).
Definition set_store (st : list row) (s : t) : t :=
  mk (_pager s) (_tables s) st.
Definition set_pager (p : option Pager.t) (s : t) : t :=
  mk p (_tables s) (store s).

Definition set_columns (c : list string) (tb : table) : table :=
  mk_table c (rows tb) (indexes tb).
Definition set_rows (r : list address) (tb : table) : table :=
  mk_table (columns tb) r (indexes tb).
Definition set_indexes (i : dict string index) (tb : table) : table :=
  mk_table (columns tb) (rows tb) i.

(** [self._tables[name]] *)
Definition table_at (name : string) : M t table := fun s =>
  match dict_get String.eqb (_tables s) name with
  | Some tb => Ok tb s
  | None => Raise (KeyError name) s
  end.

(** in-place change of the table object bound to [name] *)
Definition update_table (name : string) (f : table -> table) : M t unit :=
  modify (fun s =>
    match dict_get String.eqb (_tables s) name with
    | Some tb => set_tables (dict_set String.eqb (_tables s) name (f tb)) s
    | None => s
    end).

(** [row[...] = ...] on the row object at an address *)
Definition update_row (a : address) (f : row -> row) : M t unit :=
  modify (fun s =>
    set_store
      (firstn a (store s) ++
       match skipn a (store s) with
       | r :: rest => f r :: rest
       | [] => []
       end) s).

(** [index.setdefault(row.get(column), []).append(row)]: hashing the key
    raises TypeError on an unhashable value. *)
Definition index_add (st : list row) (column : string) (idx : index)
           (a : address) : result index :=
  let key := row_get (deref st a) column in
  if hashable key then
    Val (dict_set py_eqb idx key
           (match dict_get py_eqb idx key with
            | Some l => l ++ [a]
            | None => [a]
            end))
  else Exn TypeError.

Fixpoint build_index (st : list row) (column : string) (rs : list address)
         (idx : index) : result index :=
  match rs with
  | [] => Val idx
  | a :: rest =>
      rbind (index_add st column idx a)
            (fun idx' => build_index st column rest idx')
  end.

(** [BTreeStorage._rebuild_index] *)
Definition _rebuild_index (name column : string) : M t unit :=
  (data <- table_at name ;;
   s <- get ;;
   index <- lift_result (build_index (store s) column (rows data) []) ;;
   update_table name
     (fun tb => set_indexes (dict_set String.eqb (indexes tb) column index) tb)
  )%monad.

(** The snapshot [_persist] serializes. *)
Fixpoint json_of_value (v : value) : json :=
  match v with
  | VNone => JNull
  | VBool b => JBool b
  | VInt z => JInt z
  | VStr s => JStr s
  | VTuple l => JArr (map json_of_value l)
  | VList l => JArr (map json_of_value l)
  end.

Definition json_of_row (r : row) : json :=
  JObj (map (fun kv => (fst kv, json_of_value (snd kv))) r).

Definition json_of_table (st : list row) (meta : table) : json :=
  JObj [ ("columns"%string, JArr (map JStr (columns meta)));
         ("rows"%string, JArr (map (fun a => json_of_row (deref st a)) (rows meta)));
         ("indexes"%string, JArr (map JStr (sorted (dict_keys (indexes meta))))) ].

Definition snapshot (s : t) : json :=
  JObj (map (fun nm => (fst nm, json_of_table (store s) (snd nm))) (_tables s)).

(** Run a pager operation on [self._pager]. *)
Definition on_pager {A} (p : Pager.t) (m : M Pager.t A) : M t A := fun s =>
  match m p with
  | Ok a p' => Ok a (set_pager (Some p') s)
  | Raise e p' => Raise e (set_pager (Some p') s)
  end.

(** [BTreeStorage._persist] *)
Definition _persist : M t unit := fun s =>
  match _pager s with
  | None => Ok tt s
  | Some p => on_pager p (Pager.write_blob (JSON.dumps (snapshot s))) s
  end.

(** [BTreeStorage.create_table] *)
Definition create_table (name : string) (cols : list string) : M t unit :=
  (modify (fun s =>
     set_tables (dict_set String.eqb (_tables s) name (mk_table cols [] [])) s) ;;;
   _persist)%monad.

(** [BTreeStorage.drop_table] *)
Definition drop_table (name : string) : M t unit :=
  (modify (fun s => set_tables (dict_pop String.eqb (_tables s) name) s) ;;;
   _persist)%monad.

(** [BTreeStorage.table_exists] *)
Definition table_exists (s : t) (name : string) : bool :=
  dict_mem String.eqb (_tables s) name.

(** [BTreeStorage.add_column] *)
Definition add_column (name column : string) : M t unit :=
  (tb <- table_at name ;;
   if str_in column (columns tb) then ret tt
   else
     update_table name (fun tb => set_columns (columns tb ++ [column]) tb) ;;;
     for_each (rows tb)
       (fun a => update_row a (fun r => dict_set String.eqb r column VNone)) ;;;
     for_each (dict_keys (indexes tb)) (fun col => _rebuild_index name col) ;;;
     _persist)%monad.

(** [BTreeStorage.create_index] *)
Definition create_index (name column : string) : M t unit :=
  (tb <- table_at name ;;
   if dict_mem String.eqb (indexes tb) column then ret tt
   else _rebuild_index name column ;;; _persist)%monad.

(** [BTreeStorage.drop_index] *)
Definition drop_index (name column : string) : M t unit := fun s =>
  match dict_get String.eqb (_tables s) name with
  | Some _ =>
      (update_table name
         (fun tb => set_indexes (dict_pop String.eqb (indexes tb) column) tb) ;;;
       _persist)%monad s
  | None => Ok tt s
  end.

(** [BTreeStorage.insert_row]; the result is the new row object. *)
Definition insert_row (name : string) (values : list value) : M t address :=
  (tb <- table_at name ;;
   s <- get ;;
   let row := dict_of_items String.eqb (zip (columns tb) values) in
   let a := length (store s) in
   put (set_store (store s ++ [row]) s) ;;;
   update_table name (fun tb => set_rows (rows tb ++ [a]) tb) ;;;
   for_each (indexes tb)
     (fun ci =>
        s <- get ;;
        tb' <- table_at name ;;
        match dict_get String.eqb (indexes tb') (fst ci) with
        | Some idx =>
            idx' <- lift_result (index_add (store s) (fst ci) idx a) ;;
            update_table name
              (fun tb => set_indexes
                           (dict_set String.eqb (indexes tb) (fst ci) idx') tb)
        | None => ret tt
        end) ;;;
   _persist ;;;
   ret a)%monad.

(** [BTreeStorage._rows_for]: the row objects a WHERE clause selects. *)
Definition _rows_for (name : string) (where_ : option condition)
  : M t (list address) :=
  (data <- table_at name ;;
   match where_ with
   | None => ret (rows data)
   | Some w =>
       match dict_get String.eqb (indexes data) (cond_column w) with
       | Some index =>
           if hashable (cond_value w) then
             ret (match dict_get py_eqb index (cond_value w) with
                  | Some l => l
                  | None => []
                  end)
           else raise TypeError
       | None =>
           s <- get ;;
           ret (filter (fun a => py_eqb (row_get (deref (store s) a)
                                                 (cond_column w))
                                         (cond_value w))
                       (rows data))
       end
   end)%monad.

(** The projection of one joined pair, as in the loop body of
    [_join_rows]. *)
Definition combine (lcols rcols : list string) (j : join_spec)
           (cols : list string) (left right : row) : row :=
  let combined :=
    dict_update String.eqb
      (dict_of_items String.eqb
         (map (fun col => (qualified (left_table j) col, row_get left col)) lcols))
      (dict_of_items String.eqb
         (map (fun col => (qualified (right_table j) col, row_get right col)) rcols)) in
  if is_wildcard cols then combined
  else
    dict_of_items String.eqb
      (map (fun col =>
              (col,
               if has_dot col then row_get combined col
               else if str_in col lcols then row_get left col
               else if str_in col rcols then row_get right col
               else VNone))
           cols).

(** The rows one left row contributes: [for right in index.get(key, [])]. *)
Definition join_matches (st : list row) (index : index) (j : join_spec)
           (left : row) : result (list row) :=
  let key := row_get left (left_column j) in
  if hashable key then
    Val (map (deref st)
             (match dict_get py_eqb index key with
              | Some l => l
              | None => []
              end))
  else Exn TypeError.

Fixpoint join_loop (st : list row) (index : index) (lcols rcols : list string)
         (j : join_spec) (cols : list string) (left_rows : list address)
  : result (list row) :=
  match left_rows with
  | [] => Val []
  | a :: rest =>
      let left := deref st a in
      rbind (join_matches st index j left) (fun rights =>
      rbind (join_loop st index lcols rcols j cols rest) (fun tail =>
        Val (map (combine lcols rcols j cols left) rights ++ tail)))
  end.

(** [BTreeStorage._join_rows] *)
Definition _join_rows (name : string) (cols : list string)
           (where_ : option condition) (j : join_spec) : M t (list row) :=
  (left_rows <- _rows_for name where_ ;;
   right_data <- table_at (join_table j) ;;
   index <-
     match dict_get String.eqb (indexes right_data) (right_column j) with
     | Some index => ret index
     | None =>
         _rebuild_index (join_table j) (right_column j) ;;;
         right_data' <- table_at (join_table j) ;;
         ret (match dict_get String.eqb (indexes right_data') (right_column j) with
              | Some index => index
              | None => []
              end)
     end ;;
   s <- get ;;
   tb <- table_at name ;;
   lift_result
     (join_loop (store s) index (columns tb) (columns right_data) j cols
                left_rows))%monad.

(** [BTreeStorage.select_rows] *)
Definition select_rows (name : string) (cols : list string)
           (where_ : option condition) (join : option join_spec)
  : M t (list row) :=
  match join with
  | Some j => _join_rows name cols where_ j
  | None =>
      (addrs <- _rows_for name where_ ;;
       s <- get ;;
       let rows := map (deref (store s)) addrs in
       if is_wildcard cols then ret rows
       else
         ret (map (fun row =>
                     dict_of_items String.eqb
                       (map (fun col => (col, row_get row (unqualified col)))
                            cols))
                  rows))%monad
  end.

(** [BTreeStorage.update_rows].  The affected columns are visited in the
    order of the table's index dictionary (Python iterates a set here). *)
Definition update_rows (name : string) (assignments : dict string value)
           (where_ : option condition) : M t Z :=
  (addrs <- _rows_for name where_ ;;
   for_each addrs
     (fun a => update_row a (fun r => dict_update String.eqb r assignments)) ;;;
   tb <- table_at name ;;
   for_each
     (filter (fun c => dict_mem String.eqb assignments c)
             (dict_keys (indexes tb)))
     (fun column => _rebuild_index name column) ;;;
   match addrs with
   | [] => ret tt
   | _ :: _ => _persist
   end ;;;
   ret (Z.of_nat (length addrs)))%monad.

(** [BTreeStorage.delete_rows] *)
Definition delete_rows (name : string) (where_ : option condition) : M t Z :=
  (tb <- table_at name ;;
   s <- get ;;
   let current := rows tb in
   let kept :=
     match where_ with
     | None => []
     | Some w =>
         filter (fun a => negb (py_eqb (row_get (deref (store s) a)
                                                 (cond_column w))
                                       (cond_value w)))
                current
     end in
   let deleted := (Z.of_nat (length current) - Z.of_nat (length kept))%Z in
   update_table name (set_rows kept) ;;;
   for_each (dict_keys (indexes tb)) (fun column => _rebuild_index name column) ;;;
   (if (deleted =? 0)%Z then ret tt else _persist) ;;;
   ret deleted)%monad.

(** *** Loading a snapshot *)

Fixpoint value_of_json (j : json) : result value :=
  match j with
  | JNull => Val VNone
  | JBool b => Val (VBool b)
  | JInt z => Val (VInt z)
  | JStr s => Val (VStr s)
  | JArr items =>
      rbind
        ((fix go (l : list json) : result (list value) :=
            match l with
            | [] => Val []
            | x :: r =>
                rbind (value_of_json x) (fun v =>
                rbind (go r) (fun vs => Val (v :: vs)))
            end) items)
        (fun vs => Val (VList vs))
  | JObj _ => Exn Unsupported   (* a dictionary-valued cell *)
  end.

Fixpoint sequence {A} (l : list (result A)) : result (list A) :=
  match l with
  | [] => Val []
  | x :: r => rbind x (fun a => rbind (sequence r) (fun rest => Val (a :: rest)))
  end.

(** [dict(row)] for a decoded row *)
Definition row_of_json (j : json) : result row :=
  match j with
  | JObj members =>
      sequence (map (fun kv => rbind (value_of_json (snd kv))
                                     (fun v => Val (fst kv, v))) members)
  | _ => Exn Unsupported
  end.

Definition strings_of_json (j : json) : result (list string) :=
  match j with
  | JArr items =>
      sequence (map (fun x => match x with
                              | JStr s => Val s
                              | _ => Exn Unsupported
                              end) items)
  | _ => Exn Unsupported
  end.

(** [meta.get(key, [])] *)
Definition meta_get (meta : list (string * json)) (key : string) : json :=
  match dict_get String.eqb meta key with
  | Some j => j
  | None => JArr []
  end.

(** The body of the loop of [_load] for one [(name, meta)] item. *)
Definition load_table (name : string) (meta : json) : M t unit :=
  match meta with
  | JObj members =>
      (cols <- lift_result (strings_of_json (meta_get members "columns")) ;;
       rws <- lift_result
                (match meta_get members "rows" with
                 | JArr items => sequence (map row_of_json items)
                 | _ => Exn Unsupported
                 end) ;;
       s <- get ;;
       let addrs := seq (length (store s)) (length rws) in
       put (set_tables
              (dict_set String.eqb (_tables s) name (mk_table cols addrs []))
              (set_store (store s ++ rws) s)) ;;;
       idx <- lift_result (strings_of_json (meta_get members "indexes")) ;;
       for_each idx (fun column => _rebuild_index name column))%monad
  | _ => raise Unsupported
  end.

(** [BTreeStorage._load] *)
Definition _load : M t unit := fun s =>
  match _pager s with
  | None => Ok tt s
  | Some p =>
      match Pager.read_blob p with
      | [] => Ok tt s
      | blob =>
          (data <- lift_result (JSON.loads blob) ;;
           match data with
           | JObj tables =>
               for_each tables (fun nm => load_table (fst nm) (snd nm))
           | _ => raise Unsupported
           end)%monad s
      end
  end.

(** [BTreeStorage.__init__] *)
Definition init (pager : option Pager.t) : Res t unit :=
  _load (mk pager [] []).

(** [BTreeStorage.describe]: per table, the columns, the row count and the
    sorted index columns. *)
Definition describe (s : t) : list (string * (list string * Z * list string)) :=
  map (fun nm =>
         (fst nm,
          (columns (snd nm),
           Z.of_nat (length (rows (snd nm))),
           sorted (dict_keys (indexes (snd nm))))))
      (_tables s).

End BTreeStorage.

(** ** [str] and [repr] of values *)

Definition squote : ascii := ascii_of_nat 39.
Definition backslash : ascii := ascii_of_nat 92.

(** Whether [repr] writes a character as it is (code points below 256). *)
Definition printable (c : ascii) : bool :=
  let n := code c in
  ((32 <=? n) && (n <=? 126)) || ((161 <=? n) && negb (n =? 173)).

Definition repr_char (quote c : ascii) : text :=
  if (c =? quote)%char || (c =? backslash)%char then [backslash; c]
  else if code c =? 9 then [backslash; "t"%char]
  else if code c =? 10 then [backslash; "n"%char]
  else if code c =? 13 then [backslash; "r"%char]
  else if printable c then [c]
  else [backslash; "x"%char;
        JSON.hex_digit (code c / 16); JSON.hex_digit (code c mod 16)].

(** [repr(s)] for text: single quotes, unless the text holds a single quote
    and no double quote. *)
Definition repr_text (s : text) : text :=
  let has c := existsb (fun x => (x =? c)%char) s in
  let quote := if has squote && negb (has dquote) then dquote else squote in
  quote :: flat_map (repr_char quote) s ++ [quote].

Fixpoint py_repr (v : value) : text :=
  match v with
  | VNone => txt "None"
  | VBool true => txt "True"
  | VBool false => txt "False"
  | VInt z => txt (str_of_int z)
  | VStr s => repr_text (txt s)
  | VTuple [x] => "("%char :: py_repr x ++ txt ",)"
  | VTuple l => "("%char :: JSON.join (txt ", ") (map py_repr l) ++ [")"%char]
  | VList l => "["%char :: JSON.join (txt ", ") (map py_repr l) ++ ["]"%char]
  end.

(** [str(v)] *)
Definition py_str (v : value) : string :=
  match v with
  | VStr s => s
  | _ => str (py_repr v)
  end.

(** [sep.join(parts)] *)
Definition str_join (sep : string) (parts : list string) : string :=
  str (JSON.join (txt sep) (map txt parts)).

(** ** core/storage/lsm_tree.py *)

Module LSMTreeStorage.

(** A log record [{"db": ..., "command": ..., "row": ...}] or
    [{..., "count": ...}]; an INSERT record holds the row object itself. *)
Inductive payload : Type :=
| Row (a : BTreeStorage.address)
| Count (n : Z).

Record entry : Type := mk_entry {
  db : string;
  command : string;
  body : payload
}.

Definition t := list entry.   (* self._segments *)

Definition init : t := [].

(** [LSMTreeStorage.log] *)
Definition log (e : entry) : M t unit := modify (fun seg => seg ++ [e]).

(** [LSMTreeStorage.pending] *)
Definition pending (seg : t) : Z := Z.of_nat (length seg).

(** [LSMTreeStorage.snapshot] *)
Definition snapshot (seg : t) : list entry := seg.

(** [LSMTreeStorage.compact]: [self._segments[-10:]] *)
Definition compact : M t unit :=
  modify (fun seg => skipn (length seg - 10) seg).

(** [LSMTreeStorage.commit] *)
Definition commit : M t (list entry) :=
  (flushed <- get ;;
   put [] ;;;
   compact ;;;
   ret flushed)%monad.

End LSMTreeStorage.

(** ** The parsed command *)

(** The shapes of [ParsedCommand.details] the parser builds. *)
Inductive details : Type :=
| DEmpty                                                (* {} *)
| DName (name : string)                                 (* {"name"} *)
| DCreateTable (table : string) (cols : list (string * string))
                                                        (* {"table", "columns"} *)
| DAlterTable (table column col_type : string)          (* {"action", "table", "column"} *)
| DTable (table : string)                               (* {"table"} *)
| DIndex (table column : string)                        (* {"table", "column"} *)
| DInsert (table : string) (values : list value)        (* {"table", "values"} *)
| DUpdate (table : string) (assignments : dict string value)
          (where_ : option condition)                   (* {"table", "assignments", "where"} *)
| DDelete (table : string) (where_ : option condition)  (* {"table", "where"} *)
| DSelect (table : string) (cols : list string) (where_ : option condition)
          (join : option join_spec).                    (* {"table", "columns", "where", "join"} *)

Record ParsedCommand : Type := mk_command {
  command : string;
  raw : string;
  tokens : list string;
  cmd_details : details
}.

(** [details.get("table")] *)
Definition details_table (d : details) : option string :=
  match d with
  | DCreateTable t _ | DAlterTable t _ _ | DTable t | DIndex t _
  | DInsert t _ | DUpdate t _ _ | DDelete t _ | DSelect t _ _ _ => Some t
  | DEmpty | DName _ => None
  end.

(** [details["name"]] *)
Definition details_name (d : details) : result string :=
  match d with
  | DName n => Val n
  | _ => Exn (KeyError "name")
  end.

(** [details.get("where")] and [details.get("join")] *)
Definition details_where (d : details) : option condition :=
  match d with
  | DUpdate _ _ w | DDelete _ w | DSelect _ _ w _ => w
  | _ => None
  end.

Definition details_join (d : details) : option join_spec :=
  match d with
  | DSelect _ _ _ j => j
  | _ => None
  end.

(** ** core/executor.py *)

Module SQLExecutor.

Record t : Type := mk {
  _lsm : LSMTreeStorage.t;
  _databases : dict string BTreeStorage.t;
  _active_db : string
}.

Definition set_lsm (l : LSMTreeStorage.t) (e : t) : t :=
  mk l (_databases e) (_active_db e).
Definition set_databases (d : dict string BTreeStorage.t) (e : t) : t :=
  mk (_lsm e) d (_active_db e).
Definition set_active (a : string) (e : t) : t :=
  mk (_lsm e) (_databases e) a.

(** Run an operation of the commit log, or of one database's table manager,
    on the executor's state. *)
Definition on_lsm {A} (m : M LSMTreeStorage.t A) : M t A := fun e =>
  match m (_lsm e) with
  | Ok a l => Ok a (set_lsm l e)
  | Raise x l => Raise x (set_lsm l e)
  end.

Definition on_storage {A} (name : string) (m : M BTreeStorage.t A) : M t A :=
  fun e =>
    match dict_get String.eqb (_databases e) name with
    | None => Raise (KeyError name) e
    | Some st =>
        match m st with
        | Ok a st' =>
            Ok a (set_databases (dict_set String.eqb (_databases e) name st') e)
        | Raise x st' =>
            Raise x (set_databases (dict_set String.eqb (_databases e) name st') e)
        end
    end.

(** [SQLExecutor._ensure_database]: a database that is not loaded gets a
    table manager over a pager of page size 4096 on a new file (the data
    directory holds no file for a database that is not loaded). *)
Definition _ensure_database (name : string) : M t unit := fun e =>
  if dict_mem String.eqb (_databases e) name then Ok tt e
  else
    match Pager.init None 4096 with
    | Raise x _ => Raise x e
    | Ok _ pager =>
        match BTreeStorage.init (Some pager) with
        | Raise x _ => Raise x e
        | Ok _ st =>
            Ok tt (set_databases (dict_set String.eqb (_databases e) name st) e)
        end
    end.

(** One cell of the output: [str(row.get(col, empty))]. *)
Definition cell (row : row) (col : string) : string :=
  py_str (row_get_default row col (VStr EmptyString)).

(** [SQLExecutor._format_rows] *)
Definition _format_rows (rows : list row) (requested : list string)
  : list string :=
  match rows with
  | [] => ["(no rows)"%string]
  | first :: _ =>
      let headers :=
        if is_wildcard requested then dict_keys first else requested in
      str_join " | " headers ::
        map (fun row => str_join " | " (map (cell row) headers)) rows
  end.

Definition quoted (s : string) : string := ("'" ++ s ++ "'")%string.

(** The statements that run against a table of the active database: the
    part of [execute] below the table-existence check. *)
Definition execute_statement (parsed : ParsedCommand) (active : string)
           (storage : BTreeStorage.t) : M t (list string) :=
  let cmd := command parsed in
  let details := cmd_details parsed in
  let table := details_table details in
  if String.eqb cmd "ALTER_TABLE" then
    match details with
    | DAlterTable tname column _ =>
        (on_storage active (BTreeStorage.add_column tname column) ;;;
         ret ["Column " ++ quoted column ++ " added to " ++ quoted tname ++ "."]%string)%monad
    | DCreateTable _ _ | DIndex _ _ | DSelect _ _ _ _ => raise Unsupported
    | _ => raise (KeyError "column")
    end
  else if String.eqb cmd "DROP_TABLE" then
    match table with
    | Some tname =>
        (on_storage active (BTreeStorage.drop_table tname) ;;;
         ret ["Table " ++ quoted tname ++ " dropped."]%string)%monad
    | None => raise Unsupported
    end
  else if String.eqb cmd "CREATE_INDEX" then
    match details with
    | DIndex tname column =>
        (on_storage active (BTreeStorage.create_index tname column) ;;;
         ret ["Index on " ++ tname ++ "." ++ column ++ " built."]%string)%monad
    | DCreateTable _ _ | DAlterTable _ _ _ | DSelect _ _ _ _ => raise Unsupported
    | _ => raise (KeyError "column")
    end
  else if String.eqb cmd "DROP_INDEX" then
    match details with
    | DIndex tname column =>
        (on_storage active (BTreeStorage.drop_index tname column) ;;;
         ret ["Index on " ++ tname ++ "." ++ column ++ " removed."]%string)%monad
    | DCreateTable _ _ | DAlterTable _ _ _ | DSelect _ _ _ _ => raise Unsupported
    | _ => raise (KeyError "column")
    end
  else if String.eqb cmd "INSERT" then
    match details with
    | DInsert tname values =>
        (row <- on_storage active (BTreeStorage.insert_row tname values) ;;
         on_lsm (LSMTreeStorage.log
                   (LSMTreeStorage.mk_entry active "INSERT"
                      (LSMTreeStorage.Row row))) ;;;
         ret ["1 row inserted."%string])%monad
    | _ => raise (KeyError "values")
    end
  else if String.eqb cmd "UPDATE" then
    match details with
    | DUpdate tname assignments where_ =>
        (count <- on_storage active
                    (BTreeStorage.update_rows tname assignments where_) ;;
         on_lsm (LSMTreeStorage.log
                   (LSMTreeStorage.mk_entry active "UPDATE"
                      (LSMTreeStorage.Count count))) ;;;
         ret [str_of_int count ++ " row(s) updated."]%string)%monad
    | _ => raise (KeyError "assignments")
    end
  else if String.eqb cmd "DELETE" then
    match table with
    | Some tname =>
        (count <- on_storage active
                    (BTreeStorage.delete_rows tname (details_where details)) ;;
         on_lsm (LSMTreeStorage.log
                   (LSMTreeStorage.mk_entry active "DELETE"
                      (LSMTreeStorage.Count count))) ;;;
         ret [str_of_int count ++ " row(s) deleted."]%string)%monad
    | None => raise Unsupported
    end
  else if String.eqb cmd "SELECT" then
    let join := details_join details in
    let join_missing :=
      match join with
      | Some j => negb (BTreeStorage.table_exists storage (join_table j))
      | None => false
      end in
    if join_missing then
      ret (match join with
           | Some j => ["Table " ++ quoted (join_table j) ++ " not found."]%string
           | None => []
           end)
    else
      match details with
      | DSelect tname cols where_ _ =>
          (rows <- on_storage active
                     (BTreeStorage.select_rows tname cols where_ join) ;;
           ret (_format_rows rows cols))%monad
      | DCreateTable _ _ => raise Unsupported
      | _ => raise (KeyError "columns")
      end
  else if String.eqb cmd "COMMIT" then
    (entries <- on_lsm LSMTreeStorage.commit ;;
     let n := length entries in
     ret ["Committed " ++ str_of_int (Z.of_nat n) ++ " entr"
          ++ (if (n =? 1)%nat then "y" else "ies") ++ "."]%string)%monad
  else
    ret ["Command " ++ quoted (raw parsed) ++ " not understood."]%string.

(** [SQLExecutor.execute] *)
Definition execute (parsed : ParsedCommand) : M t (list string) :=
  let cmd := command parsed in
  let details := cmd_details parsed in
  if String.eqb cmd "EMPTY" then ret [EmptyString]
  else if String.eqb cmd "CREATE_DATABASE" then
    (name <- lift_result (details_name details) ;;
     _ensure_database name ;;;
     modify (set_active name) ;;;
     ret ["Database " ++ quoted name ++ " ready."]%string)%monad
  else if String.eqb cmd "ALTER_DATABASE" then
    (name <- lift_result (details_name details) ;;
     _ensure_database name ;;;
     modify (set_active name) ;;;
     ret ["Using database " ++ quoted name ++ "."]%string)%monad
  else if String.eqb cmd "USE_DATABASE" then
    (name <- lift_result (details_name details) ;;
     e <- get ;;
     if negb (dict_mem String.eqb (_databases e) name) then
       ret ["Database " ++ quoted name ++ " not found."]%string
     else
       modify (set_active name) ;;;
       ret ["Using database " ++ quoted name ++ "."]%string)%monad
  else
    (e <- get ;;
     let active := _active_db e in
     storage <- on_storage active get ;;
     let table := details_table details in
     if String.eqb cmd "CREATE_TABLE" then
       match details with
       | DCreateTable tname cols =>
           if BTreeStorage.table_exists storage tname then
             ret ["Table " ++ quoted tname ++ " already exists."]%string
           else
             on_storage active
               (BTreeStorage.create_table tname (map fst cols)) ;;;
             ret ["Table " ++ quoted tname ++ " created."]%string
       | _ => raise Unsupported
       end
     else
       match table with
       | Some tname =>
           if negb (String.eqb tname EmptyString)
              && negb (BTreeStorage.table_exists storage tname)
           then ret ["Table " ++ quoted tname ++ " not found."]%string
           else execute_statement parsed active storage
       | None => execute_statement parsed active storage
       end)%monad.

(** [SQLExecutor.describe] *)
Definition describe (e : t) :=
  map (fun ns => (fst ns, BTreeStorage.describe (snd ns))) (_databases e).

(** [SQLExecutor.active_database] *)
Definition active_database (e : t) : string := _active_db e.

(** [SQLExecutor.databases] *)
Definition databases (e : t) : list string := sorted (dict_keys (_databases e)).

(** [SQLExecutor.lsm_entries] *)
Definition lsm_entries (e : t) : list LSMTreeStorage.entry :=
  LSMTreeStorage.snapshot (_lsm e).

End SQLExecutor.

(** ** Python's [str] methods, on ASCII text *)

Module Py.

(** [str.isspace] below code point 256 *)
Definition is_space (c : ascii) : bool :=
  let n := code c in
  ((9 <=? n) && (n <=? 13)) || ((28 <=? n) && (n <=? 32))
  || (n =? 133) || (n =? 160).

Definition is_upper (c : ascii) : bool := (65 <=? code c) && (code c <=? 90).
Definition is_lower (c : ascii) : bool := (97 <=? code c) && (code c <=? 122).
Definition is_alpha (c : ascii) : bool := is_upper c || is_lower c.

(** a word character of [re]: [\w] *)
Definition is_word (c : ascii) : bool :=
  is_alpha c || is_digit c || (c =? "_")%char.

Definition to_upper (c : ascii) : ascii :=
  if is_lower c then ascii_of_nat (code c - 32) else c.
Definition to_lower (c : ascii) : ascii :=
  if is_upper c then ascii_of_nat (code c + 32) else c.

(** [s.upper()], [s.lower()] *)
Definition upper (s : text) : text := map to_upper s.
Definition lower (s : text) : text := map to_lower s.

Definition is_ascii (s : text) : bool := forallb (fun c => code c <? 128) s.

Fixpoint lstrip_with (p : ascii -> bool) (s : text) : text :=
  match s with
  | c :: r => if p c then lstrip_with p r else s
  | [] => []
  end.

Definition rstrip_with (p : ascii -> bool) (s : text) : text :=
  rev (lstrip_with p (rev s)).

Definition strip_with (p : ascii -> bool) (s : text) : text :=
  rstrip_with p (lstrip_with p s).

(** [s.strip()], [s.rstrip(chars)], [s.strip(chars)] for one character *)
Definition strip (s : text) : text := strip_with is_space s.
Definition rstrip_char (c : ascii) (s : text) : text :=
  rstrip_with (fun x => (x =? c)%char) s.
Definition strip_char (c : ascii) (s : text) : text :=
  strip_with (fun x => (x =? c)%char) s.

(** [s.split()]: the maximal runs of non-space characters *)
Fixpoint split_ws_from (s : text) (cur : text) : list text :=
  match s with
  | [] => match cur with [] => [] | _ => [rev cur] end
  | c :: r =>
      if is_space c then
        match cur with
        | [] => split_ws_from r []
        | _ => rev cur :: split_ws_from r []
        end
      else split_ws_from r (c :: cur)
  end.

Definition split_ws (s : text) : list text := split_ws_from s [].

(** [s.startswith(p)], returning the rest *)
Fixpoint strip_prefix (p s : text) : option text :=
  match p, s with
  | [], _ => Some s
  | a :: p', b :: s' => if (a =? b)%char then strip_prefix p' s' else None
  | _ :: _, [] => None
  end.

(** [s.find(sep)]: the text before and after the first occurrence of a
    non-empty separator *)
Fixpoint find (sep s : text) : option (text * text) :=
  match strip_prefix sep s with
  | Some rest => Some ([], rest)
  | None =>
      match s with
      | [] => None
      | c :: r =>
          match find sep r with
          | Some (a, b) => Some (c :: a, b)
          | None => None
          end
      end
  end.

(** [sep in s] *)
Definition contains (sep s : text) : bool :=
  match find sep s with Some _ => true | None => false end.

(** [s.split(sep, 1)] *)
Definition split1 (sep s : text) : list text :=
  match find sep s with
  | Some (a, b) => [a; b]
  | None => [s]
  end.

(** [s.split(sep)] for a one-character separator *)
Fixpoint split_char_from (sep : ascii) (s : text) (cur : text) : list text :=
  match s with
  | [] => [rev cur]
  | c :: r =>
      if (c =? sep)%char then rev cur :: split_char_from sep r []
      else split_char_from sep r (c :: cur)
  end.

Definition split_char (sep : ascii) (s : text) : list text :=
  split_char_from sep s [].

(** [s.rsplit(sep, 1)[0]] for a one-character separator: the text before
    the last occurrence, or all of it *)
Definition rsplit1_head (sep : ascii) (s : text) : text :=
  match find [sep] (rev s) with
  | Some (_, before) => rev before
  | None => s
  end.

(** [l[i]] *)
Definition item {A} (l : list A) (i : nat) : result A :=
  match nth_error l i with
  | Some x => Val x
  | None => Exn IndexError
  end.

End Py.

(** ** The fragment of Python's [re] the parser uses

    A backtracking matcher in continuation-passing style: alternatives are
    tried in the priority order of [re] (greedy repetition longest first, lazy
    repetition shortest first), and the first complete match wins.  Repetition
    is over character classes only, which is all the three patterns of the
    parser need. *)

Module Re.

Inductive regex : Type :=
| Lit (c : ascii)                    (* a literal, compared without case *)
| Class (p : ascii -> bool)          (* one character of a class *)
| Plus (p : ascii -> bool)           (* p+  *)
| Star (p : ascii -> bool)           (* p*  *)
| LazyPlus (p : ascii -> bool)       (* p+? *)
| Seq (a b : regex)
| Opt (a : regex)                    (* (?:a)? *)
| Group (name : string) (a : regex)  (* (?P<name>a) *)
| EndOfText                          (* $ *)
| WordBoundary.                      (* \b *)

Definition captures := list (string * text).

(** The state of a match: the previous character, the remaining text and
    the groups captured so far. *)
Definition cont (R : Type) := option ascii -> text -> captures -> option R.

Definition last_or (prev : option ascii) (l : text) : option ascii :=
  match rev l with c :: _ => Some c | [] => prev end.

Fixpoint greedy {R} (p : ascii -> bool) (prev : option ascii) (s : text)
         (caps : captures) (k : cont R) : option R :=
  match s with
  | c :: r =>
      if p c then
        match greedy p (Some c) r caps k with
        | Some res => Some res
        | None => k prev s caps
        end
      else k prev s caps
  | [] => k prev s caps
  end.

Fixpoint lazy_ {R} (p : ascii -> bool) (prev : option ascii) (s : text)
         (caps : captures) (k : cont R) : option R :=
  match k prev s caps with
  | Some res => Some res
  | None =>
      match s with
      | c :: r => if p c then lazy_ p (Some c) r caps k else None
      | [] => None
      end
  end.

Definition is_word_opt (c : option ascii) : bool :=
  match c with Some x => Py.is_word x | None => false end.

Fixpoint run {R} (r : regex) (prev : option ascii) (s : text)
         (caps : captures) (k : cont R) : option R :=
  match r with
  | Lit c =>
      match s with
      | x :: rest =>
          if (Py.to_lower x =? Py.to_lower c)%char
          then k (Some x) rest caps else None
      | [] => None
      end
  | Class p =>
      match s with
      | x :: rest => if p x then k (Some x) rest caps else None
      | [] => None
      end
  | Plus p =>
      match s with
      | x :: rest => if p x then greedy p (Some x) rest caps k else None
      | [] => None
      end
  | Star p => greedy p prev s caps k
  | LazyPlus p =>
      match s with
      | x :: rest => if p x then lazy_ p (Some x) rest caps k else None
      | [] => None
      end
  | Seq a b => run a prev s caps (fun prev' s' caps' => run b prev' s' caps' k)
  | Opt a =>
      match run a prev s caps k with
      | Some res => Some res
      | None => k prev s caps
      end
  | Group name a =>
      run a prev s caps
          (fun prev' s' caps' =>
             k prev' s' ((name, firstn (length s - length s') s) :: caps'))
  | EndOfText =>
      match s with
      | [] => k prev s caps
      | [c] => if code c =? 10 then k prev s caps else None
      | _ => None
      end
  | WordBoundary =>
      if xorb (is_word_opt prev) (is_word_opt (hd_error s))
      then k prev s caps else None
  end.

(** [pattern.match(s)]: the groups of the match at the start of [s], and the
    unmatched rest. *)
Definition match_ (r : regex) (s : text) : option (captures * text) :=
  run r None s [] (fun _ rest caps => Some (caps, rest)).

(** [pattern.search(s)]: the text before the leftmost match and the text
    after it. *)
Fixpoint search_from (r : regex) (prev : option ascii) (before s : text)
  : option (text * text) :=
  match run r prev s [] (fun _ rest _ => Some rest) with
  | Some rest => Some (rev before, rest)
  | None =>
      match s with
      | c :: s' => search_from r (Some c) (c :: before) s'
      | [] => None
      end
  end.

Definition search (r : regex) (s : text) : option (text * text) :=
  search_from r None [] s.

(** [match.group(name)]: [None] for a group that did not take part. *)
Definition group (caps : captures) (name : string) : option text :=
  dict_get String.eqb caps name.

Fixpoint word (w : text) : regex :=
  match w with
  | [] => Star (fun _ => false)
  | [c] => Lit c
  | c :: r => Seq (Lit c) (word r)
  end.

Fixpoint seq_of (l : list regex) : regex :=
  match l with
  | [] => Star (fun _ => false)
  | [r] => r
  | r :: rest => Seq r (seq_of rest)
  end.

Definition ws1 : regex := Plus Py.is_space.            (* \s+ *)
Definition ws0 : regex := Star Py.is_space.            (* \s* *)
Definition ident : regex := Plus Py.is_word.           (* \w+ *)
Definition any (c : ascii) : bool := negb (code c =? 10).   (* . *)

End Re.

(** ** The fragment of [ast.literal_eval] the development evaluates

    Literals built from [None], [True], [False], decimal integers with an
    optional sign, quoted text without escapes, parenthesised expressions,
    tuples and lists.  A bare identifier makes [literal_eval] raise
    ValueError.  On any other input the model answers [Unsupported]. *)

Module Ast.

Inductive token : Type :=
| TName (s : text)
| TInt (z : Z)
| TStr (s : text)
| TOp (c : ascii).

Unset Elimination Schemes.
Inductive expr : Type :=
| EConst (v : value)
| EName (s : text)
| ETuple (items : list expr)
| EList (items : list expr).
Set Elimination Schemes.

Definition is_name_start (c : ascii) : bool :=
  Py.is_alpha c || (c =? "_")%char.

Definition is_quote (c : ascii) : bool :=
  (c =? squote)%char || (c =? dquote)%char.

Definition is_op (c : ascii) : bool :=
  existsb (fun x => (x =? c)%char) (txt "()[],+-").

(** the body of a quoted literal, up to the closing quote *)
Fixpoint scan_quoted (q : ascii) (s : text) : option (text * text) :=
  match s with
  | [] => None
  | c :: r =>
      if (c =? q)%char then Some ([], r)
      else if (c =? backslash)%char || (code c <? 32) || (127 <? code c)
      then None
      else match scan_quoted q r with
           | Some (a, b) => Some (c :: a, b)
           | None => None
           end
  end.

Definition follows_ok (rest : text) : bool :=
  match rest with
  | [] => true
  | c :: _ => (c =? " ")%char || (code c =? 9) || is_op c
  end.

Fixpoint tokenize (fuel : nat) (s : text) : option (list token) :=
  match fuel with
  | O => None
  | S f =>
      match s with
      | [] => Some []
      | c :: r =>
          if (c =? " ")%char || (code c =? 9) then tokenize f r
          else if is_op c then option_map (cons (TOp c)) (tokenize f r)
          else if is_quote c then
            match scan_quoted c r with
            | Some (body, rest) =>
                if follows_ok rest
                then option_map (cons (TStr body)) (tokenize f rest)
                else None
            | None => None
            end
          else if is_digit c then
            let (ds, rest) := span is_digit s in
            if ((c =? "0")%char && (1 <? length ds)) || (4300 <? length ds)
               || negb (follows_ok rest)
            then None
            else
              match NilEmpty.uint_of_string (str ds) with
              | Some d => option_map (cons (TInt (Z.of_uint d))) (tokenize f rest)
              | None => None
              end
          else if is_name_start c then
            let (nm, rest) := span Py.is_word s in
            if follows_ok rest
            then option_map (cons (TName nm)) (tokenize f rest)
            else None
          else None
      end
  end.

Definition keywords : list string :=
  ["and"; "as"; "assert"; "async"; "await"; "break"; "class"; "continue";
   "def"; "del"; "elif"; "else"; "except"; "finally"; "for"; "from";
   "global"; "if"; "import"; "in"; "is"; "lambda"; "nonlocal"; "not"; "or";
   "pass"; "raise"; "return"; "try"; "while"; "with"; "yield"]%string.

Definition atom_of_name (nm : text) : option expr :=
  let s := str nm in
  if String.eqb s "None" then Some (EConst VNone)
  else if String.eqb s "True" then Some (EConst (VBool true))
  else if String.eqb s "False" then Some (EConst (VBool false))
  else if str_in s keywords then None
  else Some (EName nm).

(** One expression, and the items of a bracketed display up to its closing
    bracket ([trailing]: a comma was seen). *)
Fixpoint parse_expr (fuel : nat) (ts : list token)
  : option (expr * list token) :=
  match fuel with
  | O => None
  | S f =>
      match ts with
      | TName nm :: r =>
          match atom_of_name nm with
          | Some e => Some (e, r)
          | None => None
          end
      | TInt z :: r => Some (EConst (VInt z), r)
      | TStr s :: r => Some (EConst (VStr (str s)), r)
      | TOp c :: r =>
          if (c =? "-")%char then
            match r with
            | TInt z :: r' => Some (EConst (VInt (- z)), r')
            | _ => None
            end
          else if (c =? "+")%char then
            match r with
            | TInt z :: r' => Some (EConst (VInt z), r')
            | _ => None
            end
          else if (c =? "(")%char then
            match parse_items f ")"%char r [] false with
            | Some (items, commas, r') =>
                match items, commas with
                | [e], false => Some (e, r')
                | _, _ => Some (ETuple items, r')
                end
            | None => None
            end
          else if (c =? "[")%char then
            match parse_items f "]"%char r [] false with
            | Some (items, _, r') => Some (EList items, r')
            | None => None
            end
          else None
      | [] => None
      end
  end
with parse_items (fuel : nat) (close : ascii) (ts : list token)
                 (acc : list expr) (commas : bool)
  : option (list expr * bool * list token) :=
  match fuel with
  | O => None
  | S f =>
      match ts with
      | TOp c :: r =>
          if (c =? close)%char then Some (acc, commas, r)
          else next_item f close ts acc commas
      | _ => next_item f close ts acc commas
      end
  end
with next_item (fuel : nat) (close : ascii) (ts : list token)
               (acc : list expr) (commas : bool)
  : option (list expr * bool * list token) :=
  match fuel with
  | O => None
  | S f =>
      match parse_expr f ts with
      | Some (e, r) =>
          match r with
          | TOp c :: r' =>
              if (c =? close)%char then Some (acc ++ [e], commas, r')
              else if (c =? ",")%char
              then parse_items f close r' (acc ++ [e]) true
              else None
          | _ => None
          end
      | None => None
      end
  end.

(** [_convert] of [ast.literal_eval] *)
Fixpoint convert (e : expr) : result value :=
  let fix convert_all (l : list expr) : result (list value) :=
    match l with
    | [] => Val []
    | x :: r =>
        rbind (convert x) (fun v =>
        rbind (convert_all r) (fun vs => Val (v :: vs)))
    end in
  match e with
  | EConst v => Val v
  | EName _ => Exn ValueError
  | ETuple items => rbind (convert_all items) (fun vs => Val (VTuple vs))
  | EList items => rbind (convert_all items) (fun vs => Val (VList vs))
  end.

(** [ast.literal_eval(s)] *)
Definition literal_eval (s : text) : result value :=
  match tokenize (S (length s)) s with
  | None => Exn Unsupported
  | Some [] => Exn SyntaxError
  | Some ts =>
      match parse_expr (3 * S (length ts)) ts with
      | Some (e, []) => convert e
      | _ => Exn Unsupported
      end
  end.

End Ast.

(** ** core/parser.py *)

Module SQLParser.

Import Re.

(** [_SELECT_RE] *)
Definition _SELECT_RE : regex :=
  seq_of
    [ word (txt "SELECT"); ws1; Group "cols" (LazyPlus any); ws1;
      word (txt "FROM"); ws1; Group "table" ident;
      Opt (seq_of
             [ ws1; word (txt "INNER"); ws1; word (txt "JOIN"); ws1;
               Group "join_table" ident; ws1; word (txt "ON"); ws1;
               Group "left_table" ident; Lit "."; Group "left_col" ident;
               ws0; Lit "="; ws0;
               Group "right_table" ident; Lit "."; Group "right_col" ident ]);
      Opt (seq_of
             [ ws1; word (txt "WHERE"); ws1; Group "where_col" ident;
               ws0; Lit "="; ws0; Group "where_val" (Plus any) ]);
      EndOfText ].

(** the pattern of [_parse_insert] *)
Definition INSERT_RE : regex :=
  seq_of
    [ word (txt "INSERT"); ws1; word (txt "INTO"); ws1;
      Group "table" ident; ws1; word (txt "VALUES"); ws0;
      Lit "("; Group "values" (Plus any); Lit ")"; EndOfText ].

(** the pattern of [_split_keyword] for WHERE *)
Definition WHERE_RE : regex :=
  seq_of [ WordBoundary; word (txt "WHERE"); WordBoundary ].

Definition lower_str (s : text) : string := str (Py.lower s).
Definition upper_str (s : text) : string := str (Py.upper s).

(** [SQLParser._parse_literal] *)
Definition _parse_literal (t : text) : result value :=
  match Ast.literal_eval t with
  | Val v => Val v
  | Exn Unsupported => Exn Unsupported
  | Exn _ => Val (VStr (str (Py.strip_char squote t)))
  end.

(** [SQLParser._parse_value_list] *)
Definition _parse_value_list (segment : text) : result (list value) :=
  rbind (Ast.literal_eval ("("%char :: segment ++ [")"%char])) (fun values =>
    match values with
    | VTuple items => Val items
    | v => Val [v]
    end).

(** [SQLParser._parse_condition] on a non-empty clause *)
Definition _parse_condition (clause : text) : result condition :=
  match Py.split1 ["="%char] clause with
  | [column; value] =>
      rbind (_parse_literal (Py.strip value)) (fun v =>
        Val (mk_condition (lower_str (Py.strip column)) v))
  | _ => Exn ValueError
  end.

(** [SQLParser._split_keyword] for WHERE *)
Definition _split_keyword (t : text) : list text :=
  match search WHERE_RE t with
  | None => [t]
  | Some (before, after) => [Py.strip before; Py.strip after]
  end.

(** [SQLParser._parse_create_table] *)
Definition _parse_create_table (t : text) : result details :=
  match Py.split1 ["("%char] t with
  | [header; cols] =>
      rbind (Py.item (Py.split_ws header) 2) (fun tname =>
        let inner := Py.rsplit1_head ")"%char cols in
        let column_defs :=
          flat_map
            (fun chunk =>
               match Py.split_ws (Py.strip chunk) with
               | [] => []
               | [name] => [(lower_str name, "TEXT"%string)]
               | name :: col_type :: _ => [(lower_str name, upper_str col_type)]
               end)
            (Py.split_char ","%char inner) in
        Val (DCreateTable (lower_str tname) column_defs))
  | _ => Exn ValueError
  end.

(** [SQLParser._parse_alter_table] *)
Definition _parse_alter_table (t : text) : result details :=
  let tokens := Py.split_ws t in
  rbind (Py.item tokens 2) (fun tname =>
    match tokens with
    | _ :: _ :: _ :: add :: column :: name :: col_type :: _ =>
        if String.eqb (upper_str add) "ADD"
           && String.eqb (upper_str column) "COLUMN"
        then Val (DAlterTable (lower_str tname) (lower_str name)
                              (upper_str col_type))
        else Val DEmpty
    | _ => Val DEmpty
    end).

(** [SQLParser._parse_insert] *)
Definition _parse_insert (t : text) : result details :=
  match match_ INSERT_RE t with
  | None => Val DEmpty
  | Some (caps, _) =>
      match group caps "values", group caps "table" with
      | Some values, Some table =>
          rbind (_parse_value_list values) (fun vs =>
            Val (DInsert (lower_str table) vs))
      | _, _ => Exn Unsupported
      end
  end.

(** The statement before WHERE and the WHERE clause, as [_parse_update] and
    [_parse_delete] compute them. *)
Definition prefix_and_where (t : text) : result (text * option text) :=
  if Py.contains (txt " WHERE ") (Py.upper t) then
    match _split_keyword t with
    | [prefix; where_part] => Val (prefix, Some where_part)
    | _ => Exn ValueError
    end
  else Val (t, None).

(** [self._parse_condition(where_part) if where_part else None] *)
Definition where_of (where_part : option text) : result (option condition) :=
  match where_part with
  | None | Some [] => Val None
  | Some clause => rbind (_parse_condition clause) (fun c => Val (Some c))
  end.

Fixpoint parse_assignments (chunks : list text)
         (acc : dict string value) : result (dict string value) :=
  match chunks with
  | [] => Val acc
  | chunk :: rest =>
      match Py.split1 ["="%char] chunk with
      | [column; value] =>
          rbind (_parse_literal (Py.strip value)) (fun v =>
            parse_assignments rest
              (dict_set String.eqb acc (lower_str (Py.strip column)) v))
      | _ => Exn ValueError
      end
  end.

(** [SQLParser._parse_update] *)
Definition _parse_update (t : text) : result details :=
  rbind (prefix_and_where t) (fun pw =>
    let prefix := fst pw in
    rbind (Py.item (Py.split_ws prefix) 1) (fun tname =>
    rbind (Py.item (Py.split1 (txt " SET ") prefix) 1) (fun set_clause =>
    rbind (parse_assignments (Py.split_char ","%char set_clause) [])
          (fun assignments =>
    rbind (where_of (snd pw)) (fun where_ =>
      Val (DUpdate (lower_str tname) assignments where_)))))).

(** [SQLParser._parse_delete] *)
Definition _parse_delete (t : text) : result details :=
  rbind (prefix_and_where t) (fun pw =>
    rbind (Py.item (Py.split_ws (fst pw)) 2) (fun tname =>
    rbind (where_of (snd pw)) (fun where_ =>
      Val (DDelete (lower_str tname) where_)))).

(** [SQLParser._parse_select] *)
Definition _parse_select (t : text) : result details :=
  match match_ _SELECT_RE t with
  | None => Val DEmpty
  | Some (caps, _) =>
      match group caps "cols", group caps "table" with
      | Some cols, Some table =>
          let columns :=
            map (fun col => str (Py.strip col)) (Py.split_char ","%char cols) in
          rbind
            (match group caps "where_col", group caps "where_val" with
             | Some c, Some v =>
                 rbind (_parse_literal v) (fun value =>
                   Val (Some (mk_condition (lower_str c) value)))
             | _, _ => Val None
             end) (fun where_ =>
          let join :=
            match group caps "join_table", group caps "left_table",
                  group caps "left_col", group caps "right_table",
                  group caps "right_col" with
            | Some jt, Some lt, Some lc, Some rt, Some rc =>
                Some (mk_join (lower_str jt) (lower_str lt) (lower_str lc)
                              (lower_str rt) (lower_str rc))
            | _, _, _, _, _ => None
            end in
          Val (DSelect (lower_str table) columns where_ join))
      | _, _ => Exn Unsupported
      end
  end.

(** The dictionary [parsers] of [parse], keyed by the first two words. *)
Definition two_word (command second : string) (t : text) (tokens : list text)
  : option (result (string * details)) :=
  let name_at (i : nat) (k : string -> details) : result details :=
    rbind (Py.item tokens i) (fun x => Val (k (lower_str x))) in
  let tag (c : string) (r : result details) : result (string * details) :=
    rbind r (fun d => Val (c, d)) in
  if String.eqb command "CREATE" && String.eqb second "DATABASE" then
    Some (tag "CREATE_DATABASE"%string (name_at 2 DName))
  else if String.eqb command "ALTER" && String.eqb second "DATABASE" then
    Some (tag "ALTER_DATABASE"%string (name_at 2 DName))
  else if String.eqb command "CREATE" && String.eqb second "TABLE" then
    Some (tag "CREATE_TABLE"%string (_parse_create_table t))
  else if String.eqb command "ALTER" && String.eqb second "TABLE" then
    Some (tag "ALTER_TABLE"%string (_parse_alter_table t))
  else if String.eqb command "DROP" && String.eqb second "TABLE" then
    Some (tag "DROP_TABLE"%string (name_at 2 DTable))
  else if String.eqb command "CREATE" && String.eqb second "INDEX" then
    Some (tag "CREATE_INDEX"%string
            (rbind (Py.item tokens 2) (fun tb =>
             rbind (Py.item tokens 3) (fun col =>
               Val (DIndex (lower_str tb) (lower_str col))))))
  else if String.eqb command "DROP" && String.eqb second "INDEX" then
    Some (tag "DROP_INDEX"%string
            (rbind (Py.item tokens 2) (fun tb =>
             rbind (Py.item tokens 3) (fun col =>
               Val (DIndex (lower_str tb) (lower_str col))))))
  else None.

(** [SQLParser.parse], for ASCII queries *)
Definition parse (query : string) : result ParsedCommand :=
  if negb (Py.is_ascii (txt query)) then Exn Unsupported
  else
    let raw := Py.strip (txt query) in
    match raw with
    | [] => Val (mk_command "EMPTY" EmptyString [] DEmpty)
    | _ :: _ =>
        let t := Py.rstrip_char ";"%char raw in
        let tokens := Py.split_ws t in
        rbind (Py.item tokens 0) (fun first =>
          let command := upper_str first in
          let finish (cd : string * details) : result ParsedCommand :=
            Val (mk_command (fst cd) (str raw) (map str tokens) (snd cd)) in
          if String.eqb command "COMMIT" then finish (command, DEmpty)
          else if String.eqb command "USE" then
            match tokens with
            | _ :: name :: _ => finish ("USE_DATABASE"%string, DName (lower_str name))
            | _ => finish ("UNKNOWN"%string, DEmpty)
            end
          else if String.eqb command "INSERT" then
            rbind (_parse_insert t) (fun d => finish (command, d))
          else if String.eqb command "UPDATE" then
            rbind (_parse_update t) (fun d => finish (command, d))
          else if String.eqb command "DELETE" then
            rbind (_parse_delete t) (fun d => finish (command, d))
          else if String.eqb command "SELECT" then
            rbind (_parse_select t) (fun d => finish (command, d))
          else
            match tokens with
            | _ :: second :: _ =>
                match two_word command (upper_str second) t tokens with
                | Some r => rbind r finish
                | None => finish ("UNKNOWN"%string, DEmpty)
                end
            | _ => finish ("UNKNOWN"%string, DEmpty)
            end)
    end.

End SQLParser.

(** ** core/engine.py *)

Module DatabaseEngine.

Definition t := SQLExecutor.t.

(** [DatabaseEngine.execute]: parse, then execute. *)
Definition execute (query : string) : M t (list string) :=
  bind (lift_result (SQLParser.parse query)) SQLExecutor.execute.

(** [DatabaseEngine.describe], [active_database], [databases],
    [lsm_entries] *)
Definition describe (e : t) := SQLExecutor.describe e.
Definition active_database (e : t) : string := SQLExecutor.active_database e.
Definition databases (e : t) : list string := SQLExecutor.databases e.
Definition lsm_entries (e : t) := SQLExecutor.lsm_entries e.

(** The engine over an empty data directory: [SQLExecutor.__init__] creates
    the database "default" and makes it active. *)
Definition fresh : Res t unit :=
  bind (SQLExecutor._ensure_database "default")
       (fun _ => modify (SQLExecutor.set_active "default"))
       (SQLExecutor.mk LSMTreeStorage.init [] "default").

(** Running a sequence of queries, whatever each one does: the outcomes in
    order and the final state. *)
Inductive outcome : Type :=
| Lines (l : list string)
| Raised (e : exn).

Fixpoint run (queries : list string) (e : t) : list outcome * t :=
  match queries with
  | [] => ([], e)
  | q :: rest =>
      match execute q e with
      | Ok lines e' => let (os, e'') := run rest e' in (Lines lines :: os, e'')
      | Raise x e' => let (os, e'') := run rest e' in (Raised x :: os, e'')
      end
  end.

End DatabaseEngine.

(** * Specification vocabulary

    The notions the theorems below are stated with: the induction principle of
    values, what an index must contain, the invariant of the table manager and
    the relational meaning of the queries. *)

Unset Implicit Arguments.

Section ValueInduction.
Variable P : value -> Prop.
Hypothesis HNone : P VNone.
Hypothesis HBool : forall b, P (VBool b).
Hypothesis HInt : forall z, P (VInt z).
Hypothesis HStr : forall s, P (VStr s).
Hypothesis HTuple : forall l, Forall P l -> P (VTuple l).
Hypothesis HList : forall l, Forall P l -> P (VList l).

Fixpoint value_ind (v : value) : P v :=
  let fix all (l : list value) : Forall P l :=
    match l with
    | [] => Forall_nil P
    | x :: r => Forall_cons x (value_ind x) (all r)
    end in
  match v with
  | VNone => HNone
  | VBool b => HBool b
  | VInt z => HInt z
  | VStr s => HStr s
  | VTuple l => @HTuple l (all l)
  | VList l => @HList l (all l)
  end.
End ValueInduction.

Fixpoint items_eqb (l m : list value) : bool :=
  match l, m with
  | [], [] => true
  | x :: l', y :: m' => value_eqb x y && items_eqb l' m'
  | _, _ => false
  end.

Section JsonInduction.
Variable P : json -> Prop.
Hypothesis HNull : P JNull.
Hypothesis HBool : forall b, P (JBool b).
Hypothesis HInt : forall z, P (JInt z).
Hypothesis HStr : forall s, P (JStr s).
Hypothesis HArr : forall l, Forall P l -> P (JArr l).
Hypothesis HObj : forall l, Forall (fun kv => P (snd kv)) l -> P (JObj l).

Fixpoint json_ind (j : json) : P j :=
  match j with
  | JNull => HNull
  | JBool b => HBool b
  | JInt z => HInt z
  | JStr s => HStr s
  | JArr l =>
      HArr l ((fix all (l : list json) : Forall P l :=
                 match l with
                 | [] => Forall_nil P
                 | x :: r => Forall_cons x (json_ind x) (all r)
                 end) l)
  | JObj l =>
      HObj l ((fix all (l : list (string * json))
               : Forall (fun kv => P (snd kv)) l :=
                 match l with
                 | [] => Forall_nil _
                 | x :: r => Forall_cons x (json_ind (snd x)) (all r)
                 end) l)
  end.
End JsonInduction.

(** A JSON value in which no object repeats a key: what [json.dumps] is given
    when it serializes dictionaries. *)
Fixpoint proper (j : json) : Prop :=
  match j with
  | JArr items => fold_right (fun x acc => proper x /\ acc) True items
  | JObj members =>
      NoDup (map fst members)
      /\ fold_right (fun kv acc => proper (snd kv) /\ acc) True members
  | _ => True
  end.

(** The number of pages a payload needs: [(len + size - 1) // size]. *)
Definition needed (ps : Z) (data : bytes) : Z :=
  ((Z.of_nat (length data) + ps - 1) / ps)%Z.

Module Spec.
Import BTreeStorage.

(** The key under which a row is filed, and [index.get(value, [])]. *)
Definition key_of (st : list row) (column : string) (a : address) : value :=
  row_get (deref st a) column.

Definition find (idx : index) (v : value) : list address :=
  match dict_get py_eqb idx v with Some l => l | None => [] end.

Definition tget (s : t) (name : string) : option table :=
  dict_get String.eqb (_tables s) name.

(** [s'] is [s] with the table bound to [name] replaced by [tb'] and the
    store by [st']. *)
Record updated (s s' : t) (name : string) (tb' : table) (st' : list row)
  : Prop := {
  upd_store : store s' = st';
  upd_keys : dict_keys (_tables s') = dict_keys (_tables s);
  upd_get : forall n, tget s' n = if String.eqb name n then Some tb' else tget s n
}.

(** Every index of the table is what [_rebuild_index] would build from the
    table's current rows. *)
Definition index_ok (st : list row) (tb : table) : Prop :=
  forall column idx,
    dict_get String.eqb (indexes tb) column = Some idx ->
    build_index st column (rows tb) [] = Val idx.

(** The invariant of the table manager: names are unique, row objects exist
    and belong to one table, and every index is derived from the rows. *)
Record wf (s : t) : Prop := {
  wf_names : NoDup (dict_keys (_tables s));
  wf_index_names :
    forall name tb, tget s name = Some tb -> NoDup (dict_keys (indexes tb));
  wf_bounds :
    forall name tb a,
      tget s name = Some tb -> In a (rows tb) -> a < length (store s);
  wf_disjoint :
    forall n1 n2 tb1 tb2 a,
      n1 <> n2 -> tget s n1 = Some tb1 -> tget s n2 = Some tb2 ->
      In a (rows tb1) -> ~ In a (rows tb2);
  wf_index :
    forall name tb, tget s name = Some tb -> index_ok (store s) tb
}.

Definition old_rows (s : t) (name : string) : list address :=
  match tget s name with Some tb => rows tb | None => [] end.

(** The store after [update_row a f]. *)
Definition store_set (st : list row) (a : address) (f : row -> row) : list row :=
  firstn a st ++ match skipn a st with r :: rest => f r :: rest | [] => [] end.

(** The rows a WHERE clause selects, by comparing every row. *)
Definition matching (st : list row) (w : condition) (rs : list address)
  : list address :=
  filter (fun a => py_eqb (key_of st (cond_column w) a) (cond_value w)) rs.

(** The projection of [select_rows] without a join. *)
Definition project (cols : list string) (rows : list row) : list row :=
  if is_wildcard cols then rows
  else map (fun row =>
              dict_of_items String.eqb
                (map (fun col => (col, row_get row (unqualified col))) cols))
           rows.

(** The rows of the joined table whose join column equals the key of a left
    row. *)
Definition partners (rc lc : string) (right_rows : list row) (left : row)
  : list row :=
  filter (fun right => py_eqb (row_get right rc) (row_get left lc)) right_rows.

(** What an inner join is: for each left row, in order, one combined row per
    partner. *)
Definition inner_join (lcols rcols : list string) (j : join_spec)
           (cols : list string) (left_rows right_rows : list row) : list row :=
  flat_map
    (fun left =>
       map (combine lcols rcols j cols left)
           (partners (right_column j) (left_column j) right_rows left))
    left_rows.


(** What a call yields, apart from the state: its value or its exception. *)
Definition answer {S A} (r : Res S A) : result A :=
  match r with Ok a _ => Val a | Raise e _ => Exn e end.

(** *** Persistence *)

(** A value without a tuple inside: JSON has arrays only, so these are the
    values a snapshot gives back as they were. *)
Fixpoint plain (v : value) : bool :=
  match v with
  | VTuple _ => false
  | VList l => forallb plain l
  | _ => true
  end.

(** A row the snapshot holds unchanged: a dictionary of plain values. *)
Definition storable_row (r : row) : Prop :=
  NoDup (dict_keys r) /\ Forall (fun kv => plain (snd kv) = true) r.

(** Every row object is storable. *)
Definition storable (s : t) : Prop := Forall storable_row (store s).

(** What is observable of a table: its columns, its rows in order and the
    sorted names of its indexed columns. *)
Definition table_view : Type := (list string * list row * list string)%type.

Definition view_of (st : list row) (tb : table) : table_view :=
  (columns tb, map (deref st) (rows tb), sorted (dict_keys (indexes tb))).

Definition view (s : t) : dict string table_view :=
  map (fun nm => (fst nm, view_of (store s) (snd nm))) (_tables s).

(** [describe] reads the view only. *)
Definition describe_view (v : dict string table_view)
  : list (string * (list string * Z * list string)) :=
  map (fun nv =>
         match snd nv with
         | (cols, rws, idx) => (fst nv, (cols, Z.of_nat (length rws), idx))
         end) v.

(** The rows a WHERE clause selects, by value; an unhashable value cannot be
    looked up in an index. *)
Definition rows_where (tv : table_view) (where_ : option condition)
  : result (list row) :=
  match tv, where_ with
  | (_, rws, _), None => Val rws
  | (_, rws, idx), Some w =>
      if str_in (cond_column w) idx && negb (hashable (cond_value w))
      then Exn TypeError
      else Val (filter (fun r => py_eqb (row_get r (cond_column w))
                                        (cond_value w)) rws)
  end.

(** What SELECT answers, as a function of the view. *)
Definition query (v : dict string table_view) (name : string)
           (cols : list string) (where_ : option condition)
           (join : option join_spec) : result (list row) :=
  match dict_get String.eqb v name with
  | None => Exn (KeyError name)
  | Some tv =>
      rbind (rows_where tv where_) (fun lefts =>
        match join with
        | None => Val (project cols lefts)
        | Some j =>
            match dict_get String.eqb v (join_table j) with
            | None => Exn (KeyError (join_table j))
            | Some (rcols, rrows, _) =>
                if forallb (fun r => hashable (row_get r (right_column j))) rrows
                   && forallb (fun l => hashable (row_get l (left_column j))) lefts
                then Val (inner_join (fst (fst tv)) rcols j cols lefts rrows)
                else Exn TypeError
            end
        end)
  end.

(** A new table manager over the pager of [s]: [BTreeStorage(pager)]. *)
Definition reload (s : t) : Res t unit := BTreeStorage.init (_pager s).

(** The operations of the table manager, run for their effect. *)
Inductive operation : Type :=
| OpCreateTable (name : string) (cols : list string)
| OpDropTable (name : string)
| OpAddColumn (name column : string)
| OpCreateIndex (name column : string)
| OpDropIndex (name column : string)
| OpInsertRow (name : string) (values : list value)
| OpUpdateRows (name : string) (assignments : dict string value)
               (where_ : option condition)
| OpDeleteRows (name : string) (where_ : option condition)
| OpSelectRows (name : string) (cols : list string)
               (where_ : option condition) (join : option join_spec).

Definition run_op (o : operation) : M t unit :=
  match o with
  | OpCreateTable name cols => create_table name cols
  | OpDropTable name => drop_table name
  | OpAddColumn name column => add_column name column
  | OpCreateIndex name column => create_index name column
  | OpDropIndex name column => drop_index name column
  | OpInsertRow name values => bind (insert_row name values) (fun _ => ret tt)
  | OpUpdateRows name asg w => bind (update_rows name asg w) (fun _ => ret tt)
  | OpDeleteRows name w => bind (delete_rows name w) (fun _ => ret tt)
  | OpSelectRows name cols w j =>
      bind (select_rows name cols w j) (fun _ => ret tt)
  end.

(** The table manager has a pager, with pages of positive size. *)
Definition pager_ok (s : t) : Prop :=
  exists p, _pager s = Some p /\ (0 < Pager.page_size p)%Z.

(** What a snapshot gives back unchanged. *)
Definition persistable (s : t) : Prop := storable s /\ pager_ok s.

(** An operation that hands only plain values to the table manager. *)
Definition plain_op (o : operation) : Prop :=
  match o with
  | OpInsertRow _ values => Forall (fun v => plain v = true) values
  | OpUpdateRows _ asg _ => Forall (fun kv => plain (snd kv) = true) asg
  | _ => True
  end.

(** A computation keeps [I] whenever it returns. *)
Definition keeps {A} (I : t -> Prop) (m : M t A) : Prop :=
  forall s a s', I s -> m s = Ok a s' -> I s'.

(** A computation that leaves the pager and the rows alone. *)
Definition frame {A} (m : M t A) : Prop :=
  forall s a s', m s = Ok a s' -> store s' = store s /\ _pager s' = _pager s.

(** A list of names in ascending order. *)
Definition ascending (l : list string) : Prop :=
  match l with
  | [] => True
  | x :: r =>
      (fix chain (x : string) (r : list string) : Prop :=
         match r with
         | [] => True
         | y :: r' => String.leb x y = true /\ chain y r'
         end) x r
  end.

(** The table manager of a new database: what [BTreeStorage(pager)] is over
    a pager without data. *)
Definition empty_manager (p : Pager.t) : t := mk (Some p) [] [].

(** Operations one after the other, up to the first that raises. *)
Definition run_ops (ops : list operation) : M t unit := for_each ops run_op.

(** *** What the operations do to the view *)

(** Whether a row satisfies a WHERE clause; without a clause every row
    does. *)
Definition hit (where_ : option condition) (r : row) : bool :=
  match where_ with
  | None => true
  | Some w => py_eqb (row_get r (cond_column w)) (cond_value w)
  end.

(** Every row object is a dictionary: no key occurs twice in it. *)
Definition rows_are_dicts (s : t) : Prop :=
  Forall (fun r => NoDup (dict_keys r)) (store s).

(** The view with the entry of one table replaced. *)
Definition with_table (s : t) (name : string) (tv : table_view)
  : dict string table_view :=
  dict_set String.eqb (view s) name tv.

(** The row values of a table, in order. *)
Definition rows_of (s : t) (tb : table) : list row :=
  map (deref (store s)) (rows tb).

(** The sorted names of the indexed columns of a table. *)
Definition index_names (tb : table) : list string :=
  sorted (dict_keys (indexes tb)).

(** *** The file *)

(** [BTreeStorage(Pager(file, page_size=requested))]: a new table manager
    over a new pager on the file, as the executor builds one for a database
    ([None]: the file does not exist). *)
Definition reopen (requested : Z) (file : option bytes) : result t :=
  match Pager.init file requested with
  | Raise x _ => Exn x
  | Ok _ pager =>
      match BTreeStorage.init (Some pager) with
      | Raise x _ => Exn x
      | Ok _ st => Val st
      end
  end.

(** The file of the table manager's pager. *)
Definition file_of (s : t) : option bytes :=
  match _pager s with
  | Some p => Pager._file p
  | None => None
  end.

(** The file holds the state: a table manager opened on it shows the view
    of this one. *)
Definition durable (requested : Z) (s : t) : Prop :=
  exists s2,
    reopen requested (file_of s) = Val s2 /\ wf s2 /\ view s2 = view s.

(** A table manager in a state that persists, and whose file is current. *)
Definition firm (requested : Z) (s : t) : Prop :=
  wf s /\ persistable s /\ durable requested s.

(** A computation that, when it returns, has written the state it leaves
    to the pager or has left the view and the pager as they were. *)
Definition settles {A} (m : M t A) : Prop :=
  forall s a s',
    wf s -> m s = Ok a s' ->
    (exists s1 u, _persist s1 = Ok u s')
    \/ (view s' = view s /\ _pager s' = _pager s).

(** An operation other than a SELECT with a JOIN. *)
Definition no_join (o : operation) : Prop :=
  match o with
  | OpSelectRows _ _ _ (Some _) => False
  | _ => True
  end.

End Spec.

Module ExecSpec.
Import SQLExecutor.

(** The active database is one of the databases. *)
Definition active_ok (e : t) : Prop :=
  dict_mem String.eqb (_databases e) (_active_db e) = true.

(** INSERT, UPDATE and DELETE are the statements the executor logs. *)
Definition is_dml (cmd : string) : bool :=
  String.eqb cmd "INSERT" || String.eqb cmd "UPDATE" || String.eqb cmd "DELETE".

(** The statement names a table the active database does not have (the
    executor then reports "not found" and does nothing). *)
Definition table_missing (p : ParsedCommand) (e : t) : bool :=
  match details_table (cmd_details p),
        dict_get String.eqb (_databases e) (_active_db e) with
  | Some tname, Some st =>
      negb (String.eqb tname EmptyString)
      && negb (BTreeStorage.table_exists st tname)
  | _, _ => false
  end.

(** A mutating statement: an INSERT, UPDATE or DELETE on an existing table
    that runs to completion. *)
Definition mutating (p : ParsedCommand) (e : t) : bool :=
  is_dml (command p) && negb (table_missing p e) && returns (execute p e).

(** Executing statements one after the other; a statement that raises leaves
    the state it had reached. *)
Fixpoint run (ps : list ParsedCommand) (e : t) : t :=
  match ps with
  | [] => e
  | p :: rest => run rest (state_of (execute p e))
  end.

(** The kinds of the mutating statements of a run, in order. *)
Fixpoint mutating_commands (ps : list ParsedCommand) (e : t) : list string :=
  match ps with
  | [] => []
  | p :: rest =>
      (if mutating p e then [command p] else [])
        ++ mutating_commands rest (state_of (execute p e))
  end.

(** The line COMMIT answers for [n] flushed entries. *)
Definition commit_report (n : nat) : string :=
  ("Committed " ++ str_of_int (Z.of_nat n) ++ " entr"
     ++ (if (n =? 1)%nat then "y" else "ies") ++ ".")%string.

(** A computation that leaves the commit log and the active database's
    membership alone, whether it returns or raises. *)
Definition quiet {A} (m : M t A) : Prop :=
  forall e,
    _lsm (state_of (m e)) = _lsm e
    /\ (forall n, dict_mem String.eqb (_databases e) n = true ->
                  dict_mem String.eqb (_databases (state_of (m e))) n = true).

Definition keeps_active {A} (m : M t A) : Prop :=
  forall e, _active_db (state_of (m e)) = _active_db e.

(** What a statement does to the log: it appends [new]. *)
Definition appends {A} (m : M t A) (e : t) (kinds : list string) : Prop :=
  (forall n, dict_mem String.eqb (_databases e) n = true ->
             dict_mem String.eqb (_databases (state_of (m e))) n = true)
  /\ exists new,
       _lsm (state_of (m e)) = _lsm e ++ new
       /\ map LSMTreeStorage.command new = kinds.

(** A logged operation: run it on the active database, then append one
    record. *)
Definition logged {A} (active cmd : string) (m : M BTreeStorage.t A)
           (pay : A -> LSMTreeStorage.payload) (lines : A -> list string)
  : M t (list string) :=
  bind (on_storage active m) (fun a =>
  bind (on_lsm (LSMTreeStorage.log (LSMTreeStorage.mk_entry active cmd (pay a))))
       (fun _ => ret (lines a))).

(** The table manager of a database of the executor. *)
Definition database_of (e : t) (name : string) : BTreeStorage.t :=
  match dict_get String.eqb (_databases e) name with
  | Some st => st
  | None => BTreeStorage.mk None [] []
  end.

(** Every database of the executor satisfies [I]. *)
Definition all_databases (I : BTreeStorage.t -> Prop) (e : t) : Prop :=
  forall name st,
    dict_get String.eqb (_databases e) name = Some st -> I st.

(** A computation of the executor keeps [I] on every database whenever it
    returns. *)
Definition kept {A} (I : BTreeStorage.t -> Prop) (m : M t A) : Prop :=
  forall e a e', all_databases I e -> m e = Ok a e' -> all_databases I e'.

(** A table manager in a state that persists: well formed, with a pager,
    holding plain values. *)
Definition sound (st : BTreeStorage.t) : Prop :=
  Spec.wf st /\ Spec.persistable st.

(** The values a statement hands to the table manager are plain. *)
Definition plain_details (d : details) : Prop :=
  match d with
  | DInsert _ values => Forall (fun v => Spec.plain v = true) values
  | DUpdate _ asg _ => Forall (fun kv => Spec.plain (snd kv) = true) asg
  | _ => True
  end.

Definition plain_query (query : string) : Prop :=
  match SQLParser.parse query with
  | Val p => plain_details (cmd_details p)
  | Exn _ => True
  end.

(** Queries through the engine one after the other, up to the first that
    raises. *)
Definition run_queries (queries : list string) : M t unit :=
  for_each queries
           (fun q => bind (DatabaseEngine.execute q) (fun _ => ret tt)).

(** *** What statements keep, whether they return or raise *)

(** [J] holds in the state a computation leaves when it held before. *)
Definition always {A} (J : t -> Prop) (m : M t A) : Prop :=
  forall e, J e -> J (state_of (m e)).

(** The executor has a database of that name. *)
Definition has_database (n : string) (e : t) : Prop :=
  dict_mem String.eqb (_databases e) n = true.

(** The database [n] is the table manager [st]. *)
Definition holds (n : string) (st : BTreeStorage.t) (e : t) : Prop :=
  dict_get String.eqb (_databases e) n = Some st.

(** The statements [execute] handles before it looks at the active
    database. *)
Definition database_level (cmd : string) : bool :=
  String.eqb cmd "EMPTY" || String.eqb cmd "CREATE_DATABASE"
  || String.eqb cmd "ALTER_DATABASE" || String.eqb cmd "USE_DATABASE".

(** The table manager of a database that [_ensure_database] creates. *)
Definition new_database : BTreeStorage.t :=
  Spec.empty_manager (Pager.mk 4096 [] 0 None).

(** A statement other than a SELECT with a JOIN. *)
Definition joinless_details (d : details) : Prop :=
  match d with
  | DSelect _ _ _ (Some _) => False
  | _ => True
  end.

Definition joinless_query (query : string) : Prop :=
  match SQLParser.parse query with
  | Val p => joinless_details (cmd_details p)
  | Exn _ => True
  end.

End ExecSpec.

(** ** Vocabulary of the parser *)

Module ParserSpec.

(** A blank character of ASCII. *)
Definition blank (c : ascii) : bool := Py.is_space c && (code c <? 128).

(** Text without an upper-case letter of ASCII. *)
Definition lowered (s : string) : Prop :=
  forallb (fun c => negb (Py.is_upper c)) (txt s) = true.

Definition lowered_where (w : option condition) : Prop :=
  match w with
  | Some c => lowered (cond_column c)
  | None => True
  end.

Definition lowered_join (j : option join_spec) : Prop :=
  match j with
  | Some j =>
      lowered (join_table j) /\ lowered (left_table j)
      /\ lowered (left_column j) /\ lowered (right_table j)
      /\ lowered (right_column j)
  | None => True
  end.

(** The names of databases, tables and columns in the details of a command
    are in lower case; the column list of a SELECT is not among them. *)
Definition lowered_details (d : details) : Prop :=
  match d with
  | DEmpty => True
  | DName n => lowered n
  | DCreateTable t cols => lowered t /\ Forall (fun c => lowered (fst c)) cols
  | DAlterTable t c _ => lowered t /\ lowered c
  | DTable t => lowered t
  | DIndex t c => lowered t /\ lowered c
  | DInsert t _ => lowered t
  | DUpdate t asg w =>
      lowered t /\ Forall (fun kv => lowered (fst kv)) asg /\ lowered_where w
  | DDelete t w => lowered t /\ lowered_where w
  | DSelect t _ w j => lowered t /\ lowered_where w /\ lowered_join j
  end.

Definition one_of (cmd : string) (kinds : list string) : bool :=
  existsb (String.eqb cmd) kinds.

(** The details a command kind comes with: the keys the executor reads for
    that kind, or nothing. *)
Definition shape_ok (cmd : string) (d : details) : bool :=
  match d with
  | DEmpty =>
      one_of cmd ["EMPTY"; "COMMIT"; "UNKNOWN"; "ALTER_TABLE"; "INSERT";
                  "SELECT"]%string
  | DName _ =>
      one_of cmd ["CREATE_DATABASE"; "ALTER_DATABASE"; "USE_DATABASE"]%string
  | DCreateTable _ _ => String.eqb cmd "CREATE_TABLE"
  | DAlterTable _ _ _ => String.eqb cmd "ALTER_TABLE"
  | DTable _ => String.eqb cmd "DROP_TABLE"
  | DIndex _ _ => one_of cmd ["CREATE_INDEX"; "DROP_INDEX"]%string
  | DInsert _ _ => String.eqb cmd "INSERT"
  | DUpdate _ _ _ => String.eqb cmd "UPDATE"
  | DDelete _ _ => String.eqb cmd "DELETE"
  | DSelect _ _ _ _ => String.eqb cmd "SELECT"
  end.

(** What a parser of details yields for a command kind. *)
Definition good (cmd : string) (d : details) : Prop :=
  shape_ok cmd d = true /\ lowered_details d.

End ParserSpec.

(** ** Vocabulary of the JSON round trip *)

Module JSONSpec.
Import JSON.

Definition no_digit (rest : text) : Prop :=
  match rest with
  | [] => True
  | c :: _ => is_digit c = false
  end.

(** What may follow a number: the end, or a character that is neither a
    digit nor the start of a fraction or an exponent. *)
Definition ends_number (rest : text) : Prop :=
  no_digit rest /\ starts_float rest = false.

(** What follows a value inside an array or an object. *)
Definition after_value (rest : text) : Prop :=
  rest = [] \/ exists c r, rest = c :: r
                           /\ (c = ","%char \/ c = "]"%char \/ c = "}"%char).

(** The decoder reads back one encoded value and stops after it. *)
Definition reads_back (j : json) : Prop :=
  forall rest fuel,
    after_value rest ->
    2 * length (dump j ++ rest) <= fuel ->
    scan_once fuel (dump j ++ rest) = Val (j, rest).

(** One member of an encoded object. *)
Definition dump_member (kv : string * json) : text :=
  dump_string (fst kv) ++ ":"%char :: dump (snd kv).

(** A character of 7-bit ASCII. *)
Definition ascii7 (c : ascii) : bool := code c <? 128.

End JSONSpec.

(** ** A small shop: the data the theorems are tried on *)

Module Sample.
Import BTreeStorage Spec.

Definition pager : Pager.t := Pager.mk 64 [] 0 None.

Definition payload : bytes := [x7b; x22; x74; x22; x3a; x31; x7d].

Definition ops : list operation :=
  [ OpCreateTable "users" ["id"; "name"]%string;
    OpCreateTable "orders" ["oid"; "user_id"; "note"]%string;
    OpInsertRow "users" [VInt 1; VStr "Ann"];
    OpInsertRow "users" [VInt 2; VStr "Bea"];
    OpInsertRow "orders" [VInt 10; VInt 1; VList [VInt 7; VNone]];
    OpInsertRow "orders" [VInt 11; VInt 1];
    OpInsertRow "orders" [VInt 12; VInt 3; VBool true];
    OpCreateIndex "users" "id";
    OpUpdateRows "users" [("name"%string, VStr "Bo")]
                 (Some (mk_condition "id" (VInt 2))) ].

Definition shop : t := state_of (run_ops ops (empty_manager pager)).

Definition table_of (name : string) : table :=
  match tget shop name with
  | Some tb => tb
  | None => mk_table [] [] []
  end.

Definition users : table := table_of "users".
Definition orders : table := table_of "orders".

(** users INNER JOIN orders ON users.id = orders.user_id *)
Definition on_user : join_spec := mk_join "orders" "users" "id" "orders" "user_id".

Definition by_id : condition := mk_condition "id" (VInt 1).


(** The rows [SELECT id, age FROM users] answers. *)
Definition selected : list row :=
  match select_rows "users" ["id"; "age"]%string None None shop with
  | Ok out _ => out
  | Raise _ _ => []
  end.

Definition engine : SQLExecutor.t := state_of DatabaseEngine.fresh.

Definition parsed (query : string) : ParsedCommand :=
  match SQLParser.parse query with
  | Val p => p
  | Exn _ => mk_command "EMPTY" EmptyString [] DEmpty
  end.

Definition statements : list ParsedCommand :=
  map parsed
      [ "CREATE TABLE users (id INT, name TEXT)";
        "INSERT INTO users VALUES (1, 'Ann')";
        "INSERT INTO missing VALUES (1)";
        "UPDATE users SET name='Bea' WHERE id=1";
        "SELECT * FROM users";
        "DELETE FROM users WHERE id=1" ]%string.

(** The same shop, through the engine. *)
Definition queries : list string :=
  [ "CREATE TABLE users (id INT, name TEXT)";
    "CREATE TABLE orders (oid INT, user_id INT, note TEXT)";
    "INSERT INTO users VALUES (1, 'Ann')";
    "INSERT INTO users VALUES (2, 'Bea')";
    "INSERT INTO orders VALUES (10, 1, [7, None])";
    "INSERT INTO orders VALUES (11, 1)";
    "CREATE INDEX users id";
    "UPDATE users SET name='Bo' WHERE id=2";
    "SELECT * FROM users INNER JOIN orders ON users.id=orders.user_id";
    "DELETE FROM orders WHERE oid=11";
    "CREATE DATABASE archive";
    "CREATE TABLE log (line TEXT)" ]%string.

Definition served : SQLExecutor.t :=
  state_of (ExecSpec.run_queries queries (state_of DatabaseEngine.fresh)).

Definition stored : BTreeStorage.t := ExecSpec.database_of served "default".

End Sample.

(** * Proofs *)

(** * Verification *)

(** ** The pager *)

Section PagerFacts.

Lemma slices_from_concat {A} (step : nat) :
  0 < step ->
  forall fuel (l : list A),
    length l <= fuel -> concat (slices_from fuel step l) = l.
Proof.
  intros Hstep. induction fuel as [|f IH]; intros l Hl.
  - destruct l; simpl in *; [reflexivity | lia].
  - destruct l as [|x r]; [reflexivity|].
    cbn [slices_from concat].
    rewrite IH.
    + apply firstn_skipn.
    + rewrite length_skipn. cbn [length] in *. lia.
Qed.

Lemma slices_concat {A} (step : nat) (l : list A) :
  0 < step -> concat (slices step l) = l.
Proof. intros H. apply slices_from_concat; auto. Qed.

Lemma slices_nonempty {A} (step : nat) (l : list A) :
  l <> [] -> slices step l <> [].
Proof. destruct l; [congruence|]. intros _. discriminate. Qed.

Lemma flush_pages (p : Pager.t) :
  Pager._pages (state_of (Pager._flush p)) = Pager._pages p
  /\ Pager._length (state_of (Pager._flush p)) = Pager._length p
  /\ Pager.page_size (state_of (Pager._flush p)) = Pager.page_size p.
Proof.
  unfold Pager._flush.
  destruct (Pager._pages p) eqn:E.
  - destruct (Pager._file p); simpl; rewrite ?E; auto.
  - destruct (to_bytes_little 4 (Pager.page_size p)); simpl; rewrite ?E; auto.
    destruct (to_bytes_little 8 (Pager._length p)); simpl; rewrite ?E; auto.
Qed.

Lemma read_blob_ext (p q : Pager.t) :
  Pager._pages p = Pager._pages q -> Pager._length p = Pager._length q ->
  Pager.read_blob p = Pager.read_blob q.
Proof. unfold Pager.read_blob. intros -> ->. reflexivity. Qed.

(** The pages and the length [write_blob] leaves, whether or not the flush
    that follows succeeds. *)
Lemma write_blob_state (p : Pager.t) (data : bytes) :
  (0 < Pager.page_size p)%Z ->
  let ps := Pager.page_size p in
  let p' := state_of (Pager.write_blob data p) in
  Pager._length p' = Z.of_nat (length data)
  /\ Pager.page_size p' = ps
  /\ Pager._pages p'
     = match data with
       | [] => []
       | _ :: _ =>
           slices (Z.to_nat ps)
             (ljust data ((Z.of_nat (length data) + ps - 1) / ps * ps))
       end.
Proof.
  intros Hps ps p'. unfold p', Pager.write_blob.
  destruct data as [|b d].
  - match goal with |- context [Pager._flush ?q] =>
      destruct (flush_pages q) as (-> & -> & ->) end.
    auto.
  - cbn [Pager.page_size Pager.set_length].
    destruct (Z.eqb_spec (Pager.page_size p) 0) as [E0|_]; [lia|].
    destruct (Z.ltb_spec 0 (Pager.page_size p)) as [_|]; [|lia].
    match goal with |- context [Pager._flush ?q] =>
      destruct (flush_pages q) as (-> & -> & ->) end.
    auto.
Qed.

Lemma concat_written_pages (ps : Z) (data : bytes) :
  (0 < ps)%Z ->
  firstn (length data)
    (concat (match data with
             | [] => []
             | _ :: _ =>
                 slices (Z.to_nat ps)
                   (ljust data ((Z.of_nat (length data) + ps - 1) / ps * ps))
             end)) = data.
Proof.
  intros Hps. destruct data as [|b d]; [reflexivity|].
  rewrite slices_concat by lia.
  unfold ljust. rewrite firstn_app, firstn_all, Nat.sub_diag.
  rewrite firstn_O. apply app_nil_r.
Qed.

Lemma write_then_read (p : Pager.t) (data : bytes) :
  (0 < Pager.page_size p)%Z ->
  Pager.read_blob (state_of (Pager.write_blob data p)) = data.
Proof.
  intros Hps. destruct (write_blob_state p data Hps) as (L & _ & P).
  unfold Pager.read_blob. rewrite L, P.
  destruct data as [|b d]; [reflexivity|].
  destruct (slices _ _) eqn:Es.
  { exfalso. revert Es. apply slices_nonempty. unfold ljust. discriminate. }
  rewrite <- Es.
  destruct (Z.eqb_spec (Z.of_nat (length (b :: d))) 0) as [E|_];
    [simpl in E; lia|].
  rewrite Nat2Z.id.
  apply (concat_written_pages (Pager.page_size p) (b :: d) Hps).
Qed.

Lemma write_blob_returns (p : Pager.t) (data : bytes) :
  (0 < Pager.page_size p < 2 ^ 32)%Z ->
  (Z.of_nat (length data) < 2 ^ 64)%Z ->
  returns (Pager.write_blob data p) = true.
Proof.
  intros Hps Hlen. unfold Pager.write_blob.
  destruct data as [|b d].
  - unfold Pager._flush. simpl. destruct (Pager._file p); reflexivity.
  - cbn [Pager.page_size Pager.set_length].
    destruct (Z.eqb_spec (Pager.page_size p) 0); [lia|].
    unfold Pager._flush.
    cbn [Pager._pages Pager.set_pages Pager.page_size Pager._length
         Pager.set_length].
    destruct (if (0 <? Pager.page_size p)%Z then _ else _);
      [simpl; destruct (Pager._file p); reflexivity|].
    unfold to_bytes_little.
    replace ((0 <=? Pager.page_size p)%Z
             && (Pager.page_size p <? 256 ^ Z.of_nat 4)%Z) with true.
    2:{ symmetry. apply andb_true_iff.
        split; [apply Z.leb_le | apply Z.ltb_lt]; simpl; lia. }
    replace ((0 <=? Z.of_nat (length (b :: d)))%Z
             && (Z.of_nat (length (b :: d)) <? 256 ^ Z.of_nat 8)%Z) with true.
    2:{ symmetry. apply andb_true_iff.
        split; [apply Z.leb_le | apply Z.ltb_lt]; simpl Z.pow; lia. }
    reflexivity.
Qed.

End PagerFacts.

(** ** Values and their equality *)



Lemma items_eqb_eq (l : list value) :
  Forall (fun a => forall b, value_eqb a b = true <-> a = b) l ->
  forall m, items_eqb l m = true <-> l = m.
Proof.
  induction 1 as [|x l Hx _ IH]; intros [|y m]; simpl; split;
    try congruence; try discriminate; auto.
  - rewrite andb_true_iff, Hx, IH. intros [-> ->]. reflexivity.
  - intros E. injection E as -> ->. rewrite andb_true_iff, Hx, IH. auto.
Qed.

Lemma value_eqb_eq (a b : value) : value_eqb a b = true <-> a = b.
Proof.
  revert b. induction a as [| x | x | x | l IH | l IH] using value_ind;
    intros [| y | y | y | m | m]; simpl;
    try (split; [discriminate | congruence]); try tauto.
  - rewrite Bool.eqb_true_iff. split; congruence.
  - rewrite Z.eqb_eq. split; congruence.
  - rewrite String.eqb_eq. split; congruence.
  - change (items_eqb l m = true <-> VTuple l = VTuple m).
    rewrite (items_eqb_eq _ IH). split; congruence.
  - change (items_eqb l m = true <-> VList l = VList m).
    rewrite (items_eqb_eq _ IH). split; congruence.
Qed.

Lemma py_eqb_iff (a b : value) : py_eqb a b = true <-> py_key a = py_key b.
Proof. apply value_eqb_eq. Qed.

Lemma py_eqb_refl (a : value) : py_eqb a a = true.
Proof. apply py_eqb_iff. reflexivity. Qed.

Lemma py_eqb_sym (a b : value) : py_eqb a b = py_eqb b a.
Proof.
  apply eq_true_iff_eq. rewrite !py_eqb_iff. split; congruence.
Qed.

Lemma py_eqb_trans (a b c : value) :
  py_eqb a b = true -> py_eqb b c = true -> py_eqb a c = true.
Proof. rewrite !py_eqb_iff. congruence. Qed.

(** Equal values select the same rows: [py_eqb] is a congruence for itself. *)
Lemma py_eqb_congr (a b c : value) :
  py_eqb a b = true -> py_eqb a c = py_eqb b c.
Proof.
  intros H. apply eq_true_iff_eq. rewrite py_eqb_iff in H.
  rewrite !py_eqb_iff, H. tauto.
Qed.

(** ** Dictionaries keyed by text *)

Section StrDict.
Variable V : Type.
Implicit Types (d : dict string V) (k : string) (v : V).


Lemma sget_set_same d k v : dict_get String.eqb (dict_set String.eqb d k v) k = Some v.
Proof.
  induction d as [|[k' v'] d IH]; simpl.
  - rewrite String.eqb_refl. reflexivity.
  - destruct (String.eqb k' k) eqn:E; simpl; rewrite E; auto.
Qed.

Lemma sget_set_other d k k' v : k <> k' -> dict_get String.eqb (dict_set String.eqb d k v) k' = dict_get String.eqb d k'.
Proof.
  intros Hne. induction d as [|[k0 v0] d IH]; simpl.
  - destruct (String.eqb_spec k k'); congruence.
  - destruct (String.eqb_spec k0 k) as [->|]; simpl.
    + destruct (String.eqb_spec k k'); congruence.
    + destruct (String.eqb_spec k0 k'); auto.
Qed.

Lemma sget_set d k k' v :
  dict_get String.eqb (dict_set String.eqb d k v) k' = if String.eqb k k' then Some v else dict_get String.eqb d k'.
Proof.
  destruct (String.eqb_spec k k') as [->|H].
  - apply sget_set_same.
  - apply sget_set_other, H.
Qed.

Lemma skeys_set_mem d k v v0 :
  dict_get String.eqb d k = Some v0 -> dict_keys (dict_set String.eqb d k v) = dict_keys d.
Proof.
  induction d as [|[k' v'] d IH]; simpl; [discriminate|].
  destruct (String.eqb_spec k' k) as [->|]; simpl; intros H.
  - reflexivity.
  - f_equal. auto.
Qed.

Lemma skeys_set_new d k v :
  dict_get String.eqb d k = None -> dict_keys (dict_set String.eqb d k v) = dict_keys d ++ [k].
Proof.
  induction d as [|[k' v'] d IH]; simpl; [reflexivity|].
  destruct (String.eqb_spec k' k) as [->|]; simpl; intros H.
  - discriminate.
  - f_equal. auto.
Qed.

Lemma sget_none_notin d k : dict_get String.eqb d k = None <-> ~ In k (dict_keys d).
Proof.
  induction d as [|[k' v'] d IH]; simpl; [tauto|].
  destruct (String.eqb_spec k' k) as [->|Hne].
  - split; [discriminate | tauto].
  - rewrite IH. tauto.
Qed.

Lemma sget_in d k v : dict_get String.eqb d k = Some v -> In (k, v) d.
Proof.
  induction d as [|[k' v'] d IH]; simpl; [discriminate|].
  destruct (String.eqb_spec k' k) as [->|Hne]; intros H.
  - injection H as ->. auto.
  - auto.
Qed.

Lemma sin_get d k v : NoDup (dict_keys d) -> In (k, v) d -> dict_get String.eqb d k = Some v.
Proof.
  induction d as [|[k' v'] d IH]; simpl; [tauto|].
  intros Hnd [E|Hin].
  - injection E as -> ->. rewrite String.eqb_refl. reflexivity.
  - inversion Hnd as [|? ? Hni Hnd']; subst.
    destruct (String.eqb_spec k' k) as [->|Hne]; auto.
    exfalso. apply Hni. apply (in_map fst) in Hin. exact Hin.
Qed.

Lemma skeys_nodup_set d k v : NoDup (dict_keys d) -> NoDup (dict_keys (dict_set String.eqb d k v)).
Proof.
  intros H. destruct (dict_get String.eqb d k) eqn:E.
  - erewrite skeys_set_mem; eauto.
  - rewrite skeys_set_new by auto.
    apply NoDup_app; auto.
    + constructor; [simpl; tauto | constructor].
    + intros x Hx [<-|[]]. apply sget_none_notin in E. auto.
Qed.

Lemma sget_pop d k k' :
  NoDup (dict_keys d) ->
  dict_get String.eqb (dict_pop String.eqb d k) k'
  = if String.eqb k k' then None else dict_get String.eqb d k'.
Proof.
  induction d as [|[k0 v0] d IH]; simpl; intros Hnd.
  - destruct (String.eqb k k'); reflexivity.
  - inversion Hnd as [|? ? Hni Hnd']; subst.
    destruct (String.eqb_spec k0 k) as [->|Hne].
    + destruct (String.eqb_spec k k') as [E|Hne'].
      * subst k'. apply sget_none_notin. exact Hni.
      * reflexivity.
    + simpl. rewrite IH by assumption.
      destruct (String.eqb_spec k0 k') as [->|]; [|reflexivity].
      destruct (String.eqb_spec k k'); congruence.
Qed.

Lemma skeys_pop_incl d k x :
  In x (dict_keys (dict_pop String.eqb d k)) -> In x (dict_keys d).
Proof.
  induction d as [|[k0 v0] d IH]; simpl; [tauto|].
  destruct (String.eqb k0 k); simpl; tauto.
Qed.

Lemma skeys_nodup_pop d k :
  NoDup (dict_keys d) -> NoDup (dict_keys (dict_pop String.eqb d k)).
Proof.
  induction d as [|[k0 v0] d IH]; simpl; intros Hnd; [constructor|].
  inversion Hnd as [|? ? Hni Hnd']; subst.
  destruct (String.eqb k0 k); simpl; auto.
  constructor; auto. intros Hin. apply Hni. eapply skeys_pop_incl; eauto.
Qed.

Lemma sget_some_in_keys d k v :
  dict_get String.eqb d k = Some v -> In k (dict_keys d).
Proof.
  intros H. destruct (in_dec string_dec k (dict_keys d)) as [|Hni]; auto.
  apply sget_none_notin in Hni. congruence.
Qed.

End StrDict.

(** ** Hash indexes *)

Module IndexFacts.
Import BTreeStorage Spec.


Lemma get_set (V : Type) (d : dict value V) (k v : value) (x : V) :
  dict_get py_eqb (dict_set py_eqb d k x) v
  = if py_eqb k v then Some x else dict_get py_eqb d v.
Proof.
  induction d as [|[k0 x0] d IH]; simpl.
  - reflexivity.
  - destruct (py_eqb k0 k) eqn:E0; simpl.
    + rewrite (py_eqb_congr _ _ v E0). destruct (py_eqb k v); reflexivity.
    + rewrite IH. destruct (py_eqb k0 v) eqn:E1; [|reflexivity].
      destruct (py_eqb k v) eqn:E2; [|reflexivity].
      rewrite py_eqb_sym in E2.
      rewrite (py_eqb_trans _ _ _ E1 E2) in E0. discriminate.
Qed.

Lemma get_congr (V : Type) (d : dict value V) (k v : value) :
  py_eqb k v = true -> dict_get py_eqb d k = dict_get py_eqb d v.
Proof.
  intros E. induction d as [|[k0 x0] d IH]; simpl; [reflexivity|].
  rewrite IH.
  replace (py_eqb k0 v) with (py_eqb k0 k); [reflexivity|].
  rewrite (py_eqb_sym k0 k), (py_eqb_sym k0 v). apply py_eqb_congr, E.
Qed.

Lemma index_add_val st column idx a :
  hashable (key_of st column a) = true ->
  exists idx', index_add st column idx a = Val idx'
    /\ forall v, find idx' v
                 = find idx v ++ (if py_eqb (key_of st column a) v then [a] else []).
Proof.
  intros H. unfold index_add. fold (key_of st column a). rewrite H.
  eexists. split; [reflexivity|]. intros v. unfold find.
  rewrite get_set.
  destruct (py_eqb (key_of st column a) v) eqn:E.
  - rewrite (get_congr _ idx _ _ E). destruct (dict_get py_eqb idx v); reflexivity.
  - rewrite app_nil_r. reflexivity.
Qed.

Lemma index_add_unhashable st column idx a :
  hashable (key_of st column a) = false ->
  index_add st column idx a = Exn TypeError.
Proof. intros H. unfold index_add. fold (key_of st column a). rewrite H. reflexivity. Qed.

(** The index built over [rs] files every row under its key, in row
    order. *)
Lemma build_index_find st column rs :
  forall idx0 idx,
    build_index st column rs idx0 = Val idx ->
    forall v, find idx v
              = find idx0 v
                ++ filter (fun a => py_eqb (key_of st column a) v) rs.
Proof.
  induction rs as [|a rs IH]; simpl; intros idx0 idx H v.
  - injection H as <-. rewrite app_nil_r. reflexivity.
  - destruct (hashable (key_of st column a)) eqn:Hh.
    + destruct (index_add_val st column idx0 a Hh) as (idx1 & E1 & F1).
      rewrite E1 in H. simpl in H.
      rewrite (IH _ _ H v), F1, <- app_assoc.
      destruct (py_eqb (key_of st column a) v); reflexivity.
    + rewrite index_add_unhashable in H by assumption. discriminate.
Qed.

Lemma build_index_hashable st column rs :
  forall idx0 idx,
    build_index st column rs idx0 = Val idx ->
    Forall (fun a => hashable (key_of st column a) = true) rs.
Proof.
  induction rs as [|a rs IH]; simpl; intros idx0 idx H; [constructor|].
  destruct (hashable (key_of st column a)) eqn:Hh.
  - destruct (index_add_val st column idx0 a Hh) as (idx1 & E1 & _).
    rewrite E1 in H. simpl in H. constructor; eauto.
  - rewrite index_add_unhashable in H by assumption. discriminate.
Qed.

Lemma build_index_total st column rs :
  Forall (fun a => hashable (key_of st column a) = true) rs ->
  forall idx0, exists idx, build_index st column rs idx0 = Val idx.
Proof.
  induction 1 as [|a rs Ha _ IH]; simpl; intros idx0; [eauto|].
  destruct (index_add_val st column idx0 a Ha) as (idx1 & E1 & _).
  rewrite E1. simpl. apply IH.
Qed.

(** Building over [rs ++ [a]] is building over [rs] and then filing [a]:
    what [insert_row] does to an existing index. *)
Lemma build_index_snoc st column rs a :
  forall idx0,
    build_index st column (rs ++ [a]) idx0
    = rbind (build_index st column rs idx0)
            (fun idx => index_add st column idx a).
Proof.
  induction rs as [|b rs IH]; simpl; intros idx0.
  - destruct (index_add st column idx0 a); reflexivity.
  - destruct (index_add st column idx0 b); simpl; auto.
Qed.

(** The index depends on the store only through the keys of the rows. *)
Lemma build_index_ext st st' column rs :
  Forall (fun a => key_of st column a = key_of st' column a) rs ->
  forall idx0, build_index st column rs idx0 = build_index st' column rs idx0.
Proof.
  induction 1 as [|a rs Ha _ IH]; simpl; intros idx0; [reflexivity|].
  unfold index_add. fold (key_of st column a) (key_of st' column a).
  rewrite Ha. destruct (hashable (key_of st' column a)); simpl; auto.
Qed.

End IndexFacts.

(** ** The table manager: how each step transforms the state *)

Module StorageFacts.
Import BTreeStorage Spec IndexFacts.


Ltac monad_unfold :=
  unfold bind, ret, raise, get, put, modify, lift_result in *.

Lemma table_at_spec name s :
  table_at name s
  = match tget s name with Some tb => Ok tb s | None => Raise (KeyError name) s end.
Proof. reflexivity. Qed.

Lemma update_table_spec name f s tb :
  tget s name = Some tb ->
  exists s', update_table name f s = Ok tt s'
             /\ updated s s' name (f tb) (store s)
             /\ _pager s' = _pager s.
Proof.
  intros H. unfold update_table, modify. unfold tget in H. rewrite H.
  eexists. split; [reflexivity|]. split; [|reflexivity].
  constructor; simpl.
  - reflexivity.
  - eapply skeys_set_mem; eauto.
  - intros n. unfold tget. simpl. apply sget_set.
Qed.

Lemma updated_refl s name tb :
  tget s name = Some tb -> updated s s name tb (store s).
Proof.
  intros H. constructor; auto.
  intros n. destruct (String.eqb_spec name n) as [<-|]; auto.
Qed.

Lemma updated_trans s s1 s2 name tb1 tb2 st1 st2 :
  updated s s1 name tb1 st1 -> updated s1 s2 name tb2 st2 ->
  updated s s2 name tb2 st2.
Proof.
  intros [A1 A2 A3] [B1 B2 B3]. constructor.
  - assumption.
  - congruence.
  - intros n. rewrite B3, A3. destruct (String.eqb name n); reflexivity.
Qed.

Lemma updated_get_same s s' name tb st :
  updated s s' name tb st -> tget s' name = Some tb.
Proof. intros [_ _ H]. rewrite H, String.eqb_refl. reflexivity. Qed.

Lemma updated_get_other s s' name tb st n :
  updated s s' name tb st -> n <> name -> tget s' n = tget s n.
Proof.
  intros [_ _ H] Hn. rewrite H.
  destruct (String.eqb_spec name n); congruence.
Qed.

Lemma persist_frame s :
  _tables (state_of (_persist s)) = _tables s
  /\ store (state_of (_persist s)) = store s.
Proof.
  unfold _persist. destruct (_pager s) as [p|]; [|auto].
  unfold on_pager. destruct (Pager.write_blob _ p); simpl; auto.
Qed.

Lemma persist_updated s s' name tb st :
  updated s s' name tb st -> 
  updated s (state_of (_persist s')) name tb st.
Proof.
  intros [A1 A2 A3]. destruct (persist_frame s') as [E1 E2].
  constructor; unfold tget in *; rewrite ?E1, ?E2; auto.
Qed.

(** [_rebuild_index] replaces one index by the grouping of the rows. *)
Lemma rebuild_spec name column s r s' :
  _rebuild_index name column s = Ok r s' ->
  exists tb idx,
    tget s name = Some tb
    /\ build_index (store s) column (rows tb) [] = Val idx
    /\ updated s s' name
         (set_indexes (dict_set String.eqb (indexes tb) column idx) tb)
         (store s)
    /\ _pager s' = _pager s.
Proof.
  unfold _rebuild_index. monad_unfold. rewrite table_at_spec.
  destruct (tget s name) as [tb|] eqn:E; [|discriminate].
  destruct (build_index (store s) column (rows tb) []) as [idx|] eqn:B;
    [|discriminate].
  intros H.
  destruct (update_table_spec name
              (fun tb0 => set_indexes (dict_set String.eqb (indexes tb0) column idx) tb0)
              s tb E) as (s1 & E1 & U & P).
  rewrite E1 in H. injection H as _ <-.
  exists tb, idx. auto.
Qed.

Lemma rebuild_total name column s tb idx :
  tget s name = Some tb ->
  build_index (store s) column (rows tb) [] = Val idx ->
  exists s', _rebuild_index name column s = Ok tt s'.
Proof.
  intros E B. unfold _rebuild_index. monad_unfold. rewrite table_at_spec, E, B.
  destruct (update_table_spec name
              (fun tb0 => set_indexes (dict_set String.eqb (indexes tb0) column idx) tb0)
              s tb E) as (s1 & E1 & _).
  rewrite E1. eauto.
Qed.

Lemma for_each_nil {S A} (body : A -> M S unit) s :
  for_each [] body s = Ok tt s.
Proof. reflexivity. Qed.

Lemma for_each_cons {S A} (body : A -> M S unit) x l s :
  for_each (x :: l) body s
  = match body x s with
    | Ok _ s1 => for_each l body s1
    | Raise e s1 => Raise e s1
    end.
Proof. reflexivity. Qed.

(** A loop that returns has run its body on every item, in order. *)
Lemma for_each_invariant {S A} (I : list A -> S -> Prop)
      (body : A -> M S unit) :
  (forall done x s r s', I done s -> body x s = Ok r s' -> I (done ++ [x]) s') ->
  forall l done s r s',
    I done s -> for_each l body s = Ok r s' -> I (done ++ l) s'.
Proof.
  intros Hstep. induction l as [|x l IH]; intros done s r s' HI H.
  - rewrite for_each_nil in H. injection H as _ <-. rewrite app_nil_r. exact HI.
  - rewrite for_each_cons in H.
    destruct (body x s) as [u s1|] eqn:E; [|discriminate].
    replace (done ++ x :: l) with ((done ++ [x]) ++ l)
      by (rewrite <- app_assoc; reflexivity).
    eapply IH; eauto.
Qed.

(** The same, knowing where in the list the loop is. *)
Lemma for_each_invariant_pos {S A} (l : list A) (I : list A -> S -> Prop)
      (body : A -> M S unit) :
  (forall done x rest s r s',
      l = done ++ x :: rest -> I done s -> body x s = Ok r s' ->
      I (done ++ [x]) s') ->
  forall s r s', I [] s -> for_each l body s = Ok r s' -> I l s'.
Proof.
  intros Hstep.
  assert (G : forall todo done s r s',
             l = done ++ todo -> I done s ->
             for_each todo body s = Ok r s' -> I l s').
  { induction todo as [|x todo IH]; intros done s r s' El HI H.
    - rewrite for_each_nil in H. injection H as _ <-.
      rewrite app_nil_r in El. subst l. exact HI.
    - rewrite for_each_cons in H.
      destruct (body x s) as [u s1|] eqn:E; [|discriminate].
      apply (IH (done ++ [x]) s1 r s'); auto.
      + rewrite <- app_assoc. exact El.
      + eapply Hstep; eauto. }
  intros s r s' HI H. apply (G l [] s r s'); auto.
Qed.

End StorageFacts.

(** ** The invariant of the table manager *)

Module Invariant.
Import BTreeStorage Spec IndexFacts StorageFacts.


(** The frame rule: a step that touches one table, and the store only at
    that table's rows or at new addresses, keeps every other table as it
    was. *)
Lemma wf_changed s s' name otb' :
  wf s ->
  NoDup (dict_keys (_tables s')) ->
  (forall n, tget s' n = if String.eqb name n then otb' else tget s n) ->
  length (store s) <= length (store s') ->
  (forall a, a < length (store s) -> ~ In a (old_rows s name) ->
             deref (store s') a = deref (store s) a) ->
  (forall tb', otb' = Some tb' ->
     NoDup (dict_keys (indexes tb'))
     /\ (forall a, In a (rows tb') ->
           In a (old_rows s name)
           \/ (length (store s) <= a /\ a < length (store s')))
     /\ index_ok (store s') tb') ->
  wf s'.
Proof.
  intros W Hnd Hget Hlen Hframe Hnew.
  assert (Hother : forall n tb, n <> name -> tget s' n = Some tb -> tget s n = Some tb).
  { intros n tb Hn H. rewrite Hget in H.
    destruct (String.eqb_spec name n); congruence. }
  assert (Hsame : forall tb, tget s' name = Some tb -> otb' = Some tb).
  { intros tb H. rewrite Hget, String.eqb_refl in H. exact H. }
  assert (Hold : forall n tb a, n <> name -> tget s n = Some tb ->
                   In a (rows tb) -> ~ In a (old_rows s name)).
  { intros n tb a Hn Ht Ha. unfold old_rows.
    destruct (tget s name) as [tb0|] eqn:E0; [|tauto].
    eapply (wf_disjoint s W n name); eauto. }
  constructor.
  - exact Hnd.
  - intros n tb H. destruct (String.eqb_spec n name) as [->|Hn].
    + apply Hsame in H. apply Hnew in H. tauto.
    + eapply wf_index_names; eauto.
  - intros n tb a H Ha. destruct (String.eqb_spec n name) as [->|Hn].
    + apply Hsame in H. destruct (Hnew _ H) as (_ & Hrows & _).
      destruct (Hrows a Ha) as [Hin|[? ?]]; [|lia].
      unfold old_rows in Hin. destruct (tget s name) as [tb0|] eqn:E0; [|destruct Hin].
      pose proof (wf_bounds s W name tb0 a E0 Hin). lia.
    + pose proof (wf_bounds s W n tb a (Hother _ _ Hn H) Ha). lia.
  - intros n1 n2 tb1 tb2 a Hne H1 H2 Ha1 Ha2.
    destruct (String.eqb_spec n1 name) as [->|Hn1];
      destruct (String.eqb_spec n2 name) as [->|Hn2]; try congruence.
    + apply Hsame in H1. destruct (Hnew _ H1) as (_ & Hrows & _).
      pose proof (Hother _ _ Hn2 H2) as H2'.
      destruct (Hrows a Ha1) as [Hin|[? ?]].
      * eapply Hold; eauto.
      * pose proof (wf_bounds s W n2 tb2 a H2' Ha2). lia.
    + apply Hsame in H2. destruct (Hnew _ H2) as (_ & Hrows & _).
      pose proof (Hother _ _ Hn1 H1) as H1'.
      destruct (Hrows a Ha2) as [Hin|[? ?]].
      * eapply Hold; eauto.
      * pose proof (wf_bounds s W n1 tb1 a H1' Ha1). lia.
    + eapply (wf_disjoint s W n1 n2); eauto.
  - intros n tb H. destruct (String.eqb_spec n name) as [->|Hn].
    + apply Hsame in H. apply Hnew in H. tauto.
    + pose proof (Hother _ _ Hn H) as H'.
      intros column idx Hidx.
      rewrite <- (wf_index s W n tb H' column idx Hidx).
      apply build_index_ext. apply Forall_forall. intros a Ha.
      unfold key_of. rewrite Hframe; auto.
      * eapply wf_bounds; eauto.
      * eapply Hold; eauto.
Qed.

(** The same through [updated], for steps on an existing table. *)
Lemma wf_updated s s' name tb tb' st' :
  wf s -> tget s name = Some tb ->
  updated s s' name tb' st' ->
  length (store s) <= length st' ->
  (forall a, a < length (store s) -> ~ In a (rows tb) ->
             deref st' a = deref (store s) a) ->
  NoDup (dict_keys (indexes tb')) ->
  (forall a, In a (rows tb') ->
     In a (rows tb) \/ (length (store s) <= a /\ a < length st')) ->
  index_ok st' tb' ->
  wf s'.
Proof.
  intros W Ht [U1 U2 U3] Hlen Hframe Hnd Hrows Hidx.
  apply (wf_changed s s' name (Some tb')); auto.
  - rewrite U2. apply (wf_names s W).
  - rewrite U1. exact Hlen.
  - unfold old_rows. rewrite Ht, U1. exact Hframe.
  - intros tb0 E. injection E as <-. unfold old_rows. rewrite Ht, U1. auto.
Qed.

Lemma wf_same_data s s' :
  wf s -> _tables s' = _tables s -> store s' = store s -> wf s'.
Proof.
  intros [A B C D E] Ht Hs.
  constructor; unfold tget in *; rewrite ?Ht, ?Hs; auto.
Qed.

Lemma wf_persist s : wf s -> wf (state_of (_persist s)).
Proof.
  intros W. destruct (persist_frame s). eapply wf_same_data; eauto.
Qed.

Lemma wf_empty p : wf (mk p [] []).
Proof.
  constructor; simpl; try constructor; unfold tget; simpl; discriminate.
Qed.

End Invariant.

Module RowStore.
Import BTreeStorage Spec IndexFacts StorageFacts Invariant.


Lemma update_row_spec a f s :
  update_row a f s = Ok tt (set_store (store_set (store s) a f) s).
Proof. reflexivity. Qed.

Lemma store_set_length st a f : length (store_set st a f) = length st.
Proof.
  unfold store_set. rewrite <- (firstn_skipn a st) at 3.
  rewrite !length_app. destruct (skipn a st); reflexivity.
Qed.

Lemma store_set_other st a f a' :
  a' <> a -> deref (store_set st a f) a' = deref st a'.
Proof.
  intros Hne. unfold deref, store_set.
  rewrite <- (firstn_skipn a st) at 3.
  destruct (Nat.lt_ge_cases a' (length (firstn a st))) as [Hlt|Hge].
  - rewrite !app_nth1 by assumption. reflexivity.
  - rewrite !app_nth2 by assumption.
    rewrite length_firstn in *.
    destruct (skipn a st) as [|r rest] eqn:E; [reflexivity|].
    assert (a < length st).
    { destruct (Nat.lt_ge_cases a (length st)); auto.
      rewrite skipn_all2 in E by assumption. discriminate. }
    destruct (a' - Nat.min a (length st)) eqn:D; [lia|]. reflexivity.
Qed.

Lemma store_set_same st a f :
  a < length st -> deref (store_set st a f) a = f (deref st a).
Proof.
  intros Hlt. unfold deref, store_set.
  rewrite <- (firstn_skipn a st) at 3.
  assert (L : length (firstn a st) = a) by (rewrite length_firstn; lia).
  rewrite !app_nth2 by lia. rewrite L, Nat.sub_diag.
  destruct (skipn a st) as [|r rest] eqn:E; [|reflexivity].
  apply (f_equal (@length row)) in E. rewrite length_skipn in E. simpl in E. lia.
Qed.

Lemma store_set_out st a f : length st <= a -> store_set st a f = st.
Proof.
  intros H. unfold store_set. rewrite skipn_all2, firstn_all2 by assumption.
  apply app_nil_r.
Qed.

(** A loop of [update_row] leaves the tables alone and changes the rows it
    visits by repeated application of [f]. *)
Lemma update_rows_loop f addrs :
  forall s, exists s',
    for_each addrs (fun a => update_row a f) s = Ok tt s'
    /\ _tables s' = _tables s /\ _pager s' = _pager s
    /\ length (store s') = length (store s)
    /\ (forall a, ~ In a addrs -> deref (store s') a = deref (store s) a)
    /\ (forall a, exists n, deref (store s') a = Nat.iter n f (deref (store s) a)).
Proof.
  induction addrs as [|a addrs IH]; intros s.
  - exists s. rewrite for_each_nil. repeat split; auto.
    intros a. exists 0. reflexivity.
  - rewrite for_each_cons, update_row_spec.
    destruct (IH (set_store (store_set (store s) a f) s))
      as (s' & E & Ht & Hp & Hl & Hout & Hin).
    exists s'. rewrite E. simpl in *.
    repeat split; auto.
    + rewrite Hl. apply store_set_length.
    + intros a' Hni. rewrite Hout by (intros X; apply Hni; right; exact X).
      apply store_set_other. intros ->. apply Hni. left. reflexivity.
    + intros a'. destruct (Hin a') as (n & En). rewrite En.
      destruct (Nat.eq_dec a' a) as [->|Hne].
      * destruct (Nat.lt_ge_cases a (length (store s))) as [Hlt|Hge].
        -- rewrite store_set_same by assumption. exists (S n).
           rewrite Nat.iter_succ_r. reflexivity.
        -- rewrite store_set_out by assumption. exists n. reflexivity.
      * rewrite store_set_other by assumption. exists n. reflexivity.
Qed.

Lemma row_get_update_other (r : row) (asg : dict string value) (c : string) :
  dict_get String.eqb asg c = None ->
  row_get (dict_update String.eqb r asg) c = row_get r c.
Proof.
  unfold row_get, dict_update. revert r.
  induction asg as [|[k v] asg IH]; simpl; intros r H; [reflexivity|].
  destruct (String.eqb_spec k c) as [->|Hne]; [discriminate|].
  rewrite IH by assumption. rewrite sget_set_other by assumption. reflexivity.
Qed.

Lemma row_get_iter_update (asg : dict string value) (c : string) n (r : row) :
  dict_get String.eqb asg c = None ->
  row_get (Nat.iter n (fun r => dict_update String.eqb r asg) r) c = row_get r c.
Proof.
  intros H. induction n as [|n IH]; simpl; [reflexivity|].
  rewrite row_get_update_other by assumption. exact IH.
Qed.

(** What [_rows_for] yields in a well-formed state. *)

Lemma rows_for_spec s name tb where_ :
  wf s -> tget s name = Some tb ->
  _rows_for name where_ s
  = match where_ with
    | None => Ok (rows tb) s
    | Some w =>
        if dict_mem String.eqb (indexes tb) (cond_column w)
           && negb (hashable (cond_value w))
        then Raise TypeError s
        else Ok (matching (store s) w (rows tb)) s
    end.
Proof.
  intros W Ht. unfold _rows_for. monad_unfold. rewrite table_at_spec, Ht.
  destruct where_ as [w|]; [|reflexivity].
  unfold dict_mem.
  destruct (dict_get String.eqb (indexes tb) (cond_column w)) as [idx|] eqn:E.
  - destruct (hashable (cond_value w)); simpl; [|reflexivity].
    pose proof (wf_index s W name tb Ht _ _ E) as B.
    pose proof (build_index_find _ _ _ _ _ B (cond_value w)) as F.
    unfold find in F. simpl in F. unfold matching.
    destruct (dict_get py_eqb idx (cond_value w)); rewrite F; reflexivity.
  - reflexivity.
Qed.

Lemma rows_for_frame s name where_ r s' :
  _rows_for name where_ s = Ok r s' -> s' = s.
Proof.
  unfold _rows_for. monad_unfold. rewrite table_at_spec.
  destruct (tget s name); [|discriminate].
  destruct where_ as [w|]; [|congruence].
  destruct (dict_get String.eqb (indexes t0) (cond_column w)).
  - destruct (hashable (cond_value w)); congruence.
  - congruence.
Qed.

Lemma matching_incl st w rs a : In a (matching st w rs) -> In a rs.
Proof. unfold matching. rewrite filter_In. tauto. Qed.

End RowStore.

Module Preservation.
Import BTreeStorage Spec IndexFacts StorageFacts Invariant RowStore.

(** A loop of [_rebuild_index] over columns of one table. *)
Lemma rebuild_loop name cols s r s' tb :
  tget s name = Some tb ->
  for_each cols (fun c => _rebuild_index name c) s = Ok r s' ->
  exists tb',
    updated s s' name tb' (store s)
    /\ _pager s' = _pager s
    /\ rows tb' = rows tb /\ columns tb' = columns tb
    /\ (forall c idx, In c cols ->
          dict_get String.eqb (indexes tb') c = Some idx ->
          build_index (store s) c (rows tb) [] = Val idx)
    /\ (forall c, ~ In c cols ->
          dict_get String.eqb (indexes tb') c = dict_get String.eqb (indexes tb) c)
    /\ (forall c, In c cols -> dict_mem String.eqb (indexes tb') c = true)
    /\ (NoDup (dict_keys (indexes tb)) -> NoDup (dict_keys (indexes tb'))).
Proof.
  intros Ht H.
  pose (I := fun (done : list string) (s2 : t) =>
    exists tb2,
      updated s s2 name tb2 (store s)
      /\ _pager s2 = _pager s
      /\ rows tb2 = rows tb /\ columns tb2 = columns tb
      /\ (forall c idx, In c done ->
            dict_get String.eqb (indexes tb2) c = Some idx ->
            build_index (store s) c (rows tb) [] = Val idx)
      /\ (forall c, ~ In c done ->
            dict_get String.eqb (indexes tb2) c
            = dict_get String.eqb (indexes tb) c)
      /\ (forall c, In c done -> dict_mem String.eqb (indexes tb2) c = true)
      /\ (NoDup (dict_keys (indexes tb)) -> NoDup (dict_keys (indexes tb2)))).
  change (I ([] ++ cols) s').
  eapply (for_each_invariant I); [| | exact H].
  - clear H r s'. intros done c s2 r s3 (tb2 & U & P & R & C & Hd & Hnd & Hm & Hk) Hstep.
    destruct (rebuild_spec _ _ _ _ _ Hstep) as (tbx & idx & Hx & B & U' & P').
    rewrite (updated_get_same _ _ _ _ _ U) in Hx. injection Hx as <-.
    rewrite (upd_store _ _ _ _ _ U), R in B.
    exists (set_indexes (dict_set String.eqb (indexes tb2) c idx) tb2).
    rewrite (upd_store _ _ _ _ _ U) in U'.
    split; [eapply updated_trans; eauto|].
    split; [congruence|]. split; [exact R|]. split; [exact C|].
    simpl. repeat split.
    + intros c' idx' Hin Hg. rewrite sget_set in Hg.
      destruct (String.eqb_spec c c') as [<-|Hne]; [congruence|].
      apply in_app_or in Hin. destruct Hin as [Hin|[E|[]]]; [eauto|congruence].
    + intros c' Hni. rewrite sget_set.
      destruct (String.eqb_spec c c') as [<-|Hne].
      * exfalso. apply Hni. apply in_or_app. right. left. reflexivity.
      * apply Hnd. intros X. apply Hni. apply in_or_app. left. exact X.
    + intros c' Hin. unfold dict_mem. rewrite sget_set.
      destruct (String.eqb_spec c c') as [<-|Hne]; [reflexivity|].
      apply in_app_or in Hin. destruct Hin as [Hin|[E|[]]]; [|congruence].
      apply Hm in Hin. exact Hin.
    + intros X. apply skeys_nodup_set. auto.
  - exists tb. split; [apply updated_refl; exact Ht|].
    repeat split; auto; intros c; simpl; tauto.
Qed.

(** After rebuilding every index of the table, all of them are derived from
    the rows. *)
Lemma rebuild_all_ok name s r s' tb tb0 :
  tget s name = Some tb ->
  dict_keys (indexes tb) = dict_keys (indexes tb0) ->
  for_each (dict_keys (indexes tb0)) (fun c => _rebuild_index name c) s = Ok r s' ->
  exists tb',
    updated s s' name tb' (store s)
    /\ rows tb' = rows tb /\ columns tb' = columns tb
    /\ index_ok (store s) tb'
    /\ (NoDup (dict_keys (indexes tb)) -> NoDup (dict_keys (indexes tb'))).
Proof.
  intros Ht Hk H.
  destruct (rebuild_loop _ _ _ _ _ _ Ht H)
    as (tb' & U & _ & R & C & Hd & Hnd & _ & Hk').
  exists tb'. split; [exact U|]. split; [exact R|]. split; [exact C|].
  split; [|exact Hk'].
  intros c idx Hg. rewrite R.
  destruct (in_dec string_dec c (dict_keys (indexes tb0))) as [Hin|Hni].
  - eauto.
  - rewrite Hnd in Hg by assumption.
    apply sget_some_in_keys in Hg. rewrite Hk in Hg. tauto.
Qed.

Lemma persist_ok_state s r s' : _persist s = Ok r s' -> s' = state_of (_persist s).
Proof. intros ->. reflexivity. Qed.

Lemma persist_keeps_wf s r s' : wf s -> _persist s = Ok r s' -> wf s'.
Proof.
  intros W H. rewrite (persist_ok_state _ _ _ H). apply wf_persist, W.
Qed.

(** *** Each operation keeps the invariant *)

Lemma create_table_wf name cols s r s' :
  wf s -> create_table name cols s = Ok r s' -> wf s'.
Proof.
  intros W. unfold create_table. monad_unfold.
  apply persist_keeps_wf.
  apply (wf_changed s _ name (Some (mk_table cols [] []))); simpl; auto.
  - apply skeys_nodup_set, (wf_names s W).
  - intros n. unfold tget. simpl. apply sget_set.
  - intros tb' E. injection E as <-. simpl. repeat split.
    + constructor.
    + tauto.
    + intros c idx. simpl. discriminate.
Qed.

Lemma drop_table_wf name s r s' :
  wf s -> drop_table name s = Ok r s' -> wf s'.
Proof.
  intros W. unfold drop_table. monad_unfold.
  apply persist_keeps_wf.
  apply (wf_changed s _ name None); simpl; auto.
  - apply skeys_nodup_pop, (wf_names s W).
  - intros n. unfold tget. simpl. apply sget_pop, (wf_names s W).
  - discriminate.
Qed.

Lemma create_index_wf name column s r s' :
  wf s -> create_index name column s = Ok r s' -> wf s'.
Proof.
  intros W. unfold create_index. monad_unfold. rewrite table_at_spec.
  destruct (tget s name) as [tb|] eqn:Ht; [|discriminate].
  destruct (dict_mem String.eqb (indexes tb) column); [congruence|].
  destruct (_rebuild_index name column s) as [u s1|] eqn:E; [|discriminate].
  apply persist_keeps_wf.
  destruct (rebuild_spec _ _ _ _ _ E) as (tbx & idx & Hx & B & U & _).
  rewrite Ht in Hx. injection Hx as <-.
  eapply (wf_updated s s1 name tb); eauto; simpl.
  - apply skeys_nodup_set. eapply wf_index_names; eauto.
  - intros c idx'. simpl. rewrite sget_set.
    destruct (String.eqb_spec column c) as [<-|]; [congruence|].
    apply (wf_index s W name tb Ht).
Qed.

Lemma drop_index_wf name column s r s' :
  wf s -> drop_index name column s = Ok r s' -> wf s'.
Proof.
  intros W. unfold drop_index. fold (tget s name).
  destruct (tget s name) as [tb|] eqn:Ht; [|congruence].
  monad_unfold.
  destruct (update_table_spec name
              (fun tb => set_indexes (dict_pop String.eqb (indexes tb) column) tb)
              s tb Ht) as (s1 & E1 & U & _).
  rewrite E1. apply persist_keeps_wf.
  pose proof (wf_index_names s W name tb Ht) as Hnd.
  eapply (wf_updated s s1 name tb); eauto; simpl.
  - apply skeys_nodup_pop, Hnd.
  - intros c idx. simpl. rewrite sget_pop by assumption.
    destruct (String.eqb column c); [discriminate|].
    apply (wf_index s W name tb Ht).
Qed.

End Preservation.

Module Preservation2.
Import BTreeStorage Spec IndexFacts StorageFacts Invariant RowStore Preservation.

Lemma tget_same_tables s s' n : _tables s' = _tables s -> tget s' n = tget s n.
Proof. unfold tget. intros ->. reflexivity. Qed.

Lemma updated_chain s s1 s2 s3 name tb1 st1 tb3 st3 :
  updated s s1 name tb1 st1 -> _tables s2 = _tables s1 ->
  updated s2 s3 name tb3 st3 ->
  updated s s3 name tb3 st3.
Proof.
  intros U1 T2 U3. constructor.
  - apply (upd_store _ _ _ _ _ U3).
  - rewrite (upd_keys _ _ _ _ _ U3). unfold dict_keys. rewrite T2.
    apply (upd_keys _ _ _ _ _ U1).
  - intros n. rewrite (upd_get _ _ _ _ _ U3).
    destruct (String.eqb name n) eqn:En; [reflexivity|].
    rewrite (tget_same_tables _ _ _ T2), (upd_get _ _ _ _ _ U1), En.
    reflexivity.
Qed.

Lemma add_column_wf name column s r s' :
  wf s -> add_column name column s = Ok r s' -> wf s'.
Proof.
  intros W. unfold add_column. monad_unfold. rewrite table_at_spec.
  destruct (tget s name) as [tb|] eqn:Ht; [|discriminate].
  destruct (str_in column (columns tb)); [congruence|].
  destruct (update_table_spec name
              (fun tb => set_columns (columns tb ++ [column]) tb) s tb Ht)
    as (s1 & E1 & U1 & _).
  rewrite E1.
  destruct (update_rows_loop (fun r => dict_set String.eqb r column VNone)
              (rows tb) s1) as (s2 & E2 & T2 & _ & L2 & O2 & _).
  rewrite E2.
  destruct (for_each (dict_keys (indexes tb)) (fun col => _rebuild_index name col) s2)
    as [u s3|] eqn:E3; [|discriminate].
  apply persist_keeps_wf.
  pose proof (updated_get_same _ _ _ _ _ U1) as Ht1.
  assert (Ht2 : tget s2 name = Some (set_columns (columns tb ++ [column]) tb)).
  { rewrite (tget_same_tables _ _ _ T2). exact Ht1. }
  destruct (rebuild_all_ok name s2 u s3 _ tb Ht2 eq_refl E3)
    as (tb' & U3 & R3 & _ & I3 & K3).
  simpl in R3.
  rewrite (upd_store _ _ _ _ _ U1) in L2, O2.
  apply (wf_updated s s3 name tb tb' (store s2)); [exact W | exact Ht | | | | | | ].
  - eapply updated_chain; eauto.
  - lia.
  - intros a _ Hni. apply O2, Hni.
  - apply K3. simpl. eapply wf_index_names; eauto.
  - rewrite R3. auto.
  - exact I3.
Qed.

Lemma delete_rows_wf name where_ s r s' :
  wf s -> delete_rows name where_ s = Ok r s' -> wf s'.
Proof.
  intros W. unfold delete_rows. monad_unfold. rewrite table_at_spec.
  destruct (tget s name) as [tb|] eqn:Ht; [|discriminate].
  set (kept := match where_ with
               | Some w => filter _ (rows tb)
               | None => []
               end).
  assert (Hkept : forall a, In a kept -> In a (rows tb)).
  { unfold kept. destruct where_; [|intros ? []].
    intros a Ha. apply filter_In in Ha. tauto. }
  destruct (update_table_spec name (set_rows kept) s tb Ht)
    as (s1 & E1 & U1 & _).
  rewrite E1.
  destruct (for_each (dict_keys (indexes tb)) (fun c => _rebuild_index name c) s1)
    as [u s2|] eqn:E2; [|discriminate].
  pose proof (updated_get_same _ _ _ _ _ U1) as Ht1.
  destruct (rebuild_all_ok name s1 u s2 _ tb Ht1 eq_refl E2)
    as (tb' & U2 & R2 & _ & I2 & K2).
  simpl in R2.
  rewrite (upd_store _ _ _ _ _ U1) in U2, I2.
  assert (W2 : wf s2).
  { apply (wf_updated s s2 name tb tb' (store s)); [exact W | exact Ht | | | | | | ].
    - eapply updated_trans; eauto.
    - lia.
    - reflexivity.
    - apply K2. simpl. eapply wf_index_names; eauto.
    - rewrite R2. auto.
    - exact I2. }
  destruct (_ =? 0)%Z.
  - intros H. injection H as _ <-. exact W2.
  - destruct (_persist s2) as [u' s3|] eqn:E3; [|discriminate].
    intros H. injection H as _ <-. eapply persist_keeps_wf; eauto.
Qed.

Lemma update_rows_wf name assignments where_ s r s' :
  wf s -> update_rows name assignments where_ s = Ok r s' -> wf s'.
Proof.
  intros W. unfold update_rows. monad_unfold.
  destruct (_rows_for name where_ s) as [addrs s0|] eqn:E0; [|discriminate].
  pose proof (rows_for_frame _ _ _ _ _ E0) as ->.
  assert (exists tb, tget s name = Some tb) as (tb & Ht).
  { unfold _rows_for in E0. monad_unfold. rewrite table_at_spec in E0.
    destruct (tget s name); [eauto | discriminate]. }
  assert (Haddrs : forall a, In a addrs -> In a (rows tb)).
  { rewrite (rows_for_spec s name tb where_ W Ht) in E0.
    destruct where_ as [w|].
    - destruct (_ && _); [discriminate|]. injection E0 as <-.
      intros a. apply matching_incl.
    - injection E0 as <-. auto. }
  destruct (update_rows_loop (fun r => dict_update String.eqb r assignments)
              addrs s) as (s1 & E1 & T1 & _ & L1 & O1 & N1).
  rewrite E1. rewrite table_at_spec, (tget_same_tables _ _ _ T1), Ht.
  destruct (for_each _ (fun c => _rebuild_index name c) s1)
    as [u s2|] eqn:E2; [|discriminate].
  assert (Ht1 : tget s1 name = Some tb)
    by (rewrite (tget_same_tables _ _ _ T1); exact Ht).
  destruct (rebuild_loop _ _ _ _ _ _ Ht1 E2)
    as (tb' & U2 & _ & R2 & _ & Hd & Hnd & _ & K2).
  assert (W2 : wf s2).
  { apply (wf_updated s s2 name tb tb' (store s1)); [exact W | exact Ht | | | | | | ].
    - constructor.
      + apply (upd_store _ _ _ _ _ U2).
      + rewrite (upd_keys _ _ _ _ _ U2). unfold dict_keys. rewrite T1. reflexivity.
      + intros n. rewrite (upd_get _ _ _ _ _ U2).
        rewrite (tget_same_tables _ _ _ T1). reflexivity.
    - lia.
    - intros a _ Hni. apply O1. intros X. apply Hni, Haddrs, X.
    - apply K2. eapply wf_index_names; eauto.
    - rewrite R2. auto.
    - intros c idx Hg. rewrite R2.
      destruct (in_dec string_dec c
                  (filter (fun c => dict_mem String.eqb assignments c)
                          (dict_keys (indexes tb)))) as [Hin|Hni].
      + eauto.
      + rewrite Hnd in Hg by assumption.
        rewrite <- (wf_index s W name tb Ht c idx Hg).
        apply build_index_ext. apply Forall_forall. intros a _.
        unfold key_of. destruct (N1 a) as (n & ->).
        apply row_get_iter_update.
        destruct (dict_get String.eqb assignments c) eqn:D; [|reflexivity].
        exfalso. apply Hni. apply filter_In. split.
        * eapply sget_some_in_keys; eauto.
        * unfold dict_mem. rewrite D. reflexivity. }
  destruct addrs.
  - intros H. injection H as _ <-. exact W2.
  - destruct (_persist s2) as [u' s3|] eqn:E3; [|discriminate].
    intros H. injection H as _ <-. eapply persist_keeps_wf; eauto.
Qed.

End Preservation2.

Module Preservation3.
Import BTreeStorage Spec IndexFacts StorageFacts Invariant RowStore Preservation
       Preservation2.

Lemma deref_app_old (st : list row) (extra : list row) a :
  a < length st -> deref (st ++ extra) a = deref st a.
Proof. intros H. unfold deref. apply app_nth1, H. Qed.

Lemma nodup_keys_split {V} (d done rest : dict string V) (x : string * V) :
  NoDup (dict_keys d) -> d = done ++ x :: rest ->
  ~ In (fst x) (map fst done).
Proof.
  intros Hnd ->. unfold dict_keys in Hnd. rewrite map_app in Hnd. simpl in Hnd.
  apply NoDup_remove_2 in Hnd. intros X. apply Hnd. apply in_or_app. auto.
Qed.

Lemma insert_row_wf name values s r s' :
  wf s -> insert_row name values s = Ok r s' -> wf s'.
Proof.
  intros W. unfold insert_row. monad_unfold. rewrite table_at_spec.
  destruct (tget s name) as [tb|] eqn:Ht; [|discriminate].
  set (row := dict_of_items String.eqb (zip (columns tb) values)).
  set (a := length (store s)).
  set (s0 := set_store (store s ++ [row]) s).
  assert (Ht0 : tget s0 name = Some tb) by exact Ht.
  destruct (update_table_spec name (fun tb => set_rows (rows tb ++ [a]) tb)
              s0 tb Ht0) as (s1 & E1 & U1 & _).
  rewrite E1.
  match goal with
  | |- match for_each ?l ?b s1 with _ => _ end = _ -> _ =>
      destruct (for_each l b s1) as [u s2|] eqn:E2; [|discriminate]
  end.
  destruct (_persist s2) as [u' s3|] eqn:E3; [|discriminate].
  intros H. injection H as _ <-.
  eapply persist_keeps_wf; [|exact E3].
  set (st' := store s ++ [row]) in *.
  pose proof (wf_index_names s W name tb Ht) as Hnd.
  assert (Hold : forall c, build_index st' c (rows tb) []
                           = build_index (store s) c (rows tb) []).
  { intros c. apply build_index_ext. apply Forall_forall. intros x Hx.
    unfold key_of, st'. rewrite deref_app_old; [reflexivity|].
    eapply wf_bounds; eauto. }
  pose (I := fun (done : list (string * index)) (s2 : t) =>
    exists tb2,
      updated s0 s2 name tb2 st'
      /\ rows tb2 = rows tb ++ [a]
      /\ dict_keys (indexes tb2) = dict_keys (indexes tb)
      /\ (forall c idx,
            dict_get String.eqb (indexes tb2) c = Some idx ->
            (In c (map fst done) ->
             build_index st' c (rows tb ++ [a]) [] = Val idx)
            /\ (~ In c (map fst done) ->
                build_index st' c (rows tb) [] = Val idx))).
  assert (Hfinal : I (indexes tb) s2).
  { eapply (for_each_invariant_pos (indexes tb) I); [| |exact E2].
    - clear E2 E3 s2 s3 u u'.
      intros done ci rest s2 r2 s3 El (tb2 & U & R & K & Hi) Hstep.
      rewrite table_at_spec, (updated_get_same _ _ _ _ _ U) in Hstep.
      pose proof (nodup_keys_split _ _ _ _ Hnd El) as Hfresh.
      destruct (dict_get String.eqb (indexes tb2) (fst ci)) as [idx|] eqn:G.
      + rewrite (upd_store _ _ _ _ _ U) in Hstep.
        destruct (index_add st' (fst ci) idx a) as [idx'|] eqn:A; [|discriminate].
        destruct (update_table_spec name
                    (fun tb0 => set_indexes
                                  (dict_set String.eqb (indexes tb0) (fst ci) idx') tb0)
                    s2 tb2 (updated_get_same _ _ _ _ _ U)) as (sx & Ex & Ux & _).
        rewrite Ex in Hstep. injection Hstep as _ <-.
        rewrite (upd_store _ _ _ _ _ U) in Ux.
        eexists. split; [eapply updated_trans; eauto|].
        simpl. split; [exact R|]. split.
        { rewrite <- K. eapply skeys_set_mem; eauto. }
        intros c idx0 Hg. rewrite sget_set in Hg. rewrite map_app, in_app_iff. simpl.
        destruct (String.eqb_spec (fst ci) c) as [<-|Hne].
        * injection Hg as <-. split; [|tauto]. intros _.
          rewrite build_index_snoc.
          destruct (Hi _ _ G) as [_ Hb]. rewrite (Hb Hfresh). exact A.
        * destruct (Hi _ _ Hg) as [Hb1 Hb2]. split.
          -- intros [X|[X|[]]]; [auto|congruence].
          -- intros X. apply Hb2. tauto.
      + injection Hstep as _ <-.
        exists tb2. split; [exact U|]. split; [exact R|]. split; [exact K|].
        intros c idx0 Hg. rewrite map_app, in_app_iff. simpl.
        destruct (Hi _ _ Hg) as [Hb1 Hb2]. split.
        * intros [X|[X|[]]]; [auto|congruence].
        * intros X. apply Hb2. tauto.
    - exists (set_rows (rows tb ++ [a]) tb). split; [exact U1|].
      simpl. split; [reflexivity|]. split; [reflexivity|].
      intros c idx Hg. split; [tauto|]. intros _.
      rewrite Hold. apply (wf_index s W name tb Ht c idx Hg). }
  destruct Hfinal as (tb2 & U & R & K & Hi).
  apply (wf_updated s s2 name tb tb2 st'); [exact W | exact Ht | | | | | | ].
  - destruct U as [A1 A2 A3]. constructor; auto.
  - unfold st'. rewrite length_app. lia.
  - intros x Hx _. unfold st'. apply deref_app_old, Hx.
  - rewrite K. exact Hnd.
  - rewrite R. intros x Hx. apply in_app_or in Hx.
    destruct Hx as [Hx|[<-|[]]]; [auto|].
    right. unfold st', a. rewrite length_app. simpl. lia.
  - intros c idx Hg. rewrite R. destruct (Hi _ _ Hg) as [Hb _]. apply Hb.
    apply sget_some_in_keys in Hg. rewrite K in Hg. exact Hg.
Qed.

End Preservation3.

(** ** Queries *)

Module QueryFacts.
Import BTreeStorage Spec IndexFacts StorageFacts Invariant RowStore Preservation
       Preservation2 Preservation3.


Lemma select_plain_spec name cols where_ s :
  select_rows name cols where_ None s
  = match _rows_for name where_ s with
    | Ok addrs s1 => Ok (project cols (map (deref (store s1)) addrs)) s1
    | Raise e s1 => Raise e s1
    end.
Proof.
  unfold select_rows, project, bind, get, ret.
  destruct (_rows_for name where_ s) as [addrs s1|]; [|reflexivity].
  destruct (is_wildcard cols); reflexivity.
Qed.


Lemma filter_map_comm {A B} (f : A -> B) (p : B -> bool) (l : list A) :
  filter p (map f l) = map f (filter (fun x => p (f x)) l).
Proof.
  induction l as [|x l IH]; simpl; [reflexivity|].
  destruct (p (f x)); simpl; rewrite IH; reflexivity.
Qed.

Lemma join_loop_spec st index lcols rcols j cols rrows lefts :
  (forall v, find index v
             = filter (fun a => py_eqb (key_of st (right_column j) a) v) rrows) ->
  Forall (fun a => hashable (key_of st (left_column j) a) = true) lefts ->
  join_loop st index lcols rcols j cols lefts
  = Val (inner_join lcols rcols j cols (map (deref st) lefts)
                    (map (deref st) rrows)).
Proof.
  intros Hfind. induction 1 as [|a lefts Ha _ IH]; simpl; [reflexivity|].
  unfold join_matches. unfold key_of in Ha. rewrite Ha. simpl.
  rewrite IH. simpl. unfold inner_join. simpl. f_equal. f_equal. f_equal.
  fold (find index (row_get (deref st a) (left_column j))).
  rewrite Hfind. unfold partners. rewrite filter_map_comm. reflexivity.
Qed.

Lemma join_loop_unhashable st index lcols rcols j cols lefts :
  ~ Forall (fun a => hashable (key_of st (left_column j) a) = true) lefts ->
  join_loop st index lcols rcols j cols lefts = Exn TypeError.
Proof.
  induction lefts as [|a lefts IH]; simpl; intros H.
  - exfalso. apply H. constructor.
  - unfold join_matches. fold (key_of st (left_column j) a).
    destruct (hashable (key_of st (left_column j) a)) eqn:Hh; simpl; [|reflexivity].
    rewrite IH; [reflexivity|]. intros X. apply H. constructor; auto.
Qed.

(** [_join_rows] in a well-formed state. *)
Lemma join_rows_spec s name j cols where_ tb rtb lefts :
  wf s ->
  tget s name = Some tb -> tget s (join_table j) = Some rtb ->
  _rows_for name where_ s = Ok lefts s ->
  Forall (fun a => hashable (key_of (store s) (left_column j) a) = true) lefts ->
  Forall (fun a => hashable (key_of (store s) (right_column j) a) = true) (rows rtb) ->
  exists s',
    _join_rows name cols where_ j s
    = Ok (inner_join (columns tb) (columns rtb) j cols
                     (map (deref (store s)) lefts)
                     (map (deref (store s)) (rows rtb))) s'
    /\ wf s' /\ store s' = store s
    /\ (forall n tb0, tget s n = Some tb0 ->
          exists tb1, tget s' n = Some tb1
                      /\ rows tb1 = rows tb0 /\ columns tb1 = columns tb0).
Proof.
  intros W Ht Hr Hl Hlk Hrk.
  unfold _join_rows. monad_unfold. rewrite Hl, table_at_spec, Hr.
  destruct (dict_get String.eqb (indexes rtb) (right_column j)) as [idx|] eqn:G.
  - rewrite table_at_spec, Ht.
    pose proof (wf_index s W _ _ Hr _ _ G) as B.
    rewrite (join_loop_spec (store s) idx (columns tb) (columns rtb) j cols
               (rows rtb) lefts); auto.
    + exists s. split; [reflexivity|]. split; [exact W|]. split; [reflexivity|].
      intros n tb0 H. eauto.
    + intros v. rewrite (build_index_find _ _ _ _ _ B v). reflexivity.
  - destruct (build_index_total _ _ _ Hrk []) as (idx & B).
    destruct (rebuild_total _ _ _ _ _ Hr B) as (s1 & E1).
    rewrite E1.
    destruct (rebuild_spec _ _ _ _ _ E1) as (tbx & idx' & Hx & B' & U & _).
    rewrite Hr in Hx. injection Hx as <-.
    rewrite B in B'. injection B' as <-.
    rewrite table_at_spec, (updated_get_same _ _ _ _ _ U). simpl.
    rewrite sget_set_same, table_at_spec.
    assert (W1 : wf s1).
    { apply (wf_updated s s1 (join_table j) rtb
               (set_indexes (dict_set String.eqb (indexes rtb) (right_column j) idx) rtb)
               (store s));
        [exact W | exact Hr | exact U | lia | reflexivity | | | ].
      - simpl. apply skeys_nodup_set. eapply wf_index_names; eauto.
      - simpl. auto.
      - intros c i. simpl. rewrite sget_set.
        destruct (String.eqb_spec (right_column j) c) as [<-|]; [congruence|].
        apply (wf_index s W _ _ Hr). }
    assert (Hcols : exists tb1, tget s1 name = Some tb1 /\ columns tb1 = columns tb).
    { rewrite (upd_get _ _ _ _ _ U).
      destruct (String.eqb_spec (join_table j) name) as [E|_].
      - rewrite E in Hr. rewrite Ht in Hr. injection Hr as ->. eauto.
      - eauto. }
    destruct Hcols as (tb1 & Ht1 & C1). rewrite Ht1, C1.
    rewrite (upd_store _ _ _ _ _ U).
    rewrite (join_loop_spec (store s) idx (columns tb) (columns rtb) j cols
               (rows rtb) lefts); auto.
    + exists s1. split; [reflexivity|]. split; [exact W1|].
      split; [apply (upd_store _ _ _ _ _ U)|].
      intros n tb0 H. rewrite (upd_get _ _ _ _ _ U).
      destruct (String.eqb_spec (join_table j) n) as [<-|_].
      * rewrite Hr in H. injection H as <-. eauto.
      * eauto.
    + intros v. rewrite (build_index_find _ _ _ _ _ B v). reflexivity.
Qed.


Lemma filter_none {A} (p : A -> bool) (l : list A) :
  (forall x, In x l -> p x = false) -> filter p l = [].
Proof.
  induction l as [|x l IH]; simpl; intros H; [reflexivity|].
  rewrite (H x) by auto. apply IH. auto.
Qed.

Lemma inner_join_no_match lcols rcols j cols left_rows right_rows :
  (forall l r, In l left_rows -> In r right_rows ->
               py_eqb (row_get r (right_column j)) (row_get l (left_column j)) = false) ->
  inner_join lcols rcols j cols left_rows right_rows = [].
Proof.
  intros H. unfold inner_join, partners.
  induction left_rows as [|l ls IH]; simpl; [reflexivity|].
  rewrite IH by (intros; apply H; simpl; auto).
  rewrite app_nil_r.
  rewrite filter_none; [reflexivity|].
  intros r Hr. apply H; simpl; auto.
Qed.

End QueryFacts.

Module Preservation4.
Import BTreeStorage Spec IndexFacts StorageFacts Invariant RowStore Preservation
       Preservation2 Preservation3 QueryFacts.

Lemma join_rows_wf name cols where_ j s r s' :
  wf s -> _join_rows name cols where_ j s = Ok r s' -> wf s'.
Proof.
  intros W. unfold _join_rows. monad_unfold.
  destruct (_rows_for name where_ s) as [lefts s0|] eqn:E0; [|discriminate].
  pose proof (rows_for_frame _ _ _ _ _ E0) as ->.
  rewrite table_at_spec.
  destruct (tget s (join_table j)) as [rtb|] eqn:Hr; [|discriminate].
  destruct (dict_get String.eqb (indexes rtb) (right_column j)) as [idx|] eqn:G.
  - rewrite table_at_spec. destruct (tget s name); [|discriminate].
    destruct (join_loop _ _ _ _ _ _ _); [|discriminate].
    intros H. injection H as _ <-. exact W.
  - destruct (_rebuild_index (join_table j) (right_column j) s) as [u s1|] eqn:E1;
      [|discriminate].
    destruct (rebuild_spec _ _ _ _ _ E1) as (tbx & idx & Hx & B & U & _).
    rewrite Hr in Hx. injection Hx as <-.
    assert (W1 : wf s1).
    { apply (wf_updated s s1 (join_table j) rtb
               (set_indexes (dict_set String.eqb (indexes rtb) (right_column j) idx) rtb)
               (store s));
        [exact W | exact Hr | exact U | lia | reflexivity | | | ].
      - simpl. apply skeys_nodup_set. eapply wf_index_names; eauto.
      - simpl. auto.
      - intros c i. simpl. rewrite sget_set.
        destruct (String.eqb_spec (right_column j) c) as [<-|]; [congruence|].
        apply (wf_index s W _ _ Hr). }
    rewrite table_at_spec.
    destruct (tget s1 (join_table j)); [|discriminate].
    rewrite table_at_spec.
    destruct (tget s1 name); [|discriminate].
    destruct (join_loop _ _ _ _ _ _ _); [|discriminate].
    intros H. injection H as _ <-. exact W1.
Qed.

Lemma select_rows_wf name cols where_ join s r s' :
  wf s -> select_rows name cols where_ join s = Ok r s' -> wf s'.
Proof.
  intros W. destruct join as [j|].
  - apply join_rows_wf, W.
  - rewrite select_plain_spec.
    destruct (_rows_for name where_ s) as [addrs s1|] eqn:E; [|discriminate].
    pose proof (rows_for_frame _ _ _ _ _ E) as ->.
    intros H. injection H as _ <-. exact W.
Qed.

Lemma bind_ok_inv {S A B} (m : M S A) (k : A -> M S B) s r s' :
  bind m k s = Ok r s' -> exists a s1, m s = Ok a s1 /\ k a s1 = Ok r s'.
Proof.
  unfold bind. destruct (m s) as [a s1|]; [eauto | discriminate].
Qed.

Lemma run_op_wf o s r s' : wf s -> run_op o s = Ok r s' -> wf s'.
Proof.
  intros W. destruct o; simpl; intros H;
    try (apply bind_ok_inv in H; destruct H as (a & s1 & H & K);
         injection K as _ <-).
  - eapply create_table_wf; eauto.
  - eapply drop_table_wf; eauto.
  - eapply add_column_wf; eauto.
  - eapply create_index_wf; eauto.
  - eapply drop_index_wf; eauto.
  - eapply insert_row_wf; eauto.
  - eapply update_rows_wf; eauto.
  - eapply delete_rows_wf; eauto.
  - eapply select_rows_wf; eauto.
Qed.

End Preservation4.

Section StorageClaims.


Import BTreeStorage Spec IndexFacts StorageFacts Invariant RowStore Preservation
     Preservation2 Preservation3 QueryFacts Preservation4.

(** * The claims *)

(** C3. For every byte payload, [write_blob] followed by [read_blob] on a
  pager with a positive page size returns exactly the payload: the recorded
  length is the payload's length, the concatenated pages truncated to that
  length are the payload, and an empty payload reads back as empty bytes.
  With a page size below 2^32 and a payload below 2^64 bytes the write
  returns without an exception. *)
Theorem pager_blob_roundtrip (p : Pager.t) (data : bytes) :
(0 < Pager.page_size p)%Z ->
let p' := state_of (Pager.write_blob data p) in
Pager.read_blob p' = data
/\ Pager._length p' = Z.of_nat (length data)
/\ firstn (length data) (concat (Pager._pages p')) = data
/\ (data = [] -> Pager.read_blob p' = [])
/\ ((Pager.page_size p < 2 ^ 32)%Z -> (Z.of_nat (length data) < 2 ^ 64)%Z ->
    returns (Pager.write_blob data p) = true).
Proof.
intros Hps p'.
destruct (write_blob_state p data Hps) as (L & _ & P). fold p' in L, P.
split; [apply write_then_read, Hps|].
split; [exact L|].
split; [rewrite P; apply concat_written_pages, Hps|].
split; [intros ->; apply (write_then_read p [] Hps)|].
intros H32 H64. apply write_blob_returns; [lia | exact H64].
Qed.








End StorageClaims.

(** ** The executor and the commit log *)

Module ExecutorFacts.
Import SQLExecutor ExecSpec.

Lemma quiet_ret {A} (a : A) : quiet (ret a).
Proof. intros e. simpl. auto. Qed.

Lemma quiet_raise {A} x : quiet (@raise t A x).
Proof. intros e. simpl. auto. Qed.

Lemma quiet_lift {A} (r : result A) : quiet (lift_result r).
Proof. intros e. unfold lift_result. destruct r; simpl; auto. Qed.

Lemma quiet_get : quiet (@get t).
Proof. intros e. simpl. auto. Qed.

Lemma quiet_bind {A B} (m : M t A) (k : A -> M t B) :
  quiet m -> (forall a, quiet (k a)) -> quiet (bind m k).
Proof.
  intros Hm Hk e. unfold bind. destruct (Hm e) as [L D].
  destruct (m e) as [a e1|x e1]; simpl in *.
  - destruct (Hk a e1) as [L' D']. split; [congruence | auto].
  - auto.
Qed.

Lemma mem_set {V} (d : dict string V) k v n :
  dict_mem String.eqb d n = true ->
  dict_mem String.eqb (dict_set String.eqb d k v) n = true.
Proof.
  unfold dict_mem. rewrite sget_set. destruct (String.eqb k n); auto.
Qed.

Lemma quiet_on_storage {A} name (m : M BTreeStorage.t A) : quiet (on_storage name m).
Proof.
  intros e. unfold on_storage.
  destruct (dict_get String.eqb (_databases e) name); [|simpl; auto].
  destruct (m t0); simpl; split; auto; intros n; apply mem_set.
Qed.

Lemma quiet_ensure name : quiet (_ensure_database name).
Proof.
  intros e. unfold _ensure_database.
  destruct (dict_mem String.eqb (_databases e) name); [simpl; auto|].
  destruct (Pager.init None 4096); [|simpl; auto].
  destruct (BTreeStorage.init (Some s)); simpl; auto.
  split; auto. intros n. apply mem_set.
Qed.

Lemma quiet_set_active name : quiet (modify (set_active name)).
Proof. intros e. simpl. auto. Qed.

Lemma ensure_mem name e :
  dict_mem String.eqb (_databases (state_of (_ensure_database name e))) name = true
  \/ returns (_ensure_database name e) = false.
Proof.
  unfold _ensure_database.
  destruct (dict_mem String.eqb (_databases e) name) eqn:E; [simpl; auto|].
  destruct (Pager.init None 4096); [|simpl; auto].
  destruct (BTreeStorage.init (Some s)); simpl; auto.
  left. unfold dict_mem. rewrite sget_set_same. reflexivity.
Qed.

Lemma active_ret {A} (a : A) : keeps_active (ret a : M t A).
Proof. intros e. reflexivity. Qed.

Lemma active_raise {A} x : keeps_active (@raise t A x).
Proof. intros e. reflexivity. Qed.

Lemma active_lift {A} (r : result A) : keeps_active (lift_result r : M t A).
Proof. intros e. unfold lift_result. destruct r; reflexivity. Qed.

Lemma active_bind {A B} (m : M t A) (k : A -> M t B) :
  keeps_active m -> (forall a, keeps_active (k a)) -> keeps_active (bind m k).
Proof.
  intros Hm Hk e. unfold bind. pose proof (Hm e) as L.
  destruct (m e) as [a e1|x e1]; simpl in *; [|exact L].
  rewrite (Hk a e1). exact L.
Qed.

Lemma active_on_storage {A} name (m : M BTreeStorage.t A) :
  keeps_active (on_storage name m).
Proof.
  intros e. unfold on_storage.
  destruct (dict_get String.eqb (_databases e) name); [|reflexivity].
  destruct (m t0); reflexivity.
Qed.

Lemma active_on_lsm {A} (m : M LSMTreeStorage.t A) : keeps_active (on_lsm m).
Proof. intros e. unfold on_lsm. destruct (m (_lsm e)); reflexivity. Qed.

Lemma active_ensure name : keeps_active (_ensure_database name).
Proof.
  intros e. unfold _ensure_database.
  destruct (dict_mem String.eqb (_databases e) name); [reflexivity|].
  destruct (Pager.init None 4096); [|reflexivity].
  destruct (BTreeStorage.init (Some s)); reflexivity.
Qed.

Lemma databases_on_lsm {A} (m : M LSMTreeStorage.t A) e :
  _databases (state_of (on_lsm m e)) = _databases e.
Proof. unfold on_lsm. destruct (m (_lsm e)); reflexivity. Qed.

Lemma quiet_appends {A} (m : M t A) e : quiet m -> appends m e [].
Proof.
  intros Q. destruct (Q e) as [L D]. split; [exact D|].
  exists []. rewrite app_nil_r. auto.
Qed.

Lemma logged_appends {A} active cmd (m : M BTreeStorage.t A)
      (pay : A -> LSMTreeStorage.payload) (lines : A -> list string) e :
  appends (logged active cmd m pay lines) e
          (if returns (logged active cmd m pay lines e) then [cmd] else [])
  /\ _active_db (state_of (logged active cmd m pay lines e)) = _active_db e.
Proof.
  unfold appends, logged, bind.
  destruct (quiet_on_storage active m e) as [L D].
  pose proof (active_on_storage active m e) as Act.
  destruct (on_storage active m e) as [a e1|x e1]; simpl in *.
  - split; [|exact Act]. split; [exact D|].
    eexists. split; [rewrite L; reflexivity | reflexivity].
  - split; [|exact Act]. split; [exact D|].
    exists []. rewrite app_nil_r. auto.
Qed.

Ltac quiet_solve :=
  repeat first
    [ apply quiet_ret | apply quiet_raise | apply quiet_lift
    | apply quiet_on_storage | apply quiet_ensure
    | apply quiet_bind; [|intros ?] ].

Ltac active_solve :=
  repeat first
    [ apply active_ret | apply active_raise | apply active_lift
    | apply active_on_storage | apply active_ensure | apply active_on_lsm
    | apply active_bind; [|intros ?] ].

Ltac to_keeps_active e :=
  match goal with
  | |- _active_db (state_of (?m e)) = _active_db e =>
      apply (fun H : keeps_active m => H e)
  end.

Lemma eqb_false_of_neq (a b : string) : a <> b -> String.eqb a b = false.
Proof. intros H. destruct (String.eqb_spec a b); congruence. Qed.

(** The statements below the table-existence check. *)
Lemma statement_appends p active st e :
  command p <> "COMMIT"%string ->
  appends (execute_statement p active st) e
          (if is_dml (command p) && returns (execute_statement p active st e)
           then [command p] else [])
  /\ _active_db (state_of (execute_statement p active st e)) = _active_db e.
Proof.
  intros NC. unfold execute_statement, is_dml.
  destruct (String.eqb_spec (command p) "ALTER_TABLE") as [E|N1].
  { rewrite E. simpl. split.
    - apply quiet_appends. destruct (cmd_details p); quiet_solve.
    - to_keeps_active e.
      destruct (cmd_details p); active_solve. }
  destruct (String.eqb_spec (command p) "DROP_TABLE") as [E|N2].
  { rewrite E. simpl. split.
    - apply quiet_appends. destruct (details_table (cmd_details p)); quiet_solve.
    - to_keeps_active e.
      destruct (details_table (cmd_details p)); active_solve. }
  destruct (String.eqb_spec (command p) "CREATE_INDEX") as [E|N3].
  { rewrite E. simpl. split.
    - apply quiet_appends. destruct (cmd_details p); quiet_solve.
    - to_keeps_active e.
      destruct (cmd_details p); active_solve. }
  destruct (String.eqb_spec (command p) "DROP_INDEX") as [E|N4].
  { rewrite E. simpl. split.
    - apply quiet_appends. destruct (cmd_details p); quiet_solve.
    - to_keeps_active e.
      destruct (cmd_details p); active_solve. }
  destruct (String.eqb_spec (command p) "INSERT") as [E|N5].
  { rewrite E. simpl orb. cbv iota.
    destruct (cmd_details p);
      try (simpl; split; [apply (quiet_appends (raise _)), quiet_raise | reflexivity]).
    apply (logged_appends active "INSERT" (BTreeStorage.insert_row table values)
             LSMTreeStorage.Row (fun _ => ["1 row inserted."%string]) e). }
  destruct (String.eqb_spec (command p) "UPDATE") as [E|N6].
  { rewrite E. simpl orb. cbv iota.
    destruct (cmd_details p);
      try (simpl; split; [apply (quiet_appends (raise _)), quiet_raise | reflexivity]).
    apply (logged_appends active "UPDATE"
             (BTreeStorage.update_rows table assignments where_)
             LSMTreeStorage.Count
             (fun count => [str_of_int count ++ " row(s) updated."]%string) e). }
  destruct (String.eqb_spec (command p) "DELETE") as [E|N7].
  { rewrite E. simpl orb. cbv iota.
    destruct (details_table (cmd_details p)) as [tname|];
      try (simpl; split; [apply (quiet_appends (raise _)), quiet_raise | reflexivity]).
    apply (logged_appends active "DELETE"
             (BTreeStorage.delete_rows tname (details_where (cmd_details p)))
             LSMTreeStorage.Count
             (fun count => [str_of_int count ++ " row(s) deleted."]%string) e). }
  simpl orb. cbv iota.
  destruct (String.eqb_spec (command p) "SELECT") as [E|N8].
  { split.
    - apply quiet_appends.
      destruct (match details_join (cmd_details p) with
                | Some j => _ | None => false end); [apply quiet_ret|].
      destruct (cmd_details p); quiet_solve.
    - to_keeps_active e.
      destruct (match details_join (cmd_details p) with
                | Some j => _ | None => false end); [apply active_ret|].
      destruct (cmd_details p); active_solve. }
  destruct (String.eqb_spec (command p) "COMMIT") as [E|_]; [congruence|].
  split; [apply quiet_appends, quiet_ret | reflexivity].
Qed.

Lemma appends_ext {A} (m m' : M t A) e kinds :
  m e = m' e -> appends m e kinds -> appends m' e kinds.
Proof. unfold appends. intros <-. auto. Qed.

Lemma dml_not (c : string) :
  c <> "INSERT"%string -> c <> "UPDATE"%string -> c <> "DELETE"%string ->
  is_dml c = false.
Proof.
  intros A B C. unfold is_dml.
  rewrite !eqb_false_of_neq by assumption. reflexivity.
Qed.

(** A database statement: make sure the database exists, then switch. *)
Lemma switch_appends (r : result string) (line : string -> list string) e :
  active_ok e ->
  let stmt :=
    bind (lift_result r) (fun name =>
    bind (_ensure_database name)
      (fun _ => bind (modify (set_active name)) (fun _ => ret (line name)))) in
  appends stmt e [] /\ active_ok (state_of (stmt e)).
Proof.
  intros Hok stmt. unfold stmt, bind, modify, ret, lift_result, appends, active_ok.
  destruct r as [name|x]; simpl.
  2:{ repeat split; auto. exists []. rewrite app_nil_r. auto. }
  destruct (quiet_ensure name e) as [L D].
  pose proof (active_ensure name e) as Act.
  pose proof (ensure_mem name e) as Mem.
  destruct (_ensure_database name e) as [u e1|x e1]; simpl in *.
  - repeat split; auto.
    + exists []. rewrite app_nil_r. auto.
    + destruct Mem as [Mem|Mem]; [exact Mem | discriminate].
  - repeat split; auto.
    + exists []. rewrite app_nil_r. auto.
    + rewrite Act. auto.
Qed.

Lemma eqb_true_of_eq (a b : string) : a = b -> String.eqb a b = true.
Proof. intros ->. apply String.eqb_refl. Qed.

(** Every statement but COMMIT appends one record when it is mutating, and
    none otherwise; the active database stays one of the databases. *)
Lemma execute_appends p e :
  command p <> "COMMIT"%string -> active_ok e ->
  appends (execute p) e (if mutating p e then [command p] else [])
  /\ active_ok (state_of (execute p e)).
Proof.
  intros NC Hok. unfold mutating.
  destruct (String.eqb_spec (command p) "EMPTY") as [E|N1].
  { replace (is_dml (command p)) with false by (rewrite E; reflexivity).
    unfold execute. rewrite (eqb_true_of_eq _ _ E).
    split; [|exact Hok]. apply (quiet_appends (ret _)), quiet_ret. }
  destruct (String.eqb_spec (command p) "CREATE_DATABASE") as [E|N2].
  { replace (is_dml (command p)) with false by (rewrite E; reflexivity).
    unfold execute.
    rewrite (eqb_false_of_neq _ _ N1), (eqb_true_of_eq _ _ E).
    apply (switch_appends (details_name (cmd_details p))
             (fun name => ["Database " ++ quoted name ++ " ready."]%string) e Hok). }
  destruct (String.eqb_spec (command p) "ALTER_DATABASE") as [E|N3].
  { replace (is_dml (command p)) with false by (rewrite E; reflexivity).
    unfold execute.
    rewrite (eqb_false_of_neq _ _ N1), (eqb_false_of_neq _ _ N2),
      (eqb_true_of_eq _ _ E).
    apply (switch_appends (details_name (cmd_details p))
             (fun name => ["Using database " ++ quoted name ++ "."]%string) e Hok). }
  destruct (String.eqb_spec (command p) "USE_DATABASE") as [E|N4].
  { replace (is_dml (command p)) with false by (rewrite E; reflexivity).
    unfold execute.
    rewrite (eqb_false_of_neq _ _ N1), (eqb_false_of_neq _ _ N2),
      (eqb_false_of_neq _ _ N3), (eqb_true_of_eq _ _ E).
    unfold bind, get, modify, ret, lift_result, appends. cbv beta.
    destruct (details_name (cmd_details p)) as [name|x]; cbn [state_of andb].
    - destruct (dict_mem String.eqb (_databases e) name) eqn:M; cbn [negb state_of].
      + split; [|exact M]. split; [auto|]. exists []. rewrite app_nil_r. auto.
      + split; [|exact Hok]. split; [auto|]. exists []. rewrite app_nil_r. auto.
    - split; [|exact Hok]. split; [auto|]. exists []. rewrite app_nil_r. auto. }
  (* the statements on the active database *)
  unfold active_ok, dict_mem in Hok.
  destruct (dict_get String.eqb (_databases e) (_active_db e)) as [st|] eqn:G;
    [|discriminate].
  set (e1 := set_databases
               (dict_set String.eqb (_databases e) (_active_db e) st) e).
  assert (Hok1 : forall e2,
             (forall n, dict_mem String.eqb (_databases e1) n = true ->
                        dict_mem String.eqb (_databases e2) n = true) ->
             _active_db e2 = _active_db e -> active_ok e2).
  { intros e2 D Act. unfold active_ok. rewrite Act. apply D.
    unfold e1, dict_mem. simpl. rewrite sget_set_same. reflexivity. }
  assert (Hlift : forall (m : M t (list string)) kinds,
             execute p e = m e1 ->
             appends m e1 kinds /\ _active_db (state_of (m e1)) = _active_db e ->
             appends (execute p) e kinds /\ active_ok (state_of (execute p e))).
  { intros m kinds Eq [[D (new & L & K)] Act]. unfold appends. rewrite Eq. split.
    - split.
      + intros n Hn. apply D. unfold e1. simpl. apply mem_set, Hn.
      + exists new. auto.
    - apply Hok1; auto. }
  unfold table_missing. rewrite G.
  destruct (String.eqb_spec (command p) "CREATE_TABLE") as [E|N5].
  { replace (is_dml (command p)) with false by (rewrite E; reflexivity).
    cbn [andb].
    apply (Hlift (match cmd_details p with
                  | DCreateTable tname cols =>
                      if BTreeStorage.table_exists st tname
                      then ret ["Table " ++ quoted tname ++ " already exists."]%string
                      else bind (on_storage (_active_db e)
                                   (BTreeStorage.create_table tname (map fst cols)))
                             (fun _ => ret ["Table " ++ quoted tname ++ " created."]%string)
                  | _ => raise Unsupported
                  end)).
    - unfold execute.
      rewrite (eqb_false_of_neq _ _ N1), (eqb_false_of_neq _ _ N2),
        (eqb_false_of_neq _ _ N3), (eqb_false_of_neq _ _ N4),
        (eqb_true_of_eq _ _ E).
      unfold bind, get, on_storage. cbv beta. rewrite G. reflexivity.
    - split.
      + apply quiet_appends.
        destruct (cmd_details p); quiet_solve.
        destruct (BTreeStorage.table_exists st table); quiet_solve.
      + change (_active_db e) with (_active_db e1) at 2.
        to_keeps_active e1.
        destruct (cmd_details p); active_solve.
        destruct (BTreeStorage.table_exists st table); active_solve. }
  (* not found, or a statement on an existing table *)
  assert (Estmt : execute p e
                  = (match details_table (cmd_details p) with
                     | Some tname =>
                         if negb (String.eqb tname EmptyString)
                            && negb (BTreeStorage.table_exists st tname)
                         then ret ["Table " ++ quoted tname ++ " not found."]%string
                         else execute_statement p (_active_db e) st
                     | None => execute_statement p (_active_db e) st
                     end) e1).
  { unfold execute.
    rewrite (eqb_false_of_neq _ _ N1), (eqb_false_of_neq _ _ N2),
      (eqb_false_of_neq _ _ N3), (eqb_false_of_neq _ _ N4),
      (eqb_false_of_neq _ _ N5).
    unfold bind, get, on_storage. cbv beta. rewrite G. reflexivity. }
  destruct (details_table (cmd_details p)) as [tname|] eqn:T.
  - destruct (negb (String.eqb tname EmptyString)
              && negb (BTreeStorage.table_exists st tname)) eqn:Miss.
    + cbn [negb]. rewrite andb_false_r. cbn [andb].
      apply (Hlift _ _ Estmt). split; [|reflexivity].
      apply (quiet_appends (ret _)), quiet_ret.
    + cbn [negb]. rewrite andb_true_r.
      apply (Hlift _ _ Estmt). rewrite Estmt.
      apply (statement_appends p (_active_db e) st e1 NC).
  - cbn [negb]. rewrite andb_true_r.
    apply (Hlift _ _ Estmt). rewrite Estmt.
    apply (statement_appends p (_active_db e) st e1 NC).
Qed.

End ExecutorFacts.

Section ExecutorClaims.

Import SQLExecutor ExecSpec ExecutorFacts.

(** A run of statements other than COMMIT appends to the log one record per
  mutating statement, in order. *)
Lemma run_appends (ps : list ParsedCommand) :
forall e,
  active_ok e ->
  Forall (fun p => command p <> "COMMIT"%string) ps ->
  active_ok (run ps e)
  /\ exists new,
       _lsm (run ps e) = _lsm e ++ new
       /\ map LSMTreeStorage.command new = mutating_commands ps e.
Proof.
induction ps as [|p ps IH]; intros e Hok Hall; simpl.
- split; [exact Hok|]. exists []. rewrite app_nil_r. auto.
- inversion Hall as [|? ? Hp Hps]; subst.
  destruct (execute_appends p e Hp Hok) as [[_ (new1 & L1 & K1)] Hok1].
  destruct (IH _ Hok1 Hps) as [Hok2 (new2 & L2 & K2)].
  split; [exact Hok2|].
  exists (new1 ++ new2). split.
  + rewrite L2, L1, app_assoc. reflexivity.
  + rewrite map_app, K1, K2. reflexivity.
Qed.

Lemma commit_spec (seg : LSMTreeStorage.t) :
LSMTreeStorage.commit seg = Ok seg [].
Proof. reflexivity. Qed.

Lemma sset_same {V} (d : dict string V) k v :
dict_get String.eqb d k = Some v -> dict_set String.eqb d k v = d.
Proof.
induction d as [|[k0 v0] d IH]; simpl; [discriminate|].
destruct (String.eqb_spec k0 k) as [->|].
- intros H. injection H as ->. reflexivity.
- intros H. rewrite IH by assumption. reflexivity.
Qed.

Lemma set_databases_same (e : t) : set_databases (_databases e) e = e.
Proof. destruct e. reflexivity. Qed.

Lemma execute_commit (p : ParsedCommand) (e : t) :
command p = "COMMIT"%string -> cmd_details p = DEmpty -> active_ok e ->
execute p e = Ok [commit_report (length (_lsm e))] (set_lsm [] e).
Proof.
intros E D Hok. unfold active_ok, dict_mem in Hok.
destruct (dict_get String.eqb (_databases e) (_active_db e)) as [st|] eqn:G;
  [|discriminate].
unfold execute. rewrite E, D.
change (String.eqb "COMMIT" "EMPTY") with false.
change (String.eqb "COMMIT" "CREATE_DATABASE") with false.
change (String.eqb "COMMIT" "ALTER_DATABASE") with false.
change (String.eqb "COMMIT" "USE_DATABASE") with false.
change (String.eqb "COMMIT" "CREATE_TABLE") with false.
cbv iota. unfold bind, get, on_storage. cbv beta. rewrite G.
cbn [details_table state_of].
rewrite (sset_same _ _ _ G), set_databases_same.
unfold execute_statement. rewrite E.
change (String.eqb "COMMIT" "ALTER_TABLE") with false.
change (String.eqb "COMMIT" "DROP_TABLE") with false.
change (String.eqb "COMMIT" "CREATE_INDEX") with false.
change (String.eqb "COMMIT" "DROP_INDEX") with false.
change (String.eqb "COMMIT" "INSERT") with false.
change (String.eqb "COMMIT" "UPDATE") with false.
change (String.eqb "COMMIT" "DELETE") with false.
change (String.eqb "COMMIT" "SELECT") with false.
change (String.eqb "COMMIT" "COMMIT") with true.
reflexivity.
Qed.

(** C7. After any number of statements followed by COMMIT (the log being
  empty at the start, as a commit leaves it): the commit of the log returns
  the pending entries in append order, one per mutating statement and in
  the order of those statements; COMMIT reports their number; and the
  pending log is empty afterwards. *)
Theorem commit_drains_log (e : t) (ps : list ParsedCommand)
      (commit : ParsedCommand) :
active_ok e -> _lsm e = [] ->
Forall (fun p => command p <> "COMMIT"%string) ps ->
command commit = "COMMIT"%string -> cmd_details commit = DEmpty ->
let e1 := run ps e in
let kinds := mutating_commands ps e in
LSMTreeStorage.commit (_lsm e1) = Ok (_lsm e1) []
/\ map LSMTreeStorage.command (lsm_entries e1) = kinds
/\ execute commit e1 = Ok [commit_report (length kinds)] (set_lsm [] e1)
/\ lsm_entries (state_of (execute commit e1)) = [].
Proof.
intros Hok Hlog Hps Hc Hd e1 kinds.
destruct (run_appends ps e Hok Hps) as [Hok1 (new & L & K)].
fold e1 in Hok1, L. fold kinds in K.
rewrite Hlog in L. simpl in L.
assert (X : execute commit e1 = Ok [commit_report (length kinds)] (set_lsm [] e1)).
{ rewrite (execute_commit commit e1 Hc Hd Hok1).
  rewrite <- K, length_map, L. reflexivity. }
split; [reflexivity|].
split; [unfold lsm_entries, LSMTreeStorage.snapshot; rewrite L; exact K|].
split; [exact X|].
rewrite X. reflexivity.
Qed.

(** C8. USE on a database that does not exist returns the single line
  "Database '<name>' not found." ([quoted] puts the name between single
  quotes) and leaves the whole state of the executor
  (active database, set of databases, storage and log) as it was. *)
Theorem use_unknown_database (e : t) (p : ParsedCommand) (name : string) :
command p = "USE_DATABASE"%string -> cmd_details p = DName name ->
dict_mem String.eqb (_databases e) name = false ->
execute p e = Ok [("Database " ++ quoted name ++ " not found.")%string] e.
Proof.
intros E D M. unfold execute. rewrite E, D.
change (String.eqb "USE_DATABASE" "EMPTY") with false.
change (String.eqb "USE_DATABASE" "CREATE_DATABASE") with false.
change (String.eqb "USE_DATABASE" "ALTER_DATABASE") with false.
change (String.eqb "USE_DATABASE" "USE_DATABASE") with true.
cbv iota. unfold bind, get, lift_result, details_name. cbv beta iota.
rewrite M. reflexivity.
Qed.

(** The scenario of the specification, from the query text, on the engine
  over an empty data directory. *)
Example use_reports :
DatabaseEngine.execute "USE reports" (state_of DatabaseEngine.fresh)
= Ok ["Database 'reports' not found."%string] (state_of DatabaseEngine.fresh).
Proof. vm_compute. reflexivity. Qed.

End ExecutorClaims.

Section FrontEndClaims.

Import BTreeStorage Spec IndexFacts StorageFacts Invariant RowStore QueryFacts.

(** ** Rendering *)

Lemma get_of_items (g : string -> value) (cols : list string) :
forall (acc : row) col,
  dict_get String.eqb
    (dict_update String.eqb acc (map (fun c => (c, g c)) cols)) col
  = if str_in col cols then Some (g col) else dict_get String.eqb acc col.
Proof.
unfold dict_update, str_in.
induction cols as [|c cols IH]; intros acc col; simpl; [reflexivity|].
rewrite IH, sget_set.
destruct (existsb (String.eqb col) cols); [rewrite orb_true_r; reflexivity|].
rewrite orb_false_r, (String.eqb_sym col c). simpl.
destruct (String.eqb_spec c col) as [->|]; reflexivity.
Qed.

Lemma str_in_true (x : string) (l : list string) : In x l -> str_in x l = true.
Proof.
intros H. unfold str_in. apply existsb_exists. exists x.
split; [exact H | apply String.eqb_refl].
Qed.

Lemma Forall2_map_r {A B} (R : A -> B -> Prop) (f : A -> B) (l : list A) :
(forall x, R x (f x)) -> Forall2 R l (map f l).
Proof. intros H. induction l; simpl; constructor; auto. Qed.

(** C10. In the output of a SELECT without a join, over the stored rows the
  WHERE clause selects: a column absent from a row's keys renders as the
  empty string; with an explicit column list every requested column is a
  key of the projected row, holding the stored value of the unqualified
  column, so a column the stored row lacks renders as the text None; with
  the wildcard the row is returned as it is stored, so a column it lacks
  renders as the empty cell.  [_format_rows] renders every cell of every
  row with [cell]. *)
Theorem select_cell_rendering
      (s : BTreeStorage.t) (name : string) (cols : list string)
      (where_ : option condition) (out : list row) (s' : BTreeStorage.t) :
select_rows name cols where_ None s = Ok out s' ->
(exists addrs,
    _rows_for name where_ s = Ok addrs s
    /\ Forall2
         (fun a row =>
            let src := deref (store s) a in
            if is_wildcard cols then row = src
            else forall col,
                In col cols ->
                dict_get String.eqb row col
                = Some (row_get src (unqualified col))
                /\ (dict_get String.eqb src (unqualified col) = None ->
                    SQLExecutor.cell row col = "None"%string))
         addrs out)
/\ (forall (row : row) (col : string),
      dict_get String.eqb row col = None ->
      SQLExecutor.cell row col = EmptyString)
/\ (forall first rest,
      out = first :: rest ->
      let headers := if is_wildcard cols then dict_keys first else cols in
      SQLExecutor._format_rows out cols
      = str_join " | " headers
          :: map (fun row => str_join " | " (map (SQLExecutor.cell row) headers))
                 out).
Proof.
intros H. rewrite select_plain_spec in H.
destruct (_rows_for name where_ s) as [addrs s1|] eqn:E; [|discriminate].
pose proof (rows_for_frame _ _ _ _ _ E) as ->.
injection H as <- <-.
split; [|split].
- exists addrs. split; [reflexivity|].
  unfold project. destruct (is_wildcard cols) eqn:Wc.
  + apply Forall2_map_r. reflexivity.
  + rewrite map_map. apply Forall2_map_r. intros a col Hin.
    unfold dict_of_items. rewrite get_of_items, (str_in_true _ _ Hin).
    split; [reflexivity|].
    intros Hnone. unfold SQLExecutor.cell, row_get_default.
    rewrite get_of_items, (str_in_true _ _ Hin).
    unfold row_get. rewrite Hnone. reflexivity.
- intros row col Hnone. unfold SQLExecutor.cell, row_get_default.
  rewrite Hnone. reflexivity.
- intros first rest ->. reflexivity.
Qed.

(** ** Exceptions that reach the caller *)

(** C1. [parse] raises on well-formed text instead of answering UNKNOWN:
  CREATE TABLE without a parenthesis (the unpacking of [split] in
  [_parse_create_table] raises ValueError), CREATE DATABASE without a name
  and a lone statement terminator (IndexError on [tokens]), UPDATE in lower
  case (IndexError on the split at " SET "). *)
Theorem parse_raises :
SQLParser.parse "CREATE TABLE t" = Exn ValueError
/\ SQLParser.parse "CREATE DATABASE" = Exn IndexError
/\ SQLParser.parse ";" = Exn IndexError
/\ SQLParser.parse "update t set a=1" = Exn IndexError
/\ SQLParser.parse "DELETE FROM t WHERE x" = Exn ValueError.
Proof. repeat split; vm_compute; reflexivity. Qed.

(** What the claim says of blank and of unrecognized input does hold. *)
Example parse_blank :
SQLParser.parse "   " = Val (mk_command "EMPTY" EmptyString [] DEmpty).
Proof. vm_compute. reflexivity. Qed.

Example parse_unknown :
SQLParser.parse "EXPLAIN users;"
= Val (mk_command "UNKNOWN" "EXPLAIN users;" ["EXPLAIN"; "users"]%string DEmpty).
Proof. vm_compute. reflexivity. Qed.

Example parse_use_without_name :
SQLParser.parse "USE"
= Val (mk_command "UNKNOWN" "USE" ["USE"%string] DEmpty).
Proof. vm_compute. reflexivity. Qed.

(** C2. Exceptions reach the caller of the engine.  Whatever the state, a
  query whose parse raises makes [execute] raise; on the engine over an
  empty data directory, ALTER TABLE t ADD COLUMN c (six words: the parser
  asks for seven and hands over empty details) and INSERT without INTO make
  the executor raise KeyError. *)
Theorem execute_raises :
(forall e, DatabaseEngine.execute "INSERT INTO t VALUES (abc)" e
           = Raise ValueError e)
/\ (forall e, DatabaseEngine.execute "CREATE DATABASE" e = Raise IndexError e)
/\ DatabaseEngine.execute "ALTER TABLE t ADD COLUMN c"
                          (state_of DatabaseEngine.fresh)
   = Raise (KeyError "column") (state_of DatabaseEngine.fresh)
/\ DatabaseEngine.execute "INSERT users" (state_of DatabaseEngine.fresh)
   = Raise (KeyError "values") (state_of DatabaseEngine.fresh).
Proof.
split; [|split; [|split]].
- intros e. unfold DatabaseEngine.execute.
  replace (SQLParser.parse "INSERT INTO t VALUES (abc)") with (@Exn ParsedCommand ValueError)
    by (vm_compute; reflexivity).
  reflexivity.
- intros e. unfold DatabaseEngine.execute.
  replace (SQLParser.parse "CREATE DATABASE") with (@Exn ParsedCommand IndexError)
    by (vm_compute; reflexivity).
  reflexivity.
- vm_compute. reflexivity.
- vm_compute. reflexivity.
Qed.

(** The scenario of the specification, query by query. *)
Example scenario_users :
fst (DatabaseEngine.run
       [ "CREATE TABLE users (id INT, name TEXT)";
         "INSERT INTO users VALUES (1, 'Ann')";
         "SELECT * FROM users";
         "UPDATE users SET name='Bea' WHERE id=1";
         "DELETE FROM users WHERE id=1";
         "SELECT * FROM users" ]%string
       (state_of DatabaseEngine.fresh))
= [ DatabaseEngine.Lines ["Table 'users' created."];
    DatabaseEngine.Lines ["1 row inserted."];
    DatabaseEngine.Lines ["id | name"; "1 | Ann"];
    DatabaseEngine.Lines ["1 row(s) updated."];
    DatabaseEngine.Lines ["1 row(s) deleted."];
    DatabaseEngine.Lines ["(no rows)"] ]%string.
Proof. vm_compute. reflexivity. Qed.

(** Rendering, on rows of different shapes: a short row under the wildcard
  and under an explicit column list. *)
Example scenario_rendering :
fst (DatabaseEngine.run
       [ "CREATE TABLE t (a, b)";
         "INSERT INTO t VALUES (1, 'x')";
         "INSERT INTO t VALUES (2)";
         "SELECT * FROM t";
         "SELECT a, b FROM t" ]%string
       (state_of DatabaseEngine.fresh))
= [ DatabaseEngine.Lines ["Table 't' created."];
    DatabaseEngine.Lines ["1 row inserted."];
    DatabaseEngine.Lines ["1 row inserted."];
    DatabaseEngine.Lines ["a | b"; "1 | x"; "2 | "];
    DatabaseEngine.Lines ["a | b"; "1 | x"; "2 | None"] ]%string.
Proof. vm_compute. reflexivity. Qed.

End FrontEndClaims.

(** ** The JSON codec: decoding what was encoded *)

Module JSONFacts.
Import JSON JSONSpec.
Import DecimalPos DecimalZ DecimalFacts DecimalN.

Lemma str_txt (s : string) : str (txt s) = s.
Proof. apply string_of_list_ascii_of_string. Qed.

Lemma txt_str (t : text) : txt (str t) = t.
Proof. apply list_ascii_of_string_of_list_ascii. Qed.

(** *** Text *)

Lemma scan_escaped (c : ascii) (r : text) :
  scanstring (escape_char c ++ r)
  = rbind (scanstring r) (fun p => Val (c :: fst p, snd p)).
Proof.
  destruct c as [[] [] [] [] [] [] [] []]; reflexivity.
Qed.

Lemma scan_dumped_body (s r : text) :
  scanstring (flat_map escape_char s ++ dquote :: r) = Val (s, r).
Proof.
  induction s as [|c s IH]; simpl.
  - reflexivity.
  - rewrite <- List.app_assoc, scan_escaped, IH. reflexivity.
Qed.

Lemma dump_string_eq (s : string) (r : text) :
  dump_string s ++ r = dquote :: flat_map escape_char (txt s) ++ dquote :: r.
Proof. unfold dump_string. simpl. rewrite <- List.app_assoc. reflexivity. Qed.

(** *** Integers *)

Lemma digits_are_digits (d : Decimal.uint) :
  forallb is_digit (txt (NilEmpty.string_of_uint d)) = true.
Proof. induction d; simpl; auto. Qed.

Lemma span_all {A} (p : A -> bool) (l rest : list A) :
  forallb p l = true ->
  match rest with [] => True | c :: _ => p c = false end ->
  span p (l ++ rest) = (l, rest).
Proof.
  intros Hl Hr. induction l as [|x l IH]; simpl in *.
  - destruct rest as [|c r]; [reflexivity|]. simpl. rewrite Hr. reflexivity.
  - apply andb_true_iff in Hl. destruct Hl as [Hx Hl].
    rewrite Hx, IH by assumption. reflexivity.
Qed.

Lemma to_uint_head (p : positive) :
  match Pos.to_uint p with
  | Decimal.Nil | Decimal.D0 _ => False
  | _ => True
  end.
Proof.
  pose proof (DecimalPos.Unsigned.to_of (Pos.to_uint p)) as H.
  rewrite DecimalPos.Unsigned.of_to in H. simpl in H.
  pose proof (Unsigned.to_uint_nonzero p) as Hnz.
  pose proof (Unsigned.to_uint_nonnil p) as Hnn.
  destruct (Pos.to_uint p) as [|u|u|u|u|u|u|u|u|u|u] eqn:E; try exact I.
  - congruence.
  - rewrite unorm_D0 in H. unfold Decimal.unorm in H.
    destruct (Decimal.nzhead u) eqn:En.
    + congruence.
    + exfalso. eapply nzhead_nonzero; eauto.
    + discriminate.
    + discriminate.
    + discriminate.
    + discriminate.
    + discriminate.
    + discriminate.
    + discriminate.
    + discriminate.
    + discriminate.
Qed.

Lemma scan_digits_positive (d : Decimal.uint) (rest : text) :
  match d with Decimal.Nil | Decimal.D0 _ => False | _ => True end ->
  no_digit rest ->
  scan_digits (txt (NilEmpty.string_of_uint d) ++ rest) = Some (d, rest).
Proof.
  intros Hd Hr.
  assert (G : forall c t, txt (NilEmpty.string_of_uint d) = c :: t ->
              (c =? "0")%char = false -> is_digit c = true ->
              scan_digits (txt (NilEmpty.string_of_uint d) ++ rest) = Some (d, rest)).
  { intros c t E C0 Cd. unfold scan_digits.
    rewrite E. cbn [app]. rewrite C0, Cd.
    change (c :: t ++ rest) with ((c :: t) ++ rest). rewrite <- E.
    rewrite (span_all is_digit _ rest (digits_are_digits d) Hr).
    rewrite str_txt, NilEmpty.usu. reflexivity. }
  destruct d; try contradiction; eapply G; reflexivity.
Qed.

Lemma scan_number_int (z : Z) (rest : text) :
  ends_number rest ->
  scan_number (txt (str_of_int z) ++ rest) = Val (JInt z, rest).
Proof.
  intros [Hd Hf]. unfold str_of_int. destruct z as [|p|p]; simpl Z.to_int.
  - unfold scan_number. simpl. rewrite Hf. reflexivity.
  - pose proof (to_uint_head p) as Hh.
    unfold NilZero.string_of_int, NilZero.string_of_uint.
    assert (E : txt (match Pos.to_uint p with
                     | Decimal.Nil => "0"%string
                     | _ => NilEmpty.string_of_uint (Pos.to_uint p)
                     end) = txt (NilEmpty.string_of_uint (Pos.to_uint p))).
    { destruct (Pos.to_uint p); try reflexivity. contradiction. }
    rewrite E. unfold scan_number.
    assert (N : forall c t, txt (NilEmpty.string_of_uint (Pos.to_uint p)) = c :: t ->
                (c =? "-")%char = false).
    { intros c t Ec. pose proof (digits_are_digits (Pos.to_uint p)) as D.
      rewrite Ec in D. simpl in D. apply andb_true_iff in D. destruct D as [D _].
      destruct (Ascii.eqb_spec c "-"); [subst c; discriminate | reflexivity]. }
    destruct (txt (NilEmpty.string_of_uint (Pos.to_uint p))) as [|c t] eqn:Et.
    { destruct (Pos.to_uint p); try contradiction; discriminate. }
    cbn [app]. rewrite (N c t eq_refl).
    change (c :: t ++ rest) with ((c :: t) ++ rest). rewrite <- Et.
    rewrite (scan_digits_positive _ rest Hh Hd), Hf.
    unfold Z.of_uint. rewrite DecimalPos.Unsigned.of_to. reflexivity.
  - pose proof (to_uint_head p) as Hh.
    unfold NilZero.string_of_int, NilZero.string_of_uint.
    assert (E : txt (String "-" (match Pos.to_uint p with
                     | Decimal.Nil => "0"%string
                     | _ => NilEmpty.string_of_uint (Pos.to_uint p)
                     end)) = "-"%char :: txt (NilEmpty.string_of_uint (Pos.to_uint p))).
    { destruct (Pos.to_uint p); try reflexivity. contradiction. }
    rewrite E. unfold scan_number. cbn [app]. 
    change (("-" =? "-")%char) with true. cbv iota.
    rewrite (scan_digits_positive _ rest Hh Hd), Hf.
    unfold Z.of_uint. rewrite DecimalPos.Unsigned.of_to. reflexivity.
Qed.

(** *** Values *)

Lemma digit_not_ws (c : ascii) : is_digit c = true -> is_ws c = false.
Proof.
  unfold is_digit, is_ws. intros H. apply andb_true_iff in H.
  destruct H as [H1 H2]. apply Nat.leb_le in H1, H2.
  repeat (apply orb_false_iff; split); apply Nat.eqb_neq; lia.
Qed.

Lemma int_text (z : Z) :
  exists c t, txt (str_of_int z) = c :: t
              /\ (is_digit c = true \/ c = "-"%char).
Proof.
  unfold str_of_int. destruct z as [|p|p]; simpl Z.to_int.
  - exists "0"%char, []. auto.
  - pose proof (digits_are_digits (Pos.to_uint p)) as D.
    pose proof (to_uint_head p) as Hh.
    unfold NilZero.string_of_int, NilZero.string_of_uint.
    destruct (Pos.to_uint p); try contradiction;
      (eexists; eexists; split; [reflexivity | left; reflexivity]).
  - exists "-"%char. eexists. split; [reflexivity | auto].
Qed.

(** An encoded value starts with a character that is not white space. *)
Lemma dump_head (j : json) :
  exists c t, dump j = c :: t /\ is_ws c = false.
Proof.
  destruct j as [| [] | z | s | items | members]; simpl;
    try (eexists; eexists; split; [reflexivity | reflexivity]).
  destruct (int_text z) as (c & t & E & [D| ->]); rewrite E.
  - exists c, t. split; [reflexivity | apply digit_not_ws, D].
  - exists "-"%char, t. split; reflexivity.
Qed.

Lemma skip_ws_dump (j : json) (r : text) : skip_ws (dump j ++ r) = dump j ++ r.
Proof.
  destruct (dump_head j) as (c & t & E & W). rewrite E. simpl. rewrite W.
  reflexivity.
Qed.

Lemma scan_once_number (f : nat) (z : Z) (rest : text) :
  scan_once (S f) (txt (str_of_int z) ++ rest)
  = scan_number (txt (str_of_int z) ++ rest).
Proof.
  unfold str_of_int. destruct z as [|p|p]; simpl Z.to_int.
  - reflexivity.
  - pose proof (to_uint_head p) as Hh.
    unfold NilZero.string_of_int, NilZero.string_of_uint.
    destruct (Pos.to_uint p); try contradiction; reflexivity.
  - pose proof (to_uint_head p) as Hh.
    unfold NilZero.string_of_int, NilZero.string_of_uint.
    destruct (Pos.to_uint p); try contradiction; reflexivity.
Qed.

Lemma dict_of_items_nodup {V} (items : list (string * V)) :
  NoDup (map fst items) -> dict_of_items String.eqb items = items.
Proof.
  unfold dict_of_items, dict_update.
  assert (G : forall acc,
             NoDup (map fst (acc ++ items)) ->
             fold_left (fun a kv => dict_set String.eqb a (fst kv) (snd kv))
                       items acc = acc ++ items).
  { induction items as [|[k v] items IH]; intros acc Hnd; simpl.
    - rewrite List.app_nil_r. reflexivity.
    - assert (E : dict_set String.eqb acc k v = acc ++ [(k, v)]).
      { rewrite map_app in Hnd. simpl in Hnd. apply NoDup_remove_2 in Hnd.
        assert (Hni : ~ In k (map fst acc)).
        { intros X. apply Hnd. apply in_or_app. auto. }
        clear -Hni. induction acc as [|[k0 v0] acc IH]; simpl; [reflexivity|].
        destruct (String.eqb_spec k0 k) as [->|].
        - exfalso. apply Hni. simpl. auto.
        - rewrite IH; [reflexivity|]. intros X. apply Hni. simpl. auto. }
      rewrite E, IH.
      + rewrite <- List.app_assoc. reflexivity.
      + rewrite <- List.app_assoc. exact Hnd. }
  intros H. apply (G []). exact H.
Qed.

End JSONFacts.

Module JSONRoundTrip.
Import JSON JSONSpec JSONFacts.

Lemma after_value_ends rest : after_value rest -> ends_number rest.
Proof.
  intros [->|(c & r & -> & [->|[->| ->]])]; split; reflexivity.
Qed.

Lemma scan_items_dumped (items : list json) :
  Forall reads_back items -> items <> [] ->
  forall acc rest fuel,
    2 * length (join [","%char] (map dump items) ++ "]"%char :: rest) + 1 <= fuel ->
    scan_items fuel (join [","%char] (map dump items) ++ "]"%char :: rest) acc
    = Val (acc ++ items, rest).
Proof.
  induction 1 as [|x items Hx Hitems IH]; [congruence|]. intros _ acc rest fuel Hf.
  destruct fuel as [|f]; [lia|].
  destruct items as [|y items].
  - simpl join in *. cbn [scan_items].
    rewrite (Hx ("]"%char :: rest) f).
    + reflexivity.
    + right. exists "]"%char, rest. auto.
    + lia.
  - change (join [","%char] (map dump (x :: y :: items)))
      with (dump x ++ [","%char] ++ join [","%char] (map dump (y :: items))) in *.
    rewrite <- !app_assoc in *. cbn [scan_items].
    rewrite (Hx (([","%char] ++ join [","%char] (map dump (y :: items)) ++ "]"%char :: rest)) f).
    + cbn [rbind fst snd app skip_ws is_ws]. 
      change (is_ws ","%char) with false. cbv iota.
      change (("," =? "]")%char) with false.
      change (("," =? ",")%char) with true. cbv iota.
      assert (Sk : skip_ws (join [","%char] (map dump (y :: items)) ++ "]"%char :: rest)
                  = join [","%char] (map dump (y :: items)) ++ "]"%char :: rest).
      { destruct items as [|z items].
        - simpl join. apply skip_ws_dump.
        - change (join [","%char] (map dump (y :: z :: items)))
            with (dump y ++ [","%char] ++ join [","%char] (map dump (z :: items))).
          rewrite <- app_assoc. apply skip_ws_dump. }
      rewrite Sk. rewrite IH; [|discriminate|].
      * rewrite <- app_assoc. reflexivity.
      * repeat (rewrite ?length_app in *; cbn [length] in *). lia.
    + right. eexists. eexists. split; [reflexivity|auto].
    + repeat (rewrite ?length_app in *; cbn [length] in *). lia.
Qed.

Lemma skip_ws_member (kv : string * json) (r : text) :
  skip_ws (dump_member kv ++ r) = dump_member kv ++ r.
Proof. reflexivity. Qed.

Lemma skip_ws_members (members : list (string * json)) (r : text) :
  members <> [] ->
  skip_ws (join [","%char] (map dump_member members) ++ r)
  = join [","%char] (map dump_member members) ++ r.
Proof.
  destruct members as [|kv [|kv' members]]; [congruence| |]; intros _.
  - apply skip_ws_member.
  - change (join [","%char] (map dump_member (kv :: kv' :: members)))
      with (dump_member kv ++ [","%char]
            ++ join [","%char] (map dump_member (kv' :: members))).
    rewrite <- app_assoc. apply skip_ws_member.
Qed.

Lemma scan_members_dumped (members : list (string * json)) :
  Forall (fun kv => reads_back (snd kv)) members -> members <> [] ->
  forall acc rest fuel,
    2 * length (join [","%char] (map dump_member members) ++ "}"%char :: rest) + 1
    <= fuel ->
    scan_members fuel
      (join [","%char] (map dump_member members) ++ "}"%char :: rest) acc
    = Val (acc ++ members, rest).
Proof.
  induction 1 as [|[k v] members Hx Hmembers IH]; [congruence|].
  intros _ acc rest fuel Hf. simpl snd in Hx.
  destruct fuel as [|f]; [lia|].
  assert (Step : forall tail,
             after_value tail ->
             2 * length (dump_member (k, v) ++ tail) <= f ->
             scan_members (S f) (dump_member (k, v) ++ tail) acc
             = match skip_ws tail with
               | c2 :: r2 =>
                   if (c2 =? "}")%char then Val (acc ++ [(k, v)], r2)
                   else if (c2 =? ",")%char
                        then scan_members f (skip_ws r2) (acc ++ [(k, v)])
                        else Exn JSONDecodeError
               | [] => Exn JSONDecodeError
               end).
  { intros tail Ht Hlen. unfold dump_member. cbn [fst snd].
    rewrite <- app_assoc, dump_string_eq. cbn [scan_members app].
    change ((dquote =? dquote)%char) with true. cbv iota.
    rewrite scan_dumped_body. cbn [rbind fst snd skip_ws].
    change (is_ws ":"%char) with false. cbv iota.
    change ((":" =? ":")%char) with true. cbv iota.
    rewrite skip_ws_dump, (Hx tail f Ht).
    - cbn [rbind fst snd]. rewrite str_txt. reflexivity.
    - unfold dump_member, dump_string in Hlen. cbn [fst snd] in Hlen.
      repeat (rewrite ?length_app in *; cbn [length] in * ). lia. }
  destruct members as [|kv' members].
  - simpl join in *. rewrite Step.
    + reflexivity.
    + right. eexists. eexists. split; [reflexivity | auto].
    + repeat (rewrite ?length_app in *; cbn [length] in * ). lia.
  - change (join [","%char] (map dump_member ((k, v) :: kv' :: members)))
      with (dump_member (k, v) ++ [","%char]
            ++ join [","%char] (map dump_member (kv' :: members))) in *.
    rewrite <- !app_assoc in *. rewrite Step.
    + cbn [app skip_ws]. change (is_ws ","%char) with false. cbv iota.
      change (("," =? "}")%char) with false.
      change (("," =? ",")%char) with true. cbv iota.
      rewrite skip_ws_members by discriminate.
      rewrite IH; [|discriminate|].
      * rewrite <- app_assoc. reflexivity.
      * repeat (rewrite ?length_app in *; cbn [length] in * ). lia.
    + right. eexists. eexists. split; [reflexivity | auto].
    + repeat (rewrite ?length_app in *; cbn [length] in * ). lia.
Qed.

Lemma proper_arr items : proper (JArr items) -> Forall proper items.
Proof.
  simpl. induction items as [|x items IH]; simpl; intros H; constructor; tauto.
Qed.

Lemma proper_obj members :
  proper (JObj members) ->
  NoDup (map fst members) /\ Forall (fun kv => proper (snd kv)) members.
Proof.
  simpl. intros [Hnd H]. split; [exact Hnd|]. clear Hnd.
  induction members as [|x members IH]; simpl in *; constructor; tauto.
Qed.

Lemma Forall_impl2 {A} (P Q : A -> Prop) (l : list A) :
  Forall (fun x => P x -> Q x) l -> Forall P l -> Forall Q l.
Proof.
  induction 1 as [|x l Hx Hl IH]; intros HP; inversion HP; subst; constructor; auto.
Qed.

Lemma dump_arr (items : list json) :
  dump (JArr items) = "["%char :: join [","%char] (map dump items) ++ ["]"%char].
Proof. reflexivity. Qed.

Lemma dump_obj (members : list (string * json)) :
  dump (JObj members)
  = "{"%char :: join [","%char] (map dump_member members) ++ ["}"%char].
Proof. reflexivity. Qed.

(** Every proper value is read back. *)
Theorem scan_once_dump (j : json) : proper j -> reads_back j.
Proof.
  induction j as [| b | z | s | items IH | members IH] using json_ind;
    intros Hp rest fuel Hrest Hf;
    (destruct fuel as [|f];
     [exfalso; revert Hf;
      match goal with
      | |- context [dump ?j] =>
          destruct (dump_head j) as (c0 & t0 & -> & _); simpl; lia
      end|]).
  - reflexivity.
  - destruct b; reflexivity.
  - simpl dump. rewrite scan_once_number. apply scan_number_int.
    apply after_value_ends, Hrest.
  - simpl dump. rewrite dump_string_eq. cbn [scan_once].
    change ((dquote =? dquote)%char) with true. cbv iota.
    rewrite scan_dumped_body. cbn [rbind fst snd]. rewrite str_txt. reflexivity.
  - pose proof (Forall_impl2 _ _ _ IH (proper_arr _ Hp)) as Hitems.
    destruct items as [|x items].
    + reflexivity.
    + rewrite dump_arr in *. cbn [app scan_once].
      change (("[" =? dquote)%char) with false.
      change (("[" =? "{")%char) with false.
      change (("[" =? "[")%char) with true. cbv iota.
      rewrite <- app_assoc.
      assert (Sk : skip_ws (join [","%char] (map dump (x :: items)) ++ ["]"%char] ++ rest)
                   = join [","%char] (map dump (x :: items)) ++ ["]"%char] ++ rest).
      { destruct items as [|y items].
        - simpl join. apply skip_ws_dump.
        - change (join [","%char] (map dump (x :: y :: items)))
            with (dump x ++ [","%char] ++ join [","%char] (map dump (y :: items))).
          rewrite <- app_assoc. apply skip_ws_dump. }
      rewrite Sk.
      destruct (join [","%char] (map dump (x :: items)) ++ ["]"%char] ++ rest)
        as [|c' r'] eqn:E.
      { destruct (dump_head x) as (c & t & Ec & _).
        destruct items; simpl in E; rewrite Ec in E; discriminate. }
      assert (Hc : (c' =? "]")%char = false).
      { destruct (dump_head x) as (c & t & Ec & W).
        assert (c' = c).
        { destruct items; simpl in E; rewrite Ec in E; simpl in E; congruence. }
        subst c'.
        destruct (Ascii.eqb_spec c "]"); [|reflexivity].
        subst c. exfalso. clear -Ec.
        destruct x as [| [] | z | s | l | l]; simpl in Ec; try discriminate.
        destruct (int_text z) as (c & t' & Ez & D); rewrite Ez in Ec.
        injection Ec as Hc' _. subst c.
        destruct D as [D|D]; [vm_compute in D|]; discriminate. }
      rewrite Hc, <- E.
      change (["]"%char] ++ rest) with ("]"%char :: rest) in *.
      rewrite (scan_items_dumped (x :: items) Hitems); [reflexivity | discriminate |].
      repeat (rewrite ?length_app in *; cbn [length] in * ). lia.
  - destruct (proper_obj _ Hp) as [Hnd Hpm].
    pose proof (Forall_impl2 _ _ _ IH Hpm) as Hmembers.
    destruct members as [|kv members].
    + reflexivity.
    + rewrite dump_obj in *. cbn [app scan_once].
      change (("{" =? dquote)%char) with false.
      change (("{" =? "{")%char) with true. cbv iota.
      rewrite <- app_assoc.
      rewrite skip_ws_members by discriminate.
      destruct (join [","%char] (map dump_member (kv :: members)) ++ ["}"%char] ++ rest)
        as [|c' r'] eqn:E.
      { destruct members; simpl in E; discriminate. }
      assert (Hc : (c' =? "}")%char = false).
      { assert (c' = dquote) by (destruct members; simpl in E; congruence).
        subst c'. reflexivity. }
      rewrite Hc, <- E.
      change (["}"%char] ++ rest) with ("}"%char :: rest) in *.
      rewrite (scan_members_dumped (kv :: members) Hmembers); [|discriminate|].
      * cbn [rbind fst snd app]. rewrite dict_of_items_nodup by assumption.
        reflexivity.
      *           repeat (rewrite ?length_app in *; cbn [length] in * ). lia.
Qed.

End JSONRoundTrip.

Module JSONBytes.
Import JSON JSONSpec JSONFacts JSONRoundTrip.

Lemma digit_ascii7 (c : ascii) : is_digit c = true -> ascii7 c = true.
Proof.
  unfold is_digit, ascii7. intros H. apply andb_true_iff in H.
  destruct H as [_ H]. apply Nat.leb_le in H. apply Nat.ltb_lt. lia.
Qed.

Lemma forallb_weaken {A} (p q : A -> bool) (l : list A) :
  (forall x, p x = true -> q x = true) ->
  forallb p l = true -> forallb q l = true.
Proof.
  intros H. induction l as [|x l IH]; simpl; [auto|].
  intros E. apply andb_true_iff in E. destruct E as [E1 E2].
  rewrite (H x E1), (IH E2). reflexivity.
Qed.

Lemma int_ascii7 (z : Z) : forallb ascii7 (txt (str_of_int z)) = true.
Proof.
  unfold str_of_int. destruct z as [|p|p]; simpl Z.to_int.
  - reflexivity.
  - unfold NilZero.string_of_int, NilZero.string_of_uint.
    destruct (Pos.to_uint p) eqn:E;
      try (rewrite <- E; apply (forallb_weaken is_digit ascii7);
           [apply digit_ascii7 | apply digits_are_digits]).
    reflexivity.
  - unfold NilZero.string_of_int, NilZero.string_of_uint.
    cbn [txt list_ascii_of_string forallb].
    destruct (Pos.to_uint p) eqn:E;
      try (rewrite <- E; apply (forallb_weaken is_digit ascii7);
           [apply digit_ascii7 | apply digits_are_digits]).
    reflexivity.
Qed.

Lemma escape_ascii7 (c : ascii) : forallb ascii7 (escape_char c) = true.
Proof. destruct c as [[] [] [] [] [] [] [] []]; reflexivity. Qed.

Lemma string_ascii7 (s : string) : forallb ascii7 (dump_string s) = true.
Proof.
  unfold dump_string. cbn [forallb]. rewrite forallb_app.
  replace (forallb ascii7 (flat_map escape_char (txt s))) with true; [reflexivity|].
  symmetry. induction (txt s) as [|c l IH]; simpl; [reflexivity|].
  rewrite forallb_app, escape_ascii7, IH. reflexivity.
Qed.

Lemma join_ascii7 (parts : list text) :
  Forall (fun p => forallb ascii7 p = true) parts ->
  forallb ascii7 (join [","%char] parts) = true.
Proof.
  induction 1 as [|x l Hx Hl IH]; [reflexivity|].
  destruct l as [|y l]; [exact Hx|].
  change (join [","%char] (x :: y :: l)) with (x ++ [","%char] ++ join [","%char] (y :: l)).
  rewrite !forallb_app, Hx, IH. reflexivity.
Qed.

Lemma dump_ascii7 (j : json) : forallb ascii7 (dump j) = true.
Proof.
  induction j as [| b | z | s | items IH | members IH] using json_ind.
  - reflexivity.
  - destruct b; reflexivity.
  - apply int_ascii7.
  - apply string_ascii7.
  - rewrite dump_arr. cbn [forallb]. rewrite forallb_app, join_ascii7; [reflexivity|].
    apply Forall_map. exact IH.
  - rewrite dump_obj. cbn [forallb]. rewrite forallb_app, join_ascii7; [reflexivity|].
    apply Forall_map. revert IH. apply Forall_impl. intros [k v] H.
    unfold dump_member. cbn [fst snd] in *. rewrite forallb_app, string_ascii7.
    cbn [forallb]. rewrite H. reflexivity.
Qed.

Lemma byte_ascii7 (c : ascii) :
  (Byte.to_N (byte_of_ascii c) <? 128)%N = ascii7 c.
Proof. destruct c as [[] [] [] [] [] [] [] []]; reflexivity. Qed.

Lemma bytes_ascii7 (t : text) :
  forallb (fun x => (Byte.to_N x <? 128)%N) (map byte_of_ascii t)
  = forallb ascii7 t.
Proof.
  induction t as [|c t IH]; simpl; [reflexivity|].
  rewrite byte_ascii7, IH. reflexivity.
Qed.

Lemma decode_dumps (j : json) : decode_utf8 (dumps j) = Val (dump j).
Proof.
  unfold decode_utf8, dumps.
  rewrite bytes_ascii7, dump_ascii7.
  rewrite map_map. f_equal.
  rewrite <- (map_id (dump j)) at 2. apply map_ext. apply ascii_of_byte_of_ascii.
Qed.

(** Decoding an encoded value gives the value back. *)
Theorem loads_dumps (j : json) : proper j -> loads (dumps j) = Val j.
Proof.
  intros Hp. unfold loads. rewrite decode_dumps. cbn [rbind]. unfold load.
  cbv zeta. rewrite <- (List.app_nil_r (dump j)). rewrite skip_ws_dump.
  rewrite (scan_once_dump j Hp [] _ (or_introl eq_refl)) by lia.
  reflexivity.
Qed.

End JSONBytes.

(** ** SELECT and [describe] read the view of the state only *)

Module ViewFacts.
Import BTreeStorage Spec IndexFacts StorageFacts Invariant RowStore QueryFacts.

Lemma insert_sorted_in (x y : string) (l : list string) :
  In x (insert_sorted y l) <-> x = y \/ In x l.
Proof.
  induction l as [|z l IH]; simpl.
  - intuition.
  - destruct (String.leb y z); simpl; [intuition|].
    rewrite IH. intuition.
Qed.

Lemma sorted_in (x : string) (l : list string) : In x (sorted l) <-> In x l.
Proof.
  unfold sorted. induction l as [|y l IH]; simpl; [tauto|].
  rewrite insert_sorted_in, IH. intuition.
Qed.

Lemma str_in_iff (x : string) (l : list string) : str_in x l = true <-> In x l.
Proof.
  unfold str_in. rewrite existsb_exists. split.
  - intros (y & Hy & E). apply String.eqb_eq in E. subst. exact Hy.
  - intros H. exists x. split; [exact H | apply String.eqb_refl].
Qed.

Lemma index_names_mem {V} (d : dict string V) (c : string) :
  str_in c (sorted (dict_keys d)) = dict_mem String.eqb d c.
Proof.
  unfold dict_mem.
  destruct (dict_get String.eqb d c) as [v|] eqn:G.
  - apply (proj2 (str_in_iff _ _)), (proj2 (sorted_in _ _)).
    eapply sget_some_in_keys. exact G.
  - destruct (str_in c (sorted (dict_keys d))) eqn:E; [|reflexivity].
    apply (proj1 (str_in_iff _ _)) in E. apply (proj1 (sorted_in _ _)) in E.
    exfalso. exact (proj1 (sget_none_notin _ d c) G E).
Qed.

Lemma view_get (s : t) (n : string) :
  dict_get String.eqb (view s) n
  = match tget s n with
    | Some tb => Some (view_of (store s) tb)
    | None => None
    end.
Proof.
  unfold view, tget. induction (_tables s) as [|[k tb] l IH]; simpl.
  - reflexivity.
  - destruct (String.eqb k n); [reflexivity | exact IH].
Qed.

Lemma describe_by_view (s : t) : describe s = describe_view (view s).
Proof.
  unfold describe, describe_view, view. rewrite map_map.
  apply map_ext. intros [k tb]. simpl. rewrite length_map. reflexivity.
Qed.

Lemma forallb_keys (st : list row) (c : string) (rs : list address) :
  forallb (fun r => hashable (row_get r c)) (map (deref st) rs) = true
  <-> Forall (fun a => hashable (key_of st c a) = true) rs.
Proof.
  rewrite forallb_forall, Forall_forall. split.
  - intros H a Ha. apply H, in_map, Ha.
  - intros H r Hr. apply in_map_iff in Hr. destruct Hr as (a & <- & Ha).
    apply H, Ha.
Qed.

Lemma build_index_fails st column rs :
  ~ Forall (fun a => hashable (key_of st column a) = true) rs ->
  forall idx0, build_index st column rs idx0 = Exn TypeError.
Proof.
  induction rs as [|a rs IH]; intros H idx0.
  - exfalso. apply H. constructor.
  - simpl. destruct (hashable (key_of st column a)) eqn:Hh.
    + destruct (index_add_val st column idx0 a Hh) as (idx' & -> & _). simpl.
      apply IH. intros X. apply H. constructor; assumption.
    + rewrite (index_add_unhashable st column idx0 a Hh). reflexivity.
Qed.

(** The rows a WHERE clause selects are those of the view. *)
Lemma rows_for_by_view s name tb where_ :
  wf s -> tget s name = Some tb ->
  match rows_where (view_of (store s) tb) where_ with
  | Val rws =>
      exists addrs, _rows_for name where_ s = Ok addrs s
                    /\ map (deref (store s)) addrs = rws
  | Exn e => _rows_for name where_ s = Raise e s
  end.
Proof.
  intros W Ht. rewrite (rows_for_spec s name tb where_ W Ht).
  unfold rows_where, view_of. destruct where_ as [w|].
  - rewrite index_names_mem.
    destruct (dict_mem String.eqb (indexes tb) (cond_column w)
              && negb (hashable (cond_value w))); [reflexivity|].
    eexists. split; [reflexivity|].
    unfold matching. rewrite filter_map_comm. reflexivity.
  - eexists. split; reflexivity.
Qed.

Lemma join_by_view s name cols where_ j tb :
  wf s -> tget s name = Some tb ->
  answer (_join_rows name cols where_ j s)
  = query (view s) name cols where_ (Some j).
Proof.
  intros W Ht. unfold query. rewrite view_get, Ht.
  pose proof (rows_for_by_view s name tb where_ W Ht) as R.
  destruct (rows_where (view_of (store s) tb) where_) as [lrows|e].
  2:{ unfold _join_rows. monad_unfold. rewrite R. reflexivity. }
  destruct R as (lefts & Hl & <-). cbn [rbind]. rewrite view_get.
  destruct (tget s (join_table j)) as [rtb|] eqn:Hr.
  2:{ unfold _join_rows. monad_unfold. rewrite Hl, table_at_spec, Hr.
      reflexivity. }
  unfold view_of at 1. cbn [fst].
  destruct (forallb (fun r => hashable (row_get r (right_column j)))
                    (map (deref (store s)) (rows rtb))) eqn:Fr.
  - apply forallb_keys in Fr.
    destruct (forallb (fun l => hashable (row_get l (left_column j)))
                      (map (deref (store s)) lefts)) eqn:Fl.
    + apply forallb_keys in Fl.
      destruct (join_rows_spec s name j cols where_ tb rtb lefts W Ht Hr Hl Fl Fr)
        as (s' & -> & _).
      reflexivity.
    + assert (Nl : ~ Forall (fun a => hashable (key_of (store s) (left_column j) a) = true)
                     lefts).
      { intros X. apply forallb_keys in X. congruence. }
      cbn [andb].
      unfold _join_rows. monad_unfold. rewrite Hl, table_at_spec, Hr.
      destruct (dict_get String.eqb (indexes rtb) (right_column j)) as [idx|] eqn:G.
      * rewrite table_at_spec, Ht.
        rewrite (join_loop_unhashable _ _ _ _ _ _ _ Nl). reflexivity.
      * destruct (build_index_total _ _ _ Fr []) as (idx & B).
        destruct (rebuild_total _ _ _ _ _ Hr B) as (s1 & E1).
        rewrite E1.
        destruct (rebuild_spec _ _ _ _ _ E1) as (tbx & idx' & Hx & _ & U & _).
        rewrite table_at_spec, (updated_get_same _ _ _ _ _ U).
        rewrite table_at_spec.
        assert (Hn : exists tb1, tget s1 name = Some tb1).
        { rewrite (upd_get _ _ _ _ _ U).
          destruct (String.eqb (join_table j) name); eauto. }
        destruct Hn as (tb1 & ->).
        rewrite (upd_store _ _ _ _ _ U).
        rewrite (join_loop_unhashable _ _ _ _ _ _ _ Nl). reflexivity.
  - assert (Nr : ~ Forall (fun a => hashable (key_of (store s) (right_column j) a) = true)
                   (rows rtb)).
    { intros X. apply forallb_keys in X. congruence. }
    cbn [andb].
    unfold _join_rows. monad_unfold. rewrite Hl, table_at_spec, Hr.
    destruct (dict_get String.eqb (indexes rtb) (right_column j)) as [idx|] eqn:G.
    + exfalso. apply Nr.
      apply (build_index_hashable _ _ _ [] idx).
      apply (wf_index s W _ _ Hr _ _ G).
    + unfold _rebuild_index. monad_unfold. rewrite table_at_spec, Hr.
      rewrite (build_index_fails _ _ _ Nr []). reflexivity.
Qed.

(** SELECT answers what [query] computes from the view. *)
Theorem select_by_view s name cols where_ join :
  wf s ->
  answer (select_rows name cols where_ join s)
  = query (view s) name cols where_ join.
Proof.
  intros W. destruct (tget s name) as [tb|] eqn:Ht.
  - destruct join as [j|].
    + apply (join_by_view s name cols where_ j tb W Ht).
    + unfold query. rewrite view_get, Ht, select_plain_spec.
      pose proof (rows_for_by_view s name tb where_ W Ht) as R.
      destruct (rows_where (view_of (store s) tb) where_) as [lrows|e].
      * destruct R as (lefts & -> & <-). reflexivity.
      * rewrite R. reflexivity.
  - unfold query. rewrite view_get, Ht.
    destruct join as [j|].
    + unfold select_rows, _join_rows, _rows_for. monad_unfold.
      rewrite table_at_spec, Ht. reflexivity.
    + rewrite select_plain_spec. unfold _rows_for. monad_unfold.
      rewrite table_at_spec, Ht. reflexivity.
Qed.

End ViewFacts.

(** ** The snapshot and what [_load] reads from it *)

Module SnapshotFacts.
Import BTreeStorage Spec.

Lemma sequence_map_val {A B} (f : A -> result B) (g : A -> B) (l : list A) :
  Forall (fun x => f x = Val (g x)) l ->
  sequence (map f l) = Val (map g l).
Proof.
  induction 1 as [|x l Hx Hl IH]; simpl; [reflexivity|].
  rewrite Hx, IH. reflexivity.
Qed.

(** Plain values come back as they were. *)
Lemma value_of_json_of_value (v : value) :
  plain v = true -> value_of_json (json_of_value v) = Val v.
Proof.
  induction v as [| b | z | s | l IH | l IH] using value_ind;
    simpl; intros Hp; try reflexivity; try discriminate.
  assert (G : (fix go (l0 : list json) : result (list value) :=
                 match l0 with
                 | [] => Val []
                 | x :: r =>
                     rbind (value_of_json x) (fun v =>
                     rbind (go r) (fun vs => Val (v :: vs)))
                 end) (map json_of_value l) = Val l).
  { induction IH as [|x l Hx Hl IHl]; simpl in *; [reflexivity|].
    apply andb_true_iff in Hp. destruct Hp as [Px Pl].
    rewrite (Hx Px), (IHl Pl). reflexivity. }
  rewrite G. reflexivity.
Qed.

Lemma fold_proper (items : list json) :
  Forall proper items ->
  fold_right (fun x acc => proper x /\ acc) True items.
Proof. induction 1; simpl; auto. Qed.

Lemma fold_proper_members (members : list (string * json)) :
  Forall (fun kv => proper (snd kv)) members ->
  fold_right (fun kv acc => proper (snd kv) /\ acc) True members.
Proof. induction 1; simpl; auto. Qed.

Lemma json_of_value_proper (v : value) : proper (json_of_value v).
Proof.
  induction v as [| b | z | s | l IH | l IH] using value_ind; simpl; auto;
    apply fold_proper, Forall_map; exact IH.
Qed.

Lemma strings_proper (l : list string) : proper (JArr (map JStr l)).
Proof.
  apply fold_proper, Forall_map, Forall_forall. intros x _. exact I.
Qed.

Lemma strings_of_json_strings (l : list string) :
  strings_of_json (JArr (map JStr l)) = Val l.
Proof.
  unfold strings_of_json. rewrite map_map.
  rewrite (sequence_map_val _ (fun s => s)).
  - rewrite map_id. reflexivity.
  - apply Forall_forall. reflexivity.
Qed.

Lemma row_of_json_of_row (r : row) :
  Forall (fun kv => plain (snd kv) = true) r ->
  row_of_json (json_of_row r) = Val r.
Proof.
  intros Hp. unfold row_of_json, json_of_row. rewrite map_map.
  rewrite (sequence_map_val _ (fun kv => kv)).
  - rewrite map_id. reflexivity.
  - revert Hp. apply Forall_impl. intros [k v] H. simpl in *.
    rewrite (value_of_json_of_value v H). reflexivity.
Qed.

Lemma json_of_row_proper (r : row) :
  NoDup (dict_keys r) -> proper (json_of_row r).
Proof.
  intros Hn. unfold json_of_row. simpl. split.
  - rewrite map_map. exact Hn.
  - apply fold_proper_members, Forall_map, Forall_forall.
    intros [k v] _. apply json_of_value_proper.
Qed.

Lemma storable_deref (st : list row) (a : address) :
  Forall storable_row st -> storable_row (deref st a).
Proof.
  intros H. unfold deref. destruct (Nat.lt_ge_cases a (length st)) as [L|L].
  - apply (proj1 (Forall_forall _ _) H). apply nth_In, L.
  - rewrite nth_overflow by exact L. split; constructor.
Qed.

Lemma json_of_table_proper (st : list row) (tb : table) :
  Forall storable_row st -> proper (json_of_table st tb).
Proof.
  intros H. unfold json_of_table.
  change (NoDup ["columns"; "rows"; "indexes"]%string
          /\ (proper (JArr (map JStr (columns tb)))
              /\ (proper (JArr (map (fun a => json_of_row (deref st a)) (rows tb)))
                  /\ (proper (JArr (map JStr (sorted (dict_keys (indexes tb)))))
                      /\ True)))).
  split.
  - repeat constructor; simpl; intuition discriminate.
  - split; [apply strings_proper|]. split; [|split; [apply strings_proper | exact I]].
    apply fold_proper, Forall_map, Forall_forall. intros a _.
    apply json_of_row_proper. apply (storable_deref st a H).
Qed.

Lemma snapshot_proper (s : t) :
  NoDup (dict_keys (_tables s)) -> storable s -> proper (snapshot s).
Proof.
  intros Hn Hs. unfold snapshot. simpl. split.
  - rewrite map_map. exact Hn.
  - apply fold_proper_members, Forall_map, Forall_forall.
    intros [k tb] _. apply json_of_table_proper, Hs.
Qed.

(** What [_load] finds in the three entries of a table's metadata. *)
Lemma meta_columns (st : list row) (tb : table) :
  match json_of_table st tb with
  | JObj members =>
      strings_of_json (meta_get members "columns") = Val (columns tb)
      /\ meta_get members "rows"
         = JArr (map (fun a => json_of_row (deref st a)) (rows tb))
      /\ strings_of_json (meta_get members "indexes")
         = Val (sorted (dict_keys (indexes tb)))
  | _ => False
  end.
Proof.
  unfold json_of_table.
  change (meta_get _ "columns") with (JArr (map JStr (columns tb))).
  change (meta_get _ "indexes")
    with (JArr (map JStr (sorted (dict_keys (indexes tb))))).
  rewrite !strings_of_json_strings. repeat split.
Qed.

Lemma rows_of_json_rows (st : list row) (rs : list address) :
  Forall storable_row st ->
  sequence (map row_of_json (map (fun a => json_of_row (deref st a)) rs))
  = Val (map (deref st) rs).
Proof.
  intros H. rewrite map_map.
  apply (sequence_map_val (fun a => row_of_json (json_of_row (deref st a)))).
  apply Forall_forall. intros a _.
  apply row_of_json_of_row. apply (storable_deref st a H).
Qed.

End SnapshotFacts.

(** ** Loading a snapshot rebuilds the view *)

Module LoadFacts.
Import BTreeStorage Spec IndexFacts StorageFacts Invariant RowStore
       Preservation3 ViewFacts SnapshotFacts.

(** *** [sorted] *)

Lemma ascending_tail x l : ascending (x :: l) -> ascending l.
Proof. destruct l as [|y l]; simpl; tauto. Qed.

Lemma insert_sorted_ascending x l :
  ascending l -> ascending (insert_sorted x l).
Proof.
  induction l as [|y l IH]; intros A; [exact I|].
  simpl insert_sorted. destruct (String.leb x y) eqn:E.
  - split; assumption.
  - pose proof (IH (ascending_tail _ _ A)) as A'.
    destruct (String.leb_total x y) as [L|L]; [congruence|].
    destruct l as [|z l].
    + simpl. auto.
    + simpl insert_sorted in *. destruct A as [Hyz A].
      destruct (String.leb x z); simpl; auto.
Qed.

Lemma sorted_ascending l : ascending (sorted l).
Proof.
  unfold sorted. induction l as [|x l IH]; simpl; [exact I|].
  apply insert_sorted_ascending, IH.
Qed.

Lemma sorted_of_ascending l : ascending l -> sorted l = l.
Proof.
  unfold sorted. induction l as [|x l IH]; intros A; [reflexivity|].
  simpl. rewrite (IH (ascending_tail _ _ A)).
  destruct l as [|y l]; [reflexivity|].
  simpl. destruct A as [-> _]. reflexivity.
Qed.

Lemma sorted_idem l : sorted (sorted l) = sorted l.
Proof. apply sorted_of_ascending, sorted_ascending. Qed.

Lemma insert_sorted_nodup x l :
  ~ In x l -> NoDup l -> NoDup (insert_sorted x l).
Proof.
  induction l as [|y l IH]; simpl; intros Hx Hn.
  - constructor; [simpl; tauto | constructor].
  - destruct (String.leb x y).
    + constructor; [simpl; tauto | exact Hn].
    + inversion Hn as [|? ? Hy Hl]; subst. constructor.
      * rewrite insert_sorted_in. intros [->|H]; tauto.
      * apply IH; tauto.
Qed.

Lemma sorted_nodup l : NoDup l -> NoDup (sorted l).
Proof.
  unfold sorted. induction 1 as [|x l Hx Hl IH]; simpl; [constructor|].
  apply insert_sorted_nodup; [|exact IH].
  intros H. apply Hx. apply (proj1 (sorted_in x l)). exact H.
Qed.

(** *** Dictionaries with string keys *)

Lemma sset_new {V} (d : dict string V) k v :
  dict_get String.eqb d k = None -> dict_set String.eqb d k v = d ++ [(k, v)].
Proof.
  induction d as [|[k' v'] d IH]; simpl; [reflexivity|].
  destruct (String.eqb k' k); [discriminate|].
  intros H. rewrite (IH H). reflexivity.
Qed.

Lemma sget_app {V} (d e : dict string V) n :
  dict_get String.eqb (d ++ e) n
  = match dict_get String.eqb d n with
    | Some v => Some v
    | None => dict_get String.eqb e n
    end.
Proof.
  induction d as [|[k v] d IH]; simpl; [reflexivity|].
  destruct (String.eqb k n); [reflexivity | exact IH].
Qed.

Lemma dict_eq_ext {V} (d d' : dict string V) :
  NoDup (dict_keys d) -> dict_keys d' = dict_keys d ->
  (forall n, dict_get String.eqb d' n = dict_get String.eqb d n) ->
  d' = d.
Proof.
  revert d'. induction d as [|[k v] d IH]; intros d' Hn Hk Hg.
  - destruct d'; [reflexivity | discriminate].
  - destruct d' as [|[k' v'] d']; [discriminate|].
    simpl in Hk. injection Hk as -> Hk.
    inversion Hn as [|? ? Hnk Hn']; subst.
    pose proof (Hg k) as Gk. simpl in Gk. rewrite String.eqb_refl in Gk.
    injection Gk as ->. f_equal.
    apply IH; [exact Hn' | exact Hk|].
    intros n. pose proof (Hg n) as Gn. simpl in Gn.
    destruct (String.eqb_spec k n) as [En|_]; [|exact Gn].
    subst n.
    assert (N1 : dict_get String.eqb d k = None)
      by (apply (proj2 (sget_none_notin _ d k)); exact Hnk).
    assert (N2 : dict_get String.eqb d' k = None)
      by (apply (proj2 (sget_none_notin _ d' k)); rewrite Hk; exact Hnk).
    congruence.
Qed.

(** *** Rows *)

Lemma deref_new_rows (st rws : list row) :
  map (deref (st ++ rws)) (seq (length st) (length rws)) = rws.
Proof.
  revert st. induction rws as [|r rws IH]; intros st; simpl; [reflexivity|].
  f_equal.
  - unfold deref. rewrite app_nth2 by lia. rewrite Nat.sub_diag. reflexivity.
  - replace (st ++ r :: rws) with ((st ++ [r]) ++ rws)
      by (rewrite <- app_assoc; reflexivity).
    replace (S (length st)) with (length (st ++ [r]))
      by (rewrite length_app; simpl; lia).
    apply IH.
Qed.

Lemma keys_of_rows (P : row -> Prop) (st st' : list row) (rs rs' : list address) :
  map (deref st') rs' = map (deref st) rs ->
  Forall (fun a => P (deref st a)) rs -> Forall (fun a => P (deref st' a)) rs'.
Proof.
  intros E H.
  apply Forall_forall. intros a' Ha'.
  assert (Hin : In (deref st' a') (map (deref st) rs))
    by (rewrite <- E; apply in_map, Ha').
  apply in_map_iff in Hin. destruct Hin as (a & Ea & Ha).
  rewrite <- Ea. exact (proj1 (Forall_forall _ _) H a Ha).
Qed.

(** *** The indexes of a loaded table *)

Lemma load_indexes name cols :
  forall s tb,
    tget s name = Some tb ->
    NoDup (dict_keys (indexes tb) ++ cols) ->
    (forall c, In c cols ->
       Forall (fun a => hashable (key_of (store s) c a) = true) (rows tb)) ->
    index_ok (store s) tb ->
    exists s' tb',
      for_each cols (fun c => _rebuild_index name c) s = Ok tt s'
      /\ updated s s' name tb' (store s) /\ _pager s' = _pager s
      /\ rows tb' = rows tb /\ columns tb' = columns tb
      /\ dict_keys (indexes tb') = dict_keys (indexes tb) ++ cols
      /\ index_ok (store s) tb'.
Proof.
  induction cols as [|c cols IH]; intros s tb Ht Hn Hh Hi.
  - exists s, tb. rewrite for_each_nil, app_nil_r.
    repeat split; auto. apply updated_refl, Ht.
  - destruct (build_index_total _ _ _ (Hh c (or_introl eq_refl)) []) as (idx & B).
    destruct (rebuild_total _ _ _ _ _ Ht B) as (s1 & E1).
    destruct (rebuild_spec _ _ _ _ _ E1) as (tbx & idx' & Hx & B' & U & Pg).
    rewrite Ht in Hx. injection Hx as <-.
    rewrite B in B'. injection B' as <-.
    set (tb1 := set_indexes (dict_set String.eqb (indexes tb) c idx) tb) in *.
    assert (Hc : ~ In c (dict_keys (indexes tb))).
    { intros X. apply NoDup_remove_2 in Hn. apply Hn.
      apply in_or_app. left. exact X. }
    assert (K1 : dict_keys (indexes tb1) = dict_keys (indexes tb) ++ [c]).
    { simpl. apply skeys_set_new. apply sget_none_notin. exact Hc. }
    destruct (IH s1 tb1) as (s' & tb' & E & U' & Pg' & R' & C' & K' & I').
    + apply (updated_get_same _ _ _ _ _ U).
    + rewrite K1, <- app_assoc. exact Hn.
    + intros c' Hc'. rewrite (upd_store _ _ _ _ _ U).
      apply (Hh c' (or_intror Hc')).
    + rewrite (upd_store _ _ _ _ _ U). intros c' i. simpl. rewrite sget_set.
      destruct (String.eqb_spec c c') as [<-|_].
      * intros X. injection X as <-. exact B.
      * apply Hi.
    + exists s', tb'. rewrite for_each_cons, E1.
      rewrite (upd_store _ _ _ _ _ U) in U', I'.
      split; [exact E|]. split; [exact (updated_trans _ _ _ _ _ _ _ _ U U')|].
      split; [congruence|]. split; [exact R'|]. split; [exact C'|].
      split; [|exact I']. rewrite K', K1, <- app_assoc. reflexivity.
Qed.

(** *** One table *)

Lemma load_table_spec (st : list row) (name : string) (tb : table) (s0 : t) :
  wf s0 -> tget s0 name = None ->
  Forall storable_row st ->
  NoDup (dict_keys (indexes tb)) ->
  (forall c, In c (dict_keys (indexes tb)) ->
     Forall (fun a => hashable (key_of st c a) = true) (rows tb)) ->
  exists s1,
    load_table name (json_of_table st tb) s0 = Ok tt s1
    /\ wf s1 /\ _pager s1 = _pager s0
    /\ view s1 = view s0 ++ [(name, view_of st tb)].
Proof.
  intros W Hnone Hst Hnd Hh.
  pose proof (meta_columns st tb) as M.
  unfold load_table. destruct (json_of_table st tb) as [| | | | |members];
    try contradiction.
  destruct M as (Mc & Mr & Mi).
  monad_unfold. rewrite Mc, Mr, (rows_of_json_rows st (rows tb) Hst), Mi.
  set (rws := map (deref st) (rows tb)).
  set (tb0 := mk_table (columns tb)
                (seq (length (store s0)) (length rws)) []).
  set (s0' := set_tables (dict_set String.eqb (_tables s0) name tb0)
                (set_store (store s0 ++ rws) s0)).
  assert (G0 : forall n, tget s0' n
                         = if String.eqb name n then Some tb0 else tget s0 n).
  { intros n. unfold tget, s0'. simpl. apply sget_set. }
  assert (W0 : wf s0').
  { apply (wf_changed s0 s0' name (Some tb0) W).
    - unfold s0'. simpl. apply skeys_nodup_set, (wf_names s0 W).
    - exact G0.
    - unfold s0'. simpl. rewrite length_app. lia.
    - intros a La _. unfold s0'. simpl. apply deref_app_old, La.
    - intros tb' E. injection E as <-. split; [constructor|]. split.
      + intros a Ha. right. unfold tb0 in Ha. simpl in Ha.
        apply in_seq in Ha. unfold s0'. simpl. rewrite length_app. lia.
      + intros c i. simpl. discriminate. }
  assert (Rows0 : map (deref (store s0')) (rows tb0) = rws).
  { unfold s0', tb0. simpl. apply deref_new_rows. }
  destruct (load_indexes name (sorted (dict_keys (indexes tb))) s0' tb0)
    as (s1 & tb1 & E & U & Pg & R1 & C1 & K1 & I1).
  - rewrite G0, String.eqb_refl. reflexivity.
  - simpl. apply sorted_nodup, Hnd.
  - intros c Hc. apply (proj1 (sorted_in c _)) in Hc.
    apply (keys_of_rows (fun r => hashable (row_get r c) = true) st (store s0')
             (rows tb) (rows tb0) Rows0).
    exact (Hh c Hc).
  - intros c i. simpl. discriminate.
  - exists s1. fold s0'. rewrite E.
    assert (W1 : wf s1).
    { apply (wf_updated s0' s1 name tb0 tb1 (store s0') W0);
        [ rewrite G0, String.eqb_refl; reflexivity | exact U | lia
        | reflexivity | | | exact I1 ].
      - rewrite K1. simpl. apply sorted_nodup, Hnd.
      - intros a Ha. left. rewrite <- R1. exact Ha. }
    split; [reflexivity|]. split; [exact W1|].
    split; [rewrite Pg; reflexivity|].
    apply dict_eq_ext.
    + unfold dict_keys. rewrite map_app. unfold view. rewrite map_map. simpl.
      change (NoDup (dict_keys (_tables s0) ++ [name])).
      rewrite <- (skeys_set_new _ (_tables s0) name tb0 Hnone).
      apply skeys_nodup_set, (wf_names s0 W).
    + unfold dict_keys. rewrite map_app. unfold view. rewrite !map_map. simpl.
      change (dict_keys (_tables s1) = dict_keys (_tables s0) ++ [name]).
      rewrite (upd_keys _ _ _ _ _ U). unfold s0'. simpl.
      apply skeys_set_new, Hnone.
    + intros n. rewrite view_get, sget_app, view_get.
      rewrite (upd_get _ _ _ _ _ U), G0, (upd_store _ _ _ _ _ U).
      destruct (String.eqb_spec name n) as [<-|Hneq].
      * rewrite Hnone. cbn [dict_get]. rewrite String.eqb_refl. f_equal.
        unfold view_of. rewrite C1, R1, Rows0, K1.
        cbn [indexes tb0 dict_keys map app columns].
        rewrite sorted_idem. reflexivity.
      * destruct (tget s0 n) as [tbn|] eqn:Hn.
        -- f_equal. unfold view_of. f_equal. f_equal.
           apply map_ext_in. intros a Ha. unfold s0'. cbn [store set_tables set_store].
           apply deref_app_old. apply (wf_bounds s0 W n tbn a Hn Ha).
        -- cbn [dict_get].
           destruct (String.eqb_spec name n); [contradiction|reflexivity].
Qed.

End LoadFacts.

(** ** Persisting and loading again *)

Module ReloadFacts.
Import BTreeStorage Spec IndexFacts StorageFacts Invariant RowStore
       ViewFacts SnapshotFacts LoadFacts.

Lemma view_keys (s : t) : dict_keys (view s) = dict_keys (_tables s).
Proof. unfold view, dict_keys. rewrite map_map. reflexivity. Qed.

Lemma load_tables (st : list row) (tbls : dict string table) :
  Forall storable_row st ->
  forall s0,
    wf s0 ->
    NoDup (dict_keys (_tables s0) ++ dict_keys tbls) ->
    (forall name tb, In (name, tb) tbls ->
       NoDup (dict_keys (indexes tb))
       /\ forall c, In c (dict_keys (indexes tb)) ->
            Forall (fun a => hashable (key_of st c a) = true) (rows tb)) ->
    exists s1,
      for_each (map (fun nm => (fst nm, json_of_table st (snd nm))) tbls)
               (fun nm => load_table (fst nm) (snd nm)) s0 = Ok tt s1
      /\ wf s1 /\ _pager s1 = _pager s0
      /\ view s1 = view s0 ++ map (fun nm => (fst nm, view_of st (snd nm))) tbls.
Proof.
  intros Hst. induction tbls as [|[name tb] tbls IH]; intros s0 W Hn Hi.
  - exists s0. rewrite app_nil_r. auto.
  - assert (Hnone : tget s0 name = None).
    { apply (proj2 (sget_none_notin _ (_tables s0) name)).
      intros X. apply NoDup_remove_2 in Hn. apply Hn.
      apply in_or_app. left. exact X. }
    destruct (Hi name tb (or_introl eq_refl)) as [Hnd Hh].
    destruct (load_table_spec st name tb s0 W Hnone Hst Hnd Hh)
      as (s1 & E1 & W1 & P1 & V1).
    destruct (IH s1 W1) as (s2 & E2 & W2 & P2 & V2).
    + rewrite <- view_keys, V1. unfold dict_keys at 1.
      rewrite map_app, <- app_assoc. fold (dict_keys (view s0)).
      rewrite view_keys. exact Hn.
    + intros n tb' Hin. apply (Hi n tb'). right. exact Hin.
    + exists s2. cbn [map fst snd]. rewrite for_each_cons.
      cbv beta. cbn [fst snd]. rewrite E1.
      split; [exact E2|]. split; [exact W2|]. split; [congruence|].
      rewrite V2, V1, <- app_assoc. reflexivity.
Qed.

Lemma dumps_nonempty (j : json) : JSON.dumps j <> [].
Proof.
  unfold JSON.dumps.
  destruct (JSONFacts.dump_head j) as (c & r & -> & _). discriminate.
Qed.

Lemma persist_pager (s : t) (p : Pager.t) :
  _pager s = Some p -> (0 < Pager.page_size p)%Z ->
  exists p', _pager (state_of (_persist s)) = Some p'
             /\ Pager.read_blob p' = JSON.dumps (snapshot s).
Proof.
  intros Hp Hsz. unfold _persist, on_pager. rewrite Hp.
  pose proof (write_then_read p (JSON.dumps (snapshot s)) Hsz) as R.
  destruct (Pager.write_blob (JSON.dumps (snapshot s)) p) as [u p'|e p'];
    exists p'; split; try reflexivity; exact R.
Qed.

(** A new table manager over the pager shows the view that was persisted. *)
Theorem reload_view (s : t) (p : Pager.t) :
  wf s -> storable s ->
  _pager s = Some p -> (0 < Pager.page_size p)%Z ->
  exists s2,
    reload (state_of (_persist s)) = Ok tt s2
    /\ wf s2 /\ view s2 = view s.
Proof.
  intros W Hst Hp Hsz.
  destruct (persist_pager s p Hp Hsz) as (p' & Hp' & R).
  unfold reload, init, _load. rewrite Hp'. cbn [_pager]. rewrite R.
  pose proof (dumps_nonempty (snapshot s)) as Hne.
  destruct (JSON.dumps (snapshot s)) as [|b blob] eqn:Eb; [congruence|].
  rewrite <- Eb. monad_unfold.
  rewrite (JSONBytes.loads_dumps (snapshot s)
             (snapshot_proper s (wf_names s W) Hst)).
  unfold snapshot.
  destruct (load_tables (store s) (_tables s) Hst (mk (Some p') [] [])
              (wf_empty (Some p')))
    as (s2 & E & W2 & _ & V).
  - exact (wf_names s W).
  - intros name tb Hin.
    assert (Ht : tget s name = Some tb)
      by (apply (sin_get _ (_tables s) name tb (wf_names s W) Hin)).
    split; [exact (wf_index_names s W name tb Ht)|].
    intros c Hc.
    destruct (dict_get String.eqb (indexes tb) c) as [idx|] eqn:G.
    + apply (build_index_hashable _ _ _ [] idx).
      exact (wf_index s W name tb Ht c idx G).
    + exfalso. exact (proj1 (sget_none_notin _ (indexes tb) c) G Hc).
  - exists s2. rewrite E. split; [reflexivity|]. split; [exact W2|].
    rewrite V. reflexivity.
Qed.

End ReloadFacts.

(** ** Operations on plain values keep the state persistable *)

Module Persistable.
Import BTreeStorage Spec IndexFacts StorageFacts Invariant RowStore.

(** *** Rows *)

Lemma storable_set (r : row) (k : string) (v : value) :
  storable_row r -> plain v = true ->
  storable_row (dict_set String.eqb r k v).
Proof.
  intros [Hn Hp] Hv. split.
  - apply skeys_nodup_set, Hn.
  - clear Hn. induction r as [|[k' v'] r IH]; simpl.
    + repeat constructor. exact Hv.
    + inversion Hp as [|? ? Hx Hr]; subst.
      destruct (String.eqb k' k); constructor; auto.
Qed.

Lemma storable_update (items : list (string * value)) :
  Forall (fun kv => plain (snd kv) = true) items ->
  forall r, storable_row r -> storable_row (dict_update String.eqb r items).
Proof.
  unfold dict_update.
  induction 1 as [|[k v] items Hv Hitems IH]; intros r Hr; simpl; [exact Hr|].
  apply IH. apply storable_set; assumption.
Qed.

Lemma zip_plain (cols : list string) (values : list value) :
  Forall (fun v => plain v = true) values ->
  Forall (fun kv => plain (snd kv) = true) (zip cols values).
Proof.
  intros H. revert cols. induction H as [|v values Hv Hvs IH]; intros cols.
  - destruct cols; constructor.
  - destruct cols as [|c cols]; simpl; constructor; auto.
Qed.

Lemma storable_new_row (cols : list string) (values : list value) :
  Forall (fun v => plain v = true) values ->
  storable_row (dict_of_items String.eqb (zip cols values)).
Proof.
  intros H. unfold dict_of_items. apply storable_update.
  - apply zip_plain, H.
  - split; constructor.
Qed.

Lemma store_set_forall (P : row -> Prop) (st : list row) (a : address)
      (f : row -> row) :
  (forall r, P r -> P (f r)) -> Forall P st -> Forall P (store_set st a f).
Proof.
  intros Hf H. unfold store_set.
  rewrite <- (firstn_skipn a st) in H. apply Forall_app in H.
  destruct H as [H1 H2]. apply Forall_app. split; [exact H1|].
  destruct (skipn a st) as [|r rest]; [constructor|].
  inversion H2; subst. constructor; auto.
Qed.

(** *** The building blocks of the operations *)

Lemma keeps_ret {A} I (a : A) : keeps I (ret a).
Proof. intros s x s' H E. injection E as _ <-. exact H. Qed.

Lemma keeps_bind {A B} I (m : M t A) (k : A -> M t B) :
  keeps I m -> (forall a, keeps I (k a)) -> keeps I (bind m k).
Proof.
  intros Hm Hk s b s' H E. unfold bind in E.
  destruct (m s) as [a s1|] eqn:Em; [|discriminate].
  exact (Hk a s1 b s' (Hm s a s1 H Em) E).
Qed.

Lemma keeps_for_each {A} I (l : list A) (body : A -> M t unit) :
  (forall x, keeps I (body x)) -> keeps I (for_each l body).
Proof.
  intros Hb. induction l as [|x l IH]; simpl.
  - apply keeps_ret.
  - apply keeps_bind; [apply Hb | intros _; exact IH].
Qed.

Lemma keeps_frame {A} (m : M t A) : frame m -> keeps persistable m.
Proof.
  intros F s a s' [Hs Hp] E. destruct (F s a s' E) as [Es Ep].
  unfold persistable, storable, pager_ok. rewrite Es, Ep. auto.
Qed.

Lemma frame_table_at name : frame (table_at name).
Proof.
  intros s a s' E. rewrite table_at_spec in E.
  destruct (tget s name); [|discriminate]. injection E as _ <-. auto.
Qed.

Lemma frame_update_table name f : frame (update_table name f).
Proof.
  intros s a s' E. unfold update_table, modify in E. injection E as _ <-.
  destruct (dict_get String.eqb (_tables s) name); auto.
Qed.

Lemma frame_rebuild name column : frame (_rebuild_index name column).
Proof.
  intros s a s' E.
  destruct (rebuild_spec _ _ _ _ _ E) as (tb & idx & _ & _ & U & P).
  split; [exact (upd_store _ _ _ _ _ U) | exact P].
Qed.

Lemma frame_rows_for name where_ : frame (_rows_for name where_).
Proof.
  intros s a s' E. rewrite (rows_for_frame _ _ _ _ _ E). auto.
Qed.

Lemma frame_lift {A} (r : result A) : frame (lift_result r).
Proof.
  intros s a s' E. unfold lift_result in E.
  destruct r; [|discriminate]. injection E as _ <-. auto.
Qed.

Lemma keeps_persist : keeps persistable _persist.
Proof.
  intros s a s' [Hs (p & Hp & Hsz)] E. unfold _persist in E.
  rewrite Hp in E. unfold on_pager in E.
  pose proof (write_blob_state p (JSON.dumps (snapshot s)) Hsz) as (_ & Hps & _).
  destruct (Pager.write_blob (JSON.dumps (snapshot s)) p) as [u p'|];
    [|discriminate].
  injection E as _ <-. split.
  - exact Hs.
  - exists p'. split; [reflexivity|]. simpl in Hps. rewrite Hps. exact Hsz.
Qed.

Lemma keeps_update_row a f :
  (forall r, storable_row r -> storable_row (f r)) ->
  keeps persistable (update_row a f).
Proof.
  intros Hf s x s' [Hs Hp] E. rewrite update_row_spec in E.
  injection E as _ <-. split; [|exact Hp].
  unfold storable. simpl. apply store_set_forall; assumption.
Qed.

Ltac keeps_solve :=
  repeat first
    [ apply keeps_ret
    | apply keeps_persist
    | apply keeps_frame, frame_table_at
    | apply keeps_frame, frame_update_table
    | apply keeps_frame, frame_rebuild
    | apply keeps_frame, frame_rows_for
    | apply keeps_frame, frame_lift
    | apply keeps_for_each; intros ?
    | apply keeps_bind; [|intros ?] ].

(** *** The operations *)

Lemma keeps_modify_tables (f : t -> dict string table) :
  keeps persistable (modify (fun s => set_tables (f s) s)).
Proof. intros s a s' H E. injection E as _ <-. exact H. Qed.

Lemma keeps_create_table name cols : keeps persistable (create_table name cols).
Proof.
  unfold create_table. apply keeps_bind; [|intros _; apply keeps_persist].
  apply (keeps_modify_tables
           (fun s => dict_set String.eqb (_tables s) name (mk_table cols [] []))).
Qed.

Lemma keeps_drop_table name : keeps persistable (drop_table name).
Proof.
  unfold drop_table. apply keeps_bind; [|intros _; apply keeps_persist].
  apply (keeps_modify_tables (fun s => dict_pop String.eqb (_tables s) name)).
Qed.

Lemma keeps_add_column name column : keeps persistable (add_column name column).
Proof.
  unfold add_column. apply keeps_bind; [keeps_solve|]. intros tb.
  destruct (str_in column (columns tb)); [apply keeps_ret|].
  apply keeps_bind; [keeps_solve|]. intros _.
  apply keeps_bind; [|intros _; keeps_solve].
  apply keeps_for_each. intros a. apply keeps_update_row.
  intros r Hr. apply storable_set; [exact Hr | reflexivity].
Qed.

Lemma keeps_create_index name column :
  keeps persistable (create_index name column).
Proof.
  unfold create_index. apply keeps_bind; [keeps_solve|]. intros tb.
  destruct (dict_mem String.eqb (indexes tb) column); keeps_solve.
Qed.

Lemma keeps_drop_index name column : keeps persistable (drop_index name column).
Proof.
  intros s a s' H. unfold drop_index.
  destruct (dict_get String.eqb (_tables s) name).
  - revert s a s' H.
    change (keeps persistable
              (bind (update_table name
                       (fun tb => set_indexes
                                    (dict_pop String.eqb (indexes tb) column) tb))
                    (fun _ => _persist))).
    keeps_solve.
  - intros E. injection E as _ <-. exact H.
Qed.

Lemma keeps_insert_row name values :
  Forall (fun v => plain v = true) values ->
  keeps persistable (insert_row name values).
Proof.
  intros Hv. unfold insert_row. apply keeps_bind; [keeps_solve|]. intros tb.
  intros s a s' [Hs Hp] E. unfold bind at 1, get in E.
  unfold bind at 1, put in E.
  revert E. apply keeps_bind; [keeps_solve| |].
  - intros _. apply keeps_bind; [|intros _; keeps_solve].
    apply keeps_for_each. intros ci.
    apply keeps_bind; [|intros s1].
    + intros s0 x s0' H0 E0. injection E0 as _ <-. exact H0.
    + apply keeps_bind; [keeps_solve|]. intros tb'.
      destruct (dict_get String.eqb (indexes tb') (fst ci)); keeps_solve.
  - split; [|exact Hp]. unfold storable. simpl.
    apply Forall_app. split; [exact Hs|].
    constructor; [|constructor]. apply storable_new_row, Hv.
Qed.

Lemma keeps_update_rows name assignments where_ :
  Forall (fun kv => plain (snd kv) = true) assignments ->
  keeps persistable (update_rows name assignments where_).
Proof.
  intros Hv. unfold update_rows. apply keeps_bind; [keeps_solve|]. intros addrs.
  apply keeps_bind.
  - apply keeps_for_each. intros a. apply keeps_update_row.
    intros r Hr. apply storable_update; assumption.
  - intros _. apply keeps_bind; [keeps_solve|]. intros tb.
    apply keeps_bind; [keeps_solve|]. intros _.
    apply keeps_bind; [|intros _; keeps_solve].
    destruct addrs; keeps_solve.
Qed.

Lemma keeps_delete_rows name where_ :
  keeps persistable (delete_rows name where_).
Proof.
  unfold delete_rows. apply keeps_bind; [keeps_solve|]. intros tb.
  intros s a s' H E. unfold bind at 1, get in E. revert E.
  apply keeps_bind; [keeps_solve| |exact H].
  intros _. apply keeps_bind; [keeps_solve|]. intros _.
  apply keeps_bind; [|intros _; keeps_solve].
  destruct (_ =? 0)%Z; keeps_solve.
Qed.

Lemma keeps_select_rows name cols where_ join :
  keeps persistable (select_rows name cols where_ join).
Proof.
  unfold select_rows. destruct join as [j|].
  - unfold _join_rows. apply keeps_bind; [keeps_solve|]. intros lefts.
    apply keeps_bind; [keeps_solve|]. intros rtb.
    apply keeps_bind.
    + destruct (dict_get String.eqb (indexes rtb) (right_column j)); keeps_solve.
    + intros idx. intros s a s' H E. unfold bind at 1, get in E. revert E.
      apply keeps_bind; [keeps_solve| |exact H]. intros; keeps_solve.
  - apply keeps_bind; [keeps_solve|]. intros addrs.
    intros s a s' H E. unfold bind at 1, get in E.
    destruct (is_wildcard cols); injection E as _ <-; exact H.
Qed.

(** Every operation on plain values keeps the state persistable. *)
Theorem run_op_persistable (o : operation) :
  plain_op o -> keeps persistable (run_op o).
Proof.
  destruct o; simpl; intros Hp;
    try (apply keeps_bind; [|intros ?; apply keeps_ret]).
  - apply keeps_create_table.
  - apply keeps_drop_table.
  - apply keeps_add_column.
  - apply keeps_create_index.
  - apply keeps_drop_index.
  - apply keeps_insert_row, Hp.
  - apply keeps_update_rows, Hp.
  - apply keeps_delete_rows.
  - apply keeps_select_rows.
Qed.

End Persistable.

(** ** Statements keep every database in a state that persists *)

Module EngineFacts.
Import SQLExecutor ExecSpec.

(** *** Table manager operations *)

Lemma keeps_sound {A} (m : M BTreeStorage.t A) :
  (forall s r s', Spec.wf s -> m s = Ok r s' -> Spec.wf s') ->
  Spec.keeps Spec.persistable m ->
  Spec.keeps sound m.
Proof.
  intros Hw Hp s a s' [W P] E. split.
  - exact (Hw s a s' W E).
  - exact (Hp s a s' P E).
Qed.

Lemma sound_get : Spec.keeps sound (@get BTreeStorage.t).
Proof. intros s a s' H E. injection E as _ <-. exact H. Qed.

Lemma sound_create_table name cols :
  Spec.keeps sound (BTreeStorage.create_table name cols).
Proof.
  apply keeps_sound.
  - intros s r s'. apply Preservation.create_table_wf.
  - apply Persistable.keeps_create_table.
Qed.

Lemma sound_drop_table name : Spec.keeps sound (BTreeStorage.drop_table name).
Proof.
  apply keeps_sound.
  - intros s r s'. apply Preservation.drop_table_wf.
  - apply Persistable.keeps_drop_table.
Qed.

Lemma sound_add_column name column :
  Spec.keeps sound (BTreeStorage.add_column name column).
Proof.
  apply keeps_sound.
  - intros s r s'. apply Preservation2.add_column_wf.
  - apply Persistable.keeps_add_column.
Qed.

Lemma sound_create_index name column :
  Spec.keeps sound (BTreeStorage.create_index name column).
Proof.
  apply keeps_sound.
  - intros s r s'. apply Preservation.create_index_wf.
  - apply Persistable.keeps_create_index.
Qed.

Lemma sound_drop_index name column :
  Spec.keeps sound (BTreeStorage.drop_index name column).
Proof.
  apply keeps_sound.
  - intros s r s'. apply Preservation.drop_index_wf.
  - apply Persistable.keeps_drop_index.
Qed.

Lemma sound_insert_row name values :
  Forall (fun v => Spec.plain v = true) values ->
  Spec.keeps sound (BTreeStorage.insert_row name values).
Proof.
  intros Hv. apply keeps_sound.
  - intros s r s'. apply Preservation3.insert_row_wf.
  - apply Persistable.keeps_insert_row, Hv.
Qed.

Lemma sound_update_rows name assignments where_ :
  Forall (fun kv => Spec.plain (snd kv) = true) assignments ->
  Spec.keeps sound (BTreeStorage.update_rows name assignments where_).
Proof.
  intros Hv. apply keeps_sound.
  - intros s r s'. apply Preservation2.update_rows_wf.
  - apply Persistable.keeps_update_rows, Hv.
Qed.

Lemma sound_delete_rows name where_ :
  Spec.keeps sound (BTreeStorage.delete_rows name where_).
Proof.
  apply keeps_sound.
  - intros s r s'. apply Preservation2.delete_rows_wf.
  - apply Persistable.keeps_delete_rows.
Qed.

Lemma sound_select_rows name cols where_ join :
  Spec.keeps sound (BTreeStorage.select_rows name cols where_ join).
Proof.
  apply keeps_sound.
  - intros s r s'. apply Preservation4.select_rows_wf.
  - apply Persistable.keeps_select_rows.
Qed.

(** *** The building blocks of [execute] *)

Lemma kept_ret {A} I (a : A) : kept I (ret a).
Proof. intros e x e' H E. injection E as _ <-. exact H. Qed.

Lemma kept_raise {A} I x : kept I (@raise t A x).
Proof. intros e a e' H E. discriminate. Qed.

Lemma kept_lift {A} I (r : result A) : kept I (lift_result r).
Proof.
  intros e a e' H E. unfold lift_result in E.
  destruct r; [|discriminate]. injection E as _ <-. exact H.
Qed.

Lemma kept_get I : kept I (@get t).
Proof. intros e a e' H E. injection E as _ <-. exact H. Qed.

Lemma kept_bind {A B} I (m : M t A) (k : A -> M t B) :
  kept I m -> (forall a, kept I (k a)) -> kept I (bind m k).
Proof.
  intros Hm Hk e b e' H E. unfold bind in E.
  destruct (m e) as [a e1|] eqn:Em; [|discriminate].
  exact (Hk a e1 b e' (Hm e a e1 H Em) E).
Qed.

Lemma kept_set_active I name : kept I (modify (set_active name)).
Proof. intros e a e' H E. injection E as _ <-. exact H. Qed.

Lemma kept_on_lsm {A} I (m : M LSMTreeStorage.t A) : kept I (on_lsm m).
Proof.
  intros e a e' H E. unfold on_lsm in E.
  destruct (m (_lsm e)); [|discriminate]. injection E as _ <-. exact H.
Qed.

Lemma kept_on_storage {A} I name (m : M BTreeStorage.t A) :
  Spec.keeps I m -> kept I (on_storage name m).
Proof.
  intros Hm e a e' H E. unfold on_storage in E.
  destruct (dict_get String.eqb (_databases e) name) as [st|] eqn:G;
    [|discriminate].
  destruct (m st) as [x st'|] eqn:Em; [|discriminate].
  injection E as _ <-. intros n stn. simpl. rewrite sget_set.
  destruct (String.eqb name n).
  - intros X. injection X as <-. exact (Hm st x st' (H name st G) Em).
  - apply H.
Qed.

Lemma new_database_sound :
  BTreeStorage.init (Some (Pager.mk 4096 [] 0 None))
  = Ok tt (Spec.empty_manager (Pager.mk 4096 [] 0 None))
  /\ sound (Spec.empty_manager (Pager.mk 4096 [] 0 None)).
Proof.
  split; [reflexivity|]. split.
  - apply Invariant.wf_empty.
  - split; [constructor|]. eexists. split; reflexivity.
Qed.

Lemma kept_ensure name : kept sound (_ensure_database name).
Proof.
  intros e a e' H E. unfold _ensure_database in E.
  destruct (dict_mem String.eqb (_databases e) name).
  - injection E as _ <-. exact H.
  - change (Pager.init None 4096) with (Ok tt (Pager.mk 4096 [] 0 None)) in E.
    cbv iota in E. rewrite (proj1 new_database_sound) in E.
    injection E as _ <-. intros n stn. simpl. rewrite sget_set.
    destruct (String.eqb name n).
    + intros X. injection X as <-. exact (proj2 new_database_sound).
    + apply H.
Qed.

Ltac kept_step :=
  match goal with
  | |- kept _ (ret _) => apply kept_ret
  | |- kept _ (raise _) => apply kept_raise
  | |- kept _ (lift_result _) => apply kept_lift
  | |- kept _ get => apply kept_get
  | |- kept _ (modify (set_active _)) => apply kept_set_active
  | |- kept _ (_ensure_database _) => apply kept_ensure
  | |- kept _ (on_lsm _) => apply kept_on_lsm
  | |- kept _ (on_storage _ _) => apply kept_on_storage
  | |- kept _ (bind _ _) => apply kept_bind; [|intros ?]
  | |- kept _ (if ?b then _ else _) => destruct b
  | |- kept _ (match ?x with _ => _ end) => destruct x
  | |- Spec.keeps _ get => apply sound_get
  | |- Spec.keeps _ (BTreeStorage.create_table _ _) => apply sound_create_table
  | |- Spec.keeps _ (BTreeStorage.drop_table _) => apply sound_drop_table
  | |- Spec.keeps _ (BTreeStorage.add_column _ _) => apply sound_add_column
  | |- Spec.keeps _ (BTreeStorage.create_index _ _) => apply sound_create_index
  | |- Spec.keeps _ (BTreeStorage.drop_index _ _) => apply sound_drop_index
  | |- Spec.keeps _ (BTreeStorage.delete_rows _ _) => apply sound_delete_rows
  | |- Spec.keeps _ (BTreeStorage.select_rows _ _ _ _) => apply sound_select_rows
  | |- Spec.keeps _ (BTreeStorage.insert_row _ _) =>
      apply sound_insert_row; assumption
  | |- Spec.keeps _ (BTreeStorage.update_rows _ _ _) =>
      apply sound_update_rows; assumption
  end.

(** *** Statements *)

Lemma kept_execute (p : ParsedCommand) :
  plain_details (cmd_details p) -> kept sound (execute p).
Proof.
  unfold execute, execute_statement.
  generalize (command p) (raw p). intros cmd rw.
  destruct (cmd_details p); simpl; intros Hp; repeat kept_step.
Qed.

Lemma kept_query (q : string) :
  plain_query q -> kept sound (DatabaseEngine.execute q).
Proof.
  unfold plain_query, DatabaseEngine.execute. intros Hp.
  destruct (SQLParser.parse q) as [p|x].
  - intros e a e' H E. unfold bind, lift_result in E.
    exact (kept_execute p Hp e a e' H E).
  - intros e a e' H E. discriminate.
Qed.

Lemma kept_queries (queries : list string) :
  Forall plain_query queries -> kept sound (run_queries queries).
Proof.
  unfold run_queries. induction 1 as [|q queries Hq Hqs IH]; simpl.
  - apply kept_ret.
  - apply kept_bind; [|intros _; exact IH].
    apply kept_bind; [apply kept_query, Hq | intros ?; apply kept_ret].
Qed.

Lemma fresh_sound :
  returns DatabaseEngine.fresh = true
  /\ all_databases sound (state_of DatabaseEngine.fresh).
Proof.
  split; [reflexivity|].
  assert (K : kept sound
                (bind (_ensure_database "default")
                      (fun _ => modify (set_active "default")))).
  { apply kept_bind; [apply kept_ensure | intros _; apply kept_set_active]. }
  unfold DatabaseEngine.fresh.
  destruct (bind (_ensure_database "default")
                 (fun _ => modify (set_active "default"))
                 (mk LSMTreeStorage.init [] "default")) as [u e|x e] eqn:E.
  - apply (K (mk LSMTreeStorage.init [] "default") u e); [|exact E].
    intros n st G. discriminate.
  - vm_compute in E. discriminate.
Qed.

End EngineFacts.

Section PersistenceClaims.

Import BTreeStorage Spec IndexFacts StorageFacts Invariant RowStore Preservation4
     ViewFacts SnapshotFacts LoadFacts ReloadFacts Persistable.

(** ** Persisting and loading: what stays the same *)

Lemma reload_same_answers (s : t) :
wf s -> persistable s ->
exists s2,
  reload (state_of (_persist s)) = Ok tt s2
  /\ wf s2
  /\ describe s2 = describe s
  /\ forall name cols where_ join,
       answer (select_rows name cols where_ join s2)
       = answer (select_rows name cols where_ join s).
Proof.
intros W [Hs (p & Hp & Hsz)].
destruct (reload_view s p W Hs Hp Hsz) as (s2 & E & W2 & V).
exists s2. split; [exact E|]. split; [exact W2|]. split.
- rewrite !describe_by_view, V. reflexivity.
- intros name cols where_ join.
  rewrite (select_by_view s2 name cols where_ join W2).
  rewrite (select_by_view s name cols where_ join W), V. reflexivity.
Qed.

Lemma run_ops_invariants (ops : list operation) :
Forall plain_op ops ->
forall s r s',
  wf s -> persistable s -> run_ops ops s = Ok r s' ->
  wf s' /\ persistable s'.
Proof.
unfold run_ops. induction 1 as [|o ops Ho Hops IH]; intros s r s' W P E.
- injection E as _ <-. auto.
- rewrite for_each_cons in E.
  destruct (run_op o s) as [u s1|] eqn:E1; [|discriminate].
  apply (IH s1 r s'); [| |exact E].
  + exact (run_op_wf o s u s1 W E1).
  + exact (run_op_persistable o Ho s u s1 P E1).
Qed.

Lemma empty_manager_ok (p : Pager.t) :
(0 < Pager.page_size p)%Z ->
wf (empty_manager p) /\ persistable (empty_manager p).
Proof.
intros H. split; [apply wf_empty|]. split.
- constructor.
- exists p. auto.
Qed.

(** The sample shop is reached by plain operations. *)
Lemma shop_reached :
run_ops Sample.ops (empty_manager Sample.pager) = Ok tt Sample.shop.
Proof. vm_compute. reflexivity. Qed.

Lemma shop_plain : Forall plain_op Sample.ops.
Proof. repeat constructor. Qed.

Lemma shop_ok : wf Sample.shop /\ persistable Sample.shop.
Proof.
destruct (empty_manager_ok Sample.pager eq_refl) as [W0 P0].
exact (run_ops_invariants Sample.ops shop_plain _ _ _ W0 P0 shop_reached).
Qed.

(** C4, as stated, fails.

  A tuple is stored as a JSON array and comes back as a list: after
  [INSERT INTO t VALUES ((1, 2), 3)] the table manager answers
  [SELECT * FROM t] with the tuple [(1, 2)], the table manager loaded from its
  snapshot answers with the list [[1, 2]], and the two render differently.

  A statement that raises half-way leaves a state that cannot be loaded
  again: [INSERT INTO t VALUES ([1])] into an indexed column appends the row
  and then raises TypeError on the unhashable key; the table manager goes on
  answering SELECT with that row, and loading its snapshot raises TypeError
  when the index is rebuilt. *)
Lemma reload_changes_tuple :
let e := snd (DatabaseEngine.run
                [ "CREATE TABLE t (a, b)";
                  "INSERT INTO t VALUES ((1, 2), 3)" ]%string
                (state_of DatabaseEngine.fresh)) in
let st := ExecSpec.database_of e "default" in
let st2 := state_of (reload (state_of (_persist st))) in
let before := answer (select_rows "t" ["*"%string] None None st) in
let after := answer (select_rows "t" ["*"%string] None None st2) in
let run' := DatabaseEngine.run
              [ "CREATE TABLE t (a)";
                "CREATE INDEX t a";
                "INSERT INTO t VALUES ([1])";
                "SELECT * FROM t" ]%string
              (state_of DatabaseEngine.fresh) in
let st' := ExecSpec.database_of (snd run') "default" in
(returns (reload (state_of (_persist st))) = true
 /\ before = Val [[("a", VTuple [VInt 1; VInt 2]); ("b", VInt 3)]]%string
 /\ after = Val [[("a", VList [VInt 1; VInt 2]); ("b", VInt 3)]]%string
 /\ before <> after
 /\ SQLExecutor._format_rows
      [[("a", VTuple [VInt 1; VInt 2]); ("b", VInt 3)]]%string ["*"%string]
    = ["a | b"; "(1, 2) | 3"]%string
 /\ SQLExecutor._format_rows
      [[("a", VList [VInt 1; VInt 2]); ("b", VInt 3)]]%string ["*"%string]
    = ["a | b"; "[1, 2] | 3"]%string)
/\ (fst run'
    = [ DatabaseEngine.Lines ["Table 't' created."];
        DatabaseEngine.Lines ["Index on t.a built."];
        DatabaseEngine.Raised TypeError;
        DatabaseEngine.Lines ["a"; "[1]"] ]%string
    /\ answer (reload (state_of (_persist st'))) = Exn TypeError).
Proof.
vm_compute. repeat split; try reflexivity. discriminate.
Qed.

(** Operations on plain values that all return, applied to a new table
  manager, leave a state that persists. *)
Lemma operations_roundtrip (p : Pager.t) (ops : list operation) (s : t) :
(0 < Pager.page_size p)%Z ->
Forall plain_op ops ->
run_ops ops (empty_manager p) = Ok tt s ->
exists s2,
  reload (state_of (_persist s)) = Ok tt s2
  /\ describe s2 = describe s
  /\ forall name cols where_ join,
       answer (select_rows name cols where_ join s2)
       = answer (select_rows name cols where_ join s).
Proof.
intros Hsz Hops E.
destruct (empty_manager_ok p Hsz) as [W0 P0].
destruct (run_ops_invariants ops Hops _ _ _ W0 P0 E) as [W P].
destruct (reload_same_answers s W P) as (s2 & R & _ & D & Q).
exists s2. auto.
Qed.

(** C4, amended.  For any sequence of statements run through the engine on a
  fresh database (the engine over an empty data directory) that all complete
  without raising and hand plain values only to the table manager (null,
  booleans, integers, text and lists of these: no tuples), and for every
  database of the engine: serializing the table manager's state through the
  pager and loading it into a new table manager succeeds and yields the same
  [describe()] output and, for every SELECT (with or without WHERE and
  JOIN), the same answer: the same rows, or the same exception. *)
Theorem reload_roundtrip (queries : list string) (e : SQLExecutor.t) :
Forall ExecSpec.plain_query queries ->
ExecSpec.run_queries queries (state_of DatabaseEngine.fresh) = Ok tt e ->
forall (name : string) (st : t),
  dict_get String.eqb (SQLExecutor._databases e) name = Some st ->
  exists st2,
    reload (state_of (_persist st)) = Ok tt st2
    /\ describe st2 = describe st
    /\ forall table cols where_ join,
         answer (select_rows table cols where_ join st2)
         = answer (select_rows table cols where_ join st).
Proof.
intros Hq E name st G.
pose proof (EngineFacts.kept_queries queries Hq _ _ _
              (proj2 EngineFacts.fresh_sound) E name st G) as [W P].
destruct (reload_same_answers st W P) as (st2 & R & _ & D & Q).
exists st2. auto.
Qed.

End PersistenceClaims.

Section Samples.

Import BTreeStorage Spec.

(** ** The theorems, on the sample shop *)

Lemma pager_blob_roundtrip_sample :
(0 < Pager.page_size Sample.pager)%Z
/\ Pager.read_blob (state_of (Pager.write_blob Sample.payload Sample.pager))
   = Sample.payload.
Proof.
split; [reflexivity|].
exact (proj1 (pager_blob_roundtrip Sample.pager Sample.payload eq_refl)).
Defined.

Lemma reload_roundtrip_sample :
exists st2,
  reload (state_of (_persist Sample.stored)) = Ok tt st2
  /\ describe st2 = describe Sample.stored
  /\ forall table cols where_ join,
       answer (select_rows table cols where_ join st2)
       = answer (select_rows table cols where_ join Sample.stored).
Proof.
apply (reload_roundtrip Sample.queries Sample.served) with (name := "default"%string).
- repeat (apply Forall_cons; [vm_compute; repeat constructor|]).
  apply Forall_nil.
- vm_compute. reflexivity.
- vm_compute. reflexivity.
Defined.




Lemma select_cell_rendering_sample :
select_rows "users" ["id"; "age"]%string None None Sample.shop
= Ok Sample.selected Sample.shop
/\ SQLExecutor._format_rows Sample.selected ["id"; "age"]%string
   = ["id | age"; "1 | None"; "2 | None"]%string.
Proof.
assert (H : select_rows "users" ["id"; "age"]%string None None Sample.shop
            = Ok Sample.selected Sample.shop) by (vm_compute; reflexivity).
split; [exact H|].
destruct (select_cell_rendering Sample.shop "users" ["id"; "age"]%string None
            Sample.selected Sample.shop H) as (_ & _ & F).
rewrite (F (hd [] Sample.selected) (tl Sample.selected) eq_refl).
vm_compute. reflexivity.
Defined.

Import SQLExecutor ExecSpec.

Lemma commit_drains_log_sample :
lsm_entries (state_of (execute (Sample.parsed "COMMIT")
                               (run Sample.statements Sample.engine))) = []
/\ execute (Sample.parsed "COMMIT") (run Sample.statements Sample.engine)
   = Ok ["Committed 3 entries."%string]
        (set_lsm [] (run Sample.statements Sample.engine)).
Proof.
destruct (commit_drains_log Sample.engine Sample.statements
            (Sample.parsed "COMMIT"))
  as (_ & _ & R & D).
- vm_compute. reflexivity.
- vm_compute. reflexivity.
- vm_compute. repeat constructor; discriminate.
- vm_compute. reflexivity.
- vm_compute. reflexivity.
- split; [exact D|]. rewrite R. vm_compute. reflexivity.
Defined.

Lemma use_unknown_database_sample :
execute (Sample.parsed "USE reports") Sample.engine
= Ok ["Database 'reports' not found."%string] Sample.engine.
Proof.
apply (use_unknown_database Sample.engine (Sample.parsed "USE reports") "reports");
  vm_compute; reflexivity.
Defined.

End Samples.

(** ** The pager: single pages, page counts and the file *)

Module PageFacts.

(** *** Positions in a list *)

Lemma py_index_nonneg {A} (l : list A) (i : Z) :
  (0 <= i < Z.of_nat (length l))%Z -> py_index l i = Some (Z.to_nat i).
Proof.
  intros [H0 H1]. unfold py_index.
  destruct (Z.leb_spec 0 i); [|lia]. destruct (Z.ltb_spec i (Z.of_nat (length l))); [|lia].
  reflexivity.
Qed.

Lemma py_index_neg {A} (l : list A) (i : Z) :
  (- Z.of_nat (length l) <= i < 0)%Z ->
  py_index l i = Some (Z.to_nat (Z.of_nat (length l) + i)).
Proof.
  intros [H0 H1]. unfold py_index.
  destruct (Z.leb_spec 0 i); [lia|].
  destruct (Z.leb_spec (- Z.of_nat (length l)) i); [|lia]. reflexivity.
Qed.

Lemma py_index_out {A} (l : list A) (i : Z) :
  (Z.of_nat (length l) <= i \/ i < - Z.of_nat (length l))%Z ->
  py_index l i = None.
Proof.
  intros H. unfold py_index.
  destruct (Z.leb_spec 0 i).
  - destruct (Z.ltb_spec i (Z.of_nat (length l))); [lia | reflexivity].
  - destruct (Z.leb_spec (- Z.of_nat (length l)) i); [lia | reflexivity].
Qed.

Lemma py_index_bound {A} (l : list A) (i : Z) (k : nat) :
  py_index l i = Some k -> k < length l.
Proof.
  unfold py_index.
  destruct (Z.leb_spec 0 i).
  - destruct (Z.ltb_spec i (Z.of_nat (length l))); [|discriminate].
    intros E. injection E as <-. lia.
  - destruct (Z.leb_spec (- Z.of_nat (length l)) i); [|discriminate].
    intros E. injection E as <-. lia.
Qed.

Lemma list_set_length {A} (l : list A) (i : nat) (x : A) :
  length (list_set l i x) = length l.
Proof.
  revert i. induction l as [|y l IH]; intros [|i]; simpl; auto.
Qed.

Lemma nth_list_set_same {A} (l : list A) (i : nat) (x d : A) :
  i < length l -> nth i (list_set l i x) d = x.
Proof.
  revert i. induction l as [|y l IH]; intros [|i] H; simpl in *; try lia; auto.
  apply IH. lia.
Qed.

Lemma nth_list_set_other {A} (l : list A) (i j : nat) (x d : A) :
  i <> j -> nth j (list_set l i x) d = nth j l d.
Proof.
  revert i j. induction l as [|y l IH]; intros [|i] [|j] H; simpl; auto; try lia.
Qed.

Lemma nth_repeat_any {A} (x d : A) (n k : nat) :
  k < n -> nth k (repeat x n) d = x.
Proof.
  revert k. induction n as [|n IH]; intros [|k] H; simpl; try lia; auto.
  apply IH. lia.
Qed.

Lemma skipn_repeat_sub {A} (x : A) (n m : nat) :
  skipn n (repeat x m) = repeat x (m - n).
Proof.
  revert m. induction n as [|n IH]; intros m.
  - rewrite Nat.sub_0_r. reflexivity.
  - destruct m as [|m]; [reflexivity|]. simpl. apply IH.
Qed.

(** *** Slices *)

Lemma slices_from_sizes {A} (step : nat) :
  0 < step ->
  forall fuel (l : list A) (k : nat),
    length l <= fuel -> length l = k * step ->
    length (slices_from fuel step l) = k
    /\ Forall (fun pg => length pg = step) (slices_from fuel step l).
Proof.
  intros Hs. induction fuel as [|f IH]; intros l k Hl Hk.
  - destruct l; simpl in *; [|lia]. destruct k; simpl in *; [auto | lia].
  - destruct l as [|x r].
    + simpl in *. destruct k; simpl in *; [auto | lia].
    + destruct k as [|k]; [simpl in *; lia|].
      cbn [slices_from].
      destruct (IH (skipn step (x :: r)) k) as [L F].
      * rewrite length_skipn. cbn [length] in *. lia.
      * rewrite length_skipn. cbn [length] in *. simpl in Hk. lia.
      * split; [simpl; rewrite L; reflexivity|].
        constructor; [|exact F].
        rewrite length_firstn. cbn [length] in *. simpl in Hk. lia.
Qed.

Lemma slices_from_of_concat {A} (step : nat) :
  0 < step ->
  forall (pages : list (list A)) fuel,
    Forall (fun pg => length pg = step) pages ->
    length (concat pages) <= fuel ->
    slices_from fuel step (concat pages) = pages.
Proof.
  intros Hs. induction pages as [|pg pages IH]; intros fuel F Hl.
  - destruct fuel; reflexivity.
  - inversion F as [|? ? Hpg Hrest]; subst.
    cbn [concat] in *. rewrite length_app in Hl.
    destruct fuel as [|f]; [lia|].
    destruct (pg ++ concat pages) as [|x r] eqn:E.
    + apply (f_equal (@length A)) in E. rewrite length_app in E. simpl in E. lia.
    + rewrite <- E. cbn [slices_from].
      assert (E1 : firstn (length pg) (pg ++ concat pages) = pg).
      { rewrite firstn_app, Nat.sub_diag, firstn_O, firstn_all.
        apply app_nil_r. }
      assert (E2 : skipn (length pg) (pg ++ concat pages) = concat pages).
      { rewrite skipn_app, Nat.sub_diag, skipn_all. reflexivity. }
      rewrite E in *.
      rewrite E1, E2, IH; [reflexivity | exact Hrest | lia].
Qed.

Lemma slices_of_concat {A} (step : nat) (pages : list (list A)) :
  0 < step -> Forall (fun pg => length pg = step) pages ->
  slices step (concat pages) = pages.
Proof. intros Hs F. apply slices_from_of_concat; auto. Qed.

Lemma ljust_length (data : bytes) (width : Z) :
  (Z.of_nat (length data) <= width)%Z ->
  length (ljust data width) = Z.to_nat width.
Proof.
  intros H. unfold ljust. rewrite length_app, repeat_length. lia.
Qed.

Lemma needed_bounds (ps : Z) (data : bytes) :
  (0 < ps)%Z ->
  (0 <= needed ps data
   /\ Z.of_nat (length data) <= needed ps data * ps
   /\ needed ps data * ps < Z.of_nat (length data) + ps)%Z.
Proof.
  intros Hps. unfold needed.
  pose proof (Z.div_mod (Z.of_nat (length data) + ps - 1) ps ltac:(lia)) as D.
  pose proof (Z.mod_pos_bound (Z.of_nat (length data) + ps - 1) ps Hps) as B.
  assert (0 <= (Z.of_nat (length data) + ps - 1) / ps)%Z
    by (apply Z.div_pos; lia).
  nia.
Qed.

(** The pages [write_blob] builds: as many as the payload needs, each of
    exactly the page size. *)
Lemma written_pages (ps : Z) (data : bytes) :
  (0 < ps)%Z ->
  let pages := slices (Z.to_nat ps) (ljust data (needed ps data * ps)) in
  Z.of_nat (length pages) = needed ps data
  /\ Forall (fun pg => length pg = Z.to_nat ps) pages.
Proof.
  intros Hps pages.
  destruct (needed_bounds ps data Hps) as (N0 & N1 & _).
  destruct (slices_from_sizes (Z.to_nat ps) ltac:(lia)
              (length (ljust data (needed ps data * ps)))
              (ljust data (needed ps data * ps))
              (Z.to_nat (needed ps data)) (le_n _)) as [L F].
  - rewrite ljust_length by exact N1. nia.
  - split; [|exact F]. unfold pages, slices. rewrite L. lia.
Qed.

(** *** Little-endian integers *)

Lemma Z_of_byte_of_Z (z : Z) :
  (0 <= z < 256)%Z -> Z_of_byte (byte_of_Z z) = z.
Proof.
  intros H. unfold Z_of_byte, byte_of_Z.
  destruct (Byte.of_N (Z.to_N z)) as [b|] eqn:E.
  - apply Byte.to_of_N in E. rewrite E. lia.
  - apply Byte.of_N_None_iff in E. lia.
Qed.

Lemma from_le_digits (n : nat) (z : Z) :
  (0 <= z < 256 ^ Z.of_nat n)%Z -> from_bytes_little (le_digits n z) = z.
Proof.
  revert z. induction n as [|n IH]; intros z H.
  - simpl in *. lia.
  - cbn [le_digits from_bytes_little].
    rewrite Z_of_byte_of_Z by (apply Z.mod_pos_bound; lia).
    rewrite IH.
    + pose proof (Z.div_mod z 256 ltac:(lia)). lia.
    + rewrite Nat2Z.inj_succ, Z.pow_succ_r in H by lia.
      split; [apply Z.div_pos; lia|].
      apply Z.div_lt_upper_bound; lia.
Qed.

Lemma le_digits_length (n : nat) (z : Z) : length (le_digits n z) = n.
Proof. revert z. induction n; intros z; simpl; auto. Qed.

Lemma to_bytes_little_val (n : nat) (z : Z) (b : bytes) :
  to_bytes_little n z = Val b ->
  length b = n /\ from_bytes_little b = z /\ (0 <= z < 256 ^ Z.of_nat n)%Z.
Proof.
  unfold to_bytes_little.
  destruct (Z.leb_spec 0 z); [|discriminate].
  destruct (Z.ltb_spec z (256 ^ Z.of_nat n)); [|discriminate].
  simpl. intros E. injection E as <-.
  split; [apply le_digits_length|]. split; [apply from_le_digits|]; lia.
Qed.

(** *** The file *)

(** What [_flush] writes for a pager that holds pages. *)
Lemma flush_file (p p' : Pager.t) :
  Pager._pages p <> [] ->
  Pager._flush p = Ok tt p' ->
  exists size_bytes length_bytes,
    p' = Pager.set_file
           (Some (Pager.MAGIC ++ size_bytes ++ length_bytes
                              ++ concat (Pager._pages p))) p
    /\ length size_bytes = 4 /\ from_bytes_little size_bytes = Pager.page_size p
    /\ length length_bytes = 8 /\ from_bytes_little length_bytes = Pager._length p.
Proof.
  intros Hne. unfold Pager._flush.
  destruct (Pager._pages p) as [|pg rest] eqn:E; [congruence|].
  destruct (to_bytes_little 4 (Pager.page_size p)) as [sb|] eqn:E4; [|discriminate].
  destruct (to_bytes_little 8 (Pager._length p)) as [lb|] eqn:E8; [|discriminate].
  intros H. injection H as <-.
  destruct (to_bytes_little_val _ _ _ E4) as (L4 & F4 & _).
  destruct (to_bytes_little_val _ _ _ E8) as (L8 & F8 & _).
  exists sb, lb. rewrite <- app_assoc. auto.
Qed.

Lemma pad_page_full (size : nat) (pages : list bytes) :
  Forall (fun pg => length pg = size) pages ->
  map (Pager.pad_page size) pages = pages.
Proof.
  induction 1 as [|pg pages Hpg _ IH]; simpl; [reflexivity|].
  rewrite IH. unfold Pager.pad_page. rewrite Hpg, Nat.ltb_irrefl. reflexivity.
Qed.

(** A new pager over a file that [_flush] wrote holds what was flushed,
    whatever page size is requested. *)
Lemma load_flushed (ps len requested : Z) (pages : list bytes)
      (size_bytes length_bytes : bytes) :
  (0 < ps)%Z ->
  Forall (fun pg => length pg = Z.to_nat ps) pages ->
  length size_bytes = 4 -> from_bytes_little size_bytes = ps ->
  length length_bytes = 8 -> from_bytes_little length_bytes = len ->
  let file := Some (Pager.MAGIC ++ size_bytes ++ length_bytes ++ concat pages) in
  Pager.init file requested = Ok tt (Pager.mk ps pages len file).
Proof.
  intros Hps F L4 F4 L8 F8 file.
  destruct size_bytes as [|s0 [|s1 [|s2 [|s3 [|]]]]]; try discriminate.
  destruct length_bytes
    as [|l0 [|l1 [|l2 [|l3 [|l4 [|l5 [|l6 [|l7 [|]]]]]]]]]; try discriminate.
  unfold Pager.init, Pager._load, file.
  cbn [Pager._file Pager.MAGIC app length Nat.ltb Nat.leb Pager.HEADER_SIZE
       starts_with Byte.eqb].
  replace (Byte.eqb x4d x4d) with true by reflexivity.
  replace (Byte.eqb x44 x44) with true by reflexivity.
  replace (Byte.eqb x42 x42) with true by reflexivity.
  replace (Byte.eqb x31 x31) with true by reflexivity.
  cbn [andb negb orb slice Nat.sub skipn firstn].
  rewrite F4, F8.
  assert (E0 : (ps =? 0)%Z = false) by (apply Z.eqb_neq; lia).
  assert (E1 : (ps <? 0)%Z = false) by (apply Z.ltb_ge; lia).
  rewrite !E0. rewrite ?E0, E1.
  cbn [Pager.set_pages Pager.page_size Pager._length Pager._file Pager._pages
       skipn Pager.HEADER_SIZE].
  rewrite slices_of_concat by (auto; lia).
  rewrite pad_page_full by exact F. reflexivity.
Qed.

(** [write_blob] that returns, on a payload that is not empty: the pager it
    leaves is the pager a new [Pager] over the file is. *)
Lemma write_blob_file (p p' : Pager.t) (data : bytes) (requested : Z) :
  (0 < Pager.page_size p)%Z -> data <> [] ->
  Pager.write_blob data p = Ok tt p' ->
  Pager.init (Pager._file p') requested = Ok tt p'.
Proof.
  intros Hps Hne H. unfold Pager.write_blob in H.
  destruct data as [|b d]; [congruence|].
  cbn [Pager.page_size Pager.set_length] in H.
  destruct (Z.eqb_spec (Pager.page_size p) 0); [lia|].
  destruct (Z.ltb_spec 0 (Pager.page_size p)); [|lia].
  destruct (written_pages (Pager.page_size p) (b :: d) Hps) as [L F].
  unfold needed in L, F.
  set (pages := slices _ _) in *.
  assert (Hpages : pages <> []).
  { apply slices_nonempty. unfold ljust. discriminate. }
  apply flush_file in H; [|exact Hpages].
  destruct H as (sb & lb & -> & L4 & F4 & L8 & F8).
  cbn [Pager._file Pager.set_file Pager.set_pages Pager.set_length
       Pager.page_size Pager._pages Pager._length] in *.
  exact (load_flushed (Pager.page_size p) _ requested pages sb lb
           Hps F L4 F4 L8 F8).
Qed.

End PageFacts.

Section PagerProperties.

Import PageFacts.

(** X1. [write_page] followed by [read_page] at the same index (from 0
    on, or negative and counting from the end of the existing pages) returns
    the data cut to the page size and filled with zero bytes up to it; the
    pager then holds the pages it had, or as many as the index requires. *)
Theorem write_page_then_read (p : Pager.t) (index : Z) (data : bytes) :
  (0 <= Pager.page_size p)%Z ->
  (- Z.of_nat (length (Pager._pages p)) <= index)%Z ->
  let size := Z.to_nat (Pager.page_size p) in
  let p' := state_of (Pager.write_page index data p) in
  Pager.read_page index p'
  = Val (firstn size data ++ repeat x00 (size - length data))
  /\ length (firstn size data ++ repeat x00 (size - length data)) = size
  /\ Z.of_nat (length (Pager._pages p'))
     = Z.max (Z.of_nat (length (Pager._pages p))) (index + 1).
Proof.
  intros Hps Hidx size p'.
  assert (Hbuf : skipn (length data) (Pager.zero_page p)
                 = repeat x00 (size - length data)).
  { unfold Pager.zero_page. apply skipn_repeat_sub. }
  assert (Hlen : length (firstn size data ++ repeat x00 (size - length data))
                 = size).
  { rewrite length_app, length_firstn, repeat_length. lia. }
  unfold p', Pager.write_page.
  destruct (Z.ltb_spec (Pager.page_size p) 0); [lia|].
  rewrite Hbuf.
  set (pages := Pager._pages p ++ repeat _ _).
  assert (Lp : Z.of_nat (length pages)
               = Z.max (Z.of_nat (length (Pager._pages p))) (index + 1)).
  { unfold pages. rewrite length_app, repeat_length. lia. }
  destruct (py_index pages index) as [i|] eqn:Ei.
  2:{ exfalso.
      destruct (Z.leb_spec 0 index).
      - rewrite py_index_nonneg in Ei by lia. discriminate.
      - rewrite py_index_neg in Ei by lia. discriminate. }
  pose proof (py_index_bound _ _ _ Ei) as Bi.
  fold size.
  match goal with |- context [Pager._flush ?q] =>
    destruct (flush_pages q) as (Ep & _ & _) end.
  assert (Ei' : py_index
                  (list_set pages i
                     (firstn size data ++ repeat x00 (size - length data)))
                  index = Some i).
  { unfold py_index in *. rewrite list_set_length. exact Ei. }
  split; [|split; [exact Hlen|]].
  - unfold Pager.read_page. rewrite Ep. cbn [Pager._pages Pager.set_pages].
    rewrite Ei'. rewrite nth_list_set_same by exact Bi. reflexivity.
  - rewrite Ep. cbn [Pager._pages Pager.set_pages].
    rewrite list_set_length. exact Lp.
Qed.

(** X2. [write_page] leaves every other page as it was, and the pages it
    had to append before the index read back as zero bytes. *)
Theorem write_page_elsewhere (p : Pager.t) (index other : Z) (data : bytes) :
  (0 <= Pager.page_size p)%Z -> (0 <= index)%Z ->
  (0 <= other)%Z -> other <> index ->
  let old := Z.of_nat (length (Pager._pages p)) in
  let p' := state_of (Pager.write_page index data p) in
  Pager.read_page other p'
  = if (other <? old)%Z then Pager.read_page other p
    else if (other <? index)%Z then Val (Pager.zero_page p)
    else Exn IndexError.
Proof.
  intros Hps Hidx Hother Hne old p'.
  unfold p', Pager.write_page.
  destruct (Z.ltb_spec (Pager.page_size p) 0); [lia|].
  set (buffer := firstn _ data ++ _).
  set (pages := Pager._pages p ++ repeat _ _).
  assert (Lp : Z.of_nat (length pages) = Z.max old (index + 1)).
  { unfold pages, old. rewrite length_app, repeat_length. lia. }
  rewrite (py_index_nonneg pages index) by lia.
  match goal with |- context [Pager._flush ?q] =>
    destruct (flush_pages q) as (Ep & _ & _) end.
  unfold Pager.read_page. rewrite Ep. cbn [Pager._pages Pager.set_pages].
  destruct (Z.ltb_spec other old) as [Ho|Ho].
  - rewrite !py_index_nonneg by (rewrite ?list_set_length; unfold old in *; lia).
    rewrite nth_list_set_other by lia.
    unfold pages. rewrite app_nth1 by (unfold old in Ho; lia). reflexivity.
  - destruct (Z.ltb_spec other index) as [Hi|Hi].
    + rewrite py_index_nonneg by (rewrite list_set_length; lia).
      rewrite nth_list_set_other by lia.
      unfold pages. rewrite app_nth2 by (unfold old in Ho; lia).
      rewrite nth_repeat_any by (unfold old in *; lia). reflexivity.
    + rewrite py_index_out by (rewrite list_set_length; lia). reflexivity.
Qed.

(** X3. [allocate_page] returns the index of a new last page, which reads
    back as one page of zero bytes; the pages that existed, the recorded
    length and the file are untouched (the new page is not flushed). *)
Theorem allocate_page_fresh (p : Pager.t) :
  (0 <= Pager.page_size p)%Z ->
  exists p',
    Pager.allocate_page p = Ok (Z.of_nat (length (Pager._pages p))) p'
    /\ Pager.read_page (Z.of_nat (length (Pager._pages p))) p'
       = Val (repeat x00 (Z.to_nat (Pager.page_size p)))
    /\ Pager._pages p' = Pager._pages p ++ [Pager.zero_page p]
    /\ Pager._length p' = Pager._length p
    /\ Pager._file p' = Pager._file p
    /\ snd (Pager.stats p') = snd (Pager.stats p)
    /\ fst (Pager.stats p') = (fst (Pager.stats p) + 1)%Z.
Proof.
  intros Hps. unfold Pager.allocate_page.
  destruct (Z.ltb_spec (Pager.page_size p) 0); [lia|].
  eexists. split.
  - f_equal. cbn [Pager._pages Pager.set_pages].
    rewrite length_app. simpl. lia.
  - unfold Pager.read_page, Pager.stats.
    cbn [Pager._pages Pager.set_pages Pager._length Pager._file
         Pager.page_size fst snd].
    rewrite py_index_nonneg by (rewrite length_app; simpl; lia).
    rewrite Nat2Z.id, nth_middle, length_app. simpl.
    repeat split; lia.
Qed.

(** X4. [write_blob] on a pager with a positive page size leaves
    [(len + size - 1) // size] pages, each of exactly the page size, and
    [stats] reports that number and the page size. *)
Theorem write_blob_page_count (p : Pager.t) (data : bytes) :
  (0 < Pager.page_size p)%Z ->
  let p' := state_of (Pager.write_blob data p) in
  let n := Z.of_nat (length data) in
  Pager.stats p' = ((n + Pager.page_size p - 1) / Pager.page_size p,
                    Pager.page_size p)%Z
  /\ Forall (fun page => Z.of_nat (length page) = Pager.page_size p)
            (Pager._pages p')
  /\ (n <= fst (Pager.stats p') * Pager.page_size p < n + Pager.page_size p)%Z.
Proof.
  intros Hps p' n.
  destruct (write_blob_state p data Hps) as (_ & S & P). fold p' in S, P.
  destruct (needed_bounds (Pager.page_size p) data Hps) as (N0 & N1 & N2).
  unfold needed in *. fold n in N0, N1, N2.
  assert (C : Z.of_nat (length (Pager._pages p'))
              = ((n + Pager.page_size p - 1) / Pager.page_size p)%Z
              /\ Forall (fun page => Z.of_nat (length page) = Pager.page_size p)
                        (Pager._pages p')).
  { rewrite P. destruct data as [|b d].
    - split; [|constructor]. unfold n. simpl.
      symmetry. apply Z.div_small. lia.
    - destruct (written_pages (Pager.page_size p) (b :: d) Hps) as [L F].
      split; [exact L|].
      revert F. apply Forall_impl. intros pg E. rewrite E. lia. }
  destruct C as [C F].
  unfold Pager.stats. rewrite S, C. cbn [fst].
  split; [reflexivity|]. split; [exact F | lia].
Qed.

(** X5. A new [Pager] over the file that [write_blob] left reads the
    payload back, whatever page size it is created with: after a payload
    that is not empty it is the very pager that wrote (page size, pages and
    length come from the file), and after an empty payload it has no
    pages. *)
Theorem reopened_pager_reads_blob
        (p p' : Pager.t) (data : bytes) (requested : Z) :
  (0 < Pager.page_size p)%Z ->
  Pager.write_blob data p = Ok tt p' ->
  exists q,
    Pager.init (Pager._file p') requested = Ok tt q
    /\ Pager.read_blob q = data
    /\ (data <> [] -> q = p').
Proof.
  intros Hps H.
  destruct data as [|b d].
  - unfold Pager.write_blob, Pager._flush in H.
    cbn [Pager._pages Pager.set_pages Pager.set_length Pager._file] in H.
    destruct (Pager._file p) as [f|] eqn:Ef; injection H as <-;
      unfold Pager.init, Pager._load;
      cbn [Pager._file Pager.set_file Pager.set_pages Pager.set_length];
      rewrite ?Ef; cbn [length Nat.ltb Nat.leb Pager.HEADER_SIZE orb];
      (eexists; split; [reflexivity|]; split; [reflexivity | congruence]).
  - exists p'. split.
    + apply (write_blob_file p p' (b :: d) requested Hps); [discriminate | exact H].
    + split; [|reflexivity].
      pose proof (write_then_read p (b :: d) Hps) as R. rewrite H in R. exact R.
Qed.

End PagerProperties.

(** ** The commit log *)

Section LogProperties.

Import LSMTreeStorage StorageFacts.

Lemma log_all (es : list entry) (seg : t) :
  for_each es log seg = Ok tt (seg ++ es).
Proof.
  revert seg. induction es as [|e es IH]; intros seg.
  - rewrite for_each_nil, app_nil_r. reflexivity.
  - rewrite for_each_cons. unfold log at 1, modify.
    rewrite IH, <- app_assoc. reflexivity.
Qed.

(** X6. Entries logged one after the other are pending in the order they
    were logged, behind the entries that were pending before; [pending]
    counts them, [snapshot] lists them, and [commit] returns them all and
    leaves nothing pending. *)
Theorem log_keeps_order (es : list entry) (seg : t) :
  let seg' := state_of (for_each es log seg) in
  returns (for_each es log seg) = true
  /\ snapshot seg' = snapshot seg ++ es
  /\ pending seg' = (pending seg + Z.of_nat (length es))%Z
  /\ commit seg' = Ok (seg ++ es) []
  /\ pending (state_of (commit seg')) = 0%Z.
Proof.
  intros seg'. unfold seg'. rewrite log_all. unfold snapshot, pending.
  cbn [state_of returns]. rewrite length_app.
  repeat split; lia.
Qed.

(** X7. [compact] keeps the last ten entries, in order, and all of them
    when there are at most ten; compacting again changes nothing. *)
Theorem compact_keeps_last_ten (seg : t) :
  let seg' := state_of (compact seg) in
  returns (compact seg) = true
  /\ (exists dropped, seg = dropped ++ seg'
                      /\ length dropped = length seg - 10)
  /\ length seg' = Nat.min (length seg) 10
  /\ (length seg <= 10 -> seg' = seg)
  /\ state_of (compact seg') = seg'.
Proof.
  intros seg'. unfold seg', compact, modify. cbn [state_of returns].
  split; [reflexivity|]. split.
  - exists (firstn (length seg - 10) seg). split.
    + symmetry. apply firstn_skipn.
    + rewrite length_firstn. lia.
  - split; [rewrite length_skipn; lia|]. split.
    + intros H. replace (length seg - 10) with 0 by lia. reflexivity.
    + rewrite length_skipn.
      replace (length seg - (length seg - 10) - 10) with 0 by lia.
      reflexivity.
Qed.

End LogProperties.

(** ** What each operation of the table manager does to the view *)

Module Effects.
Import BTreeStorage Spec IndexFacts StorageFacts Invariant RowStore
       Preservation Preservation2 Preservation3 QueryFacts ViewFacts
       LoadFacts ReloadFacts.

(** *** Dictionaries *)

Lemma sget_keys_some {V} (d : dict string V) (k : string) :
  In k (dict_keys d) -> exists v, dict_get String.eqb d k = Some v.
Proof.
  intros H. destruct (dict_get String.eqb d k) as [v|] eqn:E; [eauto|].
  exfalso. exact (proj1 (sget_none_notin _ d k) E H).
Qed.

Lemma map_dict_set {V W} (g : V -> W) (d : dict string V) (k : string) (v : V) :
  map (fun nm => (fst nm, g (snd nm))) (dict_set String.eqb d k v)
  = dict_set String.eqb (map (fun nm => (fst nm, g (snd nm))) d) k (g v).
Proof.
  induction d as [|[k0 v0] d IH]; simpl; [reflexivity|].
  destruct (String.eqb k0 k); simpl; [reflexivity|]. rewrite IH. reflexivity.
Qed.

Lemma map_dict_pop {V W} (g : V -> W) (d : dict string V) (k : string) :
  map (fun nm => (fst nm, g (snd nm))) (dict_pop String.eqb d k)
  = dict_pop String.eqb (map (fun nm => (fst nm, g (snd nm))) d) k.
Proof.
  induction d as [|[k0 v0] d IH]; simpl; [reflexivity|].
  destruct (String.eqb k0 k); simpl; [reflexivity|]. rewrite IH. reflexivity.
Qed.

Lemma update_get (r : row) (asg : dict string value) (k : string) :
  dict_get String.eqb (dict_update String.eqb r asg) k
  = match dict_get String.eqb (rev asg) k with
    | Some v => Some v
    | None => dict_get String.eqb r k
    end.
Proof.
  unfold dict_update. revert r.
  induction asg as [|[k0 v0] asg IH]; intros r; simpl; [reflexivity|].
  rewrite IH, sget_app, sget_set. simpl.
  destruct (dict_get String.eqb (rev asg) k); [reflexivity|].
  destruct (String.eqb k0 k); reflexivity.
Qed.

Lemma update_keys_present (asg : dict string value) :
  forall r : row,
    (forall k, In k (dict_keys asg) -> In k (dict_keys r)) ->
    dict_keys (dict_update String.eqb r asg) = dict_keys r.
Proof.
  unfold dict_update.
  induction asg as [|[k0 v0] asg IH]; intros r H; simpl; [reflexivity|].
  destruct (sget_keys_some r k0) as (v & G); [apply H; left; reflexivity|].
  rewrite IH.
  - apply (skeys_set_mem _ _ _ _ _ G).
  - intros k Hk. rewrite (skeys_set_mem _ _ _ _ _ G). apply H. right. exact Hk.
Qed.

Lemma update_nodup (asg : dict string value) :
  forall r : row,
    NoDup (dict_keys r) -> NoDup (dict_keys (dict_update String.eqb r asg)).
Proof.
  unfold dict_update.
  induction asg as [|[k0 v0] asg IH]; intros r H; simpl; [exact H|].
  apply IH, skeys_nodup_set, H.
Qed.

(** Assigning the same values again changes nothing. *)
Lemma update_twice (asg : dict string value) (r : row) :
  NoDup (dict_keys r) ->
  dict_update String.eqb (dict_update String.eqb r asg) asg
  = dict_update String.eqb r asg.
Proof.
  intros Hn. apply dict_eq_ext.
  - apply update_nodup, Hn.
  - apply update_keys_present. intros k Hk.
    apply (sget_some_in_keys _ _ k
             (match dict_get String.eqb (rev asg) k with
              | Some v => v
              | None => VNone
              end)).
    rewrite update_get.
    destruct (sget_keys_some (rev asg) k) as (v & G).
    { unfold dict_keys in *. rewrite map_rev. apply in_rev.
      rewrite rev_involutive. exact Hk. }
    rewrite G. reflexivity.
  - intros n. rewrite !update_get.
    destruct (dict_get String.eqb (rev asg) n); reflexivity.
Qed.

Lemma set_twice (r : row) (k : string) (v : value) :
  dict_set String.eqb (dict_set String.eqb r k v) k v = dict_set String.eqb r k v.
Proof. apply sset_same, sget_set_same. Qed.

(** *** Loops *)

(** A loop of [_rebuild_index] over columns that are indexed keeps the names
    of the indexes. *)
Lemma rebuild_loop_keys name cols s r s' tb :
  tget s name = Some tb ->
  (forall c, In c cols -> In c (dict_keys (indexes tb))) ->
  for_each cols (fun c => _rebuild_index name c) s = Ok r s' ->
  exists tb',
    updated s s' name tb' (store s)
    /\ _pager s' = _pager s
    /\ rows tb' = rows tb /\ columns tb' = columns tb
    /\ dict_keys (indexes tb') = dict_keys (indexes tb).
Proof.
  intros Ht Hc H.
  pose (I := fun (done : list string) (s2 : t) =>
    exists tb2,
      updated s s2 name tb2 (store s)
      /\ _pager s2 = _pager s
      /\ rows tb2 = rows tb /\ columns tb2 = columns tb
      /\ dict_keys (indexes tb2) = dict_keys (indexes tb)).
  change (I cols s').
  apply (for_each_invariant_pos cols I (fun c => _rebuild_index name c))
    with (s := s) (r := r); [| |exact H].
  - intros done c rest s2 r2 s3 El (tb2 & U & P & R & C & K) Hstep.
    destruct (rebuild_spec _ _ _ _ _ Hstep) as (tbx & idx & Hx & B & U' & P').
    rewrite (updated_get_same _ _ _ _ _ U) in Hx. injection Hx as <-.
    rewrite (upd_store _ _ _ _ _ U) in U'.
    eexists. split; [eapply updated_trans; eauto|].
    split; [congruence|]. simpl. split; [exact R|]. split; [exact C|].
    destruct (sget_keys_some (indexes tb2) c) as (v & G).
    { rewrite K. apply Hc. rewrite El. apply in_or_app. right. left. reflexivity. }
    rewrite (skeys_set_mem _ _ _ _ _ G). exact K.
  - exists tb. split; [apply updated_refl; exact Ht|]. auto.
Qed.

(** A loop of [update_row] with a change that need not be repeated: the
    rows visited are changed once, the others not at all. *)
Lemma update_loop_idem (f : row -> row) (addrs : list address) :
  forall s,
    Forall (fun a => a < length (store s)) addrs ->
    (forall a, In a addrs -> f (f (deref (store s) a)) = f (deref (store s) a)) ->
    exists s',
      for_each addrs (fun a => update_row a f) s = Ok tt s'
      /\ _tables s' = _tables s /\ _pager s' = _pager s
      /\ length (store s') = length (store s)
      /\ forall a, deref (store s') a
                   = if existsb (Nat.eqb a) addrs then f (deref (store s) a)
                     else deref (store s) a.
Proof.
  induction addrs as [|a addrs IH]; intros s Hb Hf.
  - exists s. rewrite for_each_nil. auto.
  - inversion Hb as [|? ? Ha Hrest]; subst.
    rewrite for_each_cons, update_row_spec.
    destruct (IH (set_store (store_set (store s) a f) s))
      as (s' & E & Ht & Hp & Hl & Hd).
    { simpl. rewrite store_set_length. exact Hrest. }
    { simpl. intros a' Ha'. destruct (Nat.eq_dec a' a) as [->|Hne].
      - rewrite store_set_same by exact Ha.
        rewrite (Hf a (or_introl eq_refl)). apply Hf. left. reflexivity.
      - rewrite store_set_other by exact Hne. apply Hf. right. exact Ha'. }
    exists s'. rewrite E. simpl in *. rewrite store_set_length in Hl.
    repeat split; auto.
    intros a'. rewrite Hd. cbn [existsb].
    destruct (Nat.eqb_spec a' a) as [->|Hne]; cbn [orb].
    + rewrite store_set_same by exact Ha.
      destruct (existsb (Nat.eqb a) addrs); [|reflexivity].
      apply Hf. left. reflexivity.
    + rewrite store_set_other by exact Hne. reflexivity.
Qed.

Lemma existsb_eqb_in (a : address) (l : list address) :
  existsb (Nat.eqb a) l = true <-> In a l.
Proof.
  rewrite existsb_exists. split.
  - intros (x & Hx & E). apply Nat.eqb_eq in E. subst. exact Hx.
  - intros H. exists a. split; [exact H | apply Nat.eqb_refl].
Qed.

(** *** The view after a step on one table *)

Lemma view_updated s s' name tb tb' st' :
  wf s -> tget s name = Some tb ->
  updated s s' name tb' st' ->
  (forall a, a < length (store s) -> ~ In a (rows tb) ->
             deref st' a = deref (store s) a) ->
  view s' = with_table s name (view_of st' tb').
Proof.
  intros W Ht U Hframe. unfold with_table.
  assert (Hin : dict_get String.eqb (view s) name = Some (view_of (store s) tb))
    by (rewrite view_get, Ht; reflexivity).
  apply dict_eq_ext.
  - apply skeys_nodup_set. rewrite view_keys. apply (wf_names s W).
  - rewrite (skeys_set_mem _ _ _ _ _ Hin), !view_keys.
    apply (upd_keys _ _ _ _ _ U).
  - intros n.
    rewrite view_get, (upd_get _ _ _ _ _ U), sget_set, (upd_store _ _ _ _ _ U).
    destruct (String.eqb_spec name n) as [<-|Hne]; [reflexivity|].
    rewrite view_get. destruct (tget s n) as [tb0|] eqn:Hn; [|reflexivity].
    f_equal. unfold view_of. f_equal. f_equal.
    apply map_ext_in. intros a Ha. apply Hframe.
    + eapply wf_bounds; eauto.
    + intros X.
      exact (wf_disjoint s W n name tb0 tb a (fun e => Hne (eq_sym e)) Hn Ht Ha X).
Qed.

Lemma updated_from_same s0 s s' name tb' st' :
  _tables s0 = _tables s ->
  updated s0 s' name tb' st' -> updated s s' name tb' st'.
Proof.
  intros E [A1 A2 A3]. constructor; unfold tget in *; rewrite <- ?E; auto.
Qed.

Lemma persist_ok_updated s s2 s3 name tb st u :
  updated s s2 name tb st -> _persist s2 = Ok u s3 -> updated s s3 name tb st.
Proof.
  intros U E. rewrite (persist_ok_state _ _ _ E). apply persist_updated, U.
Qed.

Lemma persist_ok_store s u s' : _persist s = Ok u s' -> store s' = store s.
Proof.
  intros E. rewrite (persist_ok_state _ _ _ E). apply persist_frame.
Qed.

(** *** The operations *)

Lemma create_table_view name cols s :
  view (state_of (create_table name cols s))
  = dict_set String.eqb (view s) name (cols, [], []).
Proof.
  unfold create_table. monad_unfold. unfold view.
  match goal with |- context [_persist ?q] =>
    destruct (persist_frame q) as [-> ->] end.
  simpl. apply (map_dict_set (view_of (store s))).
Qed.

Lemma drop_table_view name s :
  view (state_of (drop_table name s)) = dict_pop String.eqb (view s) name.
Proof.
  unfold drop_table. monad_unfold. unfold view.
  match goal with |- context [_persist ?q] =>
    destruct (persist_frame q) as [-> ->] end.
  simpl. apply (map_dict_pop (view_of (store s))).
Qed.

Lemma insert_row_view name values s a s' tb :
  wf s -> tget s name = Some tb ->
  insert_row name values s = Ok a s' ->
  let row := dict_of_items String.eqb (zip (columns tb) values) in
  a = length (store s)
  /\ store s' = store s ++ [row]
  /\ view s'
     = with_table s name (columns tb, rows_of s tb ++ [row], index_names tb).
Proof.
  intros W Ht. unfold insert_row. monad_unfold. rewrite table_at_spec, Ht.
  set (row := dict_of_items String.eqb (zip (columns tb) values)).
  set (a0 := length (store s)).
  set (s0 := set_store (store s ++ [row]) s).
  assert (Ht0 : tget s0 name = Some tb) by exact Ht.
  destruct (update_table_spec name (fun tb => set_rows (rows tb ++ [a0]) tb)
              s0 tb Ht0) as (s1 & E1 & U1 & _).
  rewrite E1.
  match goal with
  | |- match for_each ?l ?b s1 with _ => _ end = _ -> _ =>
      destruct (for_each l b s1) as [u s2|] eqn:E2; [|discriminate]
  end.
  destruct (_persist s2) as [u' s3|] eqn:E3; [|discriminate].
  intros H. injection H as <- <-.
  set (st' := store s ++ [row]) in *.
  pose (I := fun (done : list (string * index)) (s2 : t) =>
    exists tb2,
      updated s0 s2 name tb2 st'
      /\ rows tb2 = rows tb ++ [a0]
      /\ columns tb2 = columns tb
      /\ dict_keys (indexes tb2) = dict_keys (indexes tb)).
  assert (Hfinal : I ([] ++ indexes tb) s2).
  { eapply (for_each_invariant I); [| |exact E2].
    - clear E2 E3 s2 s3 u u'.
      intros done ci s2 r2 s3 (tb2 & U & R & C & K) Hstep.
      rewrite table_at_spec, (updated_get_same _ _ _ _ _ U) in Hstep.
      destruct (dict_get String.eqb (indexes tb2) (fst ci)) as [idx|] eqn:G.
      + destruct (index_add (store s2) (fst ci) idx a0) as [idx'|] eqn:A;
          [|discriminate].
        destruct (update_table_spec name
                    (fun tb0 => set_indexes
                                  (dict_set String.eqb (indexes tb0) (fst ci) idx') tb0)
                    s2 tb2 (updated_get_same _ _ _ _ _ U)) as (sx & Ex & Ux & _).
        rewrite Ex in Hstep. injection Hstep as _ <-.
        rewrite (upd_store _ _ _ _ _ U) in Ux.
        eexists. split; [eapply updated_trans; eauto|].
        simpl. split; [exact R|]. split; [exact C|].
        rewrite (skeys_set_mem _ _ _ _ _ G). exact K.
      + injection Hstep as _ <-. exists tb2. auto.
    - exists (set_rows (rows tb ++ [a0]) tb). split; [exact U1|]. auto. }
  destruct Hfinal as (tb2 & U & R & C & K).
  assert (U3 : updated s s3 name tb2 st').
  { apply (updated_from_same s0); [reflexivity|].
    eapply persist_ok_updated; eauto. }
  split; [reflexivity|].
  split; [exact (upd_store _ _ _ _ _ U3)|].
  rewrite (view_updated s s3 name tb tb2 st' W Ht U3).
  - unfold view_of, rows_of, index_names. rewrite C, R, K, map_app.
    f_equal. f_equal. f_equal. f_equal.
    + apply map_ext_in. intros x Hx. apply deref_app_old.
      eapply wf_bounds; eauto.
    + simpl. f_equal. unfold deref, st', a0. apply nth_middle.
  - intros x Hx _. apply deref_app_old, Hx.
Qed.

Lemma delete_rows_view name where_ s n s' tb :
  wf s -> tget s name = Some tb ->
  delete_rows name where_ s = Ok n s' ->
  let kept := filter (fun r => negb (hit where_ r)) (rows_of s tb) in
  store s' = store s
  /\ view s' = with_table s name (columns tb, kept, index_names tb)
  /\ n = (Z.of_nat (length (rows_of s tb)) - Z.of_nat (length kept))%Z.
Proof.
  intros W Ht. unfold delete_rows. monad_unfold. rewrite table_at_spec, Ht.
  set (kept_addrs := match where_ with
                     | Some w => filter _ (rows tb)
                     | None => []
                     end).
  set (kept := filter (fun r => negb (hit where_ r)) (rows_of s tb)).
  assert (Hkept : map (deref (store s)) kept_addrs = kept).
  { unfold kept, kept_addrs, rows_of, hit. destruct where_ as [w|].
    - rewrite filter_map_comm. reflexivity.
    - symmetry. apply filter_none. reflexivity. }
  destruct (update_table_spec name (set_rows kept_addrs) s tb Ht)
    as (s1 & E1 & U1 & _).
  rewrite E1.
  destruct (for_each (dict_keys (indexes tb)) (fun c => _rebuild_index name c) s1)
    as [u s2|] eqn:E2; [|discriminate].
  pose proof (updated_get_same _ _ _ _ _ U1) as Ht1.
  destruct (rebuild_loop_keys name _ s1 u s2 _ Ht1 (fun c Hc => Hc) E2)
    as (tb' & U2 & _ & R2 & C2 & K2).
  simpl in R2, C2, K2.
  rewrite (upd_store _ _ _ _ _ U1) in U2.
  pose proof (updated_trans _ _ _ _ _ _ _ _ U1 U2) as U.
  assert (G : forall s3, updated s s3 name tb' (store s) ->
                store s3 = store s
                /\ view s3 = with_table s name (columns tb, kept, index_names tb)).
  { intros s3 U3. split; [exact (upd_store _ _ _ _ _ U3)|].
    rewrite (view_updated s s3 name tb tb' (store s) W Ht U3 (fun _ _ _ => eq_refl)).
    unfold view_of, index_names. rewrite C2, R2, K2, Hkept. reflexivity. }
  assert (N : (Z.of_nat (length (rows tb)) - Z.of_nat (length kept_addrs))%Z
              = (Z.of_nat (length (rows_of s tb)) - Z.of_nat (length kept))%Z).
  { rewrite <- Hkept. unfold rows_of. rewrite !length_map. reflexivity. }
  destruct (_ =? 0)%Z.
  - intros H. injection H as <- <-.
    destruct (G s2 U) as [G1 G2]. auto.
  - destruct (_persist s2) as [u' s3|] eqn:E3; [|discriminate].
    intros H. injection H as <- <-.
    destruct (G s3 (persist_ok_updated _ _ _ _ _ _ _ U E3)) as [G1 G2]. auto.
Qed.

Lemma rows_for_hits s name tb where_ addrs s1 :
  wf s -> tget s name = Some tb ->
  _rows_for name where_ s = Ok addrs s1 ->
  s1 = s
  /\ addrs = filter (fun a => hit where_ (deref (store s) a)) (rows tb).
Proof.
  intros W Ht E. split; [exact (rows_for_frame _ _ _ _ _ E)|].
  rewrite (rows_for_spec s name tb where_ W Ht) in E.
  destruct where_ as [w|].
  - destruct (_ && _); [discriminate|]. injection E as <-. reflexivity.
  - injection E as <-. simpl. symmetry.
    clear. induction (rows tb) as [|a l IH]; simpl; [reflexivity|].
    rewrite IH. reflexivity.
Qed.

Lemma update_rows_view name asg where_ s n s' tb :
  wf s -> rows_are_dicts s -> tget s name = Some tb ->
  update_rows name asg where_ s = Ok n s' ->
  view s'
  = with_table s name
      (columns tb,
       map (fun r => if hit where_ r then dict_update String.eqb r asg else r)
           (rows_of s tb),
       index_names tb)
  /\ n = Z.of_nat (length (filter (hit where_) (rows_of s tb))).
Proof.
  intros W D Ht. unfold update_rows. monad_unfold.
  destruct (_rows_for name where_ s) as [addrs s0|] eqn:E0; [|discriminate].
  destruct (rows_for_hits s name tb where_ addrs s0 W Ht E0) as [-> Haddrs].
  assert (Hin : forall a, In a addrs -> In a (rows tb)).
  { intros a. rewrite Haddrs, filter_In. tauto. }
  destruct (update_loop_idem (fun r => dict_update String.eqb r asg) addrs s)
    as (s1 & E1 & T1 & _ & L1 & D1).
  { apply Forall_forall. intros a Ha. eapply wf_bounds; eauto. }
  { intros a Ha. apply update_twice.
    unfold deref. destruct (Nat.lt_ge_cases a (length (store s))) as [Hl|Hl].
    - apply (proj1 (Forall_forall _ _) D). apply nth_In, Hl.
    - rewrite nth_overflow by exact Hl. constructor. }
  rewrite E1. rewrite table_at_spec, (tget_same_tables _ _ _ T1), Ht.
  destruct (for_each _ (fun c => _rebuild_index name c) s1)
    as [u s2|] eqn:E2; [|discriminate].
  assert (Ht1 : tget s1 name = Some tb)
    by (rewrite (tget_same_tables _ _ _ T1); exact Ht).
  destruct (rebuild_loop_keys name _ s1 u s2 _ Ht1
              (fun c Hc => proj1 (proj1 (filter_In _ _ _) Hc)) E2)
    as (tb' & U2 & _ & R2 & C2 & K2).
  assert (U : updated s s2 name tb' (store s1))
    by (apply (updated_from_same s1); [exact T1 | exact U2]).
  assert (G : forall s3, updated s s3 name tb' (store s1) ->
                view s3
                = with_table s name
                    (columns tb,
                     map (fun r => if hit where_ r
                                   then dict_update String.eqb r asg else r)
                         (rows_of s tb),
                     index_names tb)).
  { intros s3 U3.
    rewrite (view_updated s s3 name tb tb' (store s1) W Ht U3).
    - unfold view_of, index_names, rows_of. rewrite C2, R2, K2, map_map.
      f_equal. f_equal. f_equal.
      apply map_ext_in. intros a Ha. rewrite D1.
      destruct (hit where_ (deref (store s) a)) eqn:Hh.
      + replace (existsb (Nat.eqb a) addrs) with true; [reflexivity|].
        symmetry. apply existsb_eqb_in. rewrite Haddrs, filter_In. auto.
      + replace (existsb (Nat.eqb a) addrs) with false; [reflexivity|].
        symmetry. apply not_true_is_false. rewrite existsb_eqb_in.
        rewrite Haddrs, filter_In. intros [_ X]. congruence.
    - intros a _ Hni. rewrite D1.
      replace (existsb (Nat.eqb a) addrs) with false; [reflexivity|].
      symmetry. apply not_true_is_false. rewrite existsb_eqb_in.
      intros X. apply Hni, Hin, X. }
  assert (N : Z.of_nat (length addrs)
              = Z.of_nat (length (filter (hit where_) (rows_of s tb)))).
  { unfold rows_of. rewrite filter_map_comm, length_map, Haddrs. reflexivity. }
  destruct addrs as [|a0 addrs].
  - intros H. injection H as <- <-. split; [apply G, U | exact N].
  - destruct (_persist s2) as [u' s3|] eqn:E3; [|discriminate].
    intros H. injection H as <- <-.
    split; [apply G; eapply persist_ok_updated; eauto | exact N].
Qed.

Lemma add_column_view name column s s' tb :
  wf s -> tget s name = Some tb -> str_in column (columns tb) = false ->
  add_column name column s = Ok tt s' ->
  view s'
  = with_table s name
      (columns tb ++ [column],
       map (fun r => dict_set String.eqb r column VNone) (rows_of s tb),
       index_names tb).
Proof.
  intros W Ht Hc. unfold add_column. monad_unfold.
  rewrite table_at_spec, Ht, Hc.
  destruct (update_table_spec name
              (fun tb => set_columns (columns tb ++ [column]) tb) s tb Ht)
    as (s1 & E1 & U1 & _).
  rewrite E1.
  destruct (update_loop_idem (fun r => dict_set String.eqb r column VNone)
              (rows tb) s1) as (s2 & E2 & T2 & _ & L2 & D2).
  { rewrite (upd_store _ _ _ _ _ U1). apply Forall_forall.
    intros a Ha. eapply wf_bounds; eauto. }
  { intros a _. apply set_twice. }
  rewrite E2.
  destruct (for_each (dict_keys (indexes tb)) (fun col => _rebuild_index name col) s2)
    as [u s3|] eqn:E3; [|discriminate].
  destruct (_persist s3) as [u' s4|] eqn:E4; [|discriminate].
  intros H. injection H as _ <-.
  pose proof (updated_get_same _ _ _ _ _ U1) as Ht1.
  assert (Ht2 : tget s2 name = Some (set_columns (columns tb ++ [column]) tb)).
  { rewrite (tget_same_tables _ _ _ T2). exact Ht1. }
  destruct (rebuild_loop_keys name _ s2 u s3 _ Ht2 (fun c Hc => Hc) E3)
    as (tb' & U3 & _ & R3 & C3 & K3).
  simpl in R3, C3, K3.
  rewrite (upd_store _ _ _ _ _ U1) in D2.
  assert (U : updated s s4 name tb' (store s2)).
  { eapply persist_ok_updated; [|exact E4].
    eapply updated_chain; eauto. }
  rewrite (view_updated s s4 name tb tb' (store s2) W Ht U).
  - unfold view_of, index_names, rows_of. rewrite C3, R3, K3, map_map.
    f_equal. f_equal. f_equal.
    apply map_ext_in. intros a Ha. rewrite D2.
    replace (existsb (Nat.eqb a) (rows tb)) with true; [reflexivity|].
    symmetry. apply existsb_eqb_in, Ha.
  - intros a _ Hni. rewrite D2.
    replace (existsb (Nat.eqb a) (rows tb)) with false; [reflexivity|].
    symmetry. apply not_true_is_false. rewrite existsb_eqb_in. exact Hni.
Qed.

Lemma create_index_view name column s s' tb :
  wf s -> tget s name = Some tb ->
  dict_mem String.eqb (indexes tb) column = false ->
  create_index name column s = Ok tt s' ->
  view s'
  = with_table s name
      (columns tb, rows_of s tb, sorted (dict_keys (indexes tb) ++ [column])).
Proof.
  intros W Ht Hm. unfold create_index. monad_unfold.
  rewrite table_at_spec, Ht, Hm.
  destruct (_rebuild_index name column s) as [u s1|] eqn:E; [|discriminate].
  destruct (_persist s1) as [u' s2|] eqn:E2; [|discriminate].
  intros H. injection H as _ <-.
  destruct (rebuild_spec _ _ _ _ _ E) as (tbx & idx & Hx & B & U & _).
  rewrite Ht in Hx. injection Hx as <-.
  rewrite (view_updated s s2 name tb _ (store s) W Ht
             (persist_ok_updated _ _ _ _ _ _ _ U E2) (fun _ _ _ => eq_refl)).
  unfold view_of, rows_of. simpl.
  rewrite skeys_set_new; [reflexivity|].
  unfold dict_mem in Hm. destruct (dict_get String.eqb (indexes tb) column);
    [discriminate | reflexivity].
Qed.

Lemma drop_index_view name column s s' tb :
  wf s -> tget s name = Some tb ->
  drop_index name column s = Ok tt s' ->
  view s'
  = with_table s name
      (columns tb, rows_of s tb,
       sorted (dict_keys (dict_pop String.eqb (indexes tb) column))).
Proof.
  intros W Ht. unfold drop_index. fold (tget s name). rewrite Ht. monad_unfold.
  destruct (update_table_spec name
              (fun tb => set_indexes (dict_pop String.eqb (indexes tb) column) tb)
              s tb Ht) as (s1 & E1 & U1 & _).
  rewrite E1.
  destruct (_persist s1) as [u' s2|] eqn:E2; [|discriminate].
  intros H. injection H as _ <-.
  rewrite (view_updated s s2 name tb _ (store s) W Ht
             (persist_ok_updated _ _ _ _ _ _ _ U1 E2) (fun _ _ _ => eq_refl)).
  reflexivity.
Qed.

End Effects.

(** ** The table manager: what each operation answers and changes *)

Module TableFacts.
Import BTreeStorage Spec IndexFacts StorageFacts Invariant RowStore
       Preservation Preservation2 Preservation3 Preservation4 QueryFacts
       ViewFacts LoadFacts ReloadFacts Effects.

Lemma spop_absent {V} (d : dict string V) (k : string) :
  dict_get String.eqb d k = None -> dict_pop String.eqb d k = d.
Proof.
  induction d as [|[k0 v0] d IH]; simpl; [reflexivity|].
  destruct (String.eqb k0 k); [discriminate|].
  intros H. rewrite (IH H). reflexivity.
Qed.

Lemma spop_set_new {V} (d : dict string V) (k : string) (v : V) :
  dict_get String.eqb d k = None ->
  dict_pop String.eqb (dict_set String.eqb d k v) k = d.
Proof.
  induction d as [|[k0 v0] d IH]; simpl.
  - rewrite String.eqb_refl. reflexivity.
  - destruct (String.eqb k0 k) eqn:E; [discriminate|].
    intros H. simpl. rewrite E, (IH H). reflexivity.
Qed.

Lemma rows_for_raise name where_ s e s1 :
  _rows_for name where_ s = Raise e s1 -> s1 = s.
Proof.
  unfold _rows_for. monad_unfold. rewrite table_at_spec.
  destruct (tget s name) as [tb|]; [|congruence].
  destruct where_ as [w|]; [|discriminate].
  destruct (dict_get String.eqb (indexes tb) (cond_column w)).
  - destruct (hashable (cond_value w)); [discriminate | congruence].
  - discriminate.
Qed.

Lemma rows_for_state name where_ s : state_of (_rows_for name where_ s) = s.
Proof.
  destruct (_rows_for name where_ s) as [a s1|e s1] eqn:E; simpl.
  - exact (rows_for_frame _ _ _ _ _ E).
  - exact (rows_for_raise _ _ _ _ _ E).
Qed.

Lemma rebuild_raise name column s e s1 :
  _rebuild_index name column s = Raise e s1 -> s1 = s.
Proof.
  unfold _rebuild_index. monad_unfold. rewrite table_at_spec.
  destruct (tget s name) as [tb|]; [|congruence].
  destruct (build_index (store s) column (rows tb) []); [|congruence].
  unfold update_table, modify. discriminate.
Qed.

Lemma build_index_raises st column rs :
  forall idx0 e, build_index st column rs idx0 = Exn e -> e = TypeError.
Proof.
  induction rs as [|a rs IH]; simpl; intros idx0 e H; [discriminate|].
  unfold index_add in H.
  destruct (hashable (row_get (deref st a) column)); simpl in H.
  - eapply IH. exact H.
  - congruence.
Qed.

Lemma new_row_keys (cols : list string) (values : list value) :
  length (dict_keys (dict_of_items String.eqb (zip cols values)))
  <= Nat.min (length cols) (length values).
Proof.
  unfold dict_of_items, dict_update.
  assert (G : forall (items : list (string * value)) (r : row),
             length (dict_keys (fold_left
                                  (fun acc kv => dict_set String.eqb acc (fst kv) (snd kv))
                                  items r))
             <= length (dict_keys r) + length items).
  { induction items as [|[k v] items IH]; intros r; simpl; [lia|].
    specialize (IH (dict_set String.eqb r k v)).
    assert (length (dict_keys (dict_set String.eqb r k v))
            <= S (length (dict_keys r))).
    { destruct (dict_get String.eqb r k) eqn:E.
      - rewrite (skeys_set_mem _ _ _ _ _ E). lia.
      - rewrite (skeys_set_new _ _ _ _ E), length_app. simpl. lia. }
    lia. }
  specialize (G (zip cols values) []). simpl in G.
  assert (Z : forall (l : list string) (m : list value),
             length (zip l m) = Nat.min (length l) (length m)).
  { induction l as [|x l IH]; intros [|y m]; simpl; auto. }
  rewrite Z in G. exact G.
Qed.

Lemma query_all (v : dict string table_view) name cols rws idx :
  dict_get String.eqb v name = Some (cols, rws, idx) ->
  query v name ["*"%string] None None = Val rws.
Proof. intros H. unfold query. rewrite H. reflexivity. Qed.

Lemma with_table_get s name tv :
  dict_get String.eqb (with_table s name tv) name = Some tv.
Proof. apply sget_set_same. Qed.

Lemma select_all_of_view s name cols rws idx :
  wf s -> view s = with_table s name (cols, rws, idx) ->
  answer (select_rows name ["*"%string] None None s) = Val rws.
Proof.
  intros W V. rewrite (select_by_view s name _ None None W).
  apply (query_all _ _ cols rws idx).
  rewrite V. apply sget_set_same.
Qed.

End TableFacts.

Section TableProperties.

Import BTreeStorage Spec IndexFacts StorageFacts Invariant RowStore
       Preservation Preservation2 Preservation3 Preservation4 QueryFacts
       ViewFacts LoadFacts ReloadFacts Effects TableFacts.

(** X8. On a table that does not exist, [add_column], [create_index],
    [insert_row], [update_rows], [delete_rows] and [select_rows] raise
    KeyError with the table's name and leave the state as it was;
    [drop_index] returns and changes nothing, and [drop_table] leaves every
    table as it was. *)
Theorem missing_table_raises (s : t) (name : string) :
  tget s name = None ->
  (forall column, add_column name column s = Raise (KeyError name) s)
  /\ (forall column, create_index name column s = Raise (KeyError name) s)
  /\ (forall values, insert_row name values s = Raise (KeyError name) s)
  /\ (forall asg where_, update_rows name asg where_ s = Raise (KeyError name) s)
  /\ (forall where_, delete_rows name where_ s = Raise (KeyError name) s)
  /\ (forall cols where_ join,
        select_rows name cols where_ join s = Raise (KeyError name) s)
  /\ (forall column, drop_index name column s = Ok tt s)
  /\ view (state_of (drop_table name s)) = view s.
Proof.
  intros H.
  assert (R : forall where_, _rows_for name where_ s = Raise (KeyError name) s).
  { intros w. unfold _rows_for. monad_unfold. rewrite table_at_spec, H.
    reflexivity. }
  repeat split.
  - intros column. unfold add_column. monad_unfold.
    rewrite table_at_spec, H. reflexivity.
  - intros column. unfold create_index. monad_unfold.
    rewrite table_at_spec, H. reflexivity.
  - intros values. unfold insert_row. monad_unfold.
    rewrite table_at_spec, H. reflexivity.
  - intros asg w. unfold update_rows. monad_unfold. rewrite R. reflexivity.
  - intros w. unfold delete_rows. monad_unfold.
    rewrite table_at_spec, H. reflexivity.
  - intros cols w [j|]; unfold select_rows, _join_rows; monad_unfold;
      rewrite R; reflexivity.
  - intros column. unfold drop_index. fold (tget s name). rewrite H. reflexivity.
  - rewrite drop_table_view. apply spop_absent. rewrite view_get, H. reflexivity.
Qed.

(** X9. After [create_table] the table exists, with the given columns, no
    rows and no index, and the other tables are as they were (a table of the
    same name is replaced); after [drop_table] it does not exist; creating a
    new table and dropping it again leaves the view as it was. *)
Theorem create_then_drop (s : t) (name : string) (cols : list string) :
  wf s ->
  let s1 := state_of (create_table name cols s) in
  let s2 := state_of (drop_table name s1) in
  table_exists s1 name = true
  /\ view s1 = dict_set String.eqb (view s) name (cols, [], [])
  /\ describe s1
     = dict_set String.eqb (describe s) name (cols, 0%Z, [])
  /\ table_exists s2 name = false
  /\ (forall other, other <> name -> table_exists s2 other = table_exists s other)
  /\ (table_exists s name = false -> view s2 = view s).
Proof.
  intros W s1 s2.
  assert (T1 : _tables s1
               = dict_set String.eqb (_tables s) name (mk_table cols [] [])).
  { unfold s1, create_table. monad_unfold.
    match goal with |- context [_persist ?q] =>
      destruct (persist_frame q) as [-> _] end.
    reflexivity. }
  assert (T2 : _tables s2 = dict_pop String.eqb (_tables s1) name).
  { unfold s2, drop_table. monad_unfold.
    match goal with |- context [_persist ?q] =>
      destruct (persist_frame q) as [-> _] end.
    reflexivity. }
  assert (V1 : view s1 = dict_set String.eqb (view s) name (cols, [], []))
    by apply create_table_view.
  assert (N1 : NoDup (dict_keys (_tables s1))).
  { rewrite T1. apply skeys_nodup_set, (wf_names s W). }
  split; [|split; [exact V1|split; [|split; [|split]]]].
  - unfold table_exists, dict_mem. rewrite T1, sget_set_same. reflexivity.
  - unfold describe. rewrite T1.
    apply (map_dict_set
             (fun tb : table =>
                (columns tb, Z.of_nat (length (rows tb)),
                 sorted (dict_keys (indexes tb))))).
  - unfold table_exists, dict_mem.
    rewrite T2, (sget_pop _ _ _ _ N1), String.eqb_refl. reflexivity.
  - intros other Hne. unfold table_exists, dict_mem.
    rewrite T2, (sget_pop _ _ _ _ N1), T1, sget_set.
    destruct (String.eqb_spec name other); [congruence | reflexivity].
  - intros Hnew. unfold s2. rewrite drop_table_view, V1.
    apply spop_set_new. rewrite view_get.
    unfold table_exists, dict_mem in Hnew. unfold tget.
    destruct (dict_get String.eqb (_tables s) name); [discriminate | reflexivity].
Qed.

(** X10. [insert_row] that returns appends one row to the table: the
    dictionary pairing the table's columns with the values, position by
    position (values beyond the columns are dropped, columns beyond the
    values are absent from the row).  [SELECT *] then answers the rows that
    were there followed by the new row, the object returned is that row,
    and every other table is as it was. *)
Theorem insert_then_select
        (s : t) (name : string) (values : list value) (a : address) (s' : t)
        (tb : table) :
  wf s -> tget s name = Some tb ->
  insert_row name values s = Ok a s' ->
  let row := dict_of_items String.eqb (zip (columns tb) values) in
  view s' = with_table s name (columns tb, rows_of s tb ++ [row], index_names tb)
  /\ answer (select_rows name ["*"%string] None None s')
     = Val (rows_of s tb ++ [row])
  /\ deref (store s') a = row
  /\ length (dict_keys row) <= Nat.min (length (columns tb)) (length values).
Proof.
  intros W Ht H row.
  destruct (insert_row_view name values s a s' tb W Ht H) as (Ea & Es & V).
  fold row in Es, V.
  pose proof (insert_row_wf name values s a s' W H) as W'.
  split; [exact V|]. split; [|split].
  - rewrite (select_by_view s' name _ None None W'), V.
    apply (query_all _ _ (columns tb) _ (index_names tb)), with_table_get.
  - rewrite Es, Ea. unfold deref. apply nth_middle.
  - apply new_row_keys.
Qed.

(** X11. [delete_rows] that returns keeps, in order, exactly the rows that
    do not satisfy the WHERE clause (none without a clause) and answers the
    number of rows it removed; a SELECT with the same clause then finds
    nothing, and the columns, the index names and the other tables are as
    they were. *)
Theorem delete_then_select
        (s : t) (name : string) (where_ : option condition) (n : Z) (s' : t)
        (tb : table) :
  wf s -> tget s name = Some tb ->
  delete_rows name where_ s = Ok n s' ->
  let kept := filter (fun r => negb (hit where_ r)) (rows_of s tb) in
  view s' = with_table s name (columns tb, kept, index_names tb)
  /\ n = Z.of_nat (length (filter (hit where_) (rows_of s tb)))
  /\ answer (select_rows name ["*"%string] None None s') = Val kept
  /\ (forall w, where_ = Some w -> hashable (cond_value w) = true ->
        answer (select_rows name ["*"%string] where_ None s') = Val []).
Proof.
  intros W Ht H kept.
  destruct (delete_rows_view name where_ s n s' tb W Ht H) as (Es & V & N).
  fold kept in V, N.
  pose proof (delete_rows_wf name where_ s n s' W H) as W'.
  split; [exact V|]. split; [|split].
  - rewrite N. unfold kept.
    pose proof (filter_length (hit where_) (rows_of s tb)). lia.
  - rewrite (select_by_view s' name _ None None W'), V.
    apply (query_all _ _ (columns tb) _ (index_names tb)), with_table_get.
  - intros w -> Hh.
    rewrite (select_by_view s' name _ (Some w) None W'), V.
    unfold query. rewrite with_table_get. unfold rows_where.
    rewrite Hh, andb_false_r. cbn [rbind project is_wildcard String.eqb Ascii.eqb Bool.eqb].
    f_equal. apply filter_none. intros r Hr.
    unfold kept in Hr. apply filter_In in Hr. destruct Hr as [_ Hr].
    simpl in Hr. apply negb_true_iff in Hr. exact Hr.
Qed.

(** X12. [update_rows] that returns applies the assignments to exactly the
    rows that satisfy the WHERE clause (all rows without a clause), leaves
    the other rows, the order, the columns, the index names and the other
    tables as they were, and answers the number of rows that satisfied the
    clause. *)
Theorem update_then_select
        (s : t) (name : string) (asg : dict string value)
        (where_ : option condition) (n : Z) (s' : t) (tb : table) :
  wf s -> rows_are_dicts s -> tget s name = Some tb ->
  update_rows name asg where_ s = Ok n s' ->
  let updated_rows :=
    map (fun r => if hit where_ r then dict_update String.eqb r asg else r)
        (rows_of s tb) in
  view s' = with_table s name (columns tb, updated_rows, index_names tb)
  /\ n = Z.of_nat (length (filter (hit where_) (rows_of s tb)))
  /\ answer (select_rows name ["*"%string] None None s') = Val updated_rows
  /\ (forall r column v,
        dict_get String.eqb (rev asg) column = Some v ->
        row_get (dict_update String.eqb r asg) column = v).
Proof.
  intros W D Ht H updated_rows.
  destruct (update_rows_view name asg where_ s n s' tb W D Ht H) as (V & N).
  fold updated_rows in V.
  pose proof (update_rows_wf name asg where_ s n s' W H) as W'.
  split; [exact V|]. split; [exact N|]. split.
  - rewrite (select_by_view s' name _ None None W'), V.
    apply (query_all _ _ (columns tb) _ (index_names tb)), with_table_get.
  - intros r column v G. unfold row_get. rewrite update_get, G. reflexivity.
Qed.

(** X13. [add_column] with a column the table already has returns without
    changing anything; with a new column it appends the column to the
    table's columns and sets it to [None] in every row of the table, and
    leaves the order of the rows, the index names and the other tables as
    they were. *)
Theorem add_column_effect
        (s : t) (name column : string) (s' : t) (tb : table) :
  wf s -> tget s name = Some tb ->
  add_column name column s = Ok tt s' ->
  (str_in column (columns tb) = true -> s' = s)
  /\ (str_in column (columns tb) = false ->
      let new_rows :=
        map (fun r => dict_set String.eqb r column VNone) (rows_of s tb) in
      view s' = with_table s name (columns tb ++ [column], new_rows, index_names tb)
      /\ answer (select_rows name ["*"%string] None None s') = Val new_rows
      /\ Forall (fun r => dict_get String.eqb r column = Some VNone) new_rows).
Proof.
  intros W Ht H. split.
  - intros Hc. unfold add_column in H. monad_unfold.
    rewrite table_at_spec, Ht, Hc in H. congruence.
  - intros Hc new_rows.
    pose proof (add_column_view name column s s' tb W Ht Hc H) as V.
    fold new_rows in V.
    pose proof (add_column_wf name column s tt s' W H) as W'.
    split; [exact V|]. split.
    + rewrite (select_by_view s' name _ None None W'), V.
      apply (query_all _ _ (columns tb ++ [column]) _ (index_names tb)),
        with_table_get.
    + unfold new_rows. apply Forall_map, Forall_forall. intros r _.
      apply sget_set_same.
Qed.

(** X14. [create_index] that returns on a column without an index adds
    that column to the table's index names and changes no column and no row;
    on an indexed column it changes nothing.  [drop_index] removes the
    column from the index names and changes no column and no row. *)
Theorem index_ddl_effect (s : t) (name column : string) (tb : table) :
  wf s -> tget s name = Some tb ->
  (forall s',
      create_index name column s = Ok tt s' ->
      (dict_mem String.eqb (indexes tb) column = true -> s' = s)
      /\ (dict_mem String.eqb (indexes tb) column = false ->
          view s' = with_table s name
                      (columns tb, rows_of s tb,
                       sorted (dict_keys (indexes tb) ++ [column]))))
  /\ (forall s',
        drop_index name column s = Ok tt s' ->
        view s' = with_table s name
                    (columns tb, rows_of s tb,
                     sorted (dict_keys (dict_pop String.eqb (indexes tb) column)))
        /\ ~ In column (sorted (dict_keys (dict_pop String.eqb (indexes tb) column)))).
Proof.
  intros W Ht. split.
  - intros s' H. split.
    + intros Hm. unfold create_index in H. monad_unfold.
      rewrite table_at_spec, Ht, Hm in H. congruence.
    + intros Hm. exact (create_index_view name column s s' tb W Ht Hm H).
  - intros s' H. split.
    + exact (drop_index_view name column s s' tb W Ht H).
    + intros X. apply (proj1 (sorted_in _ _)) in X.
      apply (proj1 (sget_none_notin _ _ column)) in X; [exact X|].
      rewrite (sget_pop _ _ _ _ (wf_index_names s W name tb Ht)).
      rewrite String.eqb_refl. reflexivity.
Qed.


(** X16. [select_rows] without a join never changes the table manager,
    whether it returns rows or raises. *)
Theorem select_without_join_is_pure
        (s : t) (name : string) (cols : list string)
        (where_ : option condition) :
  state_of (select_rows name cols where_ None s) = s.
Proof.
  rewrite select_plain_spec.
  pose proof (rows_for_state name where_ s) as R.
  destruct (_rows_for name where_ s); exact R.
Qed.

(** X17. [select_rows] with a join leaves the rows, the columns and the
    pager as they were.  The one thing it may change: when the joined table
    has no index on the join column it builds one and keeps it, without
    writing it to the pager, so that [describe] lists the column as indexed
    afterwards. *)
Theorem join_may_add_index
        (s : t) (name : string) (cols : list string)
        (where_ : option condition) (j : join_spec) :
  wf s ->
  let s' := state_of (select_rows name cols where_ (Some j) s) in
  store s' = store s
  /\ _pager s' = _pager s
  /\ (s' = s
      \/ exists rtb,
           tget s (join_table j) = Some rtb
           /\ dict_mem String.eqb (indexes rtb) (right_column j) = false
           /\ view s' = with_table s (join_table j)
                          (columns rtb, rows_of s rtb,
                           sorted (dict_keys (indexes rtb) ++ [right_column j]))).
Proof.
  intros W s'. unfold s', select_rows, _join_rows. monad_unfold.
  destruct (_rows_for name where_ s) as [lefts s0|e s0] eqn:E0.
  2:{ rewrite (rows_for_raise _ _ _ _ _ E0). simpl. auto. }
  rewrite (rows_for_frame _ _ _ _ _ E0). rewrite table_at_spec.
  destruct (tget s (join_table j)) as [rtb|] eqn:Hr; [|simpl; auto].
  destruct (dict_get String.eqb (indexes rtb) (right_column j)) as [idx|] eqn:G.
  - rewrite table_at_spec. destruct (tget s name); [|simpl; auto].
    destruct (join_loop _ _ _ _ _ _ _); simpl; auto.
  - destruct (_rebuild_index (join_table j) (right_column j) s)
      as [u s1|e s1] eqn:E1.
    2:{ rewrite (rebuild_raise _ _ _ _ _ E1). simpl. auto. }
    destruct (rebuild_spec _ _ _ _ _ E1) as (tbx & idx & Hx & B & U & P).
    rewrite Hr in Hx. injection Hx as <-.
    assert (S1 : store s1 = store s /\ _pager s1 = _pager s
                 /\ view s1 = with_table s (join_table j)
                                (columns rtb, rows_of s rtb,
                                 sorted (dict_keys (indexes rtb) ++ [right_column j]))).
    { split; [exact (upd_store _ _ _ _ _ U)|]. split; [exact P|].
      rewrite (view_updated s s1 (join_table j) rtb _ (store s) W Hr U
                 (fun _ _ _ => eq_refl)).
      unfold view_of, rows_of. simpl. rewrite (skeys_set_new _ _ _ _ G).
      reflexivity. }
    assert (R : forall (r : Res t (list row)), state_of r = s1 ->
                  store (state_of r) = store s /\ _pager (state_of r) = _pager s
                  /\ (state_of r = s
                      \/ exists rtb0,
                           Some rtb = Some rtb0
                           /\ dict_mem String.eqb (indexes rtb0) (right_column j) = false
                           /\ view (state_of r)
                              = with_table s (join_table j)
                                  (columns rtb0, rows_of s rtb0,
                                   sorted (dict_keys (indexes rtb0)
                                             ++ [right_column j])))).
    { intros r ->. destruct S1 as (A & B' & C). split; [exact A|].
      split; [exact B'|]. right. exists rtb. split; [reflexivity|].
      split; [|exact C]. unfold dict_mem. rewrite G. reflexivity. }
    apply R. rewrite table_at_spec.
    destruct (tget s1 (join_table j)); [|reflexivity].
    rewrite table_at_spec. destruct (tget s1 name); [|reflexivity].
    destruct (join_loop _ _ _ _ _ _ _); reflexivity.
Qed.

(** X18. [create_index] on a column that holds an unhashable value (a
    list) in some row of the table raises TypeError and leaves the table
    manager as it was: no index is added. *)
Theorem create_index_unhashable
        (s : t) (name column : string) (tb : table) :
  tget s name = Some tb ->
  dict_mem String.eqb (indexes tb) column = false ->
  Exists (fun a => hashable (key_of (store s) column a) = false) (rows tb) ->
  create_index name column s = Raise TypeError s.
Proof.
  intros Ht Hm Hx. unfold create_index. monad_unfold.
  rewrite table_at_spec, Ht, Hm.
  unfold _rebuild_index. monad_unfold. rewrite table_at_spec, Ht.
  destruct (build_index (store s) column (rows tb) []) as [idx|e] eqn:B.
  - exfalso. pose proof (build_index_hashable _ _ _ _ _ B) as F.
    apply Exists_exists in Hx. destruct Hx as (a & Ha & Hh).
    rewrite (proj1 (Forall_forall _ _) F a Ha) in Hh. discriminate.
  - pose proof (build_index_raises _ _ _ _ _ B) as ->. reflexivity.
Qed.

End TableProperties.

(** ** The file follows the state *)

Module FileFacts.
Import BTreeStorage Spec IndexFacts StorageFacts Invariant RowStore
       Preservation Preservation2 Preservation3 Preservation4 QueryFacts
       ViewFacts LoadFacts ReloadFacts Effects.

Lemma write_blob_page_size (p : Pager.t) (data : bytes) :
  Pager.page_size (state_of (Pager.write_blob data p)) = Pager.page_size p.
Proof.
  unfold Pager.write_blob. destruct data as [|b d].
  - rewrite (proj2 (proj2 (flush_pages _))). reflexivity.
  - cbn [Pager.page_size Pager.set_length].
    destruct (Pager.page_size p =? 0)%Z; [reflexivity|].
    rewrite (proj2 (proj2 (flush_pages _))). reflexivity.
Qed.

(** The state a returning [_persist] leaves is the state on the file. *)
Lemma persisted_durable requested s1 u s' :
  wf s' -> persistable s' -> _persist s1 = Ok u s' -> durable requested s'.
Proof.
  intros W [Hst (p' & Hp' & Hsz')] E.
  pose proof (persist_ok_state _ _ _ E) as Es.
  pose proof (persist_frame s1) as [FT FS]. rewrite <- Es in FT, FS.
  assert (W1 : wf s1) by (apply (wf_same_data s' s1); auto).
  assert (Hst1 : storable s1) by (unfold storable; rewrite <- FS; exact Hst).
  unfold _persist in E. destruct (_pager s1) as [p|] eqn:Hp.
  - unfold on_pager in E.
    destruct (Pager.write_blob (JSON.dumps (snapshot s1)) p) as [u0 q|] eqn:Ew;
      [|discriminate].
    assert (Eq : q = p').
    { injection E as _ <-. simpl in Hp'. congruence. }
    subst q. destruct u0.
    assert (Hsz : (0 < Pager.page_size p)%Z).
    { rewrite <- (write_blob_page_size p (JSON.dumps (snapshot s1))), Ew.
      exact Hsz'. }
    pose proof (PageFacts.write_blob_file p p' _ requested Hsz
                  (dumps_nonempty (snapshot s1)) Ew) as Ef.
    destruct (reload_view s1 p W1 Hst1 Hp Hsz) as (s2 & R & W2 & V).
    rewrite <- Es in R. unfold reload in R. rewrite Hp' in R.
    exists s2. unfold reopen, file_of. rewrite Hp', Ef, R.
    split; [reflexivity|]. split; [exact W2|].
    rewrite V. unfold view. rewrite FT, FS. reflexivity.
  - injection E as _ <-. congruence.
Qed.

Lemma settles_firm {A} requested (m : M t A) :
  (forall s r s', wf s -> m s = Ok r s' -> wf s') ->
  keeps persistable m -> settles m -> keeps (firm requested) m.
Proof.
  intros Hw Hp Hs s a s' (W & P & D) E.
  pose proof (Hw s a s' W E) as W'. pose proof (Hp s a s' P E) as P'.
  split; [exact W'|]. split; [exact P'|].
  destruct (Hs s a s' W E) as [(s1 & u & Ep) | [V Pg]].
  - exact (persisted_durable requested s1 u s' W' P' Ep).
  - destruct D as (s2 & R & W2 & V2). exists s2.
    unfold file_of in *. rewrite Pg, V. auto.
Qed.

(** *** What each operation does to the pager *)

Lemma same_view s s2 name tb tb' :
  wf s -> tget s name = Some tb ->
  updated s s2 name tb' (store s) ->
  rows tb' = rows tb -> columns tb' = columns tb ->
  dict_keys (indexes tb') = dict_keys (indexes tb) ->
  view s2 = view s.
Proof.
  intros W Ht U R C K.
  rewrite (view_updated s s2 name tb tb' (store s) W Ht U (fun _ _ _ => eq_refl)).
  unfold with_table, view_of. rewrite R, C, K.
  apply sset_same. rewrite view_get, Ht. reflexivity.
Qed.

Lemma filter_all {A} (f : A -> bool) (l : list A) :
  length (filter f l) = length l -> filter f l = l.
Proof.
  induction l as [|a l IH]; simpl; [reflexivity|].
  destruct (f a); simpl; intros H.
  - f_equal. apply IH. lia.
  - pose proof (filter_length_le f l). lia.
Qed.

Lemma settles_create_table name cols : settles (create_table name cols).
Proof.
  intros s a s' _ E. left. unfold create_table in E. monad_unfold.
  eexists. exists a. exact E.
Qed.

Lemma settles_drop_table name : settles (drop_table name).
Proof.
  intros s a s' _ E. left. unfold drop_table in E. monad_unfold.
  eexists. exists a. exact E.
Qed.

Lemma settles_add_column name column : settles (add_column name column).
Proof.
  intros s a s' _. unfold add_column. monad_unfold. rewrite table_at_spec.
  destruct (tget s name) as [tb|]; [|discriminate].
  destruct (str_in column (columns tb)).
  - intros E. injection E as _ <-. right. auto.
  - destruct (update_table _ _ s) as [u1 s1|]; [|discriminate].
    destruct (for_each (rows tb) _ s1) as [u2 s2|]; [|discriminate].
    destruct (for_each (dict_keys (indexes tb)) _ s2) as [u3 s3|];
      [|discriminate].
    intros E. left. exists s3, a. exact E.
Qed.

Lemma settles_create_index name column : settles (create_index name column).
Proof.
  intros s a s' _. unfold create_index. monad_unfold. rewrite table_at_spec.
  destruct (tget s name) as [tb|]; [|discriminate].
  destruct (dict_mem String.eqb (indexes tb) column).
  - intros E. injection E as _ <-. right. auto.
  - destruct (_rebuild_index name column s) as [u1 s1|]; [|discriminate].
    intros E. left. exists s1, a. exact E.
Qed.

Lemma settles_drop_index name column : settles (drop_index name column).
Proof.
  intros s a s' _. unfold drop_index.
  destruct (dict_get String.eqb (_tables s) name) as [tb|].
  - monad_unfold.
    destruct (update_table _ _ s) as [u1 s1|]; [|discriminate].
    intros E. left. exists s1, a. exact E.
  - intros E. injection E as _ <-. right. auto.
Qed.

Lemma settles_insert_row name values : settles (insert_row name values).
Proof.
  intros s a s' _. unfold insert_row. monad_unfold. rewrite table_at_spec.
  destruct (tget s name) as [tb|]; [|discriminate].
  destruct (update_table _ _ _) as [u1 s1|]; [|discriminate].
  destruct (for_each (indexes tb) _ s1) as [u2 s2|]; [|discriminate].
  destruct (_persist s2) as [u3 s3|] eqn:E3; [|discriminate].
  intros E. injection E as _ <-. left. exists s2, u3. exact E3.
Qed.

Lemma settles_update_rows name asg where_ :
  settles (update_rows name asg where_).
Proof.
  intros s a s' W. unfold update_rows. monad_unfold.
  destruct (_rows_for name where_ s) as [addrs s0|] eqn:E0; [|discriminate].
  pose proof (rows_for_frame _ _ _ _ _ E0) as ->.
  destruct addrs as [|a0 addrs].
  - rewrite for_each_nil. cbv beta iota. rewrite table_at_spec.
    destruct (tget s name) as [tb|] eqn:Ht; [|discriminate].
    destruct (for_each _ (fun c => _rebuild_index name c) s)
      as [u s2|] eqn:E2; [|discriminate].
    intros E. injection E as _ <-. right.
    destruct (rebuild_loop_keys name _ s u s2 _ Ht
                (fun c Hc => proj1 (proj1 (filter_In _ _ _) Hc)) E2)
      as (tb' & U2 & P2 & R2 & C2 & K2).
    split; [|exact P2].
    exact (same_view s s2 name tb tb' W Ht U2 R2 C2 K2).
  - destruct (for_each (a0 :: addrs) _ s) as [u1 s1|]; [|discriminate].
    rewrite table_at_spec.
    destruct (tget s1 name) as [tb|]; [|discriminate].
    destruct (for_each _ (fun c => _rebuild_index name c) s1)
      as [u s2|]; [|discriminate].
    destruct (_persist s2) as [u3 s3|] eqn:E3; [|discriminate].
    intros E. injection E as _ <-. left. exists s2, u3. exact E3.
Qed.

Lemma settles_delete_rows name where_ : settles (delete_rows name where_).
Proof.
  intros s a s' W. unfold delete_rows. monad_unfold. rewrite table_at_spec.
  destruct (tget s name) as [tb|] eqn:Ht; [|discriminate].
  set (kept_addrs := match where_ with
                     | Some w => filter _ (rows tb)
                     | None => []
                     end).
  destruct (update_table_spec name (set_rows kept_addrs) s tb Ht)
    as (s1 & E1 & U1 & P1).
  rewrite E1.
  destruct (for_each (dict_keys (indexes tb)) (fun c => _rebuild_index name c) s1)
    as [u s2|] eqn:E2; [|discriminate].
  destruct (Z.eqb_spec (Z.of_nat (length (rows tb)) - Z.of_nat (length kept_addrs)) 0)
    as [Hz|Hz].
  - intros E. injection E as _ <-. right.
    pose proof (updated_get_same _ _ _ _ _ U1) as Ht1.
    destruct (rebuild_loop_keys name _ s1 u s2 _ Ht1 (fun c Hc => Hc) E2)
      as (tb' & U2 & P2 & R2 & C2 & K2).
    simpl in R2, C2, K2.
    rewrite (upd_store _ _ _ _ _ U1) in U2.
    pose proof (updated_trans _ _ _ _ _ _ _ _ U1 U2) as U.
    assert (Hk : kept_addrs = rows tb).
    { unfold kept_addrs in *. destruct where_ as [w|].
      - apply filter_all. lia.
      - destruct (rows tb); [reflexivity | simpl in Hz; lia]. }
    split; [|congruence].
    apply (same_view s s2 name tb tb' W Ht U); congruence.
  - destruct (_persist s2) as [u3 s3|] eqn:E3; [|discriminate].
    intros E. injection E as _ <-. left. exists s2, u3. exact E3.
Qed.

Lemma settles_select_rows name cols where_ :
  settles (select_rows name cols where_ None).
Proof.
  intros s a s' _. unfold select_rows. monad_unfold.
  destruct (_rows_for name where_ s) as [addrs s0|] eqn:E0; [|discriminate].
  pose proof (rows_for_frame _ _ _ _ _ E0) as ->.
  destruct (is_wildcard cols); intros E; injection E as _ <-; right; auto.
Qed.

Lemma settles_map {A B} (m : M t A) (f : A -> B) :
  settles m -> settles (bind m (fun x => ret (f x))).
Proof.
  intros H s b s' W E. monad_unfold.
  destruct (m s) as [a s1|] eqn:Em; [|discriminate].
  injection E as _ <-. exact (H s a s1 W Em).
Qed.

(** *** The operations keep the file current *)

Lemma firm_create_table r name cols :
  keeps (firm r) (create_table name cols).
Proof.
  apply settles_firm.
  - intros s a s'. apply create_table_wf.
  - apply Persistable.keeps_create_table.
  - apply settles_create_table.
Qed.

Lemma firm_drop_table r name : keeps (firm r) (drop_table name).
Proof.
  apply settles_firm.
  - intros s a s'. apply drop_table_wf.
  - apply Persistable.keeps_drop_table.
  - apply settles_drop_table.
Qed.

Lemma firm_add_column r name column :
  keeps (firm r) (add_column name column).
Proof.
  apply settles_firm.
  - intros s a s'. apply add_column_wf.
  - apply Persistable.keeps_add_column.
  - apply settles_add_column.
Qed.

Lemma firm_create_index r name column :
  keeps (firm r) (create_index name column).
Proof.
  apply settles_firm.
  - intros s a s'. apply create_index_wf.
  - apply Persistable.keeps_create_index.
  - apply settles_create_index.
Qed.

Lemma firm_drop_index r name column :
  keeps (firm r) (drop_index name column).
Proof.
  apply settles_firm.
  - intros s a s'. apply drop_index_wf.
  - apply Persistable.keeps_drop_index.
  - apply settles_drop_index.
Qed.

Lemma firm_insert_row r name values :
  Forall (fun v => plain v = true) values ->
  keeps (firm r) (insert_row name values).
Proof.
  intros Hv. apply settles_firm.
  - intros s a s'. apply insert_row_wf.
  - apply Persistable.keeps_insert_row, Hv.
  - apply settles_insert_row.
Qed.

Lemma firm_update_rows r name asg where_ :
  Forall (fun kv => plain (snd kv) = true) asg ->
  keeps (firm r) (update_rows name asg where_).
Proof.
  intros Hv. apply settles_firm.
  - intros s a s'. apply update_rows_wf.
  - apply Persistable.keeps_update_rows, Hv.
  - apply settles_update_rows.
Qed.

Lemma firm_delete_rows r name where_ :
  keeps (firm r) (delete_rows name where_).
Proof.
  apply settles_firm.
  - intros s a s'. apply delete_rows_wf.
  - apply Persistable.keeps_delete_rows.
  - apply settles_delete_rows.
Qed.

Lemma firm_select_rows r name cols where_ :
  keeps (firm r) (select_rows name cols where_ None).
Proof.
  apply settles_firm.
  - intros s a s'. apply select_rows_wf.
  - apply Persistable.keeps_select_rows.
  - apply settles_select_rows.
Qed.

Lemma firm_get r : keeps (firm r) (@get t).
Proof. intros s a s' H E. injection E as _ <-. exact H. Qed.

Lemma firm_map {A B} r (m : M t A) (f : A -> B) :
  keeps (firm r) m -> keeps (firm r) (bind m (fun x => ret (f x))).
Proof.
  intros H s b s' F E. monad_unfold.
  destruct (m s) as [a s1|] eqn:Em; [|discriminate].
  injection E as _ <-. exact (H s a s1 F Em).
Qed.

Lemma firm_run_op r (o : operation) :
  no_join o -> plain_op o -> keeps (firm r) (run_op o).
Proof.
  destruct o; simpl; intros Hj Hp.
  - apply firm_create_table.
  - apply firm_drop_table.
  - apply firm_add_column.
  - apply firm_create_index.
  - apply firm_drop_index.
  - apply (firm_map r _ (fun _ => tt)), firm_insert_row, Hp.
  - apply (firm_map r _ (fun _ => tt)), firm_update_rows, Hp.
  - apply (firm_map r _ (fun _ => tt)), firm_delete_rows.
  - destruct join; [contradiction|].
    apply (firm_map r _ (fun _ => tt)), firm_select_rows.
Qed.

End FileFacts.

Module EngineFile.
Import SQLExecutor ExecSpec EngineFacts FileFacts.

Lemma new_database_firm : Spec.firm 4096 new_database.
Proof.
  destruct new_database_sound as [Ei [W P]].
  split; [exact W|]. split; [exact P|].
  exists new_database. split; [|split; [exact W | reflexivity]].
  unfold Spec.reopen, Spec.file_of, new_database. cbn [BTreeStorage._pager
    Spec.empty_manager Pager._file].
  change (Pager.init None 4096) with (Ok tt (Pager.mk 4096 [] 0 None)).
  cbv iota. rewrite Ei. reflexivity.
Qed.

Lemma firm_ensure name : kept (Spec.firm 4096) (_ensure_database name).
Proof.
  intros e a e' H E. unfold _ensure_database in E.
  destruct (dict_mem String.eqb (_databases e) name).
  - injection E as _ <-. exact H.
  - change (Pager.init None 4096) with (Ok tt (Pager.mk 4096 [] 0 None)) in E.
    cbv iota in E. rewrite (proj1 new_database_sound) in E.
    injection E as _ <-. intros n stn. simpl. rewrite sget_set.
    destruct (String.eqb name n).
    + intros X. injection X as <-. exact new_database_firm.
    + apply H.
Qed.

Ltac firm_step :=
  match goal with
  | |- kept _ (ret _) => apply kept_ret
  | |- kept _ (raise _) => apply kept_raise
  | |- kept _ (lift_result _) => apply kept_lift
  | |- kept _ get => apply kept_get
  | |- kept _ (modify (set_active _)) => apply kept_set_active
  | |- kept _ (_ensure_database _) => apply firm_ensure
  | |- kept _ (on_lsm _) => apply kept_on_lsm
  | |- kept _ (on_storage _ _) => apply kept_on_storage
  | |- kept _ (bind _ _) => apply kept_bind; [|intros ?]
  | |- kept _ (if ?b then _ else _) => destruct b
  | |- kept _ (match ?x with _ => _ end) => destruct x
  | |- Spec.keeps _ get => apply firm_get
  | |- Spec.keeps _ (BTreeStorage.create_table _ _) => apply firm_create_table
  | |- Spec.keeps _ (BTreeStorage.drop_table _) => apply firm_drop_table
  | |- Spec.keeps _ (BTreeStorage.add_column _ _) => apply firm_add_column
  | |- Spec.keeps _ (BTreeStorage.create_index _ _) => apply firm_create_index
  | |- Spec.keeps _ (BTreeStorage.drop_index _ _) => apply firm_drop_index
  | |- Spec.keeps _ (BTreeStorage.delete_rows _ _) => apply firm_delete_rows
  | |- Spec.keeps _ (BTreeStorage.select_rows _ _ _ None) =>
      apply firm_select_rows
  | |- context [bind (BTreeStorage._rows_for ?n ?w) _] =>
      match goal with
      | |- context [is_wildcard ?c] => exact (firm_select_rows 4096 n c w)
      end
  | |- Spec.keeps _ (BTreeStorage.insert_row _ _) =>
      apply firm_insert_row; assumption
  | |- Spec.keeps _ (BTreeStorage.update_rows _ _ _) =>
      apply firm_update_rows; assumption
  end.

Lemma firm_execute (p : ParsedCommand) :
  plain_details (cmd_details p) -> joinless_details (cmd_details p) ->
  kept (Spec.firm 4096) (execute p).
Proof.
  unfold execute, execute_statement.
  generalize (command p) (raw p). intros cmd rw.
  destruct (cmd_details p) as [| | | | | | | | |? ? ? [j|]];
    simpl; intros Hp Hj; try contradiction; repeat firm_step.
Qed.

Lemma firm_query (q : string) :
  plain_query q -> joinless_query q ->
  kept (Spec.firm 4096) (DatabaseEngine.execute q).
Proof.
  unfold plain_query, joinless_query, DatabaseEngine.execute. intros Hp Hj.
  destruct (SQLParser.parse q) as [p|x].
  - intros e a e' H E. unfold bind, lift_result in E.
    exact (firm_execute p Hp Hj e a e' H E).
  - intros e a e' H E. discriminate.
Qed.

Lemma firm_queries (queries : list string) :
  Forall plain_query queries -> Forall joinless_query queries ->
  kept (Spec.firm 4096) (run_queries queries).
Proof.
  unfold run_queries. intros Hp. induction Hp as [|q queries Hq Hqs IH]; simpl.
  - intros _. apply kept_ret.
  - intros Hj. inversion Hj as [|? ? Hj1 Hj2]; subst.
    apply kept_bind; [|intros _; exact (IH Hj2)].
    apply kept_bind; [apply firm_query; assumption | intros ?; apply kept_ret].
Qed.

Lemma fresh_firm :
  all_databases (Spec.firm 4096) (state_of DatabaseEngine.fresh).
Proof.
  assert (K : kept (Spec.firm 4096)
                (bind (_ensure_database "default")
                      (fun _ => modify (set_active "default")))).
  { apply kept_bind; [apply firm_ensure | intros _; apply kept_set_active]. }
  unfold DatabaseEngine.fresh.
  destruct (bind (_ensure_database "default")
                 (fun _ => modify (set_active "default"))
                 (mk LSMTreeStorage.init [] "default")) as [u e|x e] eqn:E.
  - apply (K (mk LSMTreeStorage.init [] "default") u e); [|exact E].
    intros n st G. discriminate.
  - vm_compute in E. discriminate.
Qed.

End EngineFile.

Section FileProperties.
Import BTreeStorage Spec.

(** X19. The pager file follows the table manager.  On a table manager
    that is well formed, holds values without a tuple inside, has a pager
    of positive page size and whose file is current, an operation other
    than a SELECT with a JOIN that is handed values without a tuple inside
    and returns leaves the file current: a new table manager over a new
    pager on that file (of any requested page size) loads, and shows the
    tables, columns, rows in order and index names of the state the
    operation left, so that [describe] answers the same on both. *)
Theorem returning_operation_is_on_file
        (requested : Z) (o : operation) (s s' : t) (r : unit) :
  no_join o -> plain_op o ->
  wf s -> persistable s -> durable requested s ->
  run_op o s = Ok r s' ->
  exists s2,
    reopen requested (file_of s') = Val s2
    /\ view s2 = view s'
    /\ describe s2 = describe s'.
Proof.
  intros Hj Hp W P D E.
  destruct (FileFacts.firm_run_op requested o Hj Hp s r s'
              (conj W (conj P D)) E) as (_ & _ & (s2 & R & _ & V)).
  exists s2. split; [exact R|]. split; [exact V|].
  rewrite !ViewFacts.describe_by_view, V. reflexivity.
Qed.

End FileProperties.

Section EngineFileProperties.
Import SQLExecutor ExecSpec.

(** X20. After queries run one after the other through a new engine, all
    returning, none a SELECT with a JOIN and none handing a tuple to the
    table manager, the file of every database is current: a new table
    manager over a new pager of 4096-byte pages on the file, which is what
    the executor builds for a database file it finds when it starts, loads
    and shows the tables, columns, rows and index names of the database. *)
Theorem database_files_are_current
        (queries : list string) (e : t) (name : string)
        (st : BTreeStorage.t) :
  Forall plain_query queries -> Forall joinless_query queries ->
  run_queries queries (state_of DatabaseEngine.fresh) = Ok tt e ->
  dict_get String.eqb (_databases e) name = Some st ->
  exists st2,
    Spec.reopen 4096 (Spec.file_of st) = Val st2
    /\ Spec.view st2 = Spec.view st
    /\ BTreeStorage.describe st2 = BTreeStorage.describe st.
Proof.
  intros Hp Hj E G.
  destruct (EngineFile.firm_queries queries Hp Hj _ tt e
              EngineFile.fresh_firm E name st G) as (_ & _ & (s2 & R & _ & V)).
  exists s2. split; [exact R|]. split; [exact V|].
  rewrite !ViewFacts.describe_by_view, V. reflexivity.
Qed.

End EngineFileProperties.

(** ** The executor: what every statement keeps *)

Module Steady.
Import SQLExecutor ExecSpec ExecutorFacts.

(** *** The building blocks of [execute] *)

Section Generic.
Variable J : t -> Prop.

Lemma always_ret {A} (a : A) : always J (ret a).
Proof. intros e H. exact H. Qed.

Lemma always_raise {A} x : always J (@raise t A x).
Proof. intros e H. exact H. Qed.

Lemma always_lift {A} (r : result A) : always J (lift_result r).
Proof. intros e H. unfold lift_result. destruct r; exact H. Qed.

Lemma always_get : always J (@get t).
Proof. intros e H. exact H. Qed.

Lemma always_bind {A B} (m : M t A) (k : A -> M t B) :
  always J m -> (forall a, always J (k a)) -> always J (bind m k).
Proof.
  intros Hm Hk e H. unfold bind. specialize (Hm e H).
  destruct (m e) as [a e1|x e1]; simpl in *.
  - apply Hk, Hm.
  - exact Hm.
Qed.
End Generic.

(** Databases are never removed. *)

Lemma has_on_storage {A} n name (m : M BTreeStorage.t A) :
  always (has_database n) (on_storage name m).
Proof.
  intros e H. unfold on_storage.
  destruct (dict_get String.eqb (_databases e) name); [|exact H].
  destruct (m t0); simpl; apply mem_set, H.
Qed.

Lemma has_on_lsm {A} n (m : M LSMTreeStorage.t A) :
  always (has_database n) (on_lsm m).
Proof. intros e H. unfold has_database. rewrite databases_on_lsm. exact H. Qed.

Lemma has_ensure n name : always (has_database n) (_ensure_database name).
Proof. intros e H. exact (proj2 (quiet_ensure name e) n H). Qed.

Lemma has_set_active n name : always (has_database n) (modify (set_active name)).
Proof. intros e H. exact H. Qed.

(** The active database stays one of the databases. *)

Lemma ok_on_storage {A} name (m : M BTreeStorage.t A) :
  always active_ok (on_storage name m).
Proof.
  intros e H. unfold active_ok. rewrite (active_on_storage name m e).
  apply (has_on_storage (_active_db e) name m e H).
Qed.

Lemma ok_on_lsm {A} (m : M LSMTreeStorage.t A) : always active_ok (on_lsm m).
Proof.
  intros e H. unfold active_ok. rewrite (active_on_lsm m e).
  apply (has_on_lsm (_active_db e) m e H).
Qed.

(** One database is left as it is. *)

Lemma holds_on_storage {A} n st name (m : M BTreeStorage.t A) :
  name <> n -> always (holds n st) (on_storage name m).
Proof.
  intros Hne e H. unfold on_storage, holds in *.
  destruct (dict_get String.eqb (_databases e) name); [|exact H].
  destruct (m t0); simpl; rewrite sget_set_other by exact Hne; exact H.
Qed.

Lemma holds_on_lsm {A} n st (m : M LSMTreeStorage.t A) :
  always (holds n st) (on_lsm m).
Proof. intros e H. unfold holds. rewrite databases_on_lsm. exact H. Qed.

Lemma holds_ensure n st name : always (holds n st) (_ensure_database name).
Proof.
  intros e H. unfold _ensure_database, holds in *.
  destruct (dict_mem String.eqb (_databases e) name) eqn:M; [exact H|].
  destruct (Pager.init None 4096); [|exact H].
  destruct (BTreeStorage.init (Some s)); [|exact H].
  simpl. rewrite sget_set_other; [exact H|].
  intros ->. unfold dict_mem in M. rewrite H in M. discriminate.
Qed.

Lemma holds_set_active n st name : always (holds n st) (modify (set_active name)).
Proof. intros e H. exact H. Qed.

Ltac always_solve :=
  repeat first
    [ apply always_ret | apply always_raise | apply always_lift
    | apply always_get
    | apply has_on_storage | apply has_on_lsm | apply has_ensure
    | apply has_set_active
    | apply ok_on_storage | apply ok_on_lsm
    | apply holds_on_lsm | apply holds_ensure | apply holds_set_active
    | (apply holds_on_storage; assumption)
    | apply always_bind; [|intros ?]
    | match goal with
      | |- always _ (if ?b then _ else _) => destruct b
      | |- always _ (match ?x with _ => _ end) => destruct x
      end ].

(** *** Statements *)



Lemma statement_holds n st p active storage :
  active <> n -> always (holds n st) (execute_statement p active storage).
Proof.
  intros Hne. unfold execute_statement.
  generalize (command p) (raw p). intros cmd rw.
  destruct (cmd_details p); simpl; always_solve.
Qed.


Lemma execute_holds n st p e :
  _active_db e <> n -> holds n st e -> holds n st (state_of (execute p e)).
Proof.
  intros Hne H. unfold execute.
  destruct (String.eqb (command p) "EMPTY"); [exact H|].
  destruct (String.eqb (command p) "CREATE_DATABASE").
  { revert e Hne H. intros e _. revert e.
    change (always (holds n st)
              (bind (lift_result (details_name (cmd_details p))) (fun name =>
               bind (_ensure_database name) (fun _ =>
               bind (modify (set_active name)) (fun _ =>
                 ret ["Database " ++ quoted name ++ " ready."]%string))))).
    always_solve. }
  destruct (String.eqb (command p) "ALTER_DATABASE").
  { revert e Hne H. intros e _. revert e.
    change (always (holds n st)
              (bind (lift_result (details_name (cmd_details p))) (fun name =>
               bind (_ensure_database name) (fun _ =>
               bind (modify (set_active name)) (fun _ =>
                 ret ["Using database " ++ quoted name ++ "."]%string))))).
    always_solve. }
  destruct (String.eqb (command p) "USE_DATABASE").
  { unfold bind, get, lift_result, modify, ret.
    destruct (details_name (cmd_details p)); [|exact H].
    destruct (negb (dict_mem String.eqb (_databases e) a)); exact H. }
  unfold bind at 1, get.
  generalize (statement_holds n st p (_active_db e)).
  generalize (execute_statement p (_active_db e)). intros stmt Hs.
  specialize (fun storage => Hs storage Hne).
  revert H.
  match goal with
  | |- holds n st e -> holds n st (state_of (?m e)) =>
      change (holds n st e -> holds n st (state_of (m e)));
      apply (fun A : always (holds n st) m => A e)
  end.
  generalize (command p). intros cmd.
  destruct (cmd_details p); simpl; always_solve; apply Hs.
Qed.


(** *** Reading the active database *)

Lemma on_storage_get (e : t) (st : BTreeStorage.t) :
  dict_get String.eqb (_databases e) (_active_db e) = Some st ->
  on_storage (_active_db e) get e = Ok st e.
Proof.
  intros G. unfold on_storage, get. rewrite G.
  rewrite (sset_same _ _ _ G), set_databases_same. reflexivity.
Qed.

Lemma not_database_level (cmd : string) :
  database_level cmd = false ->
  String.eqb cmd "EMPTY" = false
  /\ String.eqb cmd "CREATE_DATABASE" = false
  /\ String.eqb cmd "ALTER_DATABASE" = false
  /\ String.eqb cmd "USE_DATABASE" = false.
Proof.
  unfold database_level. intros H.
  apply orb_false_iff in H. destruct H as [H H4].
  apply orb_false_iff in H. destruct H as [H H3].
  apply orb_false_iff in H. destruct H as [H1 H2]. auto.
Qed.

End Steady.

Section ExecutorProperties.

Import SQLExecutor ExecSpec ExecutorFacts Steady.

(** X21. A statement other than CREATE TABLE that names a table the
    active database does not have answers the single line
    "Table '<name>' not found." and changes nothing: not the databases, not
    the log, not the active database. *)
Theorem unknown_table_reported (e : t) (p : ParsedCommand) :
  database_level (command p) = false ->
  command p <> "CREATE_TABLE"%string ->
  table_missing p e = true ->
  exists tname,
    details_table (cmd_details p) = Some tname
    /\ execute p e = Ok [("Table " ++ quoted tname ++ " not found.")%string] e.
Proof.
  intros Hd Hc Hm. unfold table_missing in Hm.
  destruct (details_table (cmd_details p)) as [tname|] eqn:Ht; [|discriminate].
  destruct (dict_get String.eqb (_databases e) (_active_db e)) as [st|] eqn:G;
    [|discriminate].
  exists tname. split; [reflexivity|].
  destruct (not_database_level _ Hd) as (E1 & E2 & E3 & E4).
  unfold execute. rewrite E1, E2, E3, E4, (eqb_false_of_neq _ _ Hc).
  unfold bind at 1. unfold get at 1. unfold bind at 1.
  rewrite (on_storage_get e st G), Ht, Hm. reflexivity.
Qed.

(** X22. CREATE TABLE on a table the active database has answers
    "Table '<name>' already exists." and changes nothing (the table keeps its
    columns and rows); on a new table it creates the table in the active
    database and answers "Table '<name>' created.". *)
Theorem create_table_statement
        (e : t) (p : ParsedCommand) (tname : string)
        (cols : list (string * string)) (st : BTreeStorage.t) :
  command p = "CREATE_TABLE"%string ->
  cmd_details p = DCreateTable tname cols ->
  dict_get String.eqb (_databases e) (_active_db e) = Some st ->
  (BTreeStorage.table_exists st tname = true ->
   execute p e = Ok [("Table " ++ quoted tname ++ " already exists.")%string] e)
  /\ (BTreeStorage.table_exists st tname = false ->
      forall st',
        BTreeStorage.create_table tname (map fst cols) st = Ok tt st' ->
        execute p e
        = Ok [("Table " ++ quoted tname ++ " created.")%string]
             (set_databases
                (dict_set String.eqb (_databases e) (_active_db e) st') e)).
Proof.
  intros Ec Ed G.
  assert (X : execute p e
              = if BTreeStorage.table_exists st tname
                then Ok [("Table " ++ quoted tname ++ " already exists.")%string] e
                else bind (on_storage (_active_db e)
                             (BTreeStorage.create_table tname (map fst cols)))
                          (fun _ => ret [("Table " ++ quoted tname
                                            ++ " created.")%string]) e).
  { unfold execute. rewrite Ec, Ed.
    change (String.eqb "CREATE_TABLE" "EMPTY") with false.
    change (String.eqb "CREATE_TABLE" "CREATE_DATABASE") with false.
    change (String.eqb "CREATE_TABLE" "ALTER_DATABASE") with false.
    change (String.eqb "CREATE_TABLE" "USE_DATABASE") with false.
    change (String.eqb "CREATE_TABLE" "CREATE_TABLE") with true.
    cbv iota. unfold bind at 1. unfold get at 1. unfold bind at 1.
    rewrite (on_storage_get e st G).
    destruct (BTreeStorage.table_exists st tname); reflexivity. }
  split.
  - intros Hx. rewrite X, Hx. reflexivity.
  - intros Hx st' Hc. rewrite X, Hx. unfold bind, on_storage. rewrite G, Hc.
    reflexivity.
Qed.

(** X23. CREATE DATABASE and ALTER DATABASE make the named database
    active; a database of that name that exists keeps its tables (it is not
    created again), otherwise an empty one is added behind the others.  USE
    of an existing database only makes it active.  None of them touches the
    log or another database. *)
Theorem database_switch (e : t) (p : ParsedCommand) (name : string) :
  cmd_details p = DName name ->
  let known := dict_mem String.eqb (_databases e) name in
  let e' :=
    mk (_lsm e)
       (if known then _databases e else _databases e ++ [(name, new_database)])
       name in
  (command p = "CREATE_DATABASE"%string ->
   execute p e = Ok [("Database " ++ quoted name ++ " ready.")%string] e')
  /\ (command p = "ALTER_DATABASE"%string ->
      execute p e = Ok [("Using database " ++ quoted name ++ ".")%string] e')
  /\ (command p = "USE_DATABASE"%string -> known = true ->
      execute p e = Ok [("Using database " ++ quoted name ++ ".")%string] e').
Proof.
  intros Ed known e'.
  assert (En : forall line : list string,
             bind (_ensure_database name)
                  (fun _ => bind (modify (set_active name)) (fun _ => ret line)) e
             = Ok line e').
  { intros line. unfold bind, _ensure_database, modify, ret, e', known.
    destruct (dict_mem String.eqb (_databases e) name) eqn:M; [reflexivity|].
    change (Pager.init None 4096) with (Ok tt (Pager.mk 4096 [] 0 None)).
    cbv iota. rewrite (proj1 EngineFacts.new_database_sound).
    unfold set_active, set_databases. simpl. f_equal. f_equal.
    apply LoadFacts.sset_new. unfold dict_mem in M.
    destruct (dict_get String.eqb (_databases e) name); [discriminate|reflexivity]. }
  repeat split.
  - intros Ec. unfold execute. rewrite Ec, Ed.
    change (String.eqb "CREATE_DATABASE" "EMPTY") with false.
    change (String.eqb "CREATE_DATABASE" "CREATE_DATABASE") with true.
    cbv iota. unfold bind at 1, lift_result, details_name. apply En.
  - intros Ec. unfold execute. rewrite Ec, Ed.
    change (String.eqb "ALTER_DATABASE" "EMPTY") with false.
    change (String.eqb "ALTER_DATABASE" "CREATE_DATABASE") with false.
    change (String.eqb "ALTER_DATABASE" "ALTER_DATABASE") with true.
    cbv iota. unfold bind at 1, lift_result, details_name. apply En.
  - intros Ec Hk. unfold execute. rewrite Ec, Ed.
    change (String.eqb "USE_DATABASE" "EMPTY") with false.
    change (String.eqb "USE_DATABASE" "CREATE_DATABASE") with false.
    change (String.eqb "USE_DATABASE" "ALTER_DATABASE") with false.
    change (String.eqb "USE_DATABASE" "USE_DATABASE") with true.
    cbv iota. unfold bind, get, lift_result, details_name, modify, ret.
    cbv beta iota. unfold known in Hk. unfold e', known. rewrite Hk. reflexivity.
Qed.


(** X25. A query changes no database but the active one: whatever the
    query, and whether it returns or raises, every other database of the
    executor is afterwards the table manager it was. *)
Theorem other_databases_untouched
        (e : t) (query : string) (n : string) (st : BTreeStorage.t) :
  n <> _active_db e ->
  dict_get String.eqb (_databases e) n = Some st ->
  dict_get String.eqb (_databases (state_of (DatabaseEngine.execute query e))) n
  = Some st.
Proof.
  intros Hne H. unfold DatabaseEngine.execute, bind, lift_result.
  destruct (SQLParser.parse query) as [p|x]; [|exact H].
  apply (execute_holds n st p e); [congruence | exact H].
Qed.

End ExecutorProperties.

(** ** The parser: what every parsed command looks like *)

Module ParserFacts.
Import SQLParser ParserSpec.

(** *** Lower case *)

Lemma to_lower_not_upper (c : ascii) : Py.is_upper (Py.to_lower c) = false.
Proof.
  unfold Py.to_lower. destruct (Py.is_upper c) eqn:E; [|exact E].
  unfold Py.is_upper, code in *.
  apply andb_true_iff in E. destruct E as [E1 E2].
  apply Nat.leb_le in E1. apply Nat.leb_le in E2.
  rewrite nat_ascii_embedding by lia.
  apply andb_false_iff. right. apply Nat.leb_gt. lia.
Qed.

Lemma lower_str_lowered (s : text) : lowered (lower_str s).
Proof.
  unfold lowered, lower_str, txt, str, Py.lower.
  rewrite list_ascii_of_string_of_list_ascii.
  apply forallb_forall. intros c Hc. apply in_map_iff in Hc.
  destruct Hc as (x & <- & _). rewrite to_lower_not_upper. reflexivity.
Qed.

Lemma dict_set_lowered {V} (d : dict string V) (k : string) (v : V) :
  lowered k -> Forall (fun kv => lowered (fst kv)) d ->
  Forall (fun kv => lowered (fst kv)) (dict_set String.eqb d k v).
Proof.
  intros Hk. induction 1 as [|[k0 v0] d H0 Hd IH]; simpl.
  - repeat constructor. exact Hk.
  - destruct (String.eqb k0 k); constructor; auto.
Qed.

(** *** The parts of a statement *)

Lemma condition_lowered (clause : text) (c : condition) :
  _parse_condition clause = Val c -> lowered (cond_column c).
Proof.
  unfold _parse_condition.
  destruct (Py.split1 ["="%char] clause) as [|column [|value [|]]];
    try discriminate.
  destruct (_parse_literal (Py.strip value)); cbn [rbind fst snd]; [|discriminate].
  intros H. injection H as <-. apply lower_str_lowered.
Qed.

Lemma where_lowered (part : option text) (w : option condition) :
  where_of part = Val w -> lowered_where w.
Proof.
  unfold where_of. destruct part as [[|c clause]|].
  - intros H. injection H as <-. exact I.
  - destruct (_parse_condition (c :: clause)) as [cnd|] eqn:E; cbn [rbind fst snd];
      [|discriminate].
    intros H. injection H as <-. exact (condition_lowered _ _ E).
  - intros H. injection H as <-. exact I.
Qed.

Lemma assignments_lowered (chunks : list text) :
  forall acc asg,
    parse_assignments chunks acc = Val asg ->
    Forall (fun kv => lowered (fst kv)) acc ->
    Forall (fun kv => lowered (fst kv)) asg.
Proof.
  induction chunks as [|chunk chunks IH]; simpl; intros acc asg H Hacc.
  - injection H as <-. exact Hacc.
  - destruct (Py.split1 ["="%char] chunk) as [|column [|value [|]]];
      try discriminate.
    destruct (_parse_literal (Py.strip value)) as [v|]; cbn [rbind fst snd] in H;
      [|discriminate].
    apply (IH _ _ H). apply dict_set_lowered; [apply lower_str_lowered | exact Hacc].
Qed.

Lemma insert_good (t : text) (d : details) :
  _parse_insert t = Val d -> good "INSERT" d.
Proof.
  unfold _parse_insert.
  destruct (Re.match_ INSERT_RE t) as [[caps rest]|].
  - destruct (Re.group caps "values"); [|discriminate].
    destruct (Re.group caps "table"); [|discriminate].
    destruct (_parse_value_list t0); cbn [rbind fst snd]; [|discriminate].
    intros H. injection H as <-. split; [reflexivity | apply lower_str_lowered].
  - intros H. injection H as <-. split; [reflexivity | exact I].
Qed.

Lemma update_good (t : text) (d : details) :
  _parse_update t = Val d -> good "UPDATE" d.
Proof.
  unfold _parse_update.
  destruct (prefix_and_where t) as [[prefix part]|]; cbn [rbind fst snd]; [|discriminate].
  destruct (Py.item (Py.split_ws prefix) 1) as [tname|]; cbn [rbind fst snd]; [|discriminate].
  destruct (Py.item (Py.split1 (txt " SET ") prefix) 1) as [set_clause|]; cbn [rbind fst snd];
    [|discriminate].
  destruct (parse_assignments (Py.split_char ","%char set_clause) [])
    as [asg|] eqn:Ea; cbn [rbind fst snd]; [|discriminate].
  destruct (where_of part) as [w|] eqn:Ew; cbn [rbind fst snd]; [|discriminate].
  intros H. injection H as <-. split; [reflexivity|].
  split; [apply lower_str_lowered|]. split.
  - apply (assignments_lowered _ _ _ Ea). constructor.
  - exact (where_lowered _ _ Ew).
Qed.

Lemma delete_good (t : text) (d : details) :
  _parse_delete t = Val d -> good "DELETE" d.
Proof.
  unfold _parse_delete.
  destruct (prefix_and_where t) as [[prefix part]|]; cbn [rbind fst snd]; [|discriminate].
  destruct (Py.item (Py.split_ws prefix) 2) as [tname|]; cbn [rbind fst snd]; [|discriminate].
  destruct (where_of part) as [w|] eqn:Ew; cbn [rbind fst snd]; [|discriminate].
  intros H. injection H as <-. split; [reflexivity|].
  split; [apply lower_str_lowered | exact (where_lowered _ _ Ew)].
Qed.

Lemma select_good (t : text) (d : details) :
  _parse_select t = Val d -> good "SELECT" d.
Proof.
  unfold _parse_select.
  destruct (Re.match_ _SELECT_RE t) as [[caps rest]|].
  - destruct (Re.group caps "cols"); [|discriminate].
    destruct (Re.group caps "table"); [|discriminate].
    set (w := match Re.group caps "where_col", Re.group caps "where_val" with
              | Some c, Some v => _
              | _, _ => _
              end).
    assert (Hw : forall x, w = Val x -> lowered_where x).
    { unfold w. intros x.
      destruct (Re.group caps "where_col") as [c|];
        [|intros H; injection H as <-; exact I].
      destruct (Re.group caps "where_val") as [v|];
        [|intros H; injection H as <-; exact I].
      destruct (_parse_literal v); cbn [rbind fst snd]; [|discriminate].
      intros H. injection H as <-. apply lower_str_lowered. }
    destruct w as [x|]; cbn [rbind fst snd]; [|discriminate].
    intros H. injection H as <-. split; [reflexivity|].
    split; [apply lower_str_lowered|]. split; [apply Hw; reflexivity|].
    destruct (Re.group caps "join_table"); [|exact I].
    destruct (Re.group caps "left_table"); [|exact I].
    destruct (Re.group caps "left_col"); [|exact I].
    destruct (Re.group caps "right_table"); [|exact I].
    destruct (Re.group caps "right_col"); [|exact I].
    simpl. repeat split; apply lower_str_lowered.
  - intros H. injection H as <-. split; [reflexivity | exact I].
Qed.

Lemma create_table_good (t : text) (d : details) :
  _parse_create_table t = Val d -> good "CREATE_TABLE" d.
Proof.
  unfold _parse_create_table.
  destruct (Py.split1 ["("%char] t) as [|header [|cols [|]]]; try discriminate.
  destruct (Py.item (Py.split_ws header) 2) as [tname|]; cbn [rbind fst snd]; [|discriminate].
  intros H. injection H as <-. split; [reflexivity|].
  split; [apply lower_str_lowered|].
  apply Forall_forall. intros c Hc. apply in_flat_map in Hc.
  destruct Hc as (chunk & _ & Hc).
  destruct (Py.split_ws (Py.strip chunk)) as [|name [|col_type rest]];
    simpl in Hc; try tauto;
    destruct Hc as [<-|[]]; apply lower_str_lowered.
Qed.

Lemma alter_table_good (t : text) (d : details) :
  _parse_alter_table t = Val d -> good "ALTER_TABLE" d.
Proof.
  unfold _parse_alter_table.
  destruct (Py.item (Py.split_ws t) 2) as [tname|]; cbn [rbind fst snd]; [|discriminate].
  assert (E : Val DEmpty = Val d -> good "ALTER_TABLE" d).
  { intros H. injection H as <-. split; [reflexivity | exact I]. }
  destruct (Py.split_ws t) as [|a [|b [|c [|add [|column [|name [|col_type rest]]]]]]];
    try exact E.
  destruct (_ && _); [|exact E].
  intros H. injection H as <-. split; [reflexivity|].
  split; apply lower_str_lowered.
Qed.

Lemma two_word_good (command second : string) (t : text) (tokens : list text)
      (r : result (string * details)) (cd : string * details) :
  two_word command second t tokens = Some r -> r = Val cd ->
  good (fst cd) (snd cd).
Proof.
  unfold two_word.
  assert (N : forall (i : nat) (k : string -> details) (c : string),
             (forall x, good c (k (lower_str x))) ->
             rbind (rbind (Py.item tokens i) (fun x => Val (k (lower_str x))))
                   (fun d => Val (c, d)) = Val cd ->
             good (fst cd) (snd cd)).
  { intros i k c Hk. destruct (Py.item tokens i); cbn [rbind fst snd]; [|discriminate].
    intros H. injection H as <-. apply Hk. }
  assert (X : forall (c : string),
             (forall a b, good c (DIndex (lower_str a) (lower_str b))) ->
             rbind (rbind (Py.item tokens 2) (fun tb =>
                    rbind (Py.item tokens 3) (fun col =>
                      Val (DIndex (lower_str tb) (lower_str col)))))
                   (fun d => Val (c, d)) = Val cd ->
             good (fst cd) (snd cd)).
  { intros c Hk. destruct (Py.item tokens 2); cbn [rbind fst snd]; [|discriminate].
    destruct (Py.item tokens 3); cbn [rbind fst snd]; [|discriminate].
    intros H. injection H as <-. apply Hk. }
  assert (S : forall (c : string) (p : result details),
             (forall d, p = Val d -> good c d) ->
             rbind p (fun d => Val (c, d)) = Val cd -> good (fst cd) (snd cd)).
  { intros c p Hp. destruct p as [d|]; cbn [rbind fst snd]; [|discriminate].
    intros H. injection H as <-. apply Hp. reflexivity. }
  destruct (_ && _).
  { intros H ->. injection H as H. revert H. apply N.
    intros x. split; [reflexivity | apply lower_str_lowered]. }
  destruct (_ && _).
  { intros H ->. injection H as H. revert H. apply N.
    intros x. split; [reflexivity | apply lower_str_lowered]. }
  destruct (_ && _).
  { intros H ->. injection H as H. revert H. apply S.
    intros d. apply create_table_good. }
  destruct (_ && _).
  { intros H ->. injection H as H. revert H. apply S.
    intros d. apply alter_table_good. }
  destruct (_ && _).
  { intros H ->. injection H as H. revert H. apply N.
    intros x. split; [reflexivity | apply lower_str_lowered]. }
  destruct (_ && _).
  { intros H ->. injection H as H. revert H. apply X.
    intros a b. split; [reflexivity | split; apply lower_str_lowered]. }
  destruct (_ && _); [|discriminate].
  intros H ->. injection H as H. revert H. apply X.
  intros a b. split; [reflexivity | split; apply lower_str_lowered].
Qed.

(** *** Blank text *)

Lemma lstrip_all (p : ascii -> bool) (s : text) :
  forallb p s = true -> Py.lstrip_with p s = [].
Proof.
  induction s as [|c s IH]; simpl; [reflexivity|].
  intros H. apply andb_true_iff in H. destruct H as [-> H]. auto.
Qed.

Lemma strip_blank (s : text) :
  forallb blank s = true -> Py.strip s = [] /\ Py.is_ascii s = true.
Proof.
  intros H. split.
  - unfold Py.strip, Py.strip_with. rewrite lstrip_all; [reflexivity|].
    apply forallb_forall. intros c Hc.
    pose proof (proj1 (forallb_forall _ _) H c Hc) as B.
    unfold blank in B. apply andb_true_iff in B. tauto.
  - unfold Py.is_ascii. apply forallb_forall. intros c Hc.
    pose proof (proj1 (forallb_forall _ _) H c Hc) as B.
    unfold blank in B. apply andb_true_iff in B. tauto.
Qed.

End ParserFacts.

Section ParserProperties.

Import SQLParser ParserSpec ParserFacts.

(** X26. A query made of blank characters only (spaces, tabs, line
    breaks), or of none at all, parses to the command EMPTY with empty raw
    text, no tokens and no details. *)
Theorem blank_query_is_empty (query : string) :
  forallb blank (txt query) = true ->
  parse query = Val (mk_command "EMPTY" EmptyString [] DEmpty).
Proof.
  intros H. destruct (strip_blank _ H) as [S A].
  unfold parse. rewrite A, S. reflexivity.
Qed.

(** X27. Whenever [parse] returns, the command carries the query without
    the blanks around it as its raw text and, unless it is EMPTY, the words
    of the statement (without the semicolons at its end) as its tokens; and
    its details have the shape of its kind: a database statement has a name,
    CREATE TABLE a table and columns, DROP TABLE a table, the index
    statements a table and a column, UPDATE and DELETE their table and
    clause, while ALTER TABLE, INSERT and SELECT have their keys or, when
    the statement does not match, none; COMMIT, EMPTY and UNKNOWN have
    none. *)
Theorem parsed_command_shape (query : string) (p : ParsedCommand) :
  parse query = Val p ->
  raw p = str (Py.strip (txt query))
  /\ (command p = "EMPTY"%string
      \/ tokens p
         = map str (Py.split_ws (Py.rstrip_char ";"%char (Py.strip (txt query)))))
  /\ shape_ok (command p) (cmd_details p) = true.
Proof.
  unfold parse.
  destruct (negb (Py.is_ascii (txt query))); [discriminate|].
  destruct (Py.strip (txt query)) as [|c0 raw0] eqn:Er.
  { intros H. injection H as <-. simpl. auto. }
  set (t := Py.rstrip_char ";"%char (c0 :: raw0)).
  set (tks := Py.split_ws t).
  destruct (Py.item tks 0) as [first|]; simpl rbind; [|discriminate].
  assert (F : forall cd, shape_ok (fst cd) (snd cd) = true ->
                Val (mk_command (fst cd) (str (c0 :: raw0)) (map str tks) (snd cd))
                = Val p ->
                raw p = str (c0 :: raw0)
                /\ (command p = "EMPTY"%string \/ tokens p = map str tks)
                /\ shape_ok (command p) (cmd_details p) = true).
  { intros cd Hs H. injection H as <-. simpl. auto. }
  assert (R : forall (cmd : string) (r : result details),
             (forall d, r = Val d -> good cmd d) ->
             rbind r (fun d => Val (mk_command cmd (str (c0 :: raw0))
                                               (map str tks) d)) = Val p ->
             raw p = str (c0 :: raw0)
             /\ (command p = "EMPTY"%string \/ tokens p = map str tks)
             /\ shape_ok (command p) (cmd_details p) = true).
  { intros cmd r Hr. destruct r as [d|]; cbn [rbind fst snd]; [|discriminate].
    apply (F (cmd, d)). apply (Hr d eq_refl). }
  destruct (String.eqb_spec (upper_str first) "COMMIT") as [E|_].
  { rewrite E. apply (F ("COMMIT"%string, DEmpty)). reflexivity. }
  destruct (String.eqb_spec (upper_str first) "USE") as [E|_].
  { destruct tks as [|a [|name rest]];
      [apply (F ("UNKNOWN"%string, DEmpty)); reflexivity
      |apply (F ("UNKNOWN"%string, DEmpty)); reflexivity
      |apply (F ("USE_DATABASE"%string, DName (lower_str name))); reflexivity]. }
  destruct (String.eqb_spec (upper_str first) "INSERT") as [E|_].
  { rewrite E. apply R. apply insert_good. }
  destruct (String.eqb_spec (upper_str first) "UPDATE") as [E|_].
  { rewrite E. apply R. apply update_good. }
  destruct (String.eqb_spec (upper_str first) "DELETE") as [E|_].
  { rewrite E. apply R. apply delete_good. }
  destruct (String.eqb_spec (upper_str first) "SELECT") as [E|_].
  { rewrite E. apply R. apply select_good. }
  destruct tks as [|a [|second rest]] eqn:Et;
    try (apply (F ("UNKNOWN"%string, DEmpty)); reflexivity).
  destruct (two_word (upper_str first) (upper_str second) t (a :: second :: rest))
    as [r|] eqn:E2; [|apply (F ("UNKNOWN"%string, DEmpty)); reflexivity].
  destruct r as [cd|]; cbn [rbind fst snd]; [|discriminate].
  apply (F cd). exact (proj1 (two_word_good _ _ _ _ _ cd E2 eq_refl)).
Qed.

(** X28. Whenever [parse] returns, every name of a database, of a table
    and of a column in the details of the command is in lower case: the
    names of CREATE, ALTER, DROP and USE, the columns of CREATE TABLE and of
    the index statements, the assigned columns of UPDATE, the column of a
    WHERE clause and the tables and columns of a JOIN.  (The column list of
    a SELECT is kept as it was written.) *)
Theorem parsed_names_are_lower_case (query : string) (p : ParsedCommand) :
  parse query = Val p -> lowered_details (cmd_details p).
Proof.
  unfold parse.
  destruct (negb (Py.is_ascii (txt query))); [discriminate|].
  destruct (Py.strip (txt query)) as [|c0 raw0] eqn:Er.
  { intros H. injection H as <-. exact I. }
  set (t := Py.rstrip_char ";"%char (c0 :: raw0)).
  set (tks := Py.split_ws t).
  destruct (Py.item tks 0) as [first|]; simpl rbind; [|discriminate].
  assert (F : forall cd, lowered_details (snd cd) ->
                Val (mk_command (fst cd) (str (c0 :: raw0)) (map str tks) (snd cd))
                = Val p ->
                lowered_details (cmd_details p)).
  { intros cd Hs H. injection H as <-. exact Hs. }
  assert (R : forall (cmd kind : string) (r : result details),
             (forall d, r = Val d -> good kind d) ->
             rbind r (fun d => Val (mk_command cmd (str (c0 :: raw0))
                                               (map str tks) d)) = Val p ->
             lowered_details (cmd_details p)).
  { intros cmd kind r Hr. destruct r as [d|]; cbn [rbind fst snd]; [|discriminate].
    apply (F (cmd, d)). apply (Hr d eq_refl). }
  destruct (String.eqb (upper_str first) "COMMIT").
  { apply (F (upper_str first, DEmpty)). exact I. }
  destruct (String.eqb (upper_str first) "USE").
  { destruct tks as [|a [|name rest]];
      [apply (F ("UNKNOWN"%string, DEmpty)); exact I
      |apply (F ("UNKNOWN"%string, DEmpty)); exact I
      |apply (F ("USE_DATABASE"%string, DName (lower_str name)));
       apply lower_str_lowered]. }
  destruct (String.eqb (upper_str first) "INSERT").
  { apply (R _ "INSERT"%string). apply insert_good. }
  destruct (String.eqb (upper_str first) "UPDATE").
  { apply (R _ "UPDATE"%string). apply update_good. }
  destruct (String.eqb (upper_str first) "DELETE").
  { apply (R _ "DELETE"%string). apply delete_good. }
  destruct (String.eqb (upper_str first) "SELECT").
  { apply (R _ "SELECT"%string). apply select_good. }
  destruct tks as [|a [|second rest]] eqn:Et;
    try (apply (F ("UNKNOWN"%string, DEmpty)); exact I).
  destruct (two_word (upper_str first) (upper_str second) t (a :: second :: rest))
    as [r|] eqn:E2; [|apply (F ("UNKNOWN"%string, DEmpty)); exact I].
  destruct r as [cd|]; cbn [rbind fst snd]; [|discriminate].
  apply (F cd). exact (proj2 (two_word_good _ _ _ _ _ cd E2 eq_refl)).
Qed.

End ParserProperties.

Section PropertySamples.

Import BTreeStorage Spec.

(** ** The properties, on the sample pager, shop and engine *)

Lemma write_page_then_read_sample :
Pager.read_page 2 (state_of (Pager.write_page 2 Sample.payload Sample.pager))
= Val (Sample.payload ++ repeat x00 57).
Proof.
exact (proj1 (write_page_then_read Sample.pager 2 Sample.payload
                ltac:(simpl; lia) ltac:(simpl; lia))).
Defined.

Lemma write_page_elsewhere_sample :
Pager.read_page 1 (state_of (Pager.write_page 2 Sample.payload Sample.pager))
= Val (Pager.zero_page Sample.pager).
Proof.
exact (write_page_elsewhere Sample.pager 2 1 Sample.payload
         ltac:(simpl; lia) ltac:(lia) ltac:(lia) ltac:(lia)).
Defined.

Lemma allocate_page_fresh_sample :
exists p',
  Pager.allocate_page Sample.pager = Ok 0%Z p'
  /\ Pager.read_page 0 p' = Val (repeat x00 64)
  /\ Pager._file p' = None.
Proof.
destruct (allocate_page_fresh Sample.pager ltac:(simpl; lia))
  as (p' & A & R & _ & _ & F & _).
exists p'. split; [exact A|]. split; [exact R | exact F].
Defined.

Lemma write_blob_page_count_sample :
Pager.stats (state_of (Pager.write_blob Sample.payload Sample.pager))
= (1%Z, 64%Z).
Proof.
exact (proj1 (write_blob_page_count Sample.pager Sample.payload
                ltac:(simpl; lia))).
Defined.

Lemma reopened_pager_reads_blob_sample :
exists q,
  Pager.init
    (Pager._file (state_of (Pager.write_blob Sample.payload Sample.pager)))
    4096 = Ok tt q
  /\ Pager.read_blob q = Sample.payload
  /\ Pager.page_size q = 64%Z.
Proof.
destruct (reopened_pager_reads_blob Sample.pager
            (state_of (Pager.write_blob Sample.payload Sample.pager))
            Sample.payload 4096 ltac:(simpl; lia) eq_refl)
  as (q & I & R & Q).
exists q. split; [exact I|]. split; [exact R|].
rewrite (Q ltac:(discriminate)). reflexivity.
Defined.

Lemma missing_table_raises_sample :
select_rows "nope" ["*"%string] None None Sample.shop
= Raise (KeyError "nope") Sample.shop.
Proof.
destruct (missing_table_raises Sample.shop "nope" eq_refl)
  as (_ & _ & _ & _ & _ & S & _).
apply S.
Defined.

Lemma create_then_drop_sample :
table_exists (state_of (create_table "carts" ["cid"%string] Sample.shop))
             "carts" = true
/\ view (state_of (drop_table "carts"
                     (state_of (create_table "carts" ["cid"%string] Sample.shop))))
   = view Sample.shop.
Proof.
destruct (create_then_drop Sample.shop "carts" ["cid"%string] (proj1 shop_ok))
  as (E & _ & _ & _ & _ & V).
split; [exact E|]. apply V. vm_compute. reflexivity.
Defined.

Lemma insert_then_select_sample :
answer (select_rows "users" ["*"%string] None None
          (state_of (insert_row "users" [VInt 3; VStr "Cy"] Sample.shop)))
= Val (rows_of Sample.shop Sample.users
       ++ [[("id"%string, VInt 3); ("name"%string, VStr "Cy")]]).
Proof.
assert (Hu : tget Sample.shop "users" = Some Sample.users)
  by (vm_compute; reflexivity).
assert (E : insert_row "users" [VInt 3; VStr "Cy"] Sample.shop
            = Ok 5 (state_of (insert_row "users" [VInt 3; VStr "Cy"] Sample.shop)))
  by (vm_compute; reflexivity).
destruct (insert_then_select Sample.shop "users" [VInt 3; VStr "Cy"] 5 _
            Sample.users (proj1 shop_ok) Hu E) as (_ & S & _).
rewrite S. vm_compute. reflexivity.
Defined.

Lemma delete_then_select_sample :
answer (select_rows "users" ["*"%string] (Some Sample.by_id) None
          (state_of (delete_rows "users" (Some Sample.by_id) Sample.shop)))
= Val [].
Proof.
assert (Hu : tget Sample.shop "users" = Some Sample.users)
  by (vm_compute; reflexivity).
assert (E : delete_rows "users" (Some Sample.by_id) Sample.shop
            = Ok 1%Z (state_of (delete_rows "users" (Some Sample.by_id) Sample.shop)))
  by (vm_compute; reflexivity).
destruct (delete_then_select Sample.shop "users" (Some Sample.by_id) 1 _
            Sample.users (proj1 shop_ok) Hu E) as (_ & _ & _ & S).
exact (S Sample.by_id eq_refl eq_refl).
Defined.

Lemma shop_rows_are_dicts : rows_are_dicts Sample.shop.
Proof.
unfold rows_are_dicts.
apply (Forall_impl _ (fun r (H : storable_row r) => proj1 H)).
exact (proj1 (proj2 shop_ok)).
Qed.

Lemma update_then_select_sample :
exists n s',
  update_rows "users" [("name"%string, VStr "Di")] (Some Sample.by_id)
              Sample.shop = Ok n s'
  /\ n = 1%Z
  /\ answer (select_rows "users" ["name"%string] None None s')
     = Val [[("name"%string, VStr "Di")]; [("name"%string, VStr "Bo")]].
Proof.
assert (Hu : tget Sample.shop "users" = Some Sample.users)
  by (vm_compute; reflexivity).
assert (E : update_rows "users" [("name"%string, VStr "Di")]
                        (Some Sample.by_id) Sample.shop
            = Ok 1%Z (state_of (update_rows "users" [("name"%string, VStr "Di")]
                                            (Some Sample.by_id) Sample.shop)))
  by (vm_compute; reflexivity).
destruct (update_then_select Sample.shop "users" [("name"%string, VStr "Di")]
            (Some Sample.by_id) 1 _ Sample.users (proj1 shop_ok)
            shop_rows_are_dicts Hu E) as (_ & N & _).
eexists. eexists. split; [exact E|]. split; [reflexivity|].
vm_compute. reflexivity.
Defined.

Lemma add_column_effect_sample :
answer (select_rows "users" ["*"%string] None None
          (state_of (add_column "users" "age" Sample.shop)))
= Val (map (fun r => dict_set String.eqb r "age"%string VNone)
           (rows_of Sample.shop Sample.users)).
Proof.
assert (Hu : tget Sample.shop "users" = Some Sample.users)
  by (vm_compute; reflexivity).
assert (E : add_column "users" "age" Sample.shop
            = Ok tt (state_of (add_column "users" "age" Sample.shop)))
  by (vm_compute; reflexivity).
destruct (add_column_effect Sample.shop "users" "age" _ Sample.users
            (proj1 shop_ok) Hu E) as (_ & N).
destruct (N eq_refl) as (_ & S & _). exact S.
Defined.

Lemma index_ddl_effect_sample :
view (state_of (drop_index "users" "id" Sample.shop))
= with_table Sample.shop "users"
    (columns Sample.users, rows_of Sample.shop Sample.users, []).
Proof.
assert (Hu : tget Sample.shop "users" = Some Sample.users)
  by (vm_compute; reflexivity).
assert (E : drop_index "users" "id" Sample.shop
            = Ok tt (state_of (drop_index "users" "id" Sample.shop)))
  by (vm_compute; reflexivity).
destruct (index_ddl_effect Sample.shop "users" "id" Sample.users
            (proj1 shop_ok) Hu) as (_ & D).
destruct (D _ E) as (V & _). rewrite V. vm_compute. reflexivity.
Defined.


Lemma join_may_add_index_sample :
store (state_of (select_rows "users" ["*"%string] None (Some Sample.on_user)
                             Sample.shop))
= store Sample.shop
/\ _pager (state_of (select_rows "users" ["*"%string] None (Some Sample.on_user)
                                 Sample.shop))
   = _pager Sample.shop.
Proof.
destruct (join_may_add_index Sample.shop "users" ["*"%string] None
            Sample.on_user (proj1 shop_ok)) as (S & P & _).
split; [exact S | exact P].
Defined.

Lemma create_index_unhashable_sample :
create_index "orders" "note" Sample.shop = Raise TypeError Sample.shop.
Proof.
apply (create_index_unhashable Sample.shop "orders" "note" Sample.orders).
- vm_compute. reflexivity.
- vm_compute. reflexivity.
- apply Exists_exists. exists 2. split.
  + vm_compute. left. reflexivity.
  + vm_compute. reflexivity.
Defined.

Lemma returning_operation_is_on_file_sample :
exists s2,
  reopen 4096
         (file_of (state_of (run_op (OpCreateTable "users" ["id"; "name"]%string)
                                    (empty_manager Sample.pager))))
  = Val s2
  /\ view s2 = [("users"%string, (["id"; "name"]%string, [], []))].
Proof.
destruct (returning_operation_is_on_file 4096
            (OpCreateTable "users" ["id"; "name"]%string)
            (empty_manager Sample.pager)
            (state_of (run_op (OpCreateTable "users" ["id"; "name"]%string)
                              (empty_manager Sample.pager)))
            tt I I
            (proj1 (empty_manager_ok Sample.pager eq_refl))
            (proj2 (empty_manager_ok Sample.pager eq_refl)))
  as (s2 & R & V & _).
- exists (empty_manager (Pager.mk 4096 [] 0 None)).
  split; [reflexivity|]. split; [apply Invariant.wf_empty | reflexivity].
- vm_compute. reflexivity.
- exists s2. split; [exact R|]. rewrite V. vm_compute. reflexivity.
Defined.

Import SQLExecutor ExecSpec.

Lemma database_files_are_current_sample :
exists st2,
  Spec.reopen 4096
    (Spec.file_of
       (database_of
          (state_of (run_queries
                       [ "CREATE TABLE users (id INT, name TEXT)";
                         "INSERT INTO users VALUES (1, 'Ann')";
                         "DELETE FROM users WHERE id=7" ]%string
                       (state_of DatabaseEngine.fresh)))
          "default"))
  = Val st2
  /\ BTreeStorage.describe st2
     = [("users"%string, (["id"; "name"]%string, 1%Z, []))].
Proof.
destruct (database_files_are_current
            [ "CREATE TABLE users (id INT, name TEXT)";
              "INSERT INTO users VALUES (1, 'Ann')";
              "DELETE FROM users WHERE id=7" ]%string
            (state_of (run_queries
                         [ "CREATE TABLE users (id INT, name TEXT)";
                           "INSERT INTO users VALUES (1, 'Ann')";
                           "DELETE FROM users WHERE id=7" ]%string
                         (state_of DatabaseEngine.fresh)))
            "default"
            (database_of
               (state_of (run_queries
                            [ "CREATE TABLE users (id INT, name TEXT)";
                              "INSERT INTO users VALUES (1, 'Ann')";
                              "DELETE FROM users WHERE id=7" ]%string
                            (state_of DatabaseEngine.fresh)))
               "default"))
  as (st2 & R & _ & D).
- repeat (apply Forall_cons; [vm_compute; repeat constructor|]).
  apply Forall_nil.
- repeat (apply Forall_cons; [vm_compute; exact I|]).
  apply Forall_nil.
- vm_compute. reflexivity.
- vm_compute. reflexivity.
- exists st2. split; [exact R|]. rewrite D. vm_compute. reflexivity.
Defined.

Lemma unknown_table_reported_sample :
execute (Sample.parsed "SELECT * FROM nope") Sample.engine
= Ok ["Table 'nope' not found."%string] Sample.engine.
Proof.
destruct (unknown_table_reported Sample.engine
            (Sample.parsed "SELECT * FROM nope"))
  as (tname & T & E).
- vm_compute. reflexivity.
- vm_compute. discriminate.
- vm_compute. reflexivity.
- rewrite E. vm_compute in T. injection T as <-. reflexivity.
Defined.

Lemma create_table_statement_sample :
execute (Sample.parsed "CREATE TABLE users (id INT, name TEXT)")
        (run Sample.statements Sample.engine)
= Ok ["Table 'users' already exists."%string]
     (run Sample.statements Sample.engine).
Proof.
destruct (create_table_statement (run Sample.statements Sample.engine)
            (Sample.parsed "CREATE TABLE users (id INT, name TEXT)")
            "users" [("id", "INT"); ("name", "TEXT")]%string
            (database_of (run Sample.statements Sample.engine) "default"))
  as (A & _).
- vm_compute. reflexivity.
- vm_compute. reflexivity.
- vm_compute. reflexivity.
- apply A. vm_compute. reflexivity.
Defined.

Lemma database_switch_sample :
execute (Sample.parsed "CREATE DATABASE archive") Sample.engine
= Ok ["Database 'archive' ready."%string]
     (mk (_lsm Sample.engine)
         (_databases Sample.engine ++ [("archive"%string, new_database)])
         "archive").
Proof.
destruct (database_switch Sample.engine
            (Sample.parsed "CREATE DATABASE archive") "archive" eq_refl)
  as (C & _).
exact (C eq_refl).
Defined.

Lemma other_databases_untouched_sample :
dict_get String.eqb
  (_databases
     (state_of (DatabaseEngine.execute "CREATE TABLE log (line TEXT)"
                  (state_of (DatabaseEngine.execute "CREATE DATABASE archive"
                               Sample.engine)))))
  "default"%string
= Some new_database.
Proof.
apply other_databases_untouched.
- vm_compute. discriminate.
- vm_compute. reflexivity.
Defined.

Import SQLParser ParserSpec.

Lemma blank_query_is_empty_sample :
parse "   " = Val (mk_command "EMPTY" EmptyString [] DEmpty).
Proof. exact (blank_query_is_empty "   " eq_refl). Defined.

Lemma parsed_command_shape_sample :
raw (Sample.parsed "  select * from Users;  ") = "select * from Users;"%string
/\ shape_ok (command (Sample.parsed "  select * from Users;  "))
            (cmd_details (Sample.parsed "  select * from Users;  ")) = true.
Proof.
destruct (parsed_command_shape "  select * from Users;  "
            (Sample.parsed "  select * from Users;  "))
  as (R & _ & S).
- vm_compute. reflexivity.
- split; [|exact S]. rewrite R. vm_compute. reflexivity.
Defined.

Lemma parsed_names_are_lower_case_sample :
lowered_details
  (cmd_details (Sample.parsed "UPDATE Users SET Name='Bo' WHERE ID=2")).
Proof.
apply (parsed_names_are_lower_case "UPDATE Users SET Name='Bo' WHERE ID=2").
vm_compute. reflexivity.
Defined.

End PropertySamples.
